(* ===== verification/_CoqProject ===== *)
-Q . S2P
Prelude.v
Fnv.v
ShardCfg.v
ShardCfgSpec.v
LabRpc.v
Wire.v
NetRpc.v
NetSpec.v
LabGob.v
LabGobSpec.v
Demux.v
SockRpc.v
DemuxSpec.v
SockSrv.v
Persister.v
Group.v
GroupStart.v
GroupSpec.v
Clnts.v
ClntsSpec.v
MapReduce.v
MapReduceSpec.v
Models.v
Texts.v
KvTest.v
KvDoc.v
KvService.v
KvAppend.v
KvPut.v
KvPutSpec.v
KvSpawn.v
KvSpec.v
KvSpawnSpec.v
LockTest.v
LockTestSpec.v
RaftTest.v
RaftSpec.v
RaftOne.v
RaftRestart.v
Annotation.v
AnnotationSpec.v
KvCheck.v
KvCheckSpec.v
Config.v
ConfigInv.v
ConfigSpec.v
ConfigReach.v
Testers.v
RsmGroup.v
TestersSpec.v
Daemon.v
DaemonSpec.v
DaemonInit.v
DaemonProc.v
Proxy.v
ProxySpec.v
RsmTest.v
RsmTestSpec.v
MrTest.v
MrTestSpec.v
MrCount.v
MrRun.v
MrRunSpec.v
MrLab.v
ShardTest.v
ShardTestSpec.v
ShardDown.v
ShardDownSpec.v
ShardConcur.v
ShardConcurSpec.v
ShardPart.v
ShardPartSpec.v
RaftLab.v
KvSrvLab.v
KvRaftLab.v
ShardLab.v
LabSpec.v
KvTesters.v
KvTestersSpec.v
Cmds.v
