(* ===== verification/Prelude.v ===== *)
(** * The 6.5840 labs: a verification of the programs around the labs

    The repository holds the labs of a course on distributed systems: skeletons of
    MapReduce, a key/value server, Raft, a replicated state machine and a sharded
    key/value service, and around them the programs that run and judge a solution.  Most
    of the skeletons have empty bodies and are modelled as they are; the programs around
    them are complete, and they are the core of this development:

    - a simulated network that carries RPCs between clients and servers (labrpc), with
      gob encoding and its checks (labgob);
    - a tester (tester1) that runs every server in a process of its own (a daemon),
      starts, stops and partitions them, saves their persistent state, and forwards
      their RPCs through the simulated network; the processes talk over sockets
      (tester1/demux, tester1/sockrpc);
    - the test libraries for key/value services (kvtest1, models1, kvsrv1, kvraft1), for
      Raft (raft1), for replicated state machines (kvraft1/rsm) and for the sharded
      service (shardkv1), which drive a solution and check what it does;
    - the shard configurations (shardkv1/shardcfg) that the sharded service keeps;
    - sequential MapReduce, its applications, and the programs that test a distributed
      MapReduce (main, mrapps, mr).

    The theorems say that this infrastructure does its job: it delivers what it should
    and no more, it restores what was saved, and its checks accept every correct run
    (no false alarm) and, where that can be said, reject the others; in particular they
    reject the skeletons.

    ** Files

    Prelude.v has the outcomes of Go code (the type [res]: a result, or how the program
    stopped), loops over lists that may stop, slices, maps with a zero value, [range]
    over a map in an unknown order ([range_order]), fixed-width integers, sums.

    - Fnv.v, ShardCfg.v, ShardCfgSpec.v: shardcfg.go, with the FNV hash of Key2Shard
      and of mr/worker.go.  A configuration is a record; Join, Leave and Rebalance are
      functions, the order of a [range] is an argument of each.
    - LabRpc.v: the registry of the network (ends, servers, connections, settings) and
      the dispatch of a request to a method.  NetRpc.v: the goroutine of a request
      (processReq) as a step relation, interleaved with every change of the registry;
      Call and Forward.  NetSpec.v: the theorems.
    - Wire.v: gob as the class [Codec] with its law, and the frames of transport.go.
    - LabGob.v, LabGobSpec.v: the walks over types and values in labgob.go, on graphs
      that may be cyclic, with fuel.
    - Demux.v: callers, reader goroutines and serving goroutines on one connection, as a
      step relation; SockRpc.v: RPCs on top of it, and dialling.  DemuxSpec.v.
      SockSrv.v: how a connection begins and ends, and the loop that accepts connections.
    - Persister.v: persister.go on a store of shared buffers.  Group.v, GroupStart.v:
      group.go and srv.go on the network of LabRpc.v; GroupSpec.v.
    - Clnts.v, ClntsSpec.v: clnts.go, and a call of a client in the network.
      Config.v: config.go and the map of groups;
      ConfigInv.v: the invariant of everything a test holds (groups, clients, network)
      and that each operation keeps it; ConfigSpec.v.  ConfigReach.v: that clients and
      groups do not disturb each other.  Texts.v: random names and messages.
    - Daemon.v, DaemonSpec.v: the command line of a daemon and the forwarding of its
      RPCs; DaemonInit.v: how a daemon, its handlers and the tester meet when it starts,
      as a step relation, and the handlers on the persister.  DaemonProc.v: a daemon and
      its tester wired up: ends, clients, servers and the names of their sockets.
    - Proxy.v, ProxySpec.v: the stubs with which the processes of a test call each
      other (raft1/proxy.go, kvraft1/rsm/proxy.go, tester1/annotator.go), and the
      handlers they reach.
    - Annotation.v, AnnotationSpec.v: annotation.go.
    - Models.v: the model for the linearizability checker (models1/kv.go); KvDoc.v: the
      documented key/value server, and what the model says of it.  KvTest.v,
      KvCheck.v, KvCheckSpec.v: helpers of kvtest1.  KvService.v: what a clerk and its
      service promise, as classes.  KvAppend.v, KvPut.v: the concurrent clients as step
      relations; KvSpawn.v: spawning them and waiting for them, over a class of client
      functions; KvPutSpec.v, KvSpec.v, KvSpawnSpec.v: whole tests.  LockTest.v,
      LockTestSpec.v: the lock test as another class of client functions.  KvTesters.v,
      KvTestersSpec.v: the tests of the key/value servers with their groups and clerks.
    - ShardTest.v, ShardTestSpec.v: the groups of the sharded tests (shardkv1/test.go),
      with the controller as a class.  ShardDown.v, ShardDownSpec.v: reading while a
      group is down.  ShardConcur.v, ShardConcurSpec.v: controllers that compete.  ShardPart.v, ShardPartSpec.v: a controller that is cut off,
      and the one that recovers its work.
    - RaftTest.v, RaftSpec.v: what the Raft tester knows and checks; RaftOne.v: [one] and
      [wait] in a world that changes while they run; RaftRestart.v: servers with
      snapshots that die and start again.  RsmTest.v, RsmTestSpec.v: the same for the
      replicated state machine.  Testers.v, RsmGroup.v, TestersSpec.v: both testers on
      their group, killing and restarting servers and making proxies for them.
    - MapReduce.v, MapReduceSpec.v: mrsequential.go and applications.  MrTest.v,
      MrTestSpec.v: mr/util.go on a file system; MrCount.v: the applications that count
      jobs and parallel workers, the latter as processes that share a directory.
      MrRun.v, MrRunSpec.v: runMRchan, the processes it starts and the goroutines of the
      tests, as a step relation.
    - RaftLab.v, KvSrvLab.v, KvRaftLab.v, ShardLab.v, MrLab.v: the skeletons, as instances
      of the classes over which the tests are modelled; LabSpec.v: the tests on them.
    - Cmds.v: the command-line programs of main.

    ** What the theorems show

    - Shard configurations (C1, C2, C5 to C7, C9): Rebalance ends, balances, and moves as
      few shards as any balanced assignment needs; JoinBalance and LeaveBalance succeed and CheckConfig accepts
      every configuration they lead to; every key is routed.
    - Network (C12 to C14): a call that returns true was executed; at most one execution
      and one reply; every call returns.
    - Sockets (C18 to C20): frames arrive whole and in order; replies match calls; no
      call is stranded.
    - Tester (C3, C21, C22, C24 to C26, C37): forwarding through daemons and the stubs
      between processes are transparent, up to lost messages; what a client can reach
      depends only on what was done to this client (for tests that do not narrow a client
      with ConnectTo, which does not do it); saved state is isolated from later writes, by
      those who saved it and by those who read it; when the tester goes on, a daemon's
      services are there; a restarted server has its state; Cleanup leaves no process
      running whatever the test did in between.
    - KV tests (C4, C8, C10, C29, C33): SpawnClientsAndWait can always return and returns
      the clients' results; the model of the checker accepts the documented server but
      for one answer; the append and put tests raise no false alarm for any number
      of clients and any service as documented; partitioning a history by key is sound
      and complete.
    - Lock test (C15, C28): when no client has failed, an iteration whose puts succeeded
      had the key for itself, for any lock whatsoever; and the test accepts every lock that
      excludes.
    - Raft and RSM tests (C17, C32, C35, C36, C39): the tester and its servers stay in
      step through kills and restarts; [one] ends, whatever the servers answer (also the
      index -1 of the skeleton), and returns only what it saw agreed;
      the appliers report an error exactly when servers disagree or skip; with
      snapshots, crashes and restarts, and in the basic test of the state machine, there
      is no false alarm.
    - Sharded tests (C27, C34, C38): the groups that run and the shard configuration stay
      in step; competing controllers do not confuse the test; the test that data is
      sharded judges rightly and leaves the group as it found it.  A controller that is cut off
      in the middle of a change does not raise a false alarm either, if the change had
      begun (ShardPartSpec.v, which also has a run in which it had not).
    - MapReduce (C11, C23, C30, C31): mrsequential groups by key; the tests accept exactly
      the right output; a crashed worker is always replaced; the test of early exits
      looks at the output only when it should (and fails when there is none to merge).
    - Skeletons (C16): the tests reject them.
    - Visualisation (C40): the fault track shows the faults in force, as a history of the
      calls that is kept apart from the code says them.

    Other theorems of the files are not numbered: among them what a refused Join leaves
    (ShardCfgSpec.v), that the walks of labgob end and count exactly (LabGobSpec.v), that
    connections get the names of their clients (SockSrv.v), that an RPC returns what
    dispatch returned (DemuxSpec.v), that a client's calls are executed only where it may
    call (ClntsSpec.v), that clerks reach only the servers they were made for
    (KvTestersSpec.v), the counting of parallel workers (MrCount.v), that the command line
    of diskvd is read as it was written (Cmds.v), and that a daemon and its tester find
    each other's sockets (DaemonProc.v).

    ** Bounds and fuel

    Integers have the width of the code where it matters: tags (32 bits), versions (64),
    hashes (32), numbers of configurations, counters.  Loops that are not structural
    have fuel, and the theorem about each shows that its fuel is enough: Rebalance
    (the sum of the loads bounds the moves), the walks of labgob (one more than the number
    of types; three levels of values), [one] (2 s in steps of 20 ms, 10 s in steps of
    50 ms), onePartition (10 s in rounds of at least 50 ms).  PutAtLeastOnce has the number
    of tries as fuel, because a clerk may answer ErrMaybe for ever, and the main function
    of the coordinator the number of polls.  Step relations have no bounds: they hold for
    any number of servers, clients, calls and steps.

    ** Parameters

    Code outside the repository is a parameter with its documented behaviour as a law:
    gob and JSON (round trips), the commands find, sort and cmp, the linearizability
    checker, random numbers, clocks, the order of a [range] and of an unstable sort, the
    starting of processes, sockets.  So are the bodies that the labs leave to the student,
    where a theorem is about solutions: Raft (the class [Raft] of Proxy.v, the world of
    RaftOne.v, the events of RaftRestart.v), the servers, clerks and locks (KvService.v,
    LockTest.v), the controllers (ShardTest.v; ShardConcur.v lets a configuration that
    was passed to ChangeConfigTo take effect at once, late or never), and what clerks
    answer while a group is down (ShardDown.v).  The controller of the repository is a
    skeleton that does not obey the laws of ShardTest.v (C16): C27 and C34 say for which
    controllers they hold.

    The operating system's answers when a daemon is started, called or killed are the
    argument [env] of Group.v.  The theorems on runs of a tester (C17, C21, C26, C27, C34,
    C37, C38) take an [env] where processes start, answer and are killed as they are told
    to, because the tester ends with log.Fatalf otherwise, or goes on without the server.
    They restart only servers that are down, as srv.go asks: the process of a
    server that is started twice is lost (start_twice_leaks in ConfigSpec.v).

    ** Not modelled

    Log output and the texts of annotations outside annotation.go do not influence the
    functions that produce them.  The measurement behind MemSize, the delivery of signals,
    the time limits of processes, the seeds of random numbers and the operating system's
    part of sockets and processes belong to the run-time system.  Durations are arguments
    where the code compares them and nondeterminism where it sleeps.  The packages
    that diskvd, lockc, lockd, pbc, pbd and viewd call are not in the repository. *)

From stdpp Require Export base gmap strings list sorting numbers.
From Stdlib Require Export Strings.Byte.
From Stdlib Require Import Lia.

(** ** Notation scope and outcomes of Go code *)

Declare Scope go_scope.
Delimit Scope go_scope with go.
Open Scope Z_scope.

(** How a Go computation stops other than by returning: [log.Fatalf] exits the
    process, [Panic] is a run-time panic (index out of range, nil dereference),
    [FailNow] is [testing.T.Fatalf], which ends the test goroutine.  [OutOfFuel]
    is no outcome of the code: a definition of a loop by fuel returns it when
    the fuel runs out, and the theorems about such a loop show that it does not. *)
Inductive fault :=
| LogFatal
| Panic
| FailNow
| OutOfFuel.

Global Instance fault_eq_dec : EqDecision fault.
Proof. solve_decision. Defined.

(** The result of a Go call that may stop the program. *)
Inductive res (A : Type) :=
| Ret (a : A)
| Stop (f : fault).
Arguments Ret {A} _.
Arguments Stop {A} _.

(** Sequencing: the rest of the code runs only if the call returns. *)
Definition rbind {A B} (m : res A) (f : A → res B) : res B :=
  match m with Ret a => f a | Stop e => Stop e end.

Notation "'let*' x := e 'in' k" := (rbind e (λ x, k))
  (at level 200, x binder, e at level 200, k at level 200, right associativity) : go_scope.
Notation "'let*' ' p := e 'in' k" := (rbind e (λ x, match x with p => k end))
  (at level 200, p pattern, e at level 200, k at level 200, right associativity) : go_scope.
Open Scope go_scope.

Lemma rbind_assoc {A B C} (m : res A) (f : A → res B) (g : B → res C) :
  rbind (rbind m f) g = rbind m (λ a, rbind (f a) g).
Proof. by destruct m. Qed.

Lemma rbind_Ret_inv {A B} (m : res A) (f : A → res B) b :
  rbind m f = Ret b ↔ ∃ a, m = Ret a ∧ f a = Ret b.
Proof. destruct m as [a|e]; simpl; naive_solver. Qed.

Global Instance res_eq_dec {A} `{EqDecision A} : EqDecision (res A).
Proof. solve_decision. Defined.

Global Instance Ret_inj {A} : Inj (=) (=) (@Ret A).
Proof. by intros ?? [=]. Qed.

(** Execution of a loop body over a list of iterations, stopping at a fault. *)
Fixpoint res_fold {A S} (f : S → A → res S) (s : S) (l : list A) : res S :=
  match l with
  | [] => Ret s
  | x :: l => let* s' := f s x in res_fold f s' l
  end.

(** ** Machine integers *)

Definition two31 : Z := 2147483648.
Definition two32 : Z := 4294967296.
Definition two63 : Z := 9223372036854775808.
Definition two64 : Z := 18446744073709551616.

(** [uint32] and [uint64] arithmetic wraps modulo the width. *)
Definition u32 (z : Z) : Z := z mod two32.
Definition u64 (z : Z) : Z := z mod two64.

(** [int] (64 bits on the platforms the labs run on) and [int32] wrap to two's
    complement. *)
Definition i64 (z : Z) : Z := (z + two63) mod two64 - two63.
Definition i32 (z : Z) : Z := (z + two31) mod two32 - two31.

Lemma i64_id z : - two63 ≤ z < two63 → i64 z = z.
Proof. unfold i64, two63, two64. intros ?. rewrite Z.mod_small; lia. Qed.

Lemma u32_range z : 0 ≤ u32 z < two32.
Proof. unfold u32, two32. apply Z.mod_pos_bound. lia. Qed.

Lemma u32_id z : 0 ≤ z < two32 → u32 z = z.
Proof. apply Z.mod_small. Qed.

Global Instance byte_eq_decision : EqDecision byte := Byte.byte_eq_dec.

(** ** Go maps, slices and arrays *)

(** [m[k]] on a Go map: the zero value [d] when the key is absent. *)
Definition mget {K V} `{Countable K} (d : V) (m : gmap K V) (k : K) : V :=
  default d (m !! k).

(** [l[i]] and [l[i] = x] on a slice or an array: a panic out of range. *)
Definition slice_get {A} (l : list A) (i : Z) : res A :=
  if decide (0 ≤ i) then
    match l !! Z.to_nat i with Some x => Ret x | None => Stop Panic end
  else Stop Panic.

Definition slice_set {A} (l : list A) (i : Z) (x : A) : res (list A) :=
  if decide (0 ≤ i < Z.of_nat (length l)) then Ret (<[Z.to_nat i := x]> l)
  else Stop Panic.

(** The keys of a Go map, in one of the orders [range] may produce. *)
Definition map_keys {K V} `{Countable K} (m : gmap K V) : list K := (map_to_list m).*1.

(** An iteration order of [range m]: every key once, in any order. *)
Definition range_order {K V} `{Countable K} (m : gmap K V) (ks : list K) : Prop :=
  ks ≡ₚ map_keys m.

Section maps.
Context {K V : Type} `{Countable K}.
Implicit Types (m : gmap K V) (k : K).

Lemma elem_of_map_keys m k : k ∈ map_keys m ↔ is_Some (m !! k).
Proof.
  unfold map_keys. rewrite list_elem_of_fmap. split.
  - intros ([k' v] & -> & ?%elem_of_map_to_list). by exists v.
  - intros [v ?]. exists (k, v). by rewrite elem_of_map_to_list.
Qed.

Lemma NoDup_map_keys m : NoDup (map_keys m).
Proof. apply NoDup_fst_map_to_list. Qed.

Lemma length_map_keys m : length (map_keys m) = size m.
Proof. unfold map_keys. by rewrite length_fmap, length_map_to_list. Qed.

Lemma range_order_elem m ks k : range_order m ks → k ∈ ks ↔ is_Some (m !! k).
Proof. unfold range_order. intros ->. apply elem_of_map_keys. Qed.

Lemma range_order_NoDup m ks : range_order m ks → NoDup ks.
Proof. unfold range_order. intros ->. apply NoDup_map_keys. Qed.

Lemma range_order_length m ks : range_order m ks → length ks = size m.
Proof. unfold range_order. intros ->. apply length_map_keys. Qed.

Lemma range_order_refl m : range_order m (map_keys m).
Proof. by unfold range_order. Qed.

Lemma mget_insert_eq (d : V) m k v : mget d (<[k:=v]> m) k = v.
Proof. unfold mget. by rewrite lookup_insert_eq. Qed.

Lemma mget_insert_ne (d : V) m k k' v : k ≠ k' → mget d (<[k:=v]> m) k' = mget d m k'.
Proof. intros ?. unfold mget. by rewrite lookup_insert_ne. Qed.

Lemma mget_empty (d : V) k : mget d (∅ : gmap K V) k = d.
Proof. unfold mget. by rewrite lookup_empty. Qed.
End maps.

(** ** Filtering *)

Lemma filter_none {A} (P : A → Prop) `{∀ x, Decision (P x)} (l : list A) :
  (∀ x, x ∈ l → ¬ P x) → filter P l = [].
Proof.
  induction l as [|x l IH]; intros Hl; [done|].
  rewrite filter_cons_False; [apply IH; set_solver|]. apply Hl. set_solver.
Qed.

(** ** Counting occurrences *)

Section occurrences.
Context {A : Type} `{EqDecision A}.
Implicit Types (x y : A) (l : list A).

(** How many positions of [l] hold [x]. *)
Definition occ x l : Z := Z.of_nat (length (filter (x =.) l)).

Lemma occ_nil x : occ x [] = 0.
Proof. done. Qed.

Lemma occ_cons x y l : occ x (y :: l) = (if decide (x = y) then 1 else 0) + occ x l.
Proof. unfold occ. rewrite filter_cons. case_decide; simpl; lia. Qed.

Lemma occ_nonneg x l : 0 ≤ occ x l.
Proof. unfold occ. lia. Qed.

Lemma occ_le_length x l : occ x l ≤ Z.of_nat (length l).
Proof. unfold occ. pose proof (length_filter (x =.) l). lia. Qed.

Lemma occ_pos x l : 0 < occ x l ↔ x ∈ l.
Proof.
  induction l as [|y l IH].
  - rewrite occ_nil. split; [lia|]. by intros ?%not_elem_of_nil.
  - rewrite occ_cons, elem_of_cons. pose proof (occ_nonneg x l). case_decide; naive_solver lia.
Qed.

Lemma occ_app x l1 l2 : occ x (l1 ++ l2) = occ x l1 + occ x l2.
Proof. induction l1 as [|y l1 IH]; simpl; rewrite ?occ_nil, ?occ_cons; lia. Qed.

(** The effect of [l[i] = y] on the number of occurrences. *)
Lemma occ_insert x y z l i :
  l !! i = Some z →
  occ x (<[i:=y]> l) =
    occ x l - (if decide (x = z) then 1 else 0) + (if decide (x = y) then 1 else 0).
Proof.
  revert i; induction l as [|w l IH]; intros [|i] Hi; simplify_eq/=.
  - rewrite !occ_cons. lia.
  - rewrite !occ_cons, IH by done. lia.
Qed.
End occurrences.

(** ** Sums over the elements of a list *)

Section sums.
Context {A : Type} `{EqDecision A}.
Implicit Types (f g : A → Z) (l : list A).

Definition sumf f l : Z := foldr (λ x acc, f x + acc) 0 l.

Lemma sumf_cons f x l : sumf f (x :: l) = f x + sumf f l.
Proof. done. Qed.

Lemma sumf_app f l l' : sumf f (l ++ l') = sumf f l + sumf f l'.
Proof. unfold sumf. induction l as [|x l IH]; simpl; lia. Qed.

Lemma sumf_perm f l l' : l ≡ₚ l' → sumf f l = sumf f l'.
Proof. unfold sumf. induction 1; simpl; lia. Qed.

Lemma sumf_ext f g l : (∀ x, x ∈ l → f x = g x) → sumf f l = sumf g l.
Proof.
  induction l as [|x l IH]; intros Hfg; [done|].
  rewrite !sumf_cons, (Hfg x), IH by set_solver. done.
Qed.

Lemma sumf_le f g l : (∀ x, x ∈ l → f x ≤ g x) → sumf f l ≤ sumf g l.
Proof.
  induction l as [|x l IH]; intros Hfg; [done|].
  rewrite !sumf_cons. pose proof (Hfg x ltac:(set_solver)).
  assert (sumf f l ≤ sumf g l) by (apply IH; set_solver). lia.
Qed.

Lemma sumf_add f g l : sumf (λ x, f x + g x) l = sumf f l + sumf g l.
Proof. induction l as [|x l IH]; [done|]. rewrite !sumf_cons, IH. lia. Qed.

Lemma sumf_scale f c l : sumf (λ x, c * f x) l = c * sumf f l.
Proof. induction l as [|x l IH]; [simpl; lia|]. rewrite !sumf_cons, IH. lia. Qed.

(** A summand that differs from zero at one point only. *)
Lemma sumf_point (y : A) c l :
  sumf (λ x, if decide (x = y) then c else 0) l = c * occ y l.
Proof.
  induction l as [|x l IH]; [rewrite occ_nil; simpl; lia|].
  rewrite sumf_cons, IH, occ_cons. repeat case_decide; subst; try done; lia.
Qed.

Lemma occ_NoDup x l : NoDup l → x ∈ l → occ x l = 1.
Proof.
  induction 1 as [|y l Hy Hl IH]; [by intros ?%not_elem_of_nil|].
  rewrite elem_of_cons, occ_cons. intros [->|Hx]; case_decide; subst; try done.
  - assert (¬ 0 < occ y l) by (by rewrite occ_pos). pose proof (occ_nonneg y l). lia.
  - by rewrite IH.
Qed.

Lemma occ_NoDup_le x l : NoDup l → occ x l ≤ 1.
Proof.
  intros Hl. destruct (decide (x ∈ l)) as [Hx|Hx]; [by rewrite occ_NoDup|].
  pose proof (occ_nonneg x l). rewrite <-occ_pos in Hx. lia.
Qed.

(** Distinct values occur in a list at most as often as it has positions. *)
Lemma sumf_occ_le ks l : NoDup ks → sumf (λ k, occ k l) ks ≤ Z.of_nat (length l).
Proof.
  intros Hks. induction l as [|x l IH].
  - rewrite (sumf_ext _ (λ k, 0 * 0)), sumf_scale by done. simpl. lia.
  - rewrite (sumf_ext _ (λ k, (if decide (k = x) then 1 else 0) + occ k l))
      by (intros; by rewrite occ_cons).
    rewrite sumf_add, sumf_point. pose proof (occ_NoDup_le x ks Hks). simpl length. lia.
Qed.
End sums.

(** The effect of [l[i] = y] on a sum. *)
Lemma sumf_insert {A} (f : A → Z) (l : list A) i x y :
  l !! i = Some x → sumf f (<[i := y]> l) = sumf f l - f x + f y.
Proof.
  revert i. induction l as [|z l IH]; intros [|i] Hi; simplify_eq/=.
  - lia.
  - rewrite IH by done. lia.
Qed.

(** A sum in which one summand changes. *)
Lemma sumf_change {A} (f g : A → Z) (l : list A) i x :
  l !! i = Some x → (∀ j y, j ≠ i → l !! j = Some y → g y = f y) →
  sumf g l = sumf f l - f x + g x.
Proof.
  revert i. induction l as [|z l IH]; intros i Hi Hg; [done|]. destruct i as [|i]; simplify_eq/=.
  - assert (sumf g l = sumf f l) as ->; [|lia].
    assert (Hl : ∀ j y, l !! j = Some y → g y = f y) by (intros j y Hy; by apply (Hg (S j) y)).
    clear IH Hg. induction l as [|z l IH]; simpl; [done|].
    rewrite (Hl O z eq_refl), IH; [done|]. intros j y Hy. by apply (Hl (S j)).
  - rewrite (Hg O z), (IH i); [lia|done| |done..].
    intros j y Hj. apply (Hg (S j)). congruence.
Qed.

(** ** Automation *)

Create HintDb go discriminated.
#[export] Hint Resolve occ_nonneg range_order_refl : go.
#[export] Hint Rewrite @mget_empty @mget_insert_eq @occ_nil @occ_cons @occ_app : go.

(** Case analysis on the tests of a Go definition. *)
Ltac go_cases :=
  repeat (case_match || case_decide || case_bool_decide); simplify_eq/=.
