(* ===== verification/Fnv.v ===== *)
(** * FNV-1a and the two key hashes of the repository

    The hash [hash/fnv.New32a] of Go's standard library, as a fold over the bytes
    of the key, and its two users: [Key2Shard] (shardkv1/shardcfg/shardcfg.go)
    and [ihash] (mr/worker.go). *)

From S2P Require Import Prelude.

(** The 32-bit FNV offset basis and prime. *)
Definition offset32 : Z := 2166136261.
Definition prime32 : Z := 16777619.

Definition byteZ (b : byte) : Z := Z.of_N (Byte.to_N b).

(** One step of [sum32a.Write]: [hash ^= c; hash *= prime32] on a [uint32]. *)
Definition fnv_step (h : Z) (b : byte) : Z := u32 (Z.lxor h (byteZ b) * prime32).

Definition Sum32a (bs : list byte) : Z := fold_left fnv_step bs offset32.

(** The number of shards of a configuration. *)
Definition NShards : nat := 12.

(** Which shard is a key in?  [int] is 64 bits, so the conversion of the hash keeps its value. *)
Definition Key2Shard (key : string) : Z :=
  i64 (i64 (Sum32a (String.list_byte_of_string key)) `rem` Z.of_nat NShards).

(** [ihash(key) % NReduce] chooses the reduce task of a key. *)
Definition ihash (key : string) : Z :=
  i64 (Z.land (Sum32a (String.list_byte_of_string key)) 2147483647).

Lemma Sum32a_range bs : 0 ≤ Sum32a bs < two32.
Proof.
  unfold Sum32a. assert (0 ≤ offset32 < two32) as H by done. revert H.
  generalize offset32. induction bs as [|b bs IH]; intros h Hh; [done|].
  simpl. apply IH. apply u32_range.
Qed.

Lemma Sum32a_i64 bs : i64 (Sum32a bs) = Sum32a bs.
Proof. pose proof (Sum32a_range bs) as H. apply i64_id. unfold two32, two63 in *. lia. Qed.
