(* ===== verification/ShardCfg.v ===== *)
(** * The shard configuration (shardkv1/shardcfg/shardcfg.go)

    A configuration assigns each of the [NShards] shards to a replica group.
    [Join] and [Leave] change the set of groups, [Rebalance] moves shards so that
    every shard belongs to a live group and no group is loaded more than one
    shard above another.  [CheckConfig] is the tester's check of a configuration.

    A Go map is a [gmap]; where the code ranges over a map, the definition takes
    the iteration order or is shown not to depend on it ([analyze_order]). *)

From S2P Require Import Prelude Fnv.

Module ShardCfg.

Notation Tgid := Z.
Notation Tnum := Z.

Definition NumFirst : Tnum := 1.
Definition Gid1 : Tgid := 1.

Record ShardConfig := MkConfig {
  Num : Tnum;
  Shards : list Tgid;
  Groups : gmap Tgid (list string)
}.

(** [Shards] is an array of [NShards] group ids. *)
Definition wf (c : ShardConfig) : Prop := length (Shards c) = NShards.

Definition MakeShardConfig : ShardConfig :=
  {| Num := 0; Shards := replicate NShards 0; Groups := ∅ |}.

Definition set_shards (c : ShardConfig) (l : list Tgid) : ShardConfig :=
  {| Num := Num c; Shards := l; Groups := Groups c |}.

Definition set_groups (c : ShardConfig) (gs : gmap Tgid (list string)) : ShardConfig :=
  {| Num := Num c; Shards := Shards c; Groups := gs |}.

Definition set_num (c : ShardConfig) (n : Tnum) : ShardConfig :=
  {| Num := n; Shards := Shards c; Groups := Groups c |}.

(** [c.Shards[s] = g] for an index [s] obtained by ranging over the array. *)
Definition set_shard (c : ShardConfig) (s : nat) (g : Tgid) : ShardConfig :=
  set_shards c (<[s := g]> (Shards c)).

(** The counts map: [for _, g := range c.Shards { counts[g] += 1 }]. *)
Definition count_shards (l : list Tgid) : gmap Tgid Z :=
  fold_left (λ counts g, <[g := mget 0 counts g + 1]> counts) l ∅.

(** The body of analyze's loop over the sorted groups; the state is
    (mg, mn, lg, ln). *)
Definition analyze_step (counts : gmap Tgid Z)
    (st : Tgid * Z * Tgid * Z) (g : Tgid) : Tgid * Z * Tgid * Z :=
  let '(mg, mn, lg, ln) := st in
  let '(lg, ln) :=
    if bool_decide (mget 0 counts g < ln) then (g, mget 0 counts g) else (lg, ln) in
  let '(mg, mn) :=
    if bool_decide (mget 0 counts g > mn) then (g, mget 0 counts g) else (mg, mn) in
  (mg, mn, lg, ln).

(** mostgroup, mostn, leastgroup, leastn, when [range c.Groups] yields [order]. *)
Definition analyze_iter (order : list Tgid) (c : ShardConfig) : Tgid * Z * Tgid * Z :=
  let counts := count_shards (Shards c) in
  let groups := merge_sort Z.le order in
  fold_left (analyze_step counts) groups (-1, -1, -1, 257).

Definition analyze (c : ShardConfig) : Tgid * Z * Tgid * Z :=
  analyze_iter (map_keys (Groups c)) c.

(** The group with the least number of assigned shards. *)
Definition least (c : ShardConfig) : Tgid :=
  let '(_, _, lg, _) := analyze c in lg.

(** [for s, g := range c.Shards]: Go evaluates the range expression once, so the
    loops iterate over a copy of the array while the body assigns to [c.Shards]. *)
Definition unassign_all (c : ShardConfig) : ShardConfig :=
  fold_left (λ c (sg : nat * Tgid), set_shard c sg.1 0) (imap pair (Shards c)) c.

Definition assign_unassigned (c : ShardConfig) : ShardConfig :=
  fold_left (λ c (sg : nat * Tgid),
      match Groups c !! sg.2 with
      | Some _ => c
      | None => set_shard c sg.1 (least c)
      end) (imap pair (Shards c)) c.

(** Move the first shard of [mg] to [lg]. *)
Fixpoint move_one (mg lg : Tgid) (copy : list (nat * Tgid)) (c : ShardConfig) : ShardConfig :=
  match copy with
  | [] => c
  | (s, g) :: copy =>
      if bool_decide (g = mg) then set_shard c s lg else move_one mg lg copy c
  end.

(** [for { ... }]: move shards from the most to the least heavily loaded group. *)
Fixpoint balance_loop (fuel : nat) (c : ShardConfig) : res ShardConfig :=
  match fuel with
  | O => Stop OutOfFuel
  | S fuel =>
      let '(mg, mn, lg, ln) := analyze c in
      if bool_decide (mn < ln + 2) then Ret c
      else balance_loop fuel (move_one mg lg (imap pair (Shards c)) c)
  end.

(** Every move lowers the sum of the squared loads, which starts at most at
    NShards^2: the loop needs no more iterations than that. *)
Definition rebalance_fuel : nat := S (NShards * NShards).

Definition Rebalance (c : ShardConfig) : res ShardConfig :=
  if bool_decide (Z.of_nat (size (Groups c)) < 1) then Ret (unassign_all c)
  else balance_loop rebalance_fuel (assign_unassigned c).

(** Does a server of [servers] already belong to a group of the configuration? *)
Definition shares_server (gs : gmap Tgid (list string)) (servers : list string) : bool :=
  existsb (λ '(_, xservers),
    existsb (λ s1, existsb (λ s2, bool_decide (s1 = s2)) servers) xservers)
    (map_to_list gs).

(** The loop of Join over its argument map, whose entries are given in the order
    of the iteration.  The result is the configuration, whether the loop returned
    false, and the variable [changed]. *)
Fixpoint Join_loop (servers : list (Tgid * list string)) (changed : bool)
    (cfg : ShardConfig) : res (ShardConfig * bool * bool) :=
  match servers with
  | [] => Ret (cfg, false, changed)
  | (gid, srvs) :: servers =>
      match Groups cfg !! gid with
      | Some _ => Ret (cfg, true, changed)
      | None =>
          if shares_server (Groups cfg) srvs then Stop LogFatal
          else Join_loop servers true (set_groups cfg (<[gid := srvs]> (Groups cfg)))
      end
  end.

Definition Join (servers : list (Tgid * list string)) (cfg : ShardConfig) :
    res (ShardConfig * bool) :=
  let* '(cfg, early, changed) := Join_loop servers false cfg in
  if early : bool then Ret (cfg, false)
  else if changed : bool then Ret (set_num cfg (i64 (Num cfg + 1)), true)
  else Stop LogFatal.

Fixpoint Leave_loop (gids : list Tgid) (changed : bool) (cfg : ShardConfig) :
    ShardConfig * bool * bool :=
  match gids with
  | [] => (cfg, false, changed)
  | gid :: gids =>
      match Groups cfg !! gid with
      | None => (cfg, true, changed)
      | Some _ => Leave_loop gids true (set_groups cfg (delete gid (Groups cfg)))
      end
  end.

Definition Leave (gids : list Tgid) (cfg : ShardConfig) : res (ShardConfig * bool) :=
  let '(cfg, early, changed) := Leave_loop gids false cfg in
  if early : bool then Ret (cfg, false)
  else if changed : bool then Ret (set_num cfg (i64 (Num cfg + 1)), true)
  else Stop LogFatal.

Definition JoinBalance (servers : list (Tgid * list string)) (cfg : ShardConfig) :
    res (ShardConfig * bool) :=
  let* '(cfg, ok) := Join servers cfg in
  if negb ok then Ret (cfg, false)
  else let* cfg := Rebalance cfg in Ret (cfg, true).

Definition LeaveBalance (gids : list Tgid) (cfg : ShardConfig) : res (ShardConfig * bool) :=
  let* '(cfg, ok) := Leave gids cfg in
  if negb ok then Ret (cfg, false)
  else let* cfg := Rebalance cfg in Ret (cfg, true).

(** (gid, servers, ok) for shard [sh]; a shard outside the array is a panic. *)
Definition GidServers (sh : Z) (cfg : ShardConfig) : res (Tgid * list string * bool) :=
  let* gid := slice_get (Shards cfg) sh in
  match Groups cfg !! gid with
  | Some srvs => Ret (gid, srvs, true)
  | None => Ret (gid, [], false)
  end.

Definition IsMember (gid : Tgid) (cfg : ShardConfig) : bool :=
  existsb (λ g, bool_decide (g = gid)) (Shards cfg).

(** The loop of CheckConfig over [range cfg.Groups], with (max, min). *)
Definition minmax_step (counts : gmap Tgid Z) (st : Z * Z) (g : Tgid) : Z * Z :=
  let '(max, min) := st in
  let max := if bool_decide (mget 0 counts g > max) then mget 0 counts g else max in
  let min := if bool_decide (mget 0 counts g < min) then mget 0 counts g else min in
  (max, min).

Definition CheckConfig (groups : list Tgid) (cfg : ShardConfig) : res unit :=
  if bool_decide (size (Groups cfg) ≠ length groups) then Stop FailNow
  else if negb (forallb (λ g, bool_decide (is_Some (Groups cfg !! g))) groups) then Stop FailNow
  else if bool_decide (0 < Z.of_nat (length groups)) &&
       negb (forallb (λ g, bool_decide (is_Some (Groups cfg !! g))) (Shards cfg))
  then Stop FailNow
  else
    let counts := count_shards (Shards cfg) in
    let '(max, min) := fold_left (minmax_step counts) (map_keys (Groups cfg)) (0, 257) in
    if bool_decide (max > min + 1) then Stop FailNow else Ret tt.

(** Copy: a fresh configuration filled entry by entry. *)
Definition Copy (cfg : ShardConfig) : ShardConfig :=
  let c := MakeShardConfig in
  {| Num := Num cfg; Shards := Shards cfg;
     Groups := fold_left (λ gs '(k, srvs), <[k := srvs]> gs) (map_to_list (Groups cfg)) (Groups c) |}.

(** ** Loads and the analysis of a configuration *)

(** The load of group [g]: the number of shards assigned to it. *)
Definition load (c : ShardConfig) (g : Tgid) : Z := occ g (Shards c).

(** [g] is a group of the configuration. *)
Definition live (c : ShardConfig) (g : Tgid) : Prop := is_Some (Groups c !! g).

(** Every shard is assigned to a group of the configuration. *)
Definition assigned (c : ShardConfig) : Prop := ∀ g, g ∈ Shards c → live c g.

(** No group is loaded more than one shard above another. *)
Definition balanced (c : ShardConfig) : Prop :=
  ∀ g h, live c g → live c h → load c g ≤ load c h + 1.

Lemma count_fold_occ (l : list Tgid) (m : gmap Tgid Z) g :
  mget 0 (fold_left (λ counts g, <[g := mget 0 counts g + 1]> counts) l m) g =
    mget 0 m g + occ g l.
Proof.
  revert m; induction l as [|h l IH]; intros m; simpl; [rewrite occ_nil; lia|].
  rewrite IH, occ_cons. destruct (decide (g = h)) as [->|].
  - rewrite mget_insert_eq. lia.
  - rewrite mget_insert_ne by done. lia.
Qed.

Lemma count_shards_occ l g : mget 0 (count_shards l) g = occ g l.
Proof. unfold count_shards. by rewrite count_fold_occ, mget_empty. Qed.

Lemma load_bound c g : wf c → 0 ≤ load c g ≤ 12.
Proof.
  unfold wf, load. intros Hc. pose proof (occ_nonneg g (Shards c)).
  pose proof (occ_le_length g (Shards c)). unfold NShards in Hc. lia.
Qed.

(** What analyze's loop computes, from any starting state. *)
Lemma analyze_fold counts gs mg mn lg ln :
  ∃ mg' mn' lg' ln',
    fold_left (analyze_step counts) gs (mg, mn, lg, ln) = (mg', mn', lg', ln') ∧
    (ln' ≤ ln ∧ (∀ g, g ∈ gs → ln' ≤ mget 0 counts g) ∧
      ((lg' = lg ∧ ln' = ln) ∨ (lg' ∈ gs ∧ ln' = mget 0 counts lg'))) ∧
    (mn ≤ mn' ∧ (∀ g, g ∈ gs → mget 0 counts g ≤ mn') ∧
      ((mg' = mg ∧ mn' = mn) ∨ (mg' ∈ gs ∧ mn' = mget 0 counts mg'))).
Proof.
  revert mg mn lg ln; induction gs as [|g gs IH]; intros; simpl.
  { exists mg, mn, lg, ln. set_solver by lia. }
  set (lgn := if bool_decide (mget 0 counts g < ln) then (g, mget 0 counts g) else (lg, ln)).
  set (mgn := if bool_decide (mget 0 counts g > mn) then (g, mget 0 counts g) else (mg, mn)).
  destruct (IH mgn.1 mgn.2 lgn.1 lgn.2) as (mg' & mn' & lg' & ln' & Heq & Hl & Hm).
  exists mg', mn', lg', ln'. split.
  { rewrite <-Heq. by destruct mgn, lgn. }
  setoid_rewrite elem_of_cons. subst lgn mgn.
  repeat case_bool_decide; simpl in *; destruct Hl as (?&?&Hl), Hm as (?&?&Hm);
    (split; [clear Hm|clear Hl]); (split_and!; [lia|intros ? [->|?]; [lia|auto with lia]|]);
    naive_solver.
Qed.

Lemma sorted_keys_elem c g : g ∈ merge_sort Z.le (map_keys (Groups c)) ↔ live c g.
Proof. rewrite merge_sort_Permutation. apply elem_of_map_keys. Qed.

(** analyze returns a most and a least loaded group and their loads. *)
Lemma analyze_spec c :
  wf c → Groups c ≠ ∅ →
  ∃ mg lg, analyze c = (mg, load c mg, lg, load c lg) ∧ live c mg ∧ live c lg ∧
    ∀ g, live c g → load c lg ≤ load c g ≤ load c mg.
Proof.
  intros Hwf Hne. unfold analyze, analyze_iter.
  destruct (analyze_fold (count_shards (Shards c)) (merge_sort Z.le (map_keys (Groups c)))
    (-1) (-1) (-1) 257) as (mg & mn & lg & ln & -> & (Hl1 & Hl2 & Hl) & (Hm1 & Hm2 & Hm)).
  setoid_rewrite sorted_keys_elem in Hl2. setoid_rewrite sorted_keys_elem in Hm2.
  rewrite sorted_keys_elem in Hl, Hm.
  setoid_rewrite count_shards_occ in Hl2. setoid_rewrite count_shards_occ in Hm2.
  rewrite count_shards_occ in Hl, Hm.
  destruct (map_choose _ Hne) as (g0 & v0 & Hg0).
  assert (live c g0) as Hlive by by exists v0.
  pose proof (load_bound c g0 Hwf). specialize (Hl2 g0 Hlive) as Hg0l.
  specialize (Hm2 g0 Hlive) as Hg0m. unfold load in *.
  destruct Hl as [[-> ->]|[? ->]]; [lia|]. destruct Hm as [[-> ->]|[? ->]]; [lia|].
  exists mg, lg. split_and!; auto.
Qed.

(** The analysis, and with it everything built on it, does not depend on the
    order in which Go iterates over the map of groups. *)
Lemma analyze_iter_order c order :
  range_order (Groups c) order → analyze_iter order c = analyze c.
Proof.
  intros Hord. unfold analyze, analyze_iter. f_equal.
  eapply (Sorted_unique Z.le); [apply Sorted_merge_sort, _..|].
  by rewrite !merge_sort_Permutation.
Qed.

Lemma least_spec c :
  wf c → Groups c ≠ ∅ → live c (least c) ∧ ∀ g, live c g → load c (least c) ≤ load c g.
Proof.
  intros Hwf Hne. unfold least.
  destruct (analyze_spec c Hwf Hne) as (mg & lg & -> & ? & ? & H). naive_solver.
Qed.

(** ** Rebalance *)

(** The data that Rebalance leaves alone. *)
Definition same_groups (c c' : ShardConfig) : Prop :=
  Num c' = Num c ∧ Groups c' = Groups c ∧ length (Shards c') = length (Shards c).

Global Instance same_groups_refl : Reflexive same_groups.
Proof. by intros c. Qed.
Global Instance same_groups_trans : Transitive same_groups.
Proof. intros c1 c2 c3 (?&?&?) (?&?&?). split_and!; congruence. Qed.

Lemma same_groups_set_shard c s g : same_groups c (set_shard c s g).
Proof. split_and!; [done..|]. simpl. by rewrite length_insert. Qed.

Lemma same_groups_wf c c' : same_groups c c' → wf c → wf c'.
Proof. unfold wf. intros (?&?&->). done. Qed.

Lemma same_groups_live c c' g : same_groups c c' → live c' g ↔ live c g.
Proof. unfold live. by intros (?&->&?). Qed.

(** Ranging over the copy of the array, position by position: the loop has
    processed [pre] and has [l] ahead of it. *)
Definition enum_from (i : nat) (l : list Tgid) : list (nat * Tgid) :=
  imap (λ k, pair (i + k)%nat) l.

Lemma enum_from_0 l : imap pair l = enum_from 0 l.
Proof. done. Qed.

Lemma enum_from_cons i x l : enum_from i (x :: l) = (i, x) :: enum_from (S i) l.
Proof.
  unfold enum_from. simpl. f_equal; [f_equal; lia|].
  apply imap_ext. intros k y _. simpl. f_equal. lia.
Qed.

Lemma unassign_from pre l c :
  Shards c = pre ++ l →
  fold_left (λ c (sg : nat * Tgid), set_shard c sg.1 0) (enum_from (length pre) l) c =
    set_shards c (pre ++ replicate (length l) 0).
Proof.
  revert pre c; induction l as [|g l IH]; intros pre c Hc.
  { destruct c; simpl in *. by subst. }
  rewrite enum_from_cons. simpl fold_left.
  replace (S (length pre)) with (length (pre ++ [0])) by (rewrite length_app; simpl; lia).
  rewrite IH.
  - simpl. unfold set_shard, set_shards. simpl. by rewrite <-app_assoc.
  - simpl. rewrite Hc, insert_app_r_alt, Nat.sub_diag by lia. by rewrite <-app_assoc.
Qed.

Lemma unassign_all_eq c : unassign_all c = set_shards c (replicate (length (Shards c)) 0).
Proof. unfold unassign_all. rewrite enum_from_0. by apply (unassign_from []). Qed.

(** The relation between the shards before and after the assignment loop: a shard
    of a live group stays where it is, the others get a live group. *)
Definition assign_rel (c : ShardConfig) (g g' : Tgid) : Prop :=
  live c g' ∧ (live c g → g' = g).

Lemma assign_from pre l c :
  wf c → Groups c ≠ ∅ → Shards c = pre ++ l →
  ∃ l', fold_left (λ c (sg : nat * Tgid),
          match Groups c !! sg.2 with
          | Some _ => c
          | None => set_shard c sg.1 (least c)
          end) (enum_from (length pre) l) c = set_shards c (pre ++ l') ∧
        Forall2 (assign_rel c) l l'.
Proof.
  revert pre c; induction l as [|g l IH]; intros pre c Hwf Hne Hc.
  { exists []. split; [|constructor]. destruct c; simpl in *. by subst. }
  rewrite enum_from_cons. simpl fold_left.
  assert (∀ g', S (length pre) = length (pre ++ [g'])) as Hlen
    by (intros; rewrite length_app; simpl; lia).
  destruct (Groups c !! g) as [v|] eqn:Hg.
  - destruct (IH (pre ++ [g]) c) as (l' & Heq & Hrel); [done..|by rewrite Hc, <-app_assoc|].
    exists (g :: l'). rewrite (Hlen g), Heq, <-app_assoc. split; [done|].
    constructor; [|done]. split; [by exists v|done].
  - destruct (IH (pre ++ [least c]) (set_shard c (length pre) (least c)))
      as (l' & Heq & Hrel).
    + eapply same_groups_wf; [apply same_groups_set_shard|done].
    + done.
    + simpl. rewrite Hc, insert_app_r_alt, Nat.sub_diag by lia. by rewrite <-app_assoc.
    + exists (least c :: l'). rewrite (Hlen (least c)), Heq, <-app_assoc. split; [done|].
      constructor; [|done]. split; [by apply least_spec|].
      intros [v Hv]. congruence.
Qed.

Lemma assign_unassigned_spec c :
  wf c → Groups c ≠ ∅ →
  same_groups c (assign_unassigned c) ∧ assigned (assign_unassigned c) ∧
  Forall2 (assign_rel c) (Shards c) (Shards (assign_unassigned c)).
Proof.
  intros Hwf Hne. unfold assign_unassigned. rewrite enum_from_0.
  destruct (assign_from [] (Shards c) c Hwf Hne eq_refl) as (l' & Heq & Hrel).
  simpl in Heq. rewrite Heq. simpl. split_and!; [|intros g Hg|done].
  - split_and!; [done..|]. simpl. symmetry. by eapply Forall2_length.
  - apply list_elem_of_lookup in Hg as [i Hi].
    destruct (Forall2_lookup_r _ _ _ _ _ Hrel Hi) as (g0 & _ & [Hl _]). done.
Qed.

(** One iteration of the balancing loop: a shard of a most loaded group moves to
    a least loaded one. *)
Definition balance_move (c : ShardConfig) (mg lg : Tgid) (s : nat) : Prop :=
  live c mg ∧ live c lg ∧ (∀ g, live c g → load c lg ≤ load c g ≤ load c mg) ∧
  load c lg + 2 ≤ load c mg ∧ Shards c !! s = Some mg.

Lemma move_one_from mg lg i l c :
  (∀ j, l !! j = Shards c !! (i + j)%nat) → mg ∈ l →
  ∃ s, Shards c !! s = Some mg ∧ move_one mg lg (enum_from i l) c = set_shard c s lg.
Proof.
  revert i; induction l as [|g l IH]; intros i Hl Hin; [by apply not_elem_of_nil in Hin|].
  rewrite enum_from_cons. simpl. case_bool_decide as Hg.
  - exists i. subst g. split; [|done]. by rewrite <-(Nat.add_0_r i), <-Hl.
  - apply IH; [|set_solver]. intros j. rewrite Nat.add_succ_comm. apply (Hl (S j)).
Qed.

Lemma load_set_shard c s mg lg g :
  Shards c !! s = Some mg →
  load (set_shard c s lg) g =
    load c g - (if decide (g = mg) then 1 else 0) + (if decide (g = lg) then 1 else 0).
Proof. apply occ_insert. Qed.

(** The sum of the squared loads decreases with every move. *)
Definition potential (c : ShardConfig) : Z :=
  sumf (λ g, load c g * load c g) (map_keys (Groups c)).

Lemma potential_bound c :
  wf c → 0 ≤ potential c ≤ Z.of_nat NShards * Z.of_nat NShards.
Proof.
  intros Hwf. unfold potential. split.
  - assert (0 = sumf (λ _ : Tgid, 0 * 0) (map_keys (Groups c))) as ->
      by (rewrite sumf_scale; lia).
    apply sumf_le. intros g _. pose proof (load_bound c g Hwf). nia.
  - trans (sumf (λ g, Z.of_nat NShards * load c g) (map_keys (Groups c))).
    + apply sumf_le. intros g _. pose proof (load_bound c g Hwf).
      change (Z.of_nat NShards) with 12. nia.
    + rewrite sumf_scale. pose proof (sumf_occ_le (map_keys (Groups c)) (Shards c)
        (NoDup_map_keys _)) as H. rewrite Hwf in H. unfold load. nia.
Qed.

Lemma potential_move c mg lg s :
  balance_move c mg lg s → potential (set_shard c s lg) < potential c.
Proof.
  intros (Hmg & Hlg & _ & Hgap & Hs).
  assert (mg ≠ lg) as Hne by (intros ->; lia).
  unfold potential. change (Groups (set_shard c s lg)) with (Groups c).
  rewrite (sumf_ext _ (λ g, load c g * load c g +
     ((if decide (g = mg) then 1 - 2 * load c mg else 0) +
      (if decide (g = lg) then 1 + 2 * load c lg else 0)))).
  2: { intros g _. rewrite (load_set_shard _ _ mg) by done.
       repeat case_decide; subst; try done; lia. }
  rewrite !sumf_add, !sumf_point, !occ_NoDup
    by (apply NoDup_map_keys || by apply elem_of_map_keys). lia.
Qed.

Lemma balance_loop_step c fuel :
  wf c → Groups c ≠ ∅ →
  (balanced c ∧ balance_loop (S fuel) c = Ret c) ∨
  (∃ mg lg s, balance_move c mg lg s ∧
     balance_loop (S fuel) c = balance_loop fuel (set_shard c s lg)).
Proof.
  intros Hwf Hne. simpl balance_loop.
  destruct (analyze_spec c Hwf Hne) as (mg & lg & -> & Hmg & Hlg & Hext).
  case_bool_decide as Hgap.
  - left. split; [|done]. intros g h Hg Hh. apply Hext in Hg, Hh. lia.
  - right. pose proof (load_bound c lg Hwf).
    destruct (move_one_from mg lg 0 (Shards c) c) as (s & Hs & Heq); [done| |].
    { apply occ_pos. unfold load in *. lia. }
    exists mg, lg, s. rewrite enum_from_0, Heq. split; [|done]. split_and!; auto with lia.
Qed.

(** The induction principle of the loop: it ends within the fuel, in a balanced
    configuration, and every property that a move preserves holds there. *)
Lemma balance_loop_ind (P : ShardConfig → Prop) fuel c :
  (∀ c mg lg s, wf c → P c → balance_move c mg lg s → P (set_shard c s lg)) →
  wf c → Groups c ≠ ∅ → potential c < Z.of_nat fuel → P c →
  ∃ c', balance_loop fuel c = Ret c' ∧ same_groups c c' ∧ balanced c' ∧ P c'.
Proof.
  intros HP. revert c; induction fuel as [|fuel IH]; intros c Hwf Hne Hpot Hc.
  { pose proof (potential_bound c Hwf). lia. }
  destruct (balance_loop_step c fuel Hwf Hne) as [[Hbal ->]|(mg & lg & s & Hmove & ->)].
  { exists c. by split_and!. }
  destruct (IH (set_shard c s lg)) as (c' & Heq & Hsame & Hbal & HP').
  - eapply same_groups_wf; [apply same_groups_set_shard|done].
  - done.
  - pose proof (potential_move c mg lg s Hmove). lia.
  - by eapply HP.
  - exists c'. split_and!; [done| |done..]. etrans; [apply same_groups_set_shard|done].
Qed.

Lemma assigned_move c mg lg s :
  assigned c → balance_move c mg lg s → assigned (set_shard c s lg).
Proof.
  intros Hass (_ & Hlg & _) g Hg. simpl in Hg.
  apply list_elem_of_lookup in Hg as [i Hi].
  rewrite list_lookup_insert in Hi. case_decide as Hd; simplify_eq; [done|].
  apply Hass. by apply list_elem_of_lookup_2 in Hi.
Qed.

Lemma potential_fuel c : wf c → potential c < Z.of_nat rebalance_fuel.
Proof. intros Hwf. pose proof (potential_bound c Hwf). unfold rebalance_fuel. lia. Qed.

Lemma Groups_size c : bool_decide (Z.of_nat (size (Groups c)) < 1) = bool_decide (Groups c = ∅).
Proof. apply bool_decide_ext. rewrite <-map_size_empty_iff. lia. Qed.

(** Rebalance as a whole, with a property of the loop's moves to be carried. *)
Lemma Rebalance_ind (P : ShardConfig → Prop) c :
  wf c → Groups c ≠ ∅ → P (assign_unassigned c) →
  (∀ c mg lg s, wf c → P c → balance_move c mg lg s → P (set_shard c s lg)) →
  ∃ c', Rebalance c = Ret c' ∧ same_groups c c' ∧ assigned c' ∧ balanced c' ∧ P c'.
Proof.
  intros Hwf Hne HP Hstep.
  destruct (assign_unassigned_spec c Hwf Hne) as (Hsame & Hass & _).
  unfold Rebalance. rewrite Groups_size, bool_decide_false by done.
  assert (wf (assign_unassigned c)) by by eapply same_groups_wf.
  destruct (balance_loop_ind (λ c, assigned c ∧ P c) rebalance_fuel (assign_unassigned c))
    as (c' & Heq & Hsame' & Hbal & Hass' & HP').
  - intros ???? ? [??] ?. split; [by eapply assigned_move|by eapply Hstep].
  - done.
  - by destruct Hsame as (?&->&?).
  - by apply potential_fuel.
  - done.
  - exists c'. split_and!; [done| |done..]. by etrans.
Qed.

(** ** Stability and the set of shards that move *)

Lemma assign_unassigned_id c : wf c → Groups c ≠ ∅ → assigned c → assign_unassigned c = c.
Proof.
  intros Hwf Hne Hass.
  destruct (assign_unassigned_spec c Hwf Hne) as ((Hnum & Hgs & _) & _ & Hrel).
  assert (Shards (assign_unassigned c) = Shards c) as Hsh.
  { apply list_eq. intros i. destruct (Shards c !! i) as [g|] eqn:Hi.
    - destruct (Forall2_lookup_l _ _ _ _ _ Hrel Hi) as (g' & -> & _ & Hg).
      f_equal. apply Hg, Hass. by eapply list_elem_of_lookup_2.
    - apply lookup_ge_None. apply Forall2_length in Hrel. rewrite <-Hrel.
      by apply lookup_ge_None. }
  destruct c, (assign_unassigned _); simpl in *. by subst.
Qed.

Lemma balance_loop_id c fuel :
  wf c → Groups c ≠ ∅ → balanced c → balance_loop (S fuel) c = Ret c.
Proof.
  intros Hwf Hne Hbal.
  destruct (balance_loop_step c fuel Hwf Hne) as [[_ ->]|(mg & lg & s & Hmove & _)]; [done|].
  destruct Hmove as (Hmg & Hlg & _ & Hgap & _). specialize (Hbal mg lg Hmg Hlg). lia.
Qed.

(** No shard came to [g], no shard left [g], on the way from [c] to [c']. *)
Definition no_gain (c c' : ShardConfig) (g : Tgid) : Prop :=
  ∀ s, Shards c' !! s = Some g → Shards c !! s = Some g.
Definition no_loss (c c' : ShardConfig) (g : Tgid) : Prop :=
  ∀ s, Shards c !! s = Some g → Shards c' !! s = Some g.

(** The invariant of the moves: a group that gained is among the least loaded, a
    group that lost among the most loaded, so none does both, and a group that gained
    has no more shards than one that lost. *)
Definition one_way (c1 c : ShardConfig) : Prop :=
  ∀ g, live c g →
    (no_gain c1 c g ∨ ∀ h, live c h → load c g ≤ load c h + 1) ∧
    (no_loss c1 c g ∨ ∀ h, live c h → load c h ≤ load c g + 1) ∧
    (no_gain c1 c g ∨ no_loss c1 c g) ∧
    ∀ h, live c h → no_gain c1 c g ∨ no_loss c1 c h ∨ load c g ≤ load c h.

Lemma set_shard_lookup c s g i :
  Shards (set_shard c s g) !! i =
    if decide (s = i ∧ (s < length (Shards c))%nat) then Some g else Shards c !! i.
Proof. apply list_lookup_insert. Qed.

Lemma no_gain_move c1 c lg s g :
  no_gain c1 c g → g ≠ lg → no_gain c1 (set_shard c s lg) g.
Proof.
  intros Hg Hne i. rewrite set_shard_lookup. case_decide; [by intros [= ->]|apply Hg].
Qed.

Lemma no_loss_move c1 c (mg lg : Tgid) s g :
  no_loss c1 c g → g ≠ mg → Shards c !! s = Some mg → no_loss c1 (set_shard c s lg) g.
Proof.
  intros Hg Hne Hs i Hi. apply Hg in Hi. rewrite set_shard_lookup.
  case_decide as Hd; [|done]. destruct Hd as [-> _]. congruence.
Qed.

Lemma one_way_move c1 c mg lg s :
  one_way c1 c → balance_move c mg lg s → one_way c1 (set_shard c s lg).
Proof.
  intros Hinv (Hmg & Hlg & Hext & Hgap & Hs) g Hg.
  change (live c g) in Hg. destruct (Hinv g Hg) as (Hgain & Hloss & Hone & Hord).
  assert (∀ h, live c h → load (set_shard c s lg) h =
    load c h - (if decide (h = mg) then 1 else 0) + (if decide (h = lg) then 1 else 0)) as Hld
    by (intros; by apply load_set_shard).
  assert (mg ≠ lg) as Hne by (intros ->; lia).
  assert (no_gain c1 c mg) as Hmgg.
  { destruct (Hinv mg Hmg) as ([|H] & _); [done|]. specialize (H lg Hlg). lia. }
  assert (no_loss c1 c lg) as Hlgl.
  { destruct (Hinv lg Hlg) as (_ & [|H] & _); [done|]. specialize (H mg Hmg). lia. }
  pose proof (Hext g Hg) as Hgb. split_and!.
  - destruct (decide (g = lg)) as [->|]; [|destruct Hgain as [?|Hgain]].
    + right. intros h Hh. rewrite !Hld by done. pose proof (Hext h Hh).
      repeat case_decide; subst; try done; lia.
    + left. by apply no_gain_move.
    + right. intros h Hh. rewrite !Hld by done. specialize (Hgain h Hh).
      pose proof (Hext h Hh). repeat case_decide; subst; try done; lia.
  - destruct (decide (g = mg)) as [->|]; [|destruct Hloss as [?|Hloss]].
    + right. intros h Hh. rewrite !Hld by done. pose proof (Hext h Hh).
      repeat case_decide; subst; try done; lia.
    + left. by eapply no_loss_move.
    + right. intros h Hh. rewrite !Hld by done. specialize (Hloss h Hh).
      pose proof (Hext h Hh). repeat case_decide; subst; try done; lia.
  - destruct (decide (g = lg)) as [->|]; [right; by eapply no_loss_move|].
    destruct (decide (g = mg)) as [->|]; [left; by apply no_gain_move|].
    destruct Hone; [left; by apply no_gain_move|right; by eapply no_loss_move].
  - intros h Hh. destruct (decide (g = mg)) as [->|Hgm]; [left; by apply no_gain_move|].
    destruct (decide (h = lg)) as [->|Hhl]; [right; left; by eapply no_loss_move|].
    rewrite !Hld by done. destruct (Hinv h Hh) as (_ & Hlossh & _).
    destruct (decide (g = lg)) as [->|Hgl], (decide (h = mg)) as [->|Hhm].
    + right. right. repeat case_decide; done || lia.
    + destruct Hlossh as [?|Hlossh]; [right; left; by eapply no_loss_move|].
      specialize (Hlossh mg Hmg). right. right. repeat case_decide; done || lia.
    + destruct Hgain as [?|Hgain]; [left; by apply no_gain_move|].
      specialize (Hgain lg Hlg). right. right. repeat case_decide; done || lia.
    + destruct (Hord h Hh) as [?|[?|?]]; [left; by apply no_gain_move|right; left; by eapply no_loss_move|].
      right. right. repeat case_decide; done || lia.
Qed.

(** ** How many shards move *)

(** The number of shards with another owner in [l'] than in [l]. *)
Fixpoint moved (l l' : list Tgid) : Z :=
  match l, l' with
  | g :: l, g' :: l' => (if decide (g = g') then 0 else 1) + moved l l'
  | _, _ => 0
  end.

(** The shards of the groups in [P]. *)
Definition owned (P : Tgid → bool) (l : list Tgid) : Z := sumf (λ g, if P g then 1 else 0) l.

Lemma moved_comm l l' : moved l l' = moved l' l.
Proof.
  revert l'; induction l as [|g l IH]; intros [|g' l']; try done. simpl. rewrite IH.
  repeat case_decide; congruence || done.
Qed.

Lemma owned_cons P g l : owned P (g :: l) = (if P g then 1 else 0) + owned P l.
Proof. done. Qed.
Lemma owned_app P l l' : owned P (l ++ l') = owned P l + owned P l'.
Proof. apply sumf_app. Qed.

Lemma owned_nonneg P l : 0 ≤ owned P l.
Proof. induction l as [|g l IH]; [done|]. rewrite owned_cons. case_match; lia. Qed.

Lemma moved_owned P l l' : length l = length l' → owned P l - owned P l' ≤ moved l l'.
Proof.
  revert l'; induction l as [|g l IH]; intros [|g' l'] [=]; [done|].
  specialize (IH l' ltac:(done)). rewrite !owned_cons. cbn [moved].
  case_decide; subst; repeat case_match; lia.
Qed.

(** When every shard that moves goes from a group in [P] to one that is not. *)
Lemma moved_owned_eq P l l' :
  length l = length l' →
  (∀ i g g', l !! i = Some g → l' !! i = Some g' → g = g' ∨ (P g = true ∧ P g' = false)) →
  moved l l' = owned P l - owned P l'.
Proof.
  revert l'; induction l as [|g l IH]; intros [|g' l'] [=] HP; [done|].
  cbn [moved]. rewrite (IH l' ltac:(done)) by (intros i; apply (HP (S i))). rewrite !owned_cons.
  destruct (HP 0%nat g g' eq_refl eq_refl) as [->|[Hg Hg']].
  - rewrite decide_True by done. lia.
  - rewrite decide_False by congruence. rewrite Hg, Hg'. lia.
Qed.

(** More shards for the groups in [P] are more shards for one of them. *)
Lemma owned_le P l l' :
  (∀ g, P g = true → g ∈ l → occ g l ≤ occ g l') → owned P l ≤ owned P l'.
Proof.
  revert l'; induction l as [|g l IH]; intros l' Hle.
  { apply owned_nonneg. }
  rewrite owned_cons. destruct (P g) eqn:Hg.
  - assert (g ∈ l') as (l1 & l2 & ->)%list_elem_of_split.
    { rewrite <-occ_pos. specialize (Hle g Hg ltac:(by left)). rewrite occ_cons in Hle.
      pose proof (occ_nonneg g l). rewrite decide_True in Hle by done. lia. }
    assert (owned P l ≤ owned P (l1 ++ l2)) as H.
    { apply IH. intros h Hh Hin. specialize (Hle h Hh ltac:(by right)).
      rewrite occ_app, !occ_cons in Hle. rewrite occ_app. lia. }
    rewrite owned_app in *. rewrite owned_cons, Hg. lia.
  - enough (owned P l ≤ owned P l') by lia. apply IH.
    intros h Hh Hin. specialize (Hle h Hh ltac:(by right)). rewrite occ_cons in Hle.
    case_decide; [congruence|lia].
Qed.

Lemma owned_lt P l l' : owned P l' < owned P l → ∃ g, P g = true ∧ g ∈ l ∧ occ g l' < occ g l.
Proof.
  intros Hlt. destruct (decide (Exists (λ g, P g = true ∧ occ g l' < occ g l) l)) as [Hex|Hno].
  - apply list.Exists_exists in Hex as (g & Hin & Hg & Hl). by exists g.
  - exfalso. assert (owned P l ≤ owned P l'); [|lia]. apply owned_le. intros g Hg Hin.
    destruct (decide (occ g l ≤ occ g l')); [done|]. destruct Hno. apply list.Exists_exists.
    exists g. split_and!; [done..|lia].
Qed.

(** The groups that lose a shard between [l] and [l']. *)
Definition loses (l l' : list Tgid) (g : Tgid) : bool :=
  existsb (λ p, bool_decide (p.1 = g ∧ p.2 ≠ g)) (zip l l').

Lemma loses_spec l l' g :
  loses l l' g = true ↔ ∃ i g', l !! i = Some g ∧ l' !! i = Some g' ∧ g' ≠ g.
Proof.
  unfold loses. rewrite existsb_exists. setoid_rewrite <-list_elem_of_In.
  setoid_rewrite list_elem_of_lookup. split.
  - intros ([a b] & (i & Hi) & [<- ?]%bool_decide_eq_true). simpl in *.
    apply lookup_zip_Some in Hi as [??]. eauto.
  - intros (i & g' & ? & ? & ?). exists (g, g'). split.
    + exists i. by apply lookup_zip_Some.
    + by apply bool_decide_eq_true.
Qed.

Lemma loses_loss c c' g : loses (Shards c) (Shards c') g = true → ¬ no_loss c c' g.
Proof. rewrite loses_spec. intros (i & g' & H & H' & Hne) Hno. apply Hno in H. congruence. Qed.

Lemma loses_gain c c' g : loses (Shards c') (Shards c) g = true → ¬ no_gain c c' g.
Proof. rewrite loses_spec. intros (i & g' & H & H' & Hne) Hno. apply Hno in H. congruence. Qed.

(** When no group both gains and loses, the shards that move are those that the losing
    groups own less, and those that the gaining groups own more. *)
Lemma moved_lost c c' :
  wf c → wf c' → (∀ g, g ∈ Shards c ++ Shards c' → no_gain c c' g ∨ no_loss c c' g) →
  let P := loses (Shards c) (Shards c') in let Q := loses (Shards c') (Shards c) in
  moved (Shards c) (Shards c') = owned P (Shards c) - owned P (Shards c') ∧
  moved (Shards c) (Shards c') = owned Q (Shards c') - owned Q (Shards c).
Proof.
  intros Hc Hc' Hone P Q.
  assert (∀ i g g', Shards c !! i = Some g → Shards c' !! i = Some g' → g ≠ g' →
    P g = true ∧ P g' = false ∧ Q g' = true ∧ Q g = false) as H.
  { intros i g g' Hg Hg' Hne.
    assert (P g = true) as HP by (apply loses_spec; naive_solver).
    assert (Q g' = true) as HQ by (apply loses_spec; naive_solver).
    assert (g ∈ Shards c ∧ g' ∈ Shards c') as [Hin Hin'] by (split; by eapply list_elem_of_lookup_2).
    split_and!; [done| |done|]; apply not_true_iff_false.
    - intros HP'%loses_loss. by destruct (Hone g') as [?|?]; [set_solver|by apply loses_gain in HQ|].
    - intros HQ'%loses_gain. by destruct (Hone g) as [?|?]; [set_solver| |by apply loses_loss in HP]. }
  split; [|rewrite moved_comm]; (apply moved_owned_eq; [by rewrite Hc, Hc'|]); intros i g g' Hg Hg';
    destruct (decide (g = g')) as [->|Hne]; try (by left); right.
  - by destruct (H i g g' Hg Hg' Hne) as (? & ? & _).
  - by destruct (H i g' g Hg' Hg ltac:(done)) as (_ & _ & ? & ?).
Qed.

(** Such a change to balanced loads, in which no gaining group ends with more shards than a losing
    one, moves no more shards than any other change to balanced loads. *)
Lemma moved_least c c' cb :
  wf c → wf c' → wf cb → assigned c → assigned c' → same_groups c c' → same_groups c cb →
  one_way c c' → balanced cb → moved (Shards c) (Shards c') ≤ moved (Shards c) (Shards cb).
Proof.
  intros Hc Hc' Hb Has Has' Hsm Hsb Hone Hbal.
  assert (∀ g, live c' g ↔ live c g) as Hl by (intros; by apply same_groups_live).
  assert (∀ g, live cb g ↔ live c g) as Hlb by (intros; by apply same_groups_live).
  destruct (moved_lost c c' Hc Hc') as [HP HQ].
  { intros g [Hg|Hg]%elem_of_app; [apply Has, Hl in Hg|apply Has' in Hg]; by apply (Hone g). }
  set (P := loses (Shards c) (Shards c')) in *. set (Q := loses (Shards c') (Shards c)) in *.
  destruct (decide (moved (Shards c) (Shards c') ≤ moved (Shards c) (Shards cb))) as [|Hlt]; [done|].
  exfalso. pose proof (moved_owned P (Shards c) (Shards cb) ltac:(congruence)).
  pose proof (moved_owned Q (Shards cb) (Shards c) ltac:(congruence)). rewrite (moved_comm (Shards cb)) in *.
  destruct (owned_lt P (Shards cb) (Shards c')) as (h & Hh & Hhin & Hhlt); [lia|].
  destruct (owned_lt Q (Shards c') (Shards cb)) as (g & Hg & Hgin & Hglt); [lia|].
  assert (live c g) as Hlg by by apply Hl, Has'.
  assert (live c h) as Hlh.
  { apply loses_spec in Hh as (i & ? & Hi & _). apply Has. by eapply list_elem_of_lookup_2. }
  destruct (Hone g ltac:(by apply Hl)) as (_ & _ & _ & Hord).
  destruct (Hord h ltac:(by apply Hl)) as [?|[?|Hle]];
    [by apply loses_gain in Hg|by apply loses_loss in Hh|].
  specialize (Hbal h g ltac:(by apply Hlb) ltac:(by apply Hlb)). unfold load in *. lia.
Qed.

(** A group joins a balanced configuration: the invariant that only it gains. *)
Definition only_gains (c1 : ShardConfig) (gid : Tgid) (c : ShardConfig) : Prop :=
  live c gid ∧
  (∀ s g, Shards c !! s = Some g → g = gid ∨ Shards c1 !! s = Some g) ∧
  (∀ g h, live c g → live c h → h ≠ gid → load c g ≤ load c h + 1).

Lemma only_gains_move c1 gid c mg lg s :
  only_gains c1 gid c → balance_move c mg lg s → only_gains c1 gid (set_shard c s lg).
Proof.
  intros (Hgid & Hsh & Hold) (Hmg & Hlg & Hext & Hgap & Hs).
  assert (lg = gid) as ->.
  { destruct (decide (lg = gid)); [done|]. specialize (Hold mg lg Hmg Hlg). lia. }
  split_and!; [done| |].
  - intros i g. rewrite set_shard_lookup. case_decide; [intros [= ->]; by left|apply Hsh].
  - intros g h Hg Hh Hne. change (live c g) in Hg. change (live c h) in Hh.
    rewrite !(load_set_shard _ _ mg) by done. pose proof (Hext g Hg). pose proof (Hext h Hh).
    pose proof (Hold g h Hg Hh Hne). repeat case_decide; subst; try done; lia.
Qed.

(** ** Join, Leave and CheckConfig *)

Lemma Join_loop_fresh servers changed cfg cfg' b :
  Join_loop servers changed cfg = Ret (cfg', false, b) →
  (∀ gid, gid ∈ servers.*1 → Groups cfg !! gid = None) ∧ NoDup servers.*1 ∧
  cfg' = set_groups cfg (list_to_map servers ∪ Groups cfg) ∧
  b = (if servers is [] then changed else true).
Proof.
  revert changed cfg; induction servers as [|[gid srvs] servers IH]; intros changed cfg; simpl.
  { intros [= <- <-]. split_and!; [by intros ? ?%not_elem_of_nil|constructor| |done].
    unfold set_groups. rewrite (left_id_L ∅ (∪)). by destruct cfg. }
  destruct (Groups cfg !! gid) eqn:Hgid; [done|].
  destruct (shares_server _ _); [done|]. intros H.
  apply IH in H as (Hfr & Hnd & -> & ->). simpl in Hfr.
  assert (gid ∉ servers.*1) as Hnin.
  { intros Hin. specialize (Hfr gid Hin). by rewrite lookup_insert_eq in Hfr. }
  split_and!.
  - intros g [->|Hin]%elem_of_cons; [done|]. specialize (Hfr g Hin).
    by rewrite lookup_insert_None in Hfr; destruct Hfr.
  - by constructor.
  - unfold set_groups. simpl. f_equal. rewrite <-insert_union_r, insert_union_l; [done|].
    by apply not_elem_of_list_to_map_1.
  - by destruct servers.
Qed.

Lemma Join_true servers cfg cfg' :
  Join servers cfg = Ret (cfg', true) →
  servers ≠ [] ∧ NoDup servers.*1 ∧ (∀ gid, gid ∈ servers.*1 → Groups cfg !! gid = None) ∧
  Num cfg' = i64 (Num cfg + 1) ∧ Shards cfg' = Shards cfg ∧
  Groups cfg' = list_to_map servers ∪ Groups cfg.
Proof.
  unfold Join. intros ([[c1 early] changed] & Hloop & Hret)%rbind_Ret_inv.
  destruct early; [done|].
  apply Join_loop_fresh in Hloop as (Hfr & Hnd & -> & ->).
  destruct servers as [|gs servers]; [done|]. simplify_eq/=. by split_and!.
Qed.

Lemma Leave_loop_false gids changed cfg cfg' b :
  Leave_loop gids changed cfg = (cfg', false, b) →
  NoDup gids ∧ (∀ gid, gid ∈ gids → live cfg gid) ∧
  Num cfg' = Num cfg ∧ Shards cfg' = Shards cfg ∧
  (∀ g, live cfg' g ↔ live cfg g ∧ g ∉ gids) ∧ b = (if gids is [] then changed else true).
Proof.
  revert changed cfg; induction gids as [|gid gids IH]; intros changed cfg; simpl.
  { intros [= <- <-]. split_and!; try done; [constructor|set_solver..]. }
  destruct (Groups cfg !! gid) as [v|] eqn:Hgid; [|done].
  intros (Hnd & Hlive & Hnum & Hsh & Hl & ->)%IH. unfold live in *; simpl in *.
  assert (gid ∉ gids) as Hnin.
  { intros Hin. apply Hlive in Hin. rewrite lookup_delete_eq in Hin. by apply is_Some_None in Hin. }
  split_and!; try done.
  - by constructor.
  - intros g [->|Hin]%elem_of_cons; [by exists v|]. specialize (Hlive g Hin).
    rewrite lookup_delete_ne in Hlive by set_solver. done.
  - intros g. rewrite Hl, not_elem_of_cons. destruct (decide (gid = g)) as [->|Hne].
    + rewrite lookup_delete_eq. split; [intros [?%is_Some_None _]; done|naive_solver].
    + rewrite lookup_delete_ne by done. naive_solver.
  - by destruct gids.
Qed.

Lemma Leave_true gids cfg cfg' :
  Leave gids cfg = Ret (cfg', true) →
  gids ≠ [] ∧ (∀ gid, gid ∈ gids → live cfg gid) ∧
  Num cfg' = i64 (Num cfg + 1) ∧ Shards cfg' = Shards cfg ∧
  (∀ g, live cfg' g ↔ live cfg g ∧ g ∉ gids).
Proof.
  unfold Leave. destruct (Leave_loop gids false cfg) as [[c1 early] changed] eqn:Hloop.
  destruct early; [done|].
  apply Leave_loop_false in Hloop as (Hnd & Hlive & Hnum & Hsh & Hl & ->).
  destruct gids; [done|]. intros [= <-]. split_and!; [done..| |done|done].
  simpl. by rewrite Hnum.
Qed.

Lemma minmax_fold counts gs max min :
  ∃ max' min', fold_left (minmax_step counts) gs (max, min) = (max', min') ∧
    (max ≤ max' ∧ (∀ g, g ∈ gs → mget 0 counts g ≤ max') ∧
      (max' = max ∨ ∃ g, g ∈ gs ∧ max' = mget 0 counts g)) ∧
    (min' ≤ min ∧ (∀ g, g ∈ gs → min' ≤ mget 0 counts g) ∧
      (min' = min ∨ ∃ g, g ∈ gs ∧ min' = mget 0 counts g)).
Proof.
  revert max min; induction gs as [|g gs IH]; intros; simpl.
  { exists max, min. set_solver by lia. }
  set (mx := if bool_decide (mget 0 counts g > max) then mget 0 counts g else max).
  set (mi := if bool_decide (mget 0 counts g < min) then mget 0 counts g else min).
  destruct (IH mx mi) as (max' & min' & Heq & Hx & Hn). exists max', min'.
  split; [done|]. setoid_rewrite elem_of_cons. subst mx mi.
  repeat case_bool_decide; destruct Hx as (?&?&Hx), Hn as (?&?&Hn);
    (split; [clear Hn|clear Hx]); (split_and!; [lia|intros ? [->|?]; [lia|auto with lia]|]);
    naive_solver.
Qed.

(** The configurations that CheckConfig accepts. *)
Definition config_ok (groups : list Tgid) (c : ShardConfig) : Prop :=
  size (Groups c) = length groups ∧ (∀ g, g ∈ groups → live c g) ∧
  (groups = [] ∨ assigned c) ∧ balanced c.

Lemma balance_check c :
  wf c →
  (let '(max, min) := fold_left (minmax_step (count_shards (Shards c)))
       (map_keys (Groups c)) (0, 257) in max ≤ min + 1) ↔ balanced c.
Proof.
  intros Hwf.
  destruct (minmax_fold (count_shards (Shards c)) (map_keys (Groups c)) 0 257)
    as (mx & mi & -> & (Hx1 & Hx2 & Hx3) & (Hn1 & Hn2 & Hn3)).
  setoid_rewrite elem_of_map_keys in Hx2. setoid_rewrite elem_of_map_keys in Hn2.
  setoid_rewrite elem_of_map_keys in Hx3. setoid_rewrite elem_of_map_keys in Hn3.
  setoid_rewrite count_shards_occ in Hx2. setoid_rewrite count_shards_occ in Hn2.
  setoid_rewrite count_shards_occ in Hx3. setoid_rewrite count_shards_occ in Hn3.
  split.
  - intros Hle g h Hg Hh. specialize (Hx2 g Hg). specialize (Hn2 h Hh). unfold load. lia.
  - intros Hbal. destruct Hn3 as [->|(h & Hh & ->)].
    { destruct Hx3 as [->|(g & Hg & ->)]; [lia|]. pose proof (load_bound c g Hwf).
      unfold load in *. lia. }
    destruct Hx3 as [->|(g & Hg & ->)]; [pose proof (occ_nonneg h (Shards c)); lia|].
    apply (Hbal g h Hg Hh).
Qed.

Lemma forallb_live c l :
  forallb (λ g, bool_decide (is_Some (Groups c !! g))) l = true ↔ ∀ g, g ∈ l → live c g.
Proof.
  rewrite forallb_forall. unfold live. setoid_rewrite bool_decide_eq_true.
  setoid_rewrite list_elem_of_In. done.
Qed.

Lemma CheckConfig_iff groups c :
  wf c → CheckConfig groups c = Ret tt ↔ config_ok groups c.
Proof.
  intros Hwf. unfold CheckConfig, config_ok. rewrite <-(balance_check c Hwf).
  rewrite <-forallb_live. unfold assigned. rewrite <-forallb_live.
  case_bool_decide as Hsz; [naive_solver|].
  destruct (forallb _ groups); simpl; [|naive_solver].
  destruct (fold_left _ _ _) as [mx mi]. rewrite <-length_zero_iff_nil.
  destruct (forallb _ (Shards c)); simpl; repeat case_bool_decide; simpl; naive_solver lia.
Qed.

(** A configuration that Rebalance has produced. *)
Lemma Rebalance_ok c :
  wf c → ∃ c', Rebalance c = Ret c' ∧ same_groups c c' ∧ balanced c' ∧
    (Groups c = ∅ ∨ assigned c').
Proof.
  intros Hwf. destruct (decide (Groups c = ∅)) as [He|Hne].
  - exists (unassign_all c). unfold Rebalance.
    rewrite Groups_size, bool_decide_true by done. rewrite unassign_all_eq.
    split_and!; [done| |intros g h [v Hv]|by left].
    + split_and!; [done..|]. simpl. by rewrite length_replicate.
    + unfold live in Hv. simpl in Hv. by rewrite He, lookup_empty in Hv.
  - destruct (Rebalance_ind (λ _, True) c) as (c' & ? & ? & ? & ? & _); [done..|].
    exists c'. split_and!; auto.
Qed.

(** ** When Join succeeds *)

Lemma shares_server_false gs srvs :
  shares_server gs srvs = false ↔
  ∀ h hs x, gs !! h = Some hs → x ∈ hs → x ∉ srvs.
Proof.
  unfold shares_server. rewrite <-not_true_iff_false, existsb_exists. split.
  - intros Hno h hs x Hh Hx Hin. apply Hno. exists (h, hs).
    rewrite <-list_elem_of_In, elem_of_map_to_list. split; [done|].
    apply existsb_exists. exists x. rewrite <-list_elem_of_In. split; [done|].
    apply existsb_exists. exists x. rewrite <-list_elem_of_In, bool_decide_eq_true. done.
  - intros Hno ([h hs] & Hin & Hex). rewrite <-list_elem_of_In, elem_of_map_to_list in Hin.
    apply existsb_exists in Hex as (x & Hx%list_elem_of_In & Hex).
    apply existsb_exists in Hex as (y & Hy%list_elem_of_In & ->%bool_decide_eq_true).
    by apply (Hno h hs y).
Qed.

(** The groups to be joined are new, listed once, and share no server with a
    group of the configuration or with one another. *)
Fixpoint joinable (servers : list (Tgid * list string)) (gs : gmap Tgid (list string)) : Prop :=
  match servers with
  | [] => True
  | (gid, srvs) :: servers =>
      gs !! gid = None ∧ (∀ h hs x, gs !! h = Some hs → x ∈ hs → x ∉ srvs) ∧
      joinable servers (<[gid := srvs]> gs)
  end.

Lemma Join_loop_joinable servers changed cfg :
  joinable servers (Groups cfg) →
  Join_loop servers changed cfg =
    Ret (set_groups cfg (list_to_map servers ∪ Groups cfg), false,
         if servers is [] then changed else true).
Proof.
  intros Hj. assert (∃ cfg' b, Join_loop servers changed cfg = Ret (cfg', false, b))
    as (cfg' & b & Heq).
  { revert changed cfg Hj. induction servers as [|[gid srvs] servers IH]; intros changed cfg; simpl.
    - eauto.
    - intros (-> & Hsh%shares_server_false & Hj). rewrite Hsh.
      apply (IH true (set_groups cfg (<[gid:=srvs]> (Groups cfg)))). done. }
  rewrite Heq. by apply Join_loop_fresh in Heq as (_ & _ & -> & ->).
Qed.

Lemma Join_joinable servers cfg :
  servers ≠ [] → joinable servers (Groups cfg) →
  Join servers cfg =
    Ret ({| Num := i64 (Num cfg + 1); Shards := Shards cfg;
            Groups := list_to_map servers ∪ Groups cfg |}, true).
Proof.
  intros Hne Hj. unfold Join. rewrite Join_loop_joinable by done. by destruct servers.
Qed.

Lemma Leave_loop_live gids changed cfg :
  NoDup gids → (∀ gid, gid ∈ gids → live cfg gid) →
  ∃ cfg', Leave_loop gids changed cfg = (cfg', false, if gids is [] then changed else true).
Proof.
  intros Hnd Hl. assert (∃ cfg' b, Leave_loop gids changed cfg = (cfg', false, b))
    as (cfg' & b & Heq).
  { revert changed cfg Hl. induction Hnd as [|gid gids Hnin Hnd IH]; intros changed cfg Hl; simpl.
    - eauto.
    - destruct (Hl gid) as [v ->]; [set_solver|]. apply IH. intros g Hg. unfold live; simpl.
      rewrite lookup_delete_ne by set_solver. apply Hl. set_solver. }
  exists cfg'. rewrite Heq. by apply Leave_loop_false in Heq as (_ & _ & _ & _ & _ & ->).
Qed.

(** The result of rebalancing after a successful change. *)
Lemma Rebalance_checked c order :
  wf c → range_order (Groups c) order →
  ∃ c', Rebalance c = Ret c' ∧ same_groups c c' ∧ config_ok order c'.
Proof.
  intros Hwf Hord. destruct (Rebalance_ok c Hwf) as (c' & Heq & Hsame & Hbal & Hass).
  exists c'. split_and!; [done..|]. destruct Hsame as (_ & Hgs & _).
  unfold config_ok, live. rewrite Hgs. split_and!; [| | |done].
  - symmetry. by apply range_order_length.
  - intros g. by apply range_order_elem.
  - destruct Hass as [He|]; [left|by right].
    apply range_order_length in Hord. rewrite He, map_size_empty in Hord.
    by apply length_zero_iff_nil.
Qed.

End ShardCfg.
