(* ===== verification/ShardCfgSpec.v ===== *)
(** * Properties of the shard configuration

    The theorems about Key2Shard, Rebalance, Join, Leave and CheckConfig, each
    with a witness where it has hypotheses.  The lemmas they rest on are in
    ShardCfg.v. *)

From S2P Require Import Prelude Fnv ShardCfg.
Import ShardCfg.

(** The configuration of three groups that the joins below produce. *)
Definition cfg3 : ShardConfig :=
  {| Num := 2; Shards := [2; 3; 2; 3; 2; 3; 2; 3; 1; 1; 1; 1];
     Groups := {[ 1 := ["x"; "y"; "z"]%string; 2 := ["a"]%string; 3 := ["b"]%string ]} |}.

Example cfg3_reached :
  (let* '(c, _) := JoinBalance [(1, ["x"; "y"; "z"]%string)] MakeShardConfig in
   JoinBalance [(2, ["a"]%string); (3, ["b"]%string)] c) = Ret (cfg3, true).
Proof. vm_compute. reflexivity. Qed.

(** An unbalanced configuration: group 1 owns everything, shard 3 is unassigned. *)
Definition skewed : ShardConfig :=
  {| Num := 7; Shards := [1; 1; 1; 9; 1; 1; 1; 1; 1; 1; 1; 1];
     Groups := <[1 := ["x"]%string]> (<[2 := ["y"]%string]> ∅) |}.

(** Group 2 has just joined, and the result of rebalancing. *)
Definition all_on_1 : ShardConfig :=
  {| Num := 2; Shards := replicate NShards 1;
     Groups := {[ 1 := ["x"]%string; 2 := ["y"]%string ]} |}.
Definition half_on_1 : ShardConfig :=
  {| Num := 2; Shards := [2; 2; 2; 2; 2; 2; 1; 1; 1; 1; 1; 1];
     Groups := {[ 1 := ["x"]%string; 2 := ["y"]%string ]} |}.

Lemma skewed_nonempty : Groups skewed ≠ ∅.
Proof. apply insert_non_empty. Qed.

Lemma cfg3_assigned : assigned cfg3.
Proof.
  unfold assigned. rewrite <-list.Forall_forall. unfold live.
  repeat (constructor; [by eexists|]). constructor.
Qed.

Lemma cfg3_nonempty : Groups cfg3 ≠ ∅.
Proof. apply insert_non_empty. Qed.

Lemma cfg3_balanced : balanced cfg3.
Proof.
  apply balance_check; [reflexivity|]. vm_compute. discriminate.
Qed.

(** C1. Rebalance always terminates within its fuel when the configuration has
    groups, and then every shard belongs to a live group, no group is loaded more
    than one shard above another, and the number and the groups of the
    configuration are unchanged. *)
Theorem Rebalance_balances c :
  wf c → Groups c ≠ ∅ →
  ∃ c', Rebalance c = Ret c' ∧ Num c' = Num c ∧ Groups c' = Groups c ∧ wf c' ∧
    (∀ s g, Shards c' !! s = Some g → is_Some (Groups c !! g)) ∧
    (∀ g h, is_Some (Groups c !! g) → is_Some (Groups c !! h) →
      occ g (Shards c') ≤ occ h (Shards c') + 1).
Proof.
  intros Hwf Hne.
  destruct (Rebalance_ind (λ _, True) c) as (c' & Heq & Hsame & Hass & Hbal & _); [done..|].
  destruct Hsame as (Hnum & Hgs & Hlen). exists c'. split_and!; try done.
  - by unfold wf; rewrite Hlen.
  - intros s g Hs%list_elem_of_lookup_2%Hass. unfold live in Hs. by rewrite Hgs in Hs.
  - intros g h Hg Hh. apply Hbal; unfold live; by rewrite Hgs.
Qed.

Lemma Rebalance_balances_witness :
  ∃ c', Rebalance skewed = Ret c' ∧ Num c' = 7 ∧ wf c' ∧
    occ 1 (Shards c') ≤ occ 2 (Shards c') + 1.
Proof.
  destruct (Rebalance_balances skewed eq_refl skewed_nonempty)
    as (c' & ? & ? & ? & ? & ? & Hb).
  exists c'. split_and!; try assumption. apply Hb; by eexists.
Defined.

(** C2. Rebalance moves as few shards as possible: starting from a configuration
    whose shards all belong to live groups, every balanced assignment of the shards to
    the same groups differs from the old one in at least as many shards as the result
    does; and no group both receives and gives up shards. *)
Theorem Rebalance_moves_fewest c c' :
  wf c → Groups c ≠ ∅ → assigned c → Rebalance c = Ret c' →
  (∀ cb, wf cb → same_groups c cb → balanced cb →
     moved (Shards c) (Shards c') ≤ moved (Shards c) (Shards cb)) ∧
  ∀ g, is_Some (Groups c !! g) → no_gain c c' g ∨ no_loss c c' g.
Proof.
  intros Hwf Hne Hass Heq.
  destruct (Rebalance_ind (one_way c) c) as (c1 & Heq' & Hsame & Has1 & _ & H); try done.
  - rewrite assign_unassigned_id by done. intros h _. unfold no_gain, no_loss. naive_solver.
  - intros ???? _. apply one_way_move.
  - rewrite Heq' in Heq. simplify_eq. split.
    + intros cb Hcb Hsb. apply moved_least; try done. by eapply same_groups_wf.
    + intros g Hg. apply H. by eapply same_groups_live.
Qed.

(** From all shards on group 1: another way to share them. *)
Definition other_half : ShardConfig :=
  {| Num := 2; Shards := [1; 2; 1; 2; 1; 2; 1; 2; 1; 2; 1; 2];
     Groups := {[ 1 := ["x"]%string; 2 := ["y"]%string ]} |}.

Lemma Rebalance_moves_fewest_witness :
  moved (Shards all_on_1) (Shards half_on_1) ≤ moved (Shards all_on_1) (Shards other_half) ∧
  (no_gain all_on_1 half_on_1 1 ∨ no_loss all_on_1 half_on_1 1).
Proof.
  destruct (Rebalance_moves_fewest all_on_1 half_on_1) as [H1 H2];
    [reflexivity| | |vm_compute; reflexivity|].
  - apply insert_non_empty.
  - unfold assigned. rewrite <-list.Forall_forall. unfold live.
    repeat (constructor; [by eexists|]). constructor.
  - split; [apply H1|apply H2; by eexists]; [reflexivity|by split_and!|].
    apply balance_check; [reflexivity|]. vm_compute. discriminate.
Defined.

(** Rebalance is stable: a configuration that is assigned and balanced is
    returned unchanged, so rebalancing twice is rebalancing once. *)
Theorem Rebalance_stable c :
  wf c → Groups c ≠ ∅ → assigned c → balanced c → Rebalance c = Ret c.
Proof.
  intros Hwf Hne Hass Hbal. unfold Rebalance.
  rewrite Groups_size, bool_decide_false, assign_unassigned_id by done.
  by apply balance_loop_id.
Qed.

Lemma Rebalance_stable_witness : Rebalance cfg3 = Ret cfg3.
Proof.
  apply (Rebalance_stable cfg3 eq_refl cfg3_nonempty cfg3_assigned cfg3_balanced).
Defined.

(** A group that joins an assigned and balanced configuration: afterwards
    every shard is where it was or belongs to the new group. *)
Theorem Join_moves_only_to_new gid srvs cfg cfg' :
  wf cfg → assigned cfg → balanced cfg →
  JoinBalance [(gid, srvs)] cfg = Ret (cfg', true) →
  ∀ s g, Shards cfg' !! s = Some g → g = gid ∨ Shards cfg !! s = Some g.
Proof.
  intros Hwf Hass Hbal Hjoin. unfold JoinBalance in Hjoin.
  apply rbind_Ret_inv in Hjoin as ([c1 ok] & Hj & Hjoin).
  destruct ok; simpl in Hjoin; [|done].
  apply rbind_Ret_inv in Hjoin as (c2 & Hreb & [= <-]).
  apply Join_true in Hj as (_ & _ & Hfr & _ & Hsh & Hgs).
  specialize (Hfr gid ltac:(set_solver)). simpl in Hgs. rewrite <-insert_union_l in Hgs.
  rewrite (left_id_L ∅ (∪)) in Hgs.
  assert (∀ g, live c1 g ↔ g = gid ∨ live cfg g) as Hlive.
  { intros g. unfold live. rewrite Hgs, lookup_insert_is_Some'. naive_solver. }
  assert (load c1 gid = 0) as Hld.
  { unfold load. rewrite Hsh. destruct (decide (gid ∈ Shards cfg)) as [Hin|Hin].
    - apply Hass in Hin. unfold live in Hin. rewrite Hfr in Hin. by apply is_Some_None in Hin.
    - rewrite <-occ_pos in Hin. pose proof (occ_nonneg gid (Shards cfg)). lia. }
  assert (wf c1) as Hwf1 by (unfold wf; by rewrite Hsh).
  assert (Groups c1 ≠ ∅) as Hne by (rewrite Hgs; apply insert_non_empty).
  destruct (Rebalance_ind (only_gains c1 gid) c1) as (c3 & Heq & _ & _ & _ & H3); [done|done| | |].
  - rewrite assign_unassigned_id; [|done|done|intros g; rewrite Hsh, Hlive; right; by apply Hass].
    split_and!; [by apply Hlive; left|by right|].
    intros g h Hg [->|Hh]%Hlive Hngid; [done|]. apply Hlive in Hg as [->|Hg].
    + rewrite Hld. pose proof (load_bound c1 h Hwf1). lia.
    + unfold load. rewrite Hsh. by apply Hbal.
  - intros ???? _. apply only_gains_move.
  - rewrite Heq in Hreb. simplify_eq. destruct H3 as (_ & H3 & _). intros s g Hs.
    rewrite <-Hsh. by apply H3.
Qed.

Lemma Join_moves_only_to_new_witness :
  ∃ cfg', JoinBalance [(4, ["d"]%string)] cfg3 = Ret (cfg', true) ∧
    (Shards cfg' !! 3%nat = Some 3 ∨ Shards cfg' !! 3%nat = Some 4).
Proof.
  eexists. split; [vm_compute; reflexivity|].
  match goal with |- Shards ?c !! _ = _ ∨ _ =>
    destruct (Join_moves_only_to_new 4 ["d"]%string cfg3 c
      eq_refl cfg3_assigned cfg3_balanced ltac:(vm_compute; reflexivity) 3%nat 3) as [H|H]
  end; [vm_compute; reflexivity|discriminate H|left; reflexivity].
Defined.

(** C5. JoinBalance of new groups that share no server succeeds: the number goes
    up by one, the groups are the old and the new ones, and the tester's
    CheckConfig accepts the result, in whatever order it lists the groups. *)
Theorem JoinBalance_checked servers cfg order :
  wf cfg → servers ≠ [] → joinable servers (Groups cfg) →
  range_order (list_to_map servers ∪ Groups cfg) order →
  ∃ cfg', JoinBalance servers cfg = Ret (cfg', true) ∧
    Num cfg' = i64 (Num cfg + 1) ∧ Groups cfg' = list_to_map servers ∪ Groups cfg ∧
    CheckConfig order cfg' = Ret tt.
Proof.
  intros Hwf Hne Hj Hord. unfold JoinBalance. rewrite Join_joinable by done. simpl.
  edestruct Rebalance_checked as (c' & -> & Hsame & Hok); [|exact Hord|]; [exact Hwf|].
  exists c'. pose proof (same_groups_wf _ _ Hsame Hwf).
  destruct Hsame as (Hnum & Hgs & _). simpl in *.
  split_and!; try done. by apply CheckConfig_iff.
Qed.

Lemma JoinBalance_checked_witness :
  ∃ cfg', JoinBalance [(4, ["d"]%string)] cfg3 = Ret (cfg', true) ∧
    CheckConfig [4; 3; 2; 1] cfg' = Ret tt.
Proof.
  destruct (JoinBalance_checked [(4, ["d"]%string)] cfg3 [4; 3; 2; 1])
    as (cfg' & ? & _ & _ & ?); [reflexivity|discriminate| | |exists cfg'; by split].
  - simpl. split_and!; [reflexivity| |exact I].
    apply shares_server_false. vm_compute. reflexivity.
  - unfold range_order. apply (bool_decide_unpack _). vm_compute. exact I.
Defined.

(** C6. LeaveBalance of distinct groups of the configuration succeeds: the number
    goes up by one, exactly those groups are gone, and CheckConfig accepts the
    result; when the last group leaves, every shard is unassigned. *)
Theorem LeaveBalance_checked gids cfg :
  wf cfg → gids ≠ [] → NoDup gids → (∀ g, g ∈ gids → is_Some (Groups cfg !! g)) →
  ∃ cfg', LeaveBalance gids cfg = Ret (cfg', true) ∧ Num cfg' = i64 (Num cfg + 1) ∧
    (∀ g, is_Some (Groups cfg' !! g) ↔ is_Some (Groups cfg !! g) ∧ g ∉ gids) ∧
    CheckConfig (map_keys (Groups cfg')) cfg' = Ret tt ∧
    (Groups cfg' = ∅ → Shards cfg' = replicate NShards 0).
Proof.
  intros Hwf Hne Hnd Hl. unfold LeaveBalance, Leave.
  destruct (Leave_loop_live gids false cfg Hnd Hl) as (c1 & Heq). rewrite Heq.
  apply Leave_loop_false in Heq as (_ & _ & Hnum & Hsh & Hlive & _).
  set (c2 := set_num c1 (i64 (Num c1 + 1))).
  assert (wf c2) as Hwf2 by (unfold wf; simpl; by rewrite Hsh).
  destruct (Rebalance_checked c2 (map_keys (Groups c2)) Hwf2) as (c' & Hreb & Hsame & Hok);
    [apply range_order_refl|].
  exists c'. destruct gids as [|gid gids]; [done|]. simpl. fold c2. rewrite Hreb.
  pose proof (same_groups_wf _ _ Hsame Hwf2). destruct Hsame as (Hnum' & Hgs & _).
  rewrite Hgs. split_and!; [done| |done| |].
  - rewrite Hnum'. simpl. by rewrite Hnum.
  - by apply CheckConfig_iff.
  - intros He. unfold Rebalance in Hreb.
    rewrite Groups_size, bool_decide_true, unassign_all_eq in Hreb by done.
    simplify_eq. simpl. rewrite Hsh. by rewrite Hwf.
Qed.

Lemma LeaveBalance_checked_witness :
  ∃ cfg', LeaveBalance [1] cfg3 = Ret (cfg', true) ∧
    CheckConfig (map_keys (Groups cfg')) cfg' = Ret tt.
Proof.
  destruct (LeaveBalance_checked [1] cfg3) as (cfg' & ? & _ & _ & ? & _);
    [reflexivity|discriminate|repeat constructor; set_solver| |exists cfg'; by split].
  intros g ->%list_elem_of_singleton. by eexists.
Defined.

(** The life of a configuration: it is made empty and changed by successful
    JoinBalance and LeaveBalance calls. *)
Inductive cfg_step : ShardConfig → ShardConfig → Prop :=
| step_join servers c c' : JoinBalance servers c = Ret (c', true) → cfg_step c c'
| step_leave gids c c' : LeaveBalance gids c = Ret (c', true) → cfg_step c c'.

Lemma JoinBalance_inv servers c c' :
  JoinBalance servers c = Ret (c', true) →
  ∃ c1, Shards c1 = Shards c ∧ Num c1 = i64 (Num c + 1) ∧ Rebalance c1 = Ret c'.
Proof.
  unfold JoinBalance. intros ([c1 ok] & Hj & Hr)%rbind_Ret_inv. destruct ok; [|done].
  simpl in Hr. apply rbind_Ret_inv in Hr as (c2 & Hr & [= ->]).
  apply Join_true in Hj as (_&_&_&?&?&_). by exists c1.
Qed.

Lemma LeaveBalance_inv gids c c' :
  LeaveBalance gids c = Ret (c', true) →
  ∃ c1, Shards c1 = Shards c ∧ Num c1 = i64 (Num c + 1) ∧ Rebalance c1 = Ret c'.
Proof.
  unfold LeaveBalance. intros ([c1 ok] & Hj & Hr)%rbind_Ret_inv. destruct ok; [|done].
  simpl in Hr. apply rbind_Ret_inv in Hr as (c2 & Hr & [= ->]).
  apply Leave_true in Hj as (_&_&?&?&_). by exists c1.
Qed.

(** C7. Every configuration that is reached from MakeShardConfig by successful
    JoinBalance and LeaveBalance calls has a full array of shards and passes
    CheckConfig for its own groups. *)
Theorem reachable_checked c :
  rtc cfg_step MakeShardConfig c →
  wf c ∧ CheckConfig (map_keys (Groups c)) c = Ret tt.
Proof.
  intros Hrtc. enough (wf c ∧ config_ok (map_keys (Groups c)) c) as [? ?]
    by by rewrite CheckConfig_iff.
  revert c Hrtc. apply rtc_ind_r; [|intros c c' _ Hstep [Hwf _]].
  { split; [done|]. apply CheckConfig_iff; [done|]. vm_compute. done. }
  assert (∃ c1, Shards c1 = Shards c ∧ Rebalance c1 = Ret c') as (c1 & Hsh & Hreb).
  { destruct Hstep as [??? (c1 & ? & _ & ?)%JoinBalance_inv|??? (c1 & ? & _ & ?)%LeaveBalance_inv];
      by exists c1. }
  assert (wf c1) as Hwf1 by (unfold wf; by rewrite Hsh).
  destruct (Rebalance_checked c1 (map_keys (Groups c1)) Hwf1) as (c'' & Heq & Hsame & Hok);
    [apply range_order_refl|].
  rewrite Heq in Hreb. simplify_eq. split; [by eapply same_groups_wf|].
  by destruct Hsame as (_ & -> & _).
Qed.

Lemma reachable_checked_witness : CheckConfig (map_keys (Groups cfg3)) cfg3 = Ret tt.
Proof.
  apply (reachable_checked cfg3). eapply rtc_l; [|eapply rtc_once].
  - eapply (step_join [(1, ["x"; "y"; "z"]%string)]). vm_compute. reflexivity.
  - eapply (step_join [(2, ["a"]%string); (3, ["b"]%string)]). vm_compute. reflexivity.
Defined.

(** What a refused Join leaves behind: when Join returns false, the number and
    the shards are unchanged, but the groups that the iteration met before the
    group that is already present have been added.  (Called with one group, as the
    tester does, a refused Join changes nothing: [pre] is empty.) *)
Theorem Join_refused servers cfg cfg' :
  Join servers cfg = Ret (cfg', false) →
  ∃ pre gid srvs post, servers = pre ++ (gid, srvs) :: post ∧
    (∀ g, g ∈ pre.*1 → Groups cfg !! g = None) ∧
    Num cfg' = Num cfg ∧ Shards cfg' = Shards cfg ∧
    Groups cfg' = list_to_map pre ∪ Groups cfg ∧ is_Some (Groups cfg' !! gid).
Proof.
  unfold Join. intros ([[c1 early] changed] & Hloop & Hret)%rbind_Ret_inv.
  destruct early; [|by destruct changed]. simplify_eq. revert cfg changed Hloop.
  generalize false as ch. induction servers as [|[gid srvs] servers IH]; intros ch cfg changed; [done|].
  simpl. destruct (Groups cfg !! gid) as [v|] eqn:Hgid.
  - intros [= -> ->]. exists [], gid, srvs, servers. simpl.
    rewrite (left_id_L ∅ (∪)). split_and!; try done.
    by intros ? ?%not_elem_of_nil.
  - destruct (shares_server _ _); [done|].
    intros (pre & g & ss & post & -> & Hfr & Hn & Hs & Hg & Hsome)%IH.
    exists ((gid, srvs) :: pre), g, ss, post. simpl in Hfr.
    assert (gid ∉ pre.*1) as Hnin.
    { intros Hin. specialize (Hfr gid Hin). by rewrite lookup_insert_eq in Hfr. }
    split_and!; try done.
    + simpl. intros h [->|Hin]%elem_of_cons; [done|]. specialize (Hfr h Hin).
      by apply lookup_insert_None in Hfr as [??].
    + rewrite Hg. simpl. rewrite <-insert_union_r, insert_union_l; [done|].
      by apply not_elem_of_list_to_map_1.
Qed.

(** Group 4 stays in the configuration although the call is refused. *)
Definition refused_cfg : ShardConfig :=
  {| Num := 2; Shards := [2; 3; 2; 3; 2; 3; 2; 3; 1; 1; 1; 1];
     Groups := <[4 := ["d"]%string]>
       {[ 1 := ["x"; "y"; "z"]%string; 2 := ["a"]%string; 3 := ["b"]%string ]} |}.

Lemma Join_refused_witness :
  ∃ pre gid srvs post, [(4, ["d"]%string); (1, ["e"]%string)] = pre ++ (gid, srvs) :: post ∧
    Groups refused_cfg = list_to_map pre ∪ Groups cfg3 ∧ is_Some (Groups refused_cfg !! 4).
Proof.
  destruct (Join_refused [(4, ["d"]%string); (1, ["e"]%string)] cfg3 refused_cfg)
    as (pre & gid & srvs & post & ? & _ & _ & _ & ? & _); [vm_compute; reflexivity|].
  exists pre, gid, srvs, post. split_and!; [assumption..|by eexists].
Defined.

(** C9. Key2Shard maps every key, of any bytes, to a shard of the configuration,
    so GidServers of a key's shard never panics and finds the group of the shard
    in an assigned configuration. *)
Theorem Key2Shard_routes key cfg :
  wf cfg → assigned cfg →
  0 ≤ Key2Shard key < Z.of_nat NShards ∧
  ∃ gid srvs, GidServers (Key2Shard key) cfg = Ret (gid, srvs, true) ∧
    Groups cfg !! gid = Some srvs.
Proof.
  intros Hwf Hass.
  assert (0 ≤ Key2Shard key < Z.of_nat NShards) as Hr.
  { unfold Key2Shard. rewrite Sum32a_i64.
    pose proof (Sum32a_range (String.list_byte_of_string key)) as [H0 _].
    pose proof (Z.rem_bound_pos _ 12 H0 ltac:(lia)) as Hb.
    change (Z.of_nat NShards) with 12. rewrite i64_id; [done|]. unfold two63. lia. }
  split; [done|]. unfold GidServers, slice_get. rewrite decide_True by lia.
  destruct (lookup_lt_is_Some_2 (Shards cfg) (Z.to_nat (Key2Shard key))) as [g Hg].
  { unfold wf in Hwf. lia. }
  rewrite Hg. simpl. destruct (Hass g) as [srvs Hs].
  { by eapply list_elem_of_lookup_2. }
  rewrite Hs. eauto.
Qed.

Lemma Key2Shard_routes_witness :
  ∃ gid srvs, GidServers (Key2Shard "a") cfg3 = Ret (gid, srvs, true).
Proof.
  destruct (Key2Shard_routes "a" cfg3 eq_refl cfg3_assigned) as (_ & gid & srvs & H & _).
  by exists gid, srvs.
Defined.
