(* ===== verification/LabRpc.v ===== *)
(** * The simulated network (labrpc/labrpc.go): registry and dispatch

    [Network] is the registry of client ends, servers and connections that the
    tester manipulates; [Server] and [Service] find the handler of an RPC.  The
    life of a request through the network is in NetRpc.v.

    End and server names are strings throughout the repository (the code declares
    them [interface{}]).  A [*Server] is a location: the code compares server
    pointers ([isServerDead]).  A nil pointer or nil interface value is [None].
    Every operation of the registry runs under [rn.mu] and is one function. *)

From Stdlib Require Import Ascii.
From S2P Require Import Prelude.

Notation bytes := (list byte).

Module LabRpc.

Definition SHORTDELAY : Z := 27.
Definition LONGDELAY : Z := 7000.
Definition MAXDELAY : Z := LONGDELAY + 100.

Record reqMsg := ReqMsg {
  rq_endname : string;
  rq_svcMeth : string;
  rq_args : bytes
}.

Record replyMsg := ReplyMsg {
  rp_ok : bool;
  rp_reply : bytes
}.

Global Instance replyMsg_eq_dec : EqDecision replyMsg.
Proof. solve_decision. Defined.

(** [replyMsg{false, nil}]. *)
Definition failReply : replyMsg := {| rp_ok := false; rp_reply := [] |}.

(** Pointer to a [Server] object. *)
Notation srvptr := nat.

Record Network := MkNetwork {
  reliable : bool;
  longDelays : bool;
  longReordering : bool;
  ends : gset string;                         (** names with a ClientEnd *)
  enabled : gmap string bool;
  servers : gmap string (option srvptr);
  connections : gmap string (option string);
  done : bool;                                (** channel closed by Cleanup *)
  count : Z;                                  (** int32 *)
  bytesSent : Z                               (** int64 *)
}.

Definition MakeNetwork : Network :=
  {| reliable := true; longDelays := false; longReordering := false;
     ends := ∅; enabled := ∅; servers := ∅; connections := ∅;
     done := false; count := 0; bytesSent := 0 |}.

(** ** Setters of the record *)

Definition set_reliable (b : bool) (rn : Network) : Network :=
  MkNetwork b (longDelays rn) (longReordering rn) (ends rn) (enabled rn) (servers rn)
    (connections rn) (done rn) (count rn) (bytesSent rn).
Definition set_enabled (m : gmap string bool) (rn : Network) : Network :=
  MkNetwork (reliable rn) (longDelays rn) (longReordering rn) (ends rn) m (servers rn)
    (connections rn) (done rn) (count rn) (bytesSent rn).
Definition set_servers (m : gmap string (option srvptr)) (rn : Network) : Network :=
  MkNetwork (reliable rn) (longDelays rn) (longReordering rn) (ends rn) (enabled rn) m
    (connections rn) (done rn) (count rn) (bytesSent rn).
Definition set_connections (m : gmap string (option string)) (rn : Network) : Network :=
  MkNetwork (reliable rn) (longDelays rn) (longReordering rn) (ends rn) (enabled rn)
    (servers rn) m (done rn) (count rn) (bytesSent rn).
Definition set_ends (e : gset string) (rn : Network) : Network :=
  MkNetwork (reliable rn) (longDelays rn) (longReordering rn) e (enabled rn) (servers rn)
    (connections rn) (done rn) (count rn) (bytesSent rn).
Definition set_stats (c b : Z) (rn : Network) : Network :=
  MkNetwork (reliable rn) (longDelays rn) (longReordering rn) (ends rn) (enabled rn)
    (servers rn) (connections rn) (done rn) c b.

(** ** The operations of the registry *)

(** A second Cleanup closes a closed channel, which panics. *)
Definition Cleanup (rn : Network) : res Network :=
  if done rn then Stop Panic
  else Ret (MkNetwork (reliable rn) (longDelays rn) (longReordering rn) (ends rn)
    (enabled rn) (servers rn) (connections rn) true (count rn) (bytesSent rn)).

Definition Reliable (yes : bool) (rn : Network) : Network := set_reliable yes rn.
Definition IsReliable (rn : Network) : bool := reliable rn.

Definition LongReordering (yes : bool) (rn : Network) : Network :=
  MkNetwork (reliable rn) (longDelays rn) yes (ends rn) (enabled rn) (servers rn)
    (connections rn) (done rn) (count rn) (bytesSent rn).

Definition LongDelays (yes : bool) (rn : Network) : Network :=
  MkNetwork (reliable rn) yes (longReordering rn) (ends rn) (enabled rn) (servers rn)
    (connections rn) (done rn) (count rn) (bytesSent rn).

Definition IsLongDelays (rn : Network) : bool := longDelays rn.

(** (enabled, servername, server, reliable, longreordering) *)
Definition readEndnameInfo (endname : string) (rn : Network) :
    bool * option string * option srvptr * bool * bool :=
  let en := mget false (enabled rn) endname in
  let servername := mget None (connections rn) endname in
  let server :=
    match servername with
    | Some sn => mget None (servers rn) sn
    | None => None
    end in
  (en, servername, server, reliable rn, longReordering rn).

Definition isServerDead (endname servername : string) (server : srvptr) (rn : Network) : bool :=
  bool_decide (mget false (enabled rn) endname = false) ||
  bool_decide (mget None (servers rn) servername ≠ Some server).

(** The new end is disabled and connected to nothing. *)
Definition MakeEnd (endname : string) (rn : Network) : res Network :=
  if bool_decide (endname ∈ ends rn) then Stop LogFatal
  else Ret (set_connections (<[endname := None]> (connections rn))
             (set_enabled (<[endname := false]> (enabled rn))
               (set_ends ({[endname]} ∪ ends rn) rn))).

Definition LookupEnd (endname : string) (rn : Network) : res string :=
  if bool_decide (endname ∈ ends rn) then Ret endname else Stop LogFatal.

Definition DeleteEnd (endname : string) (rn : Network) : res Network :=
  if bool_decide (endname ∈ ends rn) then
    Ret (set_connections (delete endname (connections rn))
          (set_enabled (delete endname (enabled rn))
            (set_ends (ends rn ∖ {[endname]}) rn)))
  else Stop LogFatal.

Definition AddServer (servername : string) (rs : srvptr) (rn : Network) : Network :=
  set_servers (<[servername := Some rs]> (servers rn)) rn.

Definition DeleteServer (servername : string) (rn : Network) : Network :=
  set_servers (<[servername := None]> (servers rn)) rn.

Definition Connect (endname servername : string) (rn : Network) : Network :=
  set_connections (<[endname := Some servername]> (connections rn)) rn.

Definition Enable (endname : string) (en : bool) (rn : Network) : Network :=
  set_enabled (<[endname := en]> (enabled rn)) rn.

Definition GetTotalCount (rn : Network) : Z := count rn.
Definition GetTotalBytes (rn : Network) : Z := bytesSent rn.

(** The network goroutine's bookkeeping for an accepted request, and the one of a
    delivered reply. *)
Definition count_request (req : reqMsg) (rn : Network) : Network :=
  set_stats (i32 (count rn + 1)) (i64 (bytesSent rn + Z.of_nat (length (rq_args req)))) rn.
Definition count_reply (r : replyMsg) (rn : Network) : Network :=
  set_stats (count rn) (i64 (bytesSent rn + Z.of_nat (length (rp_reply r)))) rn.

(** ** Services and servers *)

(** What reflection shows of a method of a receiver: its name, whether it is
    exported, its signature, and its behaviour on the receiver's state [S]:
    decoding of the argument (None when gob reports an error), the zero value of
    the reply, the method itself and the encoding of the reply. *)
Record Method (S : Type) := MkMethod {
  m_name : string;
  m_pkgpath : string;
  m_numIn : Z;
  m_in2ptr : bool;
  m_numOut : Z;
  m_args : Type;
  m_replyT : Type;
  m_decode : bytes → option m_args;
  m_zero : m_replyT;
  m_func : S → m_args → m_replyT → S * m_replyT;
  m_encode : m_replyT → bytes
}.
Arguments MkMethod {S}.
Arguments m_name {S} _.
Arguments m_pkgpath {S} _.
Arguments m_numIn {S} _.
Arguments m_in2ptr {S} _.
Arguments m_numOut {S} _.

Record Service (S : Type) := MkService {
  svc_name : string;
  svc_methods : gmap string (Method S)
}.
Arguments MkService {S}.
Arguments svc_name {S} _.
Arguments svc_methods {S} _.

Record Server (S : Type) := MkServer {
  services : gmap string (Service S);
  srv_count : Z;
  dispatchf : option (S → string → bytes → S * (bytes * bool))
}.
Arguments MkServer {S}.
Arguments services {S} _.
Arguments srv_count {S} _.
Arguments dispatchf {S} _.

Section dispatch.
Context {S : Type}.
Implicit Types (svc : Service S) (rs : Server S).

(** Is the method suitable for a handler? *)
Definition is_handler (m : Method S) : bool :=
  bool_decide (m_pkgpath m = ""%string) && bool_decide (m_numIn m = 3) &&
  m_in2ptr m && bool_decide (m_numOut m = 0).

(** MakeService: the methods of the receiver's type, in the order of reflection. *)
Definition MakeService (name : string) (methods : list (Method S)) : Service S :=
  {| svc_name := name;
     svc_methods := fold_left (λ ms m,
       if is_handler m then <[m_name m := m]> ms else ms) methods ∅ |}.

Definition MakeServer : Server S :=
  {| services := ∅; srv_count := 0; dispatchf := None |}.

Definition SetDispatch (f : S → string → bytes → S * (bytes * bool)) rs : Server S :=
  {| services := services rs; srv_count := srv_count rs; dispatchf := Some f |}.

Definition AddService svc rs : Server S :=
  {| services := <[svc_name svc := svc]> (services rs); srv_count := srv_count rs;
     dispatchf := dispatchf rs |}.

Definition GetCount rs : Z := srv_count rs.
(** GetCount of the network, with its server objects; it locks the mutex of the server, so a
    server that is not there (a nil pointer) panics. *)
Definition net_GetCount (objs : srvptr → Server S) (servername : string) (rn : Network) : res Z :=
  match mget None (servers rn) servername with Some p => Ret (GetCount (objs p)) | None => Stop Panic end.

(** [strings.LastIndex(s, ".")] *)
Fixpoint LastIndexDot (s : string) : Z :=
  match s with
  | EmptyString => -1
  | String a s' =>
      let r := LastIndexDot s' in
      if bool_decide (r < 0) then (if bool_decide (a = "."%char) then 0 else -1) else r + 1
  end.

(** [s[:dot]] and [s[dot+1:]]; a negative [dot] is out of range. *)
Definition split_svcMeth (s : string) : res (string * string) :=
  let dot := LastIndexDot s in
  if bool_decide (dot < 0) then Stop Panic
  else Ret (String.substring 0 (Z.to_nat dot) s,
            String.substring (Z.to_nat dot + 1) (String.length s - (Z.to_nat dot + 1)) s).

(** Service.dispatch: decode the argument, call the method, encode the reply. *)
Definition svc_dispatch svc (methname : string) (req : reqMsg) (st : S) : res (S * replyMsg) :=
  match svc_methods svc !! methname with
  | Some m =>
      match m_decode S m (rq_args req) with
      | None => Stop LogFatal
      | Some args =>
          let '(st', replyv) := m_func S m st args (m_zero S m) in
          Ret (st', {| rp_ok := true; rp_reply := m_encode S m replyv |})
      end
  | None => Stop LogFatal
  end.

(** Server.dispatch: count the RPC, find the service, and hand the request to the
    dispatch function when one is set, to the service otherwise. *)
Definition srv_dispatch (req : reqMsg) rs (st : S) : res (Server S * S * replyMsg) :=
  let rs := {| services := services rs; srv_count := i64 (srv_count rs + 1);
               dispatchf := dispatchf rs |} in
  let* '(serviceName, methodName) := split_svcMeth (rq_svcMeth req) in
  match dispatchf rs with
  | Some f =>
      let '(st', (rep, ok)) := f st (rq_svcMeth req) (rq_args req) in
      Ret (rs, st', {| rp_ok := ok; rp_reply := rep |})
  | None =>
      match services rs !! serviceName with
      | Some svc =>
          let* '(st', rep) := svc_dispatch svc methodName req st in Ret (rs, st', rep)
      | None => Stop LogFatal
      end
  end.

(** Dispatch, the entry point of the socket server: (reply, ok). *)
Definition Dispatch (svcMeth clnt : string) (args : bytes) rs (st : S) :
    res (Server S * S * (bytes * bool)) :=
  let req := {| rq_endname := clnt; rq_svcMeth := svcMeth; rq_args := args |} in
  let* '(rs', st', rep) := srv_dispatch req rs st in
  Ret (rs', st', (rp_reply rep, rp_ok rep)).
End dispatch.

(** ** Lemmas: splitting the method name, routing to the handler *)

(** A name without a dot, as a Go identifier is. *)
Definition no_dot (s : string) : Prop := "."%char ∉ String.list_ascii_of_string s.

Lemma LastIndexDot_ge s : -1 ≤ LastIndexDot s.
Proof. induction s as [|a s IH]; simpl; repeat case_bool_decide; lia. Qed.

Lemma LastIndexDot_no_dot s : no_dot s → LastIndexDot s = -1.
Proof.
  unfold no_dot. induction s as [|a s IH]; simpl; [done|].
  rewrite not_elem_of_cons. intros [Ha Hs]. rewrite (IH Hs). simpl.
  by rewrite bool_decide_false by congruence.
Qed.

Lemma LastIndexDot_app svc meth :
  no_dot meth → LastIndexDot (svc +:+ ("." +:+ meth)) = Z.of_nat (String.length svc).
Proof.
  intros Hm. induction svc as [|a svc IH].
  - change (("" +:+ ("." +:+ meth))%string) with (String "." meth).
    simpl LastIndexDot. by rewrite LastIndexDot_no_dot.
  - change ((String a svc +:+ ("." +:+ meth))%string) with (String a (svc +:+ ("." +:+ meth))).
    simpl LastIndexDot. rewrite IH. case_bool_decide; simpl; lia.
Qed.

Lemma substring_all s : String.substring 0 (String.length s) s = s.
Proof. induction s as [|a s IH]; simpl; [done|by rewrite IH]. Qed.

Lemma substring_app_l s1 s2 : String.substring 0 (String.length s1) (s1 +:+ s2) = s1.
Proof. induction s1 as [|a s1 IH]; simpl; [by destruct s2|by f_equal]. Qed.

Lemma substring_app_r s1 s2 n m :
  String.substring (String.length s1 + n) m (s1 +:+ s2) = String.substring n m s2.
Proof. induction s1 as [|a s1 IH]; simpl; done. Qed.

Lemma length_string_app s1 s2 :
  String.length (s1 +:+ s2) = (String.length s1 + String.length s2)%nat.
Proof. induction s1 as [|a s1 IH]; simpl; [done|by rewrite IH]. Qed.

Lemma split_svcMeth_app svc meth :
  no_dot meth → split_svcMeth (svc +:+ ("." +:+ meth)) = Ret (svc, meth).
Proof.
  intros Hm. unfold split_svcMeth. rewrite LastIndexDot_app by done.
  rewrite bool_decide_false by lia. rewrite Nat2Z.id, substring_app_l, substring_app_r.
  do 3 f_equal. rewrite length_string_app. simpl.
  change (("" +:+ meth)%string) with meth.
  replace (String.length svc + _ - _)%nat with (String.length meth) by lia.
  apply substring_all.
Qed.

Section dispatch_lemmas.
Context {S : Type}.

Lemma MakeService_lookup_other name n (methods : list (Method S)) :
  (∀ m, m ∈ methods → m_name m ≠ n) → svc_methods (MakeService name methods) !! n = None.
Proof.
  unfold MakeService. simpl. intros Hn. assert ((∅ : gmap string (Method S)) !! n = None) as H0
    by apply lookup_empty. revert H0 Hn. generalize (∅ : gmap string (Method S)).
  induction methods as [|m ms IH]; intros acc H0 Hn; simpl; [done|].
  apply IH; [|set_solver]. destruct (is_handler m); [|done].
  rewrite lookup_insert_ne; [done|]. apply Hn. set_solver.
Qed.

(** The methods that can be called are exactly the suitable ones. *)
Lemma MakeService_lookup name (methods : list (Method S)) m :
  NoDup (m_name <$> methods) → m ∈ methods →
  svc_methods (MakeService name methods) !! m_name m =
    if is_handler m then Some m else None.
Proof.
  unfold MakeService. simpl. intros Hnd Hin.
  assert ((∅ : gmap string (Method S)) !! m_name m = None) as H0 by apply lookup_empty.
  revert H0 Hnd Hin. generalize (∅ : gmap string (Method S)) as acc.
  induction methods as [|m' ms IH]; intros acc H0 Hnd Hin; [by apply not_elem_of_nil in Hin|].
  simpl. rewrite fmap_cons in Hnd. apply list.NoDup_cons in Hnd as [Hm' Hnd]. apply elem_of_cons in Hin as [->|Hin].
  - clear IH Hnd. set (acc' := if is_handler m' then <[m_name m' := m']> acc else acc).
    assert (acc' !! m_name m' = if is_handler m' then Some m' else None) as Hacc.
    { subst acc'. destruct (is_handler m'); [apply lookup_insert_eq|done]. }
    revert Hacc Hm'. generalize acc'. clear. induction ms as [|m ms IH]; intros acc Hacc Hm'; [done|].
    simpl. rewrite fmap_cons, not_elem_of_cons in Hm'. destruct Hm' as [Hne Hm'].
    apply IH; [|done]. destruct (is_handler m); [|done]. by rewrite lookup_insert_ne.
  - apply IH; [|done|done]. destruct (is_handler m') eqn:Hh; [|done].
    rewrite lookup_insert_ne; [done|]. intros Heq. apply Hm'. rewrite Heq.
    by apply list_elem_of_fmap_2.
Qed.
End dispatch_lemmas.

End LabRpc.
