(* ===== verification/Wire.v ===== *)
(** * Messages on a socket (labrpc.Marshall, tester1/demux/transport.go)

    The daemons of the tester exchange messages over Unix sockets: a message is
    encoded with gob and sent as a frame, its length in four little-endian bytes
    and then its encoding.  gob is outside the repository: [Codec] is its
    interface and [CodecLaws] the one documented property that is used, that
    decoding what was encoded gives the value back.  A connection is the list of
    bytes that arrive on it before its end. *)

From Stdlib Require Import Lia.
From S2P Require Import Prelude LabRpc.
Import LabRpc.

Module Wire.

(** ** The codec *)

Class Codec (A : Type) := { encode : A → option bytes; decode : bytes → option A }.
Class CodecLaws (A : Type) `{Codec A} :=
  decode_encode : ∀ (a : A) b, encode a = Some b → decode b = Some a.

(** An error of the encoder or of the decoder ends the process. *)
Definition Marshall {A} `{Codec A} (args : A) : res bytes :=
  match encode args with Some b => Ret b | None => Stop LogFatal end.
Definition Unmarshall {A} `{Codec A} (b : bytes) : res A :=
  match decode b with Some a => Ret a | None => Stop LogFatal end.

Lemma Unmarshall_Marshall {A} `{CodecLaws A} (a : A) b : Marshall a = Ret b → Unmarshall b = Ret a.
Proof.
  unfold Marshall, Unmarshall. destruct (encode a) eqn:He; [|done]. intros [= <-].
  by rewrite (decode_encode _ _ He).
Qed.

(** ** Bytes and little-endian words *)

Definition byte_of (z : Z) : byte := default "000"%byte (Byte.of_N (Z.to_N (z mod 256))).
Definition of_byte (b : byte) : Z := Z.of_N (Byte.to_N b).

Lemma of_byte_of z : of_byte (byte_of z) = z mod 256.
Proof.
  unfold of_byte, byte_of. pose proof (Z.mod_pos_bound z 256 ltac:(lia)).
  destruct (Byte.of_N (Z.to_N (z mod 256))) as [b|] eqn:Hb; simpl.
  - apply Byte.to_of_N in Hb. rewrite Hb. lia.
  - apply Byte.of_N_None_iff in Hb. lia.
Qed.

(** [binary.Write(w, binary.LittleEndian, uint32(n))] and its inverse. *)
Definition put_u32 (n : Z) : bytes :=
  let n := u32 n in [byte_of n; byte_of (n / 256); byte_of (n / 65536); byte_of (n / 16777216)].
Definition get_u32 (b : bytes) : Z :=
  match b with
  | [b0; b1; b2; b3] =>
      of_byte b0 + 256 * of_byte b1 + 65536 * of_byte b2 + 16777216 * of_byte b3
  | _ => 0
  end.

#[global] Arguments put_u32 : simpl never.
#[global] Arguments get_u32 : simpl never.

Lemma get_put_u32 n : get_u32 (put_u32 n) = u32 n.
Proof.
  unfold put_u32, get_u32. cbv zeta. rewrite !of_byte_of.
  pose proof (u32_range n). unfold two32 in *. generalize dependent (u32 n). intros z Hz.
  Z.div_mod_to_equations. lia.
Qed.

(** ** The transport *)

Definition MSGLEN : Z := 65536.

Record msg := Msg { Tag : Z; Data : bytes; Ok : bool }.

Inductive rderr := EOF | UnexpectedEOF | ShortRead.

(** [io.ReadFull]: all [n] bytes, or an error when the stream ends before. *)
Definition ReadFull (n : nat) (s : bytes) : (bytes * bytes) + rderr :=
  if decide (n ≤ length s)%nat then inl (take n s, drop n s)
  else match s with [] => inr EOF | _ => inr UnexpectedEOF end.

Section transport.
Context `{Codec msg}.

(** WriteCall: what is written on the connection. *)
Definition WriteCall (tag : Z) (d : bytes) (ok : bool) : res bytes :=
  let* b := Marshall (Msg tag d ok) in
  Ret (put_u32 (Z.of_nat (length b)) ++ b).

(** ReadCall: the message and the rest of the stream, or the error. *)
Definition ReadCall (s : bytes) : res ((msg * bytes) + rderr) :=
  match ReadFull 4 s with
  | inr e => Ret (inr e)
  | inl (hdr, s) =>
      let nbyte := get_u32 hdr in
      match ReadFull (Z.to_nat nbyte) s with
      | inr e => Ret (inr e)
      | inl (b, s) =>
          if decide (Z.of_nat (length b) = nbyte) then
            let* m := Unmarshall b in Ret (inl (m, s))
          else Ret (inr ShortRead)
      end
  end.

(** A reader: the messages read until the first error, which it returns. *)
Fixpoint read_all (fuel : nat) (s : bytes) : res (list msg * rderr) :=
  match fuel with
  | O => Stop OutOfFuel
  | S fuel =>
      let* r := ReadCall s in
      match r with
      | inr e => Ret ([], e)
      | inl (m, s) => let* '(ms, e) := read_all fuel s in Ret (m :: ms, e)
      end
  end.

(** A writer: the frames of a sequence of messages. *)
Fixpoint write_all (ms : list msg) : res bytes :=
  match ms with
  | [] => Ret []
  | m :: ms =>
      let* f := WriteCall (Tag m) (Data m) (Ok m) in
      let* fs := write_all ms in Ret (f ++ fs)
  end.

(** The length of an encoding fits in the header. *)
Definition fits (m : msg) : Prop :=
  ∀ b, encode m = Some b → Z.of_nat (length b) < two32.

Lemma WriteCall_frame m f :
  fits m → WriteCall (Tag m) (Data m) (Ok m) = Ret f →
  ∃ b, Marshall m = Ret b ∧ f = put_u32 (Z.of_nat (length b)) ++ b ∧
    get_u32 (put_u32 (Z.of_nat (length b))) = Z.of_nat (length b).
Proof.
  intros Hfit. unfold WriteCall. destruct m as [t d ok]. simpl.
  rewrite rbind_Ret_inv. intros (b & Hb & [= <-]). exists b. split_and!; [done|done|].
  rewrite get_put_u32. apply u32_id. split; [lia|]. apply Hfit.
  unfold Marshall in Hb. by destruct (encode _); simplify_eq.
Qed.

Lemma ReadFull_app n s1 s2 : length s1 = n → ReadFull n (s1 ++ s2) = inl (s1, s2).
Proof.
  intros <-. unfold ReadFull. rewrite decide_True by (rewrite length_app; lia).
  by rewrite take_app_length, drop_app_length.
Qed.

Context `{!CodecLaws msg}.

(** Reading a whole frame gives the message back. *)
Lemma ReadCall_WriteCall m f rest :
  fits m → WriteCall (Tag m) (Data m) (Ok m) = Ret f → ReadCall (f ++ rest) = Ret (inl (m, rest)).
Proof.
  intros Hfit (b & Hb & -> & Hlen)%WriteCall_frame; [|done]. unfold ReadCall.
  rewrite <-(assoc_L (++)), ReadFull_app by done. rewrite Hlen, Nat2Z.id, ReadFull_app by done.
  rewrite decide_True by done. by rewrite (Unmarshall_Marshall m b Hb).
Qed.

Lemma ReadFull_short n s : (length s < n)%nat → ∃ e, ReadFull n s = inr e ∧ e ≠ ShortRead.
Proof.
  intros Hn. unfold ReadFull. rewrite decide_False by lia. destruct s; eauto.
Qed.

(** Reading a frame that is cut off gives an error of the stream. *)
Lemma ReadCall_cut m f k :
  fits m → WriteCall (Tag m) (Data m) (Ok m) = Ret f → (k < length f)%nat →
  ∃ e, ReadCall (take k f) = Ret (inr e) ∧ e ≠ ShortRead.
Proof.
  intros Hfit (b & Hb & -> & Hlen)%WriteCall_frame Hk; [|done].
  rewrite length_app in Hk. change (length (put_u32 _)) with 4%nat in Hk.
  unfold ReadCall. destruct (decide (k < 4)%nat) as [H4|H4].
  - destruct (ReadFull_short 4 (take k (put_u32 (Z.of_nat (length b)) ++ b))) as (e & -> & He).
    { rewrite length_take. lia. } eauto.
  - rewrite (take_app_ge (put_u32 _)) by (change (length (put_u32 _)) with 4%nat; lia).
    change (length (put_u32 _)) with 4%nat. rewrite ReadFull_app by done.
    rewrite Hlen, Nat2Z.id.
    destruct (ReadFull_short (length b) (take (k - 4) b)) as (e & -> & He); [|eauto].
    rewrite length_take. lia.
Qed.

Lemma write_all_cons m ms s :
  write_all (m :: ms) = Ret s →
  ∃ f fs, WriteCall (Tag m) (Data m) (Ok m) = Ret f ∧ write_all ms = Ret fs ∧ s = f ++ fs.
Proof.
  simpl. rewrite rbind_Ret_inv. intros (f & Hf & Hrest). apply rbind_Ret_inv in Hrest as (fs & Hfs & [= <-]).
  eauto.
Qed.

(** Reading a stream that was cut anywhere: the messages whose frames are
    complete, then an error. *)
Lemma read_all_cut ms s k :
  Forall fits ms → write_all ms = Ret s →
  ∃ n e, read_all (S (length ms)) (take k s) = Ret (take n ms, e) ∧ e ≠ ShortRead ∧
    ((length s ≤ k)%nat → n = length ms ∧ e = EOF).
Proof.
  intros Hms. revert s k. induction Hms as [|m ms Hm Hms IH]; intros s k Hs.
  - injection Hs as <-. exists 0%nat, EOF. rewrite take_nil. done.
  - apply write_all_cons in Hs as (f & fs & Hf & Hfs & ->).
    destruct (decide (k < length f)%nat) as [Hk|Hk].
    + rewrite take_app_le by lia. destruct (ReadCall_cut m f k Hm Hf Hk) as (e & He & Hne).
      exists 0%nat, e. cbn [read_all]. rewrite He. simpl. split_and!; [done|done|].
      rewrite length_app. lia.
    + rewrite take_app_ge by lia. destruct (IH fs (k - length f)%nat Hfs) as (n & e & Hr & Hne & Hall).
      exists (S n), e. cbn [read_all]. rewrite (ReadCall_WriteCall m f _ Hm Hf). cbn [rbind].
      change (length (m :: ms)) with (S (length ms)). rewrite Hr. simpl. split_and!; [done|done|].
      rewrite length_app. intros ?. destruct Hall as [-> ->]; [lia|done].
Qed.
End transport.

End Wire.
