(* ===== verification/NetRpc.v ===== *)
(** * The life of a request in the simulated network (labrpc/labrpc.go)

    [ClientEnd.Call] hands a request to the network goroutine, which starts
    [processReq] for it; that goroutine routes the request, perhaps drops it,
    runs the handler in a goroutine of its own, waits for it or for the death of
    the server, and answers on [replyCh].  The model is a step relation on the
    whole network: every request is a small state machine ([pc]), its handler
    goroutine another ([hstate]), and the steps of different requests, of the
    handlers and of the tester's registry operations interleave freely.

    The random tests ([rand.Int()%1000 < 100] and the like) and the timers are
    the nondeterminism of the relation.  A handler runs at one instant.  A call of
    log.Fatalf or a panic in dispatch ends the process: such a state has no
    handler step.  [events] is a ghost log, used only in the statements. *)

From S2P Require Import Prelude LabRpc Wire.
Import LabRpc Wire.

Module NetRpc.

(** Where a request is. *)
Inductive pc :=
| Sending                                             (** in the select of Call *)
| Accepted                                            (** read from rn.endCh *)
| Chosen (sn : string) (sp : srvptr) (rel lre : bool)    (** route found *)
| NoRoute                                             (** timer of the else branch *)
| Waiting (sn : string) (sp : srvptr) (rel lre : bool)   (** in the select loop *)
| GaveUp (sp : srvptr)                                 (** loop left with serverDead *)
| GotReply (sn : string) (sp : srvptr) (rel lre : bool) (r : replyMsg)
| Delayed (r : replyMsg)                               (** timer of longreordering *)
| Returned (m : replyMsg).                             (** sent on replyCh *)

(** Where its handler goroutine is. *)
Inductive hstate :=
| HNone
| HRunning (sp : srvptr)
| HDone (r : replyMsg).

Record rpc := MkRpc { rq : reqMsg; at_pc : pc; hs : hstate }.

Inductive event :=
| EvExec (sp : srvptr) (r : replyMsg)      (** the handler ran on [sp] *)
| EvAlive                                  (** the final isServerDead said no *)
| EvReply (m : replyMsg).                  (** a message was sent on replyCh *)

(** What the caller puts into the request and makes of the reply: Call encodes
    the arguments, and decodes the reply only when there is one; Forward passes
    both on as they are.  A call that finds the network destroyed is answered
    with [failReply]. *)
Definition Call_request {A} `{Codec A} (endname svcMeth : string) (args : A) : res reqMsg :=
  let* b := Marshall args in Ret (ReqMsg endname svcMeth b).
Definition Call_result {R} `{Codec R} (rep : replyMsg) : res (option R * bool) :=
  if rp_ok rep then let* v := Unmarshall (rp_reply rep) in Ret (Some v, true)
  else Ret (None, false).
Definition Forward_request (endname svcMeth : string) (args : bytes) : reqMsg :=
  ReqMsg endname svcMeth args.
Definition Forward_result (rep : replyMsg) : bytes * bool := (rp_reply rep, rp_ok rep).

Section machine.
Context {S : Type}.

Record world := MkWorld {
  net : Network;
  loop_alive : bool;                   (** the goroutine that reads rn.endCh *)
  srvs : gmap srvptr (Server S);
  app : S;                             (** the state behind the services *)
  reqs : gmap nat rpc;
  events : list (nat * event)
}.
Implicit Types w : world.

Definition set_net (n : Network) w : world :=
  MkWorld n (loop_alive w) (srvs w) (app w) (reqs w) (events w).
Definition set_rpc (id : nat) (x : rpc) (evs : list event) w : world :=
  MkWorld (net w) (loop_alive w) (srvs w) (app w) (<[id := x]> (reqs w))
    (events w ++ (pair id <$> evs)).
Definition set_srvs (s : gmap srvptr (Server S)) (st : S) w : world :=
  MkWorld (net w) (loop_alive w) s st (reqs w) (events w).

(** Move request [id], now at [x], to [p]. *)
Definition goto (id : nat) (x : rpc) (p : pc) (evs : list event) w : world :=
  set_rpc id {| rq := rq x; at_pc := p; hs := hs x |} evs w.

Definition init (st : S) : world :=
  {| net := MakeNetwork; loop_alive := true; srvs := ∅; app := st; reqs := ∅; events := [] |}.

(** The registry operations of the tester. *)
Inductive admin w : Network → Prop :=
| ad_cleanup n : Cleanup (net w) = Ret n → admin w n
| ad_reliable b : admin w (Reliable b (net w))
| ad_reordering b : admin w (LongReordering b (net w))
| ad_delays b : admin w (LongDelays b (net w))
| ad_makeend e n : MakeEnd e (net w) = Ret n → admin w n
| ad_deleteend e n : DeleteEnd e (net w) = Ret n → admin w n
| ad_addserver sn sp : is_Some (srvs w !! sp) → admin w (AddServer sn sp (net w))
| ad_deleteserver sn : admin w (DeleteServer sn (net w))
| ad_connect e sn : admin w (Connect e sn (net w))
| ad_enable e b : admin w (Enable e b (net w)).

(** The route that readEndnameInfo finds, if the request can be delivered. *)
Definition route (endname : string) (rn : Network) : option (string * srvptr * bool * bool) :=
  match readEndnameInfo endname rn with
  | (true, Some sn, Some sp, rel, lre) => Some (sn, sp, rel, lre)
  | _ => None
  end.

Inductive step w : world → Prop :=
(** the environment: the tester's operations, the server objects it makes, the
    activity of the services besides their handlers, and the end of the network
    goroutine after Cleanup *)
| st_admin n : admin w n → step w (set_net n w)
| st_newserver sp rs : srvs w !! sp = None → step w (set_srvs (<[sp := rs]> (srvs w)) (app w) w)
| st_service sp rs svc : srvs w !! sp = Some rs →
    step w (set_srvs (<[sp := AddService svc rs]> (srvs w)) (app w) w)
| st_setdispatch sp rs f : srvs w !! sp = Some rs →
    step w (set_srvs (<[sp := SetDispatch f rs]> (srvs w)) (app w) w)
| st_background st : step w (set_srvs (srvs w) st w)
| st_loopend : done (net w) = true →
    step w (MkWorld (net w) false (srvs w) (app w) (reqs w) (events w))
(** Call *)
| st_call id req : reqs w !! id = None →
    step w (set_rpc id {| rq := req; at_pc := Sending; hs := HNone |} [] w)
| st_destroyed id x : reqs w !! id = Some x → at_pc x = Sending → done (net w) = true →
    step w (goto id x (Returned failReply) [EvReply failReply] w)
| st_accept id x : reqs w !! id = Some x → at_pc x = Sending → loop_alive w = true →
    step w (goto id x Accepted [] (set_net (count_request (rq x) (net w)) w))
(** processReq *)
| st_route id x sn sp rel lre : reqs w !! id = Some x → at_pc x = Accepted →
    route (rq_endname (rq x)) (net w) = Some (sn, sp, rel, lre) →
    step w (goto id x (Chosen sn sp rel lre) [] w)
| st_noroute id x : reqs w !! id = Some x → at_pc x = Accepted →
    route (rq_endname (rq x)) (net w) = None →
    step w (goto id x NoRoute [] w)
| st_timeout id x : reqs w !! id = Some x → at_pc x = NoRoute →
    step w (goto id x (Returned failReply) [EvReply failReply] w)
| st_dropreq id x sn sp lre : reqs w !! id = Some x → at_pc x = Chosen sn sp false lre →
    step w (goto id x (Returned failReply) [EvReply failReply] w)
| st_spawn id x sn sp rel lre : reqs w !! id = Some x → at_pc x = Chosen sn sp rel lre →
    step w (set_rpc id {| rq := rq x; at_pc := Waiting sn sp rel lre; hs := HRunning sp |} [] w)
| st_handler id x sp rs rs' st' r : reqs w !! id = Some x → hs x = HRunning sp →
    srvs w !! sp = Some rs → srv_dispatch (rq x) rs (app w) = Ret (rs', st', r) →
    step w (set_rpc id {| rq := rq x; at_pc := at_pc x; hs := HDone r |} [EvExec sp r]
             (set_srvs (<[sp := rs']> (srvs w)) st' w))
| st_reply id x sn sp rel lre r : reqs w !! id = Some x → at_pc x = Waiting sn sp rel lre →
    hs x = HDone r → step w (goto id x (GotReply sn sp rel lre r) [] w)
| st_dead id x sn sp rel lre : reqs w !! id = Some x → at_pc x = Waiting sn sp rel lre →
    isServerDead (rq_endname (rq x)) sn sp (net w) = true →
    step w (goto id x (GaveUp sp) [] w)
| st_giveup id x sp : reqs w !! id = Some x → at_pc x = GaveUp sp →
    step w (goto id x (Returned failReply) [EvReply failReply] w)
| st_killed id x sn sp rel lre r : reqs w !! id = Some x →
    at_pc x = GotReply sn sp rel lre r →
    isServerDead (rq_endname (rq x)) sn sp (net w) = true →
    step w (goto id x (Returned failReply) [EvReply failReply] w)
| st_droprep id x sn sp lre r : reqs w !! id = Some x → at_pc x = GotReply sn sp false lre r →
    isServerDead (rq_endname (rq x)) sn sp (net w) = false →
    step w (goto id x (Returned failReply) [EvAlive; EvReply failReply] w)
| st_delay id x sn sp rel r : reqs w !! id = Some x → at_pc x = GotReply sn sp rel true r →
    isServerDead (rq_endname (rq x)) sn sp (net w) = false →
    step w (goto id x (Delayed r) [EvAlive] w)
| st_deliver id x sn sp rel lre r : reqs w !! id = Some x →
    at_pc x = GotReply sn sp rel lre r →
    isServerDead (rq_endname (rq x)) sn sp (net w) = false →
    step w (goto id x (Returned r) [EvAlive; EvReply r] (set_net (count_reply r (net w)) w))
| st_delayed id x r : reqs w !! id = Some x → at_pc x = Delayed r →
    step w (goto id x (Returned r) [EvReply r] (set_net (count_reply r (net w)) w)).

(** The events of one request, in order. *)
Definition trace (id : nat) w : list event :=
  (filter (λ e : nat * event, e.1 = id) (events w)).*2.

(** ** The invariant of a request *)

(** What the log says about a request and its handler, at each point. *)
Definition rpc_ok (t : list event) (x : rpc) : Prop :=
  match at_pc x with
  | Sending | Accepted | Chosen _ _ _ _ | NoRoute => hs x = HNone ∧ t = []
  | Waiting _ sp _ _ | GaveUp sp =>
      (hs x = HRunning sp ∧ t = []) ∨ ∃ r, hs x = HDone r ∧ t = [EvExec sp r]
  | GotReply _ sp _ _ r => hs x = HDone r ∧ t = [EvExec sp r]
  | Delayed r => hs x = HDone r ∧ ∃ sp, t = [EvExec sp r; EvAlive]
  | Returned m =>
      (hs x = HDone m ∧ ∃ sp, t = [EvExec sp m; EvAlive; EvReply m]) ∨
      (m = failReply ∧
        ((hs x = HNone ∧ t = [EvReply m]) ∨
         (∃ sp, hs x = HRunning sp ∧ t = [EvReply m]) ∨
         ∃ sp r, hs x = HDone r ∧
           (t = [EvExec sp r; EvReply m] ∨ t = [EvReply m; EvExec sp r] ∨
            t = [EvExec sp r; EvAlive; EvReply m])))
  end.

Definition traces_ok w : Prop :=
  ∀ id, match reqs w !! id with
        | Some x => rpc_ok (trace id w) x
        | None => trace id w = []
        end.

(** Every server pointer in use points to a server object. *)
Definition pc_ptr (p : pc) : option srvptr :=
  match p with
  | Chosen _ sp _ _ | Waiting _ sp _ _ | GaveUp sp | GotReply _ sp _ _ _ => Some sp
  | _ => None
  end.
Definition ptrs_ok w : Prop :=
  (∀ sn sp, servers (net w) !! sn = Some (Some sp) → is_Some (srvs w !! sp)) ∧
  (∀ id x sp, reqs w !! id = Some x → pc_ptr (at_pc x) = Some sp ∨ hs x = HRunning sp →
    is_Some (srvs w !! sp)) ∧
  (loop_alive w = false → done (net w) = true).

Lemma trace_set_rpc id id' x evs w :
  trace id (set_rpc id' x evs w) = trace id w ++ (if decide (id' = id) then evs else []).
Proof.
  unfold trace. simpl. rewrite list.filter_app, fmap_app. f_equal.
  destruct (decide (id' = id)) as [->|Hne]; induction evs as [|e evs IH]; try done;
    rewrite fmap_cons, filter_cons.
  - rewrite decide_True by done. rewrite fmap_cons. by f_equal.
  - by rewrite decide_False by done.
Qed.

(** A step that touches one request: the invariant is re-established for it. *)
Lemma traces_ok_set_rpc id x evs w :
  traces_ok w → rpc_ok (trace id w ++ evs) x → traces_ok (set_rpc id x evs w).
Proof.
  intros Hw Hx id'. rewrite trace_set_rpc. simpl.
  destruct (decide (id = id')) as [->|Hne].
  - rewrite lookup_insert_eq. done.
  - rewrite lookup_insert_ne, app_nil_r by done. apply Hw.
Qed.

Lemma traces_ok_env w w' :
  reqs w' = reqs w → events w' = events w → traces_ok w → traces_ok w'.
Proof.
  intros Hr He Hw id. specialize (Hw id). unfold trace in *. by rewrite Hr, He.
Qed.

Lemma traces_ok_at w id x : traces_ok w → reqs w !! id = Some x → rpc_ok (trace id w) x.
Proof. intros Hw Hx. specialize (Hw id). by rewrite Hx in Hw. Qed.

(** Reduce a step of request [id] to the change of its invariant. *)
Local Ltac req_step Hw Hid :=
  pose proof (traces_ok_at _ _ _ Hw Hid) as Hok; unfold rpc_ok in Hok;
  match goal with Hpc : at_pc _ = _ |- _ => rewrite Hpc in Hok | _ => idtac end;
  unfold goto; apply traces_ok_set_rpc;
  [by (eapply traces_ok_env; [| |exact Hw])|];
  lazymatch type of Hid with reqs ?w !! ?id = _ =>
    lazymatch goal with |- rpc_ok (trace _ ?v ++ _) _ =>
      change (trace id v) with (trace id w); revert Hok; generalize (trace id w)
    end
  end; unfold rpc_ok; simpl; intros t Hok.

Lemma traces_ok_handler w id x sp r :
  traces_ok w → reqs w !! id = Some x → hs x = HRunning sp →
  rpc_ok (trace id w ++ [EvExec sp r]) {| rq := rq x; at_pc := at_pc x; hs := HDone r |}.
Proof.
  intros Hw Hid Hhs. pose proof (traces_ok_at _ _ _ Hw Hid) as Hok. unfold rpc_ok in *. simpl.
  rewrite Hhs in Hok. clear Hw Hid. revert Hok. generalize (trace id w). intros t Hok.
  destruct (at_pc x); naive_solver.
Qed.

Lemma step_traces_ok w w' : step w w' → traces_ok w → traces_ok w'.
Proof.
  intros Hstep Hw. destruct Hstep as
    [|????|????|????| | |id req Hid|id x Hid|id x Hid|id x ???? Hid|id x Hid|id x Hid|id x ??? Hid
    |id x ???? Hid|id x ????? Hid|id x ????? Hid|id x ???? Hid|id x ? Hid|id x ????? Hid
    |id x ???? Hid|id x ???? Hid|id x ????? Hid|id x ? Hid];
    try (eapply traces_ok_env; [| |exact Hw]; done).
  - apply traces_ok_set_rpc; [done|]. specialize (Hw id). rewrite Hid in Hw. by rewrite Hw.
  - req_step Hw Hid. destruct Hok as [? ->]. right. naive_solver.
  - req_step Hw Hid. by destruct Hok as [? ->].
  - req_step Hw Hid. by destruct Hok as [? ->].
  - req_step Hw Hid. by destruct Hok as [? ->].
  - req_step Hw Hid. destruct Hok as [? ->]. right. naive_solver.
  - req_step Hw Hid. destruct Hok as [? ->]. right. naive_solver.
  - req_step Hw Hid. destruct Hok as [? ->]. by left.
  - apply traces_ok_set_rpc; [by (eapply traces_ok_env; [| |exact Hw])|].
    by apply traces_ok_handler.
  - req_step Hw Hid. destruct Hok as [[??]|(r' & ? & ->)]; [congruence|].
    rewrite app_nil_r. naive_solver congruence.
  - req_step Hw Hid. by rewrite app_nil_r.
  - req_step Hw Hid. right. split; [done|]. naive_solver.
  - req_step Hw Hid. destruct Hok as [? ->]. right. naive_solver.
  - req_step Hw Hid. destruct Hok as [? ->]. right. naive_solver.
  - req_step Hw Hid. destruct Hok as [? ->]. split; [done|]. by exists sp.
  - req_step Hw Hid. destruct Hok as [? ->]. left. split; [done|]. by exists sp.
  - req_step Hw Hid. destruct Hok as [? (sp & ->)]. left. split; [done|]. by exists sp.
Qed.

Lemma ptrs_ok_set_rpc id x evs w :
  ptrs_ok w →
  (∀ sp, pc_ptr (at_pc x) = Some sp ∨ hs x = HRunning sp → is_Some (srvs w !! sp)) →
  ptrs_ok (set_rpc id x evs w).
Proof.
  intros (Hsrv & Hreq & Hloop) Hx. split_and!; [done| |done].
  intros id' y sp. simpl. rewrite lookup_insert_Some. naive_solver.
Qed.

(** A request moves to a point whose server it already had. *)
Lemma ptrs_ok_goto id x p evs w :
  ptrs_ok w → reqs w !! id = Some x →
  (∀ sp, pc_ptr p = Some sp → pc_ptr (at_pc x) = Some sp) →
  ptrs_ok (goto id x p evs w).
Proof.
  intros Hw Hid Hp. apply ptrs_ok_set_rpc; [done|]. simpl.
  destruct Hw as (_ & Hreq & _). intros sp [H|H]; eapply Hreq; eauto.
Qed.

Lemma ptrs_ok_net n w :
  ptrs_ok w → (∀ sn sp, servers n !! sn = Some (Some sp) → is_Some (srvs w !! sp)) →
  (done (net w) = true → done n = true) → ptrs_ok (set_net n w).
Proof. intros (Hsrv & Hreq & Hloop) Hn Hd. split_and!; [done|done|naive_solver]. Qed.

Lemma ptrs_ok_srvs sp rs st w :
  ptrs_ok w → ptrs_ok (set_srvs (<[sp := rs]> (srvs w)) st w).
Proof.
  intros (Hsrv & Hreq & Hloop). split_and!; [| |done]; simpl; intros;
    rewrite lookup_insert_is_Some'; naive_solver.
Qed.

Lemma admin_ptrs_ok w n : admin w n → ptrs_ok w → ptrs_ok (set_net n w).
Proof.
  intros Had Hw. pose proof Hw as (Hsrv & _ & _). apply ptrs_ok_net; [done| |];
    destruct Had as [n Hn| | | |e n Hn|e n Hn|sn' sp'|sn'| |]; simpl; try done;
    try (unfold Cleanup, MakeEnd, DeleteEnd in Hn; case_match; simplify_eq/=; done).
  - intros sn sp. rewrite lookup_insert_Some. naive_solver.
  - intros sn sp. rewrite lookup_insert_Some. naive_solver.
Qed.

Lemma route_ptr e n sn sp rel lre :
  route e n = Some (sn, sp, rel, lre) → servers n !! sn = Some (Some sp).
Proof.
  unfold route, readEndnameInfo. simpl. intros H. repeat case_match; simplify_eq.
  unfold mget in *. by destruct (servers n !! sn) as [[]|]; simplify_eq/=.
Qed.

Lemma step_ptrs_ok w w' : step w w' → ptrs_ok w → ptrs_ok w'.
Proof.
  intros Hstep Hw. pose proof Hw as (Hsrv & Hreq & Hloop).
  destruct Hstep; try (eapply ptrs_ok_goto; [exact Hw|eassumption|done]);
    try (eapply ptrs_ok_goto; [exact Hw|eassumption|simpl; congruence]);
    try (by apply ptrs_ok_srvs); try done;
    try (eapply ptrs_ok_goto; [by apply ptrs_ok_net|done|done]).
  - by apply admin_ptrs_ok.
  - apply ptrs_ok_set_rpc; [done|]. naive_solver.
  - eapply ptrs_ok_set_rpc; [done|]. simpl. intros ? [[= <-]|?]; [|by eapply Hreq; eauto].
    by eapply Hsrv, route_ptr.
  - eapply ptrs_ok_set_rpc; [done|]. simpl. intros ? [[= <-]|[= <-]];
      (eapply Hreq; [done|]; left; by match goal with H : at_pc _ = _ |- _ => rewrite H end).
  - eapply ptrs_ok_set_rpc; [by apply ptrs_ok_srvs|]. simpl. intros sp' [?|?]; [|done].
    rewrite lookup_insert_is_Some'. right. by eapply Hreq; eauto.
  - eapply ptrs_ok_goto; [done..|]. simpl. intros ? [= <-].
    by match goal with H : at_pc _ = _ |- _ => rewrite H end.
  - eapply ptrs_ok_goto; [done..|]. simpl. intros ? [= <-].
    by match goal with H : at_pc _ = _ |- _ => rewrite H end.
Qed.

(** ** Executions are dispatches of the request *)

Definition executed w : Prop :=
  ∀ id sp r, EvExec sp r ∈ trace id w →
    ∃ x (rs rs' : Server S) (s s' : S), reqs w !! id = Some x ∧ srv_dispatch (rq x) rs s = Ret (rs', s', r).

Lemma executed_set_rpc id x evs w :
  executed w → (∀ y, reqs w !! id = Some y → rq y = rq x) →
  (∀ sp r, EvExec sp r ∈ evs → ∃ (rs rs' : Server S) (s s' : S),
    srv_dispatch (rq x) rs s = Ret (rs', s', r)) →
  executed (set_rpc id x evs w).
Proof.
  intros Hw Hy Hevs id' sp r. rewrite trace_set_rpc. simpl.
  destruct (decide (id = id')) as [<-|Hne].
  - rewrite lookup_insert_eq. intros [(y & rs & rs' & s & s' & Hid & Hd)%Hw|Hin]%elem_of_app.
    + rewrite (Hy y Hid) in Hd. by exists x, rs, rs', s, s'.
    + destruct (Hevs sp r Hin) as (rs & rs' & s & s' & Hd). by exists x, rs, rs', s, s'.
  - rewrite lookup_insert_ne, app_nil_r by done. apply Hw.
Qed.

Lemma executed_goto id x p evs w v :
  executed w → reqs w !! id = Some x → reqs v = reqs w → events v = events w →
  (∀ sp r, EvExec sp r ∉ evs) → executed (goto id x p evs v).
Proof.
  intros Hw Hid Hr He Hevs. apply executed_set_rpc; simpl.
  - intros id' sp r. unfold trace. rewrite Hr, He. apply Hw.
  - intros y. rewrite Hr. congruence.
  - intros sp r Hin. by destruct (Hevs sp r).
Qed.

Lemma step_executed w w' : step w w' → executed w → executed w'.
Proof.
  intros Hstep Hw. destruct Hstep;
    try (eapply executed_goto; [exact Hw|eassumption|done|done|]; intros ??; set_solver);
    try exact Hw; apply executed_set_rpc; try exact Hw; simpl; try congruence; try set_solver.
Qed.

(** ** Reachable worlds *)

Definition reachable (st : S) w : Prop := rtc step (init st) w.

Lemma net_reachable_ok st w : reachable st w → traces_ok w ∧ ptrs_ok w.
Proof.
  unfold reachable. revert w. apply rtc_ind_r.
  - split; [done|]. split_and!; simpl; intros *; by rewrite ?lookup_empty.
  - intros w w' _ Hstep [??]. split; [by eapply step_traces_ok|by eapply step_ptrs_ok].
Qed.

Lemma reachable_executed st w : reachable st w → executed w.
Proof.
  unfold reachable. revert w. apply rtc_ind_r.
  - intros id sp r. by intros ?%not_elem_of_nil.
  - intros w w' _ ??. by eapply step_executed.
Qed.

(** ** Progress: a call in progress can always be brought to its end *)

Definition finishes (n : nat) w (id : nat) : Prop :=
  ∃ w' x m, bsteps step n w w' ∧ reqs w' !! id = Some x ∧ at_pc x = Returned m.

(** The handler of the request returns, whatever server it is run on. *)
Definition handler_returns w (req : reqMsg) : Prop :=
  ∀ sp rs, srvs w !! sp = Some rs → ∃ rs' st' r, srv_dispatch req rs (app w) = Ret (rs', st', r).

Lemma finishes_step n w w' id : step w w' → finishes n w' id → finishes (Datatypes.S n) w id.
Proof. intros ? (w'' & x & m & ? & ?). exists w'', x, m. split; [by eapply bsteps_l|done]. Qed.

Lemma finishes_Returned n w id x m :
  reqs w !! id = Some x → at_pc x = Returned m → finishes n w id.
Proof. intros ??. exists w, x, m. split; [apply bsteps_refl|done]. Qed.

Lemma goto_lookup id x p evs w :
  reqs (goto id x p evs w) !! id = Some {| rq := rq x; at_pc := p; hs := hs x |}.
Proof. apply lookup_insert_eq. Qed.

(** Close a goal [finishes] by one last step, which sends the reply. *)
Local Ltac last_step st :=
  eapply finishes_step; [by eapply st|]; eapply finishes_Returned; [apply goto_lookup|done].

Lemma finishes_GotReply w id x sn sp rel lre r :
  reqs w !! id = Some x → at_pc x = GotReply sn sp rel lre r → finishes 1 w id.
Proof.
  intros Hid Hpc. destruct (isServerDead (rq_endname (rq x)) sn sp (net w)) eqn:Hd.
  - last_step st_killed.
  - last_step st_deliver.
Qed.

Lemma finishes_Waiting w id x sn sp rel lre :
  traces_ok w → ptrs_ok w → handler_returns w (rq x) →
  reqs w !! id = Some x → at_pc x = Waiting sn sp rel lre → finishes 3 w id.
Proof.
  intros Hw Hp Hh Hid Hpc. pose proof (traces_ok_at _ _ _ Hw Hid) as Hok.
  unfold rpc_ok in Hok. rewrite Hpc in Hok.
  assert (∀ w x r, reqs w !! id = Some x → at_pc x = Waiting sn sp rel lre → hs x = HDone r →
    finishes 2 w id) as Hdone.
  { intros w0 x0 r ???. eapply finishes_step; [by eapply st_reply|].
    eapply finishes_GotReply; [apply goto_lookup|done]. }
  destruct Hok as [[Hhs _]|(r & Hhs & _)].
  - destruct Hp as (_ & Hreq & _). destruct (Hreq id x sp Hid (or_intror Hhs)) as [rs Hrs].
    destruct (Hh sp rs Hrs) as (rs' & st' & r & Hdisp).
    eapply finishes_step; [by eapply st_handler|].
    eapply Hdone; [apply lookup_insert_eq|done|done].
  - destruct (Hdone w x r Hid Hpc Hhs) as (w' & x' & m & Hsteps & ?).
    exists w', x', m. split; [|done]. eapply bsteps_weaken; [|done]. lia.
Qed.

Lemma finishes_Chosen w id x sn sp rel lre :
  traces_ok w → ptrs_ok w → handler_returns w (rq x) →
  reqs w !! id = Some x → at_pc x = Chosen sn sp rel lre → finishes 4 w id.
Proof.
  intros Hw Hp Hh Hid Hpc. assert (step w (set_rpc id
    {| rq := rq x; at_pc := Waiting sn sp rel lre; hs := HRunning sp |} [] w)) as Hs
    by by eapply st_spawn.
  eapply finishes_step; [exact Hs|]. eapply finishes_Waiting; [| | |apply lookup_insert_eq|done];
    [by eapply step_traces_ok|by eapply step_ptrs_ok|exact Hh].
Qed.

Lemma finishes_Accepted w id x :
  traces_ok w → ptrs_ok w → handler_returns w (rq x) →
  reqs w !! id = Some x → at_pc x = Accepted → finishes 5 w id.
Proof.
  intros Hw Hp Hh Hid Hpc.
  destruct (route (rq_endname (rq x)) (net w)) as [[[[sn sp] rel] lre]|] eqn:Hr.
  - assert (step w (goto id x (Chosen sn sp rel lre) [] w)) as Hs by by eapply st_route.
    eapply finishes_step; [exact Hs|].
    eapply finishes_Chosen; [| | |apply goto_lookup|done];
      [by eapply step_traces_ok|by eapply step_ptrs_ok|exact Hh].
  - eapply finishes_step; [by eapply st_noroute|].
    eapply finishes_step; [eapply st_timeout; [apply goto_lookup|done]|].
    eapply finishes_Returned; [apply goto_lookup|done].
Qed.

Lemma finishes_any w id x :
  traces_ok w → ptrs_ok w → handler_returns w (rq x) → reqs w !! id = Some x → finishes 6 w id.
Proof.
  intros Hw Hp Hh Hid. assert (∀ n, (n ≤ 6)%nat → finishes n w id → finishes 6 w id) as Hle.
  { intros n Hn (w' & y & m & ? & ?). exists w', y, m. split; [|done].
    by eapply bsteps_weaken. }
  destruct (at_pc x) eqn:Hpc.
  - destruct (loop_alive w) eqn:Hl.
    + assert (step w (goto id x Accepted [] (set_net (count_request (rq x) (net w)) w))) as Hs
        by by eapply st_accept.
      eapply finishes_step; [exact Hs|].
      eapply finishes_Accepted; [| | |apply goto_lookup|done];
        [by eapply step_traces_ok|by eapply step_ptrs_ok|exact Hh].
    + destruct Hp as (_ & _ & Hd). specialize (Hd Hl). last_step st_destroyed.
  - eapply (Hle 5%nat); [lia|]. by eapply finishes_Accepted.
  - eapply (Hle 4%nat); [lia|]. by eapply finishes_Chosen.
  - last_step st_timeout.
  - eapply (Hle 3%nat); [lia|]. by eapply finishes_Waiting.
  - last_step st_giveup.
  - eapply (Hle 1%nat); [lia|]. by eapply finishes_GotReply.
  - last_step st_delayed.
  - by eapply finishes_Returned.
Qed.

(** ** A request without a route is never executed *)

Definition unrouted (x : rpc) : Prop :=
  hs x = HNone ∧ (at_pc x = NoRoute ∨ at_pc x = Returned failReply).

Lemma step_unrouted w w' id x :
  step w w' → reqs w !! id = Some x → unrouted x →
  ∃ x', reqs w' !! id = Some x' ∧ unrouted x' ∧ rq x' = rq x.
Proof.
  intros Hstep Hid [Hhs Hpc].
  destruct Hstep; simpl; try (exists x; by split_and!);
    try (match goal with H : reqs w !! ?i = _ |- _ => destruct (decide (i = id)) as [->|Hne] end;
      [|rewrite lookup_insert_ne by done; exists x; by split_and!]);
    rewrite ?lookup_insert_eq; simplify_eq; try (destruct Hpc; congruence).
  eexists. split_and!; [done| |done]. split; [done|]. by right.
Qed.

Lemma rtc_unrouted w w' id x :
  rtc step w w' → reqs w !! id = Some x → unrouted x →
  ∃ x', reqs w' !! id = Some x' ∧ unrouted x' ∧ rq x' = rq x.
Proof.
  intros Hsteps. revert x. induction Hsteps as [w|w w1 w2 Hs _ IH]; intros x Hid Hx; [eauto|].
  destruct (step_unrouted _ _ _ _ Hs Hid Hx) as (x1 & Hid1 & Hx1 & Hrq).
  destruct (IH x1 Hid1 Hx1) as (x2 & ? & ? & Hrq2). exists x2. split_and!; congruence.
Qed.

End machine.
Arguments world : clear implicits.

End NetRpc.
