(* ===== verification/NetSpec.v ===== *)
(** * Properties of the simulated network

    The theorems about dispatch (LabRpc.v) and about the life of a request
    (NetRpc.v), with a concrete service and a concrete run as witnesses. *)

From S2P Require Import Prelude LabRpc Wire NetRpc.
Import LabRpc Wire NetRpc.

(** ** A concrete service: a counter with one handler and one other method *)

(** [func (c *Counter) Add(args []byte, reply *...)]: adds the length of the
    argument and replies with it. *)
Definition add_method : Method nat :=
  {| m_name := "Add"; m_pkgpath := ""; m_numIn := 3; m_in2ptr := true; m_numOut := 0;
     m_args := bytes; m_replyT := bytes;
     m_decode b := Some b; m_zero := [];
     m_func st args _ := ((st + length args)%nat, args); m_encode r := r |}.

(** A method with a result is not a handler. *)
Definition read_method : Method nat :=
  {| m_name := "Read"; m_pkgpath := ""; m_numIn := 1; m_in2ptr := false; m_numOut := 1;
     m_args := unit; m_replyT := unit;
     m_decode _ := Some tt; m_zero := tt;
     m_func st _ _ := (st, tt); m_encode _ := [] |}.

Definition counter_svc : Service nat := MakeService "Counter" [add_method; read_method].
Definition counter_srv : Server nat := AddService counter_svc MakeServer.

(** An RPC named service.method, for a method name without a dot, reaches
    exactly the handler registered under these names: the argument is decoded, the
    method runs once on the state of the service, the encoded reply comes back
    with ok set, and the server's RPC count goes up by one. *)
Theorem dispatch_routes {S} name (methods : list (Method S)) m args endname rs st a :
  NoDup (m_name <$> methods) → m ∈ methods → is_handler m = true → no_dot (m_name m) →
  dispatchf rs = None → m_decode S m args = Some a →
  srv_dispatch (ReqMsg endname (name +:+ ("." +:+ m_name m)) args)
    (AddService (MakeService name methods) rs) st =
  Ret (MkServer (<[name := MakeService name methods]> (services rs))
         (i64 (srv_count rs + 1)) None,
       (m_func S m st a (m_zero S m)).1,
       ReplyMsg true (m_encode S m (m_func S m st a (m_zero S m)).2)).
Proof.
  intros Hnd Hin Hh Hdot Hf Ha. unfold srv_dispatch. simpl.
  rewrite split_svcMeth_app by done. simpl. rewrite Hf, lookup_insert_eq.
  unfold svc_dispatch. rewrite MakeService_lookup, Hh by done. simpl. rewrite Ha.
  by destruct (m_func S m st a (m_zero S m)).
Qed.

Lemma dispatch_routes_witness :
  srv_dispatch (ReqMsg "end" ("Counter" +:+ ("." +:+ "Add")) [Byte.x41; Byte.x42])
    counter_srv 5%nat =
  Ret (MkServer (<["Counter" := counter_svc]> ∅) 1 None, 7%nat,
       ReplyMsg true [Byte.x41; Byte.x42]).
Proof.
  apply (dispatch_routes "Counter" [add_method; read_method] add_method
           [Byte.x41; Byte.x42] "end" MakeServer 5%nat [Byte.x41; Byte.x42]);
    try reflexivity.
  - repeat constructor; set_solver.
  - set_solver.
  - intros H. vm_compute in H. set_solver.
Defined.

(** ** A concrete run *)

Definition the_req : reqMsg := ReqMsg "e" "Counter.Add" [Byte.x41; Byte.x42].
Definition the_rep : replyMsg := ReplyMsg true [Byte.x41; Byte.x42].
Abbreviation rpc_at p h := {| rq := the_req; at_pc := p; hs := h |}.

(** The tester makes a server and an end, connects and enables it. *)
Definition ready : world nat :=
  {| net := Enable "e" true (Connect "e" "s" (AddServer "s" 0
       (set_connections {["e" := None]} (set_enabled {["e" := false]}
         (set_ends ({["e"]} ∪ ∅) MakeNetwork)))));
     loop_alive := true; srvs := {[0%nat := counter_srv]}; app := 5%nat;
     reqs := ∅; events := [] |}.

Lemma ready_reachable : reachable 5%nat ready.
Proof.
  eapply rtc_l; [by apply (st_newserver _ 0%nat counter_srv)|].
  eapply rtc_l; [apply st_admin; by apply (ad_makeend _ "e")|].
  eapply rtc_l; [apply st_admin; apply (ad_addserver _ "s" 0%nat); by eexists|].
  eapply rtc_l; [apply st_admin; apply (ad_connect _ "e" "s")|].
  eapply rtc_l; [apply st_admin; apply (ad_enable _ "e" true)|].
  apply rtc_refl.
Qed.

(** A call that has just been made, one that was answered. *)
Definition called : world nat := set_rpc 1 (rpc_at Sending HNone) [] ready.

Definition answered : world nat :=
  {| net := count_reply the_rep (count_request the_req (net ready));
     loop_alive := true;
     srvs := {[0%nat := MkServer (services counter_srv) 1 None]}; app := 7%nat;
     reqs := {[1%nat := rpc_at (Returned the_rep) (HDone the_rep)]};
     events := [(1%nat, EvExec 0%nat the_rep); (1%nat, EvAlive); (1%nat, EvReply the_rep)] |}.

Lemma called_reachable : reachable 5%nat called.
Proof. eapply rtc_r; [apply ready_reachable|]. by apply st_call. Qed.

Lemma answered_reachable : reachable 5%nat answered.
Proof.
  unfold reachable. etrans; [apply called_reachable|].
  eapply rtc_l; [by eapply (st_accept _ 1)|].
  eapply rtc_l; [by eapply (st_route _ 1)|].
  eapply rtc_l; [by eapply (st_spawn _ 1)|].
  eapply rtc_l; [by eapply (st_handler _ 1)|].
  eapply rtc_l; [by eapply (st_reply _ 1)|].
  eapply rtc_once. eapply eq_rect; [by eapply (st_deliver _ 1)|].
  vm_compute. reflexivity.
Qed.

(** ** The life of a request *)

(** C12. Call returns true only for an executed request.  In every reachable
    state of the network, for a call of a method with some arguments whose reply
    has been sent: if Call returns true, then the request, which carries the
    encoding of the arguments, was dispatched to a server, exactly once; what
    Call hands to its caller is the decoding of what that dispatch returned; and
    between the two the server was found to be still registered and the end to be
    still enabled. *)
Theorem positive_reply_executed {S A R} `{Codec A} `{Codec R} (st : S) w id x m
    endname svcMeth (args : A) (v : option R) :
  reachable st w → reqs w !! id = Some x → Call_request endname svcMeth args = Ret (rq x) →
  at_pc x = Returned m → Call_result m = Ret (v, true) →
  ∃ b sp (rs rs' : Server S) (s s' : S) val,
    encode args = Some b ∧ srv_dispatch (ReqMsg endname svcMeth b) rs s = Ret (rs', s', m) ∧
    trace id w = [EvExec sp m; EvAlive; EvReply m] ∧
    v = Some val ∧ decode (rp_reply m) = Some val.
Proof.
  intros Hr Hid Hreq Hpc Hres. pose proof (reachable_executed _ _ Hr) as Hex.
  apply net_reachable_ok in Hr as [Hw _].
  pose proof (traces_ok_at _ _ _ Hw Hid) as Hok. unfold rpc_ok in Hok. rewrite Hpc in Hok.
  unfold Call_request, Marshall in Hreq. unfold Call_result, Unmarshall in Hres.
  destruct (encode args) as [b|]; [|done]. injection Hreq as Hrq.
  destruct Hok as [(_ & sp & Htr)|[-> _]]; [|done].
  destruct (Hex id sp m) as (x' & rs & rs' & s & s' & Hid' & Hd); [rewrite Htr; set_solver|].
  simplify_eq. rewrite <-Hrq in Hd. destruct (rp_ok m); [|done].
  destruct (decode (rp_reply m)) as [val|]; [|done]. injection Hres as <-.
  by exists b, sp, rs, rs', s, s', val.
Qed.

(** A codec for byte strings. *)
#[local] Instance bytes_codec : Codec bytes := {| encode b := Some b; decode b := Some b |}.

Lemma positive_reply_executed_witness :
  ∃ b sp (rs rs' : Server nat) (s s' : nat) val,
    encode [Byte.x41; Byte.x42] = Some b ∧
    srv_dispatch (ReqMsg "e" "Counter.Add" b) rs s = Ret (rs', s', the_rep) ∧
    trace 1 answered = [EvExec sp the_rep; EvAlive; EvReply the_rep] ∧
    Some [Byte.x41; Byte.x42] = Some val ∧ decode (rp_reply the_rep) = Some val.
Proof.
  by apply (positive_reply_executed 5%nat answered 1
    (rpc_at (Returned the_rep) (HDone the_rep)) the_rep "e" "Counter.Add"
    [Byte.x41; Byte.x42] (Some [Byte.x41; Byte.x42]) answered_reachable).
Defined.

(** How often an event of some kind occurs in a trace. *)
Definition is_exec (e : event) : bool := if e is EvExec _ _ then true else false.
Definition is_reply (e : event) : bool := if e is EvReply _ then true else false.
Definition n_exec (t : list event) : nat := length (List.filter is_exec t).
Definition n_reply (t : list event) : nat := length (List.filter is_reply t).

(** C13. At-most-once delivery: in every reachable state, whatever was dropped,
    delayed, disabled or killed, the handler of a request has run at most once and
    at most one message has been sent on its reply channel; one has been sent
    exactly when the call is over. *)
Theorem delivered_at_most_once {S} (st : S) w id x :
  reachable st w → reqs w !! id = Some x →
  (n_exec (trace id w) ≤ 1)%nat ∧ (n_reply (trace id w) ≤ 1)%nat ∧
  (n_reply (trace id w) = 1%nat ↔ ∃ m, at_pc x = Returned m).
Proof.
  intros Hr Hid. apply net_reachable_ok in Hr as [Hw _].
  pose proof (traces_ok_at _ _ _ Hw Hid) as H. unfold rpc_ok in H.
  destruct (at_pc x);
    repeat match goal with H : _ ∧ _ |- _ => destruct H | H : _ ∨ _ |- _ => destruct H
           | H : ∃ _, _ |- _ => destruct H | H : trace id w = _ |- _ => rewrite H; clear H end;
    unfold n_exec, n_reply; simpl; (split; [lia|]); (split; [lia|]); split; eauto; try lia;
    intros [? ?]; congruence.
Qed.

Lemma delivered_at_most_once_witness :
  (n_exec (trace 1 answered) ≤ 1)%nat ∧ (n_reply (trace 1 answered) ≤ 1)%nat.
Proof.
  destruct (delivered_at_most_once 5%nat answered 1
    (rpc_at (Returned the_rep) (HDone the_rep)) answered_reachable) as (H1 & H2 & _);
    [reflexivity|by split].
Defined.

(** C14. Call always returns, provided that the handler does: in every reachable
    state, from wherever a request is, at most six further steps of the network,
    its handler and its timers bring it to the point where its reply is sent. *)
Theorem call_returns {S} (st : S) w id x :
  reachable st w → reqs w !! id = Some x → handler_returns w (rq x) →
  ∃ w' x' m, bsteps step 6 w w' ∧ reqs w' !! id = Some x' ∧ at_pc x' = Returned m.
Proof.
  intros Hr Hid Hh. apply net_reachable_ok in Hr as [Hw Hp].
  apply (finishes_any w id x Hw Hp Hh Hid).
Qed.

Lemma call_returns_witness :
  ∃ w' x' m, bsteps step 6 called w' ∧ reqs w' !! 1%nat = Some x' ∧ at_pc x' = Returned m.
Proof.
  apply (call_returns 5%nat called 1 (rpc_at Sending HNone) called_reachable);
    [reflexivity|].
  intros sp rs Hrs. simpl in Hrs. apply lookup_singleton_Some in Hrs as [<- <-].
  do 3 eexists. vm_compute. reflexivity.
Defined.

(** A request that finds its end disabled, unconnected or connected to a
    server that is not there is never executed, whatever happens later in the
    network: no handler runs for it, and the only answer it can get is a failure. *)
Theorem unrouted_never_executed {S} (st : S) w w' id x :
  reachable st w → reqs w !! id = Some x → at_pc x = Accepted →
  route (rq_endname (rq x)) (net w) = None →
  rtc step (goto id x NoRoute [] w) w' →
  trace id w' = [] ∨ trace id w' = [EvReply failReply].
Proof.
  intros Hr Hid Hpc Hroute Hsteps. apply net_reachable_ok in Hr as [Hw Hp].
  pose proof (traces_ok_at _ _ _ Hw Hid) as Hx. unfold rpc_ok in Hx. rewrite Hpc in Hx.
  destruct (rtc_unrouted _ _ id _ Hsteps (goto_lookup _ _ _ _ _)) as (x' & Hid' & [Hh Hpc'] & _).
  { split; [apply Hx|by left]. }
  assert (traces_ok w') as Hw'.
  { revert Hsteps. assert (traces_ok (goto id x NoRoute [] w)) as H0
      by (eapply step_traces_ok; [by eapply st_noroute|done]).
    clear -H0. intros Hs. induction Hs; eauto using step_traces_ok. }
  pose proof (traces_ok_at _ _ _ Hw' Hid') as H. unfold rpc_ok in H. rewrite Hh in H.
  destruct Hpc' as [Hpc'|Hpc']; rewrite Hpc' in H; naive_solver.
Qed.

(** The end is disabled after the call was made. *)
Definition disabled : world nat := set_net (Enable "e" false (net called)) called.
Definition cut_off : world nat :=
  goto 1 (rpc_at Sending HNone) Accepted []
    (set_net (count_request the_req (net disabled)) disabled).

Lemma unrouted_never_executed_witness :
  trace 1 (goto 1 (rpc_at Accepted HNone) NoRoute [] cut_off) = [] ∨
  trace 1 (goto 1 (rpc_at Accepted HNone) NoRoute [] cut_off) = [EvReply failReply].
Proof.
  apply (unrouted_never_executed 5%nat cut_off _ 1 (rpc_at Accepted HNone));
    [|reflexivity|reflexivity|vm_compute; reflexivity|apply rtc_refl].
  eapply rtc_r; [eapply rtc_r; [apply called_reachable|]|].
  - apply st_admin. apply (ad_enable _ "e" false).
  - by apply (st_accept disabled 1 (rpc_at Sending HNone)).
Defined.
