(* ===== verification/LabGob.v ===== *)
(** * The checks of the gob wrapper (labgob/labgob.go)

    Before it hands a value to encoding/gob, the wrapper walks the type of the
    value ([checkType]) and counts the struct fields whose name is not
    capitalised; before decoding it also walks the target ([checkDefault]) and
    counts the basic values that are not zero.  The package variables [checked]
    and [errorCount] are the state.  Types form a graph, since a Go type can refer
    to itself, and so do values, through pointers: a type environment maps the
    identity of a [reflect.Type] to its description and a heap maps addresses to
    values.  The encoder and decoder of encoding/gob itself are not modelled. *)

From Stdlib Require Import Ascii.
From S2P Require Import Prelude.

Module LabGob.

(** The identity of a [reflect.Type], and the address of a value. *)
Abbreviation tid := nat.
Abbreviation addr := nat.

(** What [t.Kind()] and the accessors of a [reflect.Type] say. *)
Inductive rtype :=
| TStruct (name : string) (fields : list (string * tid))
| TSlice (elem : tid)
| TArray (elem : tid)
| TPtr (elem : tid)
| TMap (elem key : tid)
| TBasic.                                      (** every other kind *)

(** The package variables; [printed] counts the lines written by fmt.Printf. *)
Record gstate := MkG { checked : gset tid; errorCount : Z; printed : Z }.

Section unicode.
(** [unicode.IsUpper] of the first rune of a name that does not start with an
    ASCII character: the Unicode table. *)
Context (upper_unicode : string → bool).

(** [unicode.IsUpper(rune)] for the rune [utf8.DecodeRuneInString] returns. *)
Definition is_upper (name : string) : bool :=
  match name with
  | EmptyString => false                       (* RuneError *)
  | String c _ =>
      let n := N_of_ascii c in
      if (n <? 128)%N then (65 <=? n)%N && (n <=? 90)%N else upper_unicode name
  end.

Definition count_field (g : gstate) (name : string) : gstate :=
  if is_upper name then g else MkG (checked g) (errorCount g + 1) (printed g + 1).

(** The recursion ends because a type is entered only when it is not in
    [checked]; the fuel bounds the depth. *)
Fixpoint checkType (fuel : nat) (env : gmap tid rtype) (g : gstate) (t : tid) : res gstate :=
  match fuel with
  | O => Stop OutOfFuel
  | S fuel =>
      match env !! t with
      | None => Stop Panic                      (* t.Kind() of a nil Type *)
      | Some r =>
          if decide (t ∈ checked g) then Ret g
          else
            let g := MkG ({[t]} ∪ checked g) (errorCount g) (printed g) in
            match r with
            | TStruct _ fields =>
                res_fold (λ g f, checkType fuel env (count_field g f.1) f.2) g fields
            | TSlice e | TArray e | TPtr e => checkType fuel env g e
            | TMap e k => let* g := checkType fuel env g e in checkType fuel env g k
            | TBasic => Ret g
            end
      end
  end.

(** [reflect.TypeOf(value)] is nil for a nil interface. *)
Definition checkValue (fuel : nat) (env : gmap tid rtype) (g : gstate) (typ : option tid)
    : res gstate :=
  match typ with Some t => checkType fuel env g t | None => Stop Panic end.

(** ** What the walk does *)

(** The types a type refers to, and the lower-case fields of its own. *)
Definition succs (r : rtype) : list tid :=
  match r with
  | TStruct _ fields => fields.*2
  | TSlice e | TArray e | TPtr e => [e]
  | TMap e k => [e; k]
  | TBasic => []
  end.
Definition lower_fields (r : rtype) : Z :=
  match r with
  | TStruct _ fields => sumf (λ f, if is_upper f.1 then 0 else 1) fields
  | _ => 0
  end.

Definition refers (env : gmap tid rtype) (t u : tid) : Prop :=
  ∃ r, env !! t = Some r ∧ u ∈ succs r.

(** Every type referred to has a description. *)
Definition env_ok (env : gmap tid rtype) : Prop := ∀ t u, refers env t u → is_Some (env !! u).
(** Everything a type in the set refers to is in the set. *)
Definition closed (env : gmap tid rtype) (s : gset tid) : Prop :=
  ∀ t u, t ∈ s → refers env t u → u ∈ s.

Definition lower_of (env : gmap tid rtype) (t : tid) : Z :=
  match env !! t with Some r => lower_fields r | None => 0 end.
(** The lower-case fields of the types of a set. *)
Definition lower_total (env : gmap tid rtype) (s : gset tid) : Z :=
  sumf (lower_of env) (elements s).

Definition walked (env : gmap tid rtype) (g g' : gstate) (roots : list tid) : Prop :=
  checked g ⊆ checked g' ∧ (∀ t, t ∈ roots → t ∈ checked g') ∧
  (∀ t u, t ∈ checked g' → t ∉ checked g → refers env t u → u ∈ checked g') ∧
  (∀ t, t ∈ checked g' → t ∉ checked g → ∃ r, r ∈ roots ∧ rtc (refers env) r t).

Lemma lower_total_union env s s' :
  s ## s' → lower_total env (s ∪ s') = lower_total env s + lower_total env s'.
Proof.
  intros Hd. unfold lower_total. rewrite (sumf_perm _ _ _ (elements_disj_union s s' Hd)).
  apply sumf_app.
Qed.

Lemma lower_total_split env (s1 s2 s3 : gset tid) :
  s1 ⊆ s2 → s2 ⊆ s3 →
  lower_total env (s3 ∖ s1) = lower_total env (s2 ∖ s1) + lower_total env (s3 ∖ s2).
Proof.
  intros H12 H23. rewrite <-lower_total_union by set_solver. f_equal.
  apply set_eq. intros x. destruct (decide (x ∈ s2)); set_solver.
Qed.

Lemma lower_total_diag env s : lower_total env (s ∖ s) = 0.
Proof. unfold lower_total. by rewrite difference_diag_L, elements_empty. Qed.

Lemma walked_trans env g1 g2 g3 r1 r2 :
  walked env g1 g2 r1 → walked env g2 g3 r2 → walked env g1 g3 (r1 ++ r2).
Proof.
  intros (Ha & Hb & Hc & Hd) (Ha' & Hb' & Hc' & Hd'). split_and!.
  - set_solver.
  - intros t [?|?]%elem_of_app; [by apply Ha', Hb|by apply Hb'].
  - intros t u Ht Hn Hr. destruct (decide (t ∈ checked g2)); [by eapply Ha', Hc|by eapply Hc'].
  - intros t Ht Hn. destruct (decide (t ∈ checked g2)) as [H|H].
    + destruct (Hd t H Hn) as (r & ? & ?). exists r. set_solver.
    + destruct (Hd' t Ht H) as (r & ? & ?). exists r. set_solver.
Qed.

Lemma walked_nil env g : walked env g g [].
Proof. split_and!; set_solver. Qed.

(** The types of the environment that are still to be entered. *)
Definition todo (env : gmap tid rtype) (s : gset tid) : nat := size (dom env ∖ s).

Lemma todo_subseteq env s s' : s ⊆ s' → (todo env s' ≤ todo env s)%nat.
Proof. intros ?. apply subseteq_size. set_solver. Qed.

Lemma todo_enter env s t : is_Some (env !! t) → t ∉ s → (todo env ({[t]} ∪ s) < todo env s)%nat.
Proof. intros ?%elem_of_dom ?. apply subset_size. set_solver. Qed.

(** The specification of one call, used for the recursive ones too. *)
Definition spec_of (env : gmap tid rtype) (g : gstate) (roots : list tid) (extra : Z)
    (out : res gstate) : Prop :=
  ∃ g', out = Ret g' ∧ walked env g g' roots ∧
    errorCount g' = errorCount g + extra + lower_total env (checked g' ∖ checked g).

Lemma spec_bind env g r1 r2 e1 e2 m f :
  spec_of env g r1 e1 m →
  (∀ g', checked g ⊆ checked g' → m = Ret g' → spec_of env g' r2 e2 (f g')) →
  spec_of env g (r1 ++ r2) (e1 + e2) (rbind m f).
Proof.
  intros (g1 & -> & Hw1 & He1) Hf. simpl.
  destruct (Hf g1) as (g2 & Heq & Hw2 & He2); [by destruct Hw1|done|].
  exists g2. split_and!; [done|by eapply walked_trans|].
  rewrite (lower_total_split env (checked g) (checked g1)); [lia|apply Hw1|apply Hw2].
Qed.

Lemma spec_fields env fuel fields g :
  (∀ g' t, checked g ⊆ checked g' → t ∈ fields.*2 →
     spec_of env g' [t] 0 (checkType fuel env g' t)) →
  spec_of env g (fields.*2) (lower_fields (TStruct "" fields))
    (res_fold (λ g f, checkType fuel env (count_field g f.1) f.2) g fields).
Proof.
  revert g. induction fields as [|[name t] fields IH]; intros g Hrec.
  - exists g. split_and!; [done|apply walked_nil|]. rewrite lower_total_diag. simpl. lia.
  - unfold lower_fields in *. rewrite sumf_cons, fmap_cons. cbn [res_fold fst snd].
    apply (spec_bind env g [t]).
    + destruct (Hrec (count_field g name) t) as (g' & Heq & Hw & He).
      { unfold count_field. by case_match. } { rewrite fmap_cons. set_solver. }
      exists g'. unfold count_field in *. destruct (is_upper name); simpl in *;
        (split_and!; [done|done|lia]).
    + intros g' Hsub _. apply IH. intros g'' u ? ?. apply Hrec; [set_solver|].
      rewrite fmap_cons. set_solver.
Qed.

(** Entering a type: the new type itself and what its walk adds. *)
Lemma spec_enter env g t r out :
  env !! t = Some r → t ∉ checked g →
  spec_of env (MkG ({[t]} ∪ checked g) (errorCount g) (printed g)) (succs r) (lower_fields r) out →
  spec_of env g [t] 0 out.
Proof.
  intros Hr Ht (g' & -> & (Ha & Hb & Hc & Hd) & He). simpl in *. exists g'. split_and!; [done| |].
  - split_and!.
    + set_solver.
    + set_solver.
    + intros u v Hu Hn Huv. destruct (decide (u = t)) as [->|?]; [|apply (Hc u v); set_solver].
      destruct Huv as (r' & ? & ?); simplify_eq. by apply Hb.
    + intros u Hu Hn. exists t. split; [set_solver|].
      destruct (decide (u = t)) as [->|?]; [done|].
      destruct (Hd u Hu) as (s & Hs & Hrtc); [set_solver|].
      eapply rtc_l; [|done]. by exists r.
  - rewrite He, (lower_total_split env (checked g) ({[t]} ∪ checked g) (checked g'))
      by set_solver.
    replace (({[t]} ∪ checked g) ∖ checked g) with ({[t]} : gset tid)
      by (apply set_eq; set_solver).
    unfold lower_total at 2. rewrite elements_singleton. unfold sumf, lower_of. simpl. rewrite Hr. lia.
Qed.

Lemma checkType_spec env fuel g t :
  env_ok env → is_Some (env !! t) → (todo env (checked g) < fuel)%nat →
  spec_of env g [t] 0 (checkType fuel env g t).
Proof.
  intros Henv. revert g t. induction fuel as [|fuel IH]; intros g t [r Hr] Hfuel; [lia|].
  simpl. rewrite Hr. destruct (decide (t ∈ checked g)) as [Hin|Hin].
  - exists g. split_and!; [done| |rewrite lower_total_diag; lia].
    split_and!; set_solver.
  - assert (todo env ({[t]} ∪ checked g) < todo env (checked g))%nat as Htodo
      by (apply todo_enter; [by exists r|done]).
    assert (∀ g' u, {[t]} ∪ checked g ⊆ checked g' → u ∈ succs r →
      spec_of env g' [u] 0 (checkType fuel env g' u)) as Hrec.
    { intros g' u Hsub Hu. apply IH.
      - apply (Henv t). by exists r.
      - pose proof (todo_subseteq env _ _ Hsub). lia. }
    eapply spec_enter; [done..|]. destruct r as [nm fields|e|e|e|e k|]; simpl in *.
    + by apply (spec_fields env fuel fields).
    + apply Hrec; set_solver.
    + apply Hrec; set_solver.
    + apply Hrec; set_solver.
    + apply (spec_bind env _ [e] [k] 0 0); [apply Hrec; set_solver|].
      intros g' ? _. apply Hrec; set_solver.
    + eexists. split_and!; [done|apply walked_nil|]. rewrite lower_total_diag. simpl. lia.
Qed.

Lemma closed_rtc env s t u : closed env s → t ∈ s → rtc (refers env) t u → u ∈ s.
Proof. intros Hs Ht. induction 1; eauto. Qed.

(** ** The walk over the target of a decode *)

(** A [reflect.Value]: the kinds that checkDefault1 distinguishes.  A pointer is
    an address of the heap; floats are their IEEE bits. *)
Inductive gval :=
| VStruct (fields : list (string * bool * gval))      (** name, embedded, value *)
| VPtr (p : option addr)
| VBool (b : bool)
| VInt (z : Z)                                        (** signed and unsigned *)
| VFloat (bits : Z)
| VString (s : string)
| VOther.                                             (** slice, map, interface, ... *)

(** [Some b]: a basic kind, and whether the value equals the zero value of its
    type (the two float zeros are equal); [None]: a kind the walk ignores. *)
Definition basic_zero (v : gval) : option bool :=
  match v with
  | VBool b => Some (negb b)
  | VInt z => Some (bool_decide (z = 0))
  | VFloat bits => Some (bool_decide (bits = 0 ∨ bits = two63))
  | VString s => Some (bool_decide (s = ""))
  | _ => None
  end.

(** The read-only flags of a value: [sticky] is inherited from an unexported
    field, [embed] marks an unexported embedded field.  [value.Interface()]
    panics on a value that has either. *)
Record rflag := MkFlag { sticky : bool; embed : bool }.
Definition ro (f : rflag) : bool := sticky f || embed f.
Definition field_flag (f : rflag) (exported embedded : bool) : rflag :=
  MkFlag (sticky f || (negb exported && negb embedded)) (negb exported && embedded).

(** [errorCount += 1], with a warning when it was below one. *)
Definition count_default (g : gstate) : gstate :=
  MkG (checked g) (errorCount g + 1) (if decide (errorCount g < 1) then printed g + 1 else printed g).

(** A nil pointer returns; an address outside the heap has no Go counterpart. *)
Fixpoint checkDefault1 (fuel : nat) (h : gmap addr gval) (f : rflag) (depth : Z) (g : gstate)
    (value : gval) : res gstate :=
  match fuel with
  | O => Stop OutOfFuel
  | S fuel =>
      if decide (depth > 3) then Ret g
      else
        match value with
        | VStruct fields =>
            res_fold (λ g '(name, embedded, vv),
              checkDefault1 fuel h (field_flag f (is_upper name) embedded) (depth + 1) g vv) g fields
        | VPtr None => Ret g
        | VPtr (Some a) =>
            match h !! a with
            | Some v => checkDefault1 fuel h f (depth + 1) g v
            | None => Stop Panic
            end
        | _ =>
            match basic_zero value with
            | Some zero =>
                if ro f then Stop Panic
                else if zero then Ret g else Ret (count_default g)
            | None => Ret g
            end
        end
  end.

Definition no_flag : rflag := MkFlag false false.

(** Depths 1 to 3 are entered and the calls at depth 4 return at once. *)
Definition checkDefault (h : gmap addr gval) (g : gstate) (value : option gval) : res gstate :=
  match value with
  | None => Ret g
  | Some v => checkDefault1 4 h no_flag 1 g v
  end.

(** The checks of [Encode], [Register] and [RegisterName], and of [Decode]; the registration
    itself is gob's. *)
Definition Register (fuel : nat) (env : gmap tid rtype) (g : gstate) (typ : option tid) : res gstate :=
  checkValue fuel env g typ.
Definition RegisterName (name : string) (fuel : nat) (env : gmap tid rtype) (g : gstate) (typ : option tid) : res gstate :=
  checkValue fuel env g typ.
Definition Encode (fuel : nat) (env : gmap tid rtype) (g : gstate) (typ : option tid) : res gstate :=
  checkValue fuel env g typ.
Definition Decode (fuel : nat) (env : gmap tid rtype) (h : gmap addr gval) (g : gstate)
    (e : option (tid * gval)) : res gstate :=
  let* g := checkValue fuel env g (fst <$> e) in checkDefault h g (snd <$> e).

(** The basic values the walk looks at, with their flags: at most three levels,
    through struct fields and pointers that are not nil. *)
Inductive visits (h : gmap addr gval) : rflag → Z → gval → rflag → gval → Prop :=
| vi_here f depth v z : depth ≤ 3 → basic_zero v = Some z → visits h f depth v f v
| vi_field f depth fields name embedded vv f' v :
    depth ≤ 3 → (name, embedded, vv) ∈ fields →
    visits h (field_flag f (is_upper name) embedded) (depth + 1) vv f' v →
    visits h f depth (VStruct fields) f' v
| vi_ptr f depth a vv f' v :
    depth ≤ 3 → h !! a = Some vv → visits h f (depth + 1) vv f' v →
    visits h f depth (VPtr (Some a)) f' v.

(** No pointer is dangling. *)
Inductive ptrs_in (h : gmap addr gval) : gval → Prop :=
| pi_struct fields : (∀ x, x ∈ fields → ptrs_in h x.2) → ptrs_in h (VStruct fields)
| pi_ptr a : is_Some (h !! a) → ptrs_in h (VPtr (Some a))
| pi_nil : ptrs_in h (VPtr None)
| pi_basic v z : basic_zero v = Some z → ptrs_in h v
| pi_other : ptrs_in h VOther.
Definition heap_ok (h : gmap addr gval) : Prop := ∀ a v, h !! a = Some v → ptrs_in h v.

(** A value that does not disturb the walk. *)
Definition quiet (f : rflag) (v : gval) : Prop := ro f = false ∧ basic_zero v = Some true.

(** How a walk over the values [V] can end: by returning, with what it counted
    and printed, or by a panic. *)
Inductive outcome (V : rflag → gval → Prop) (g : gstate) : res gstate → Prop :=
| out_ret g' :
    (∀ f v, V f v → ro f = false) →
    checked g' = checked g → errorCount g ≤ errorCount g' →
    printed g' = printed g + (if decide (errorCount g < 1 ∧ errorCount g < errorCount g') then 1 else 0) →
    (errorCount g' = errorCount g ↔ ∀ f v, V f v → quiet f v) →
    outcome V g (Ret g')
| out_panic f v : V f v → ro f = true → outcome V g (Stop Panic).

Lemma outcome_iff V V' g out :
  (∀ f v, V f v ↔ V' f v) → outcome V g out → outcome V' g out.
Proof.
  intros HV [g' ? ? ? ? [He1 He2]|f v ? ?].
  - apply out_ret; [naive_solver|done|done|done|]. split; naive_solver.
  - eapply out_panic; [by apply HV|done].
Qed.

Lemma outcome_none V g : (∀ f v, ¬ V f v) → outcome V g (Ret g).
Proof.
  intros HV. apply out_ret; [naive_solver|done|done| |naive_solver].
  rewrite decide_False by lia. lia.
Qed.

Lemma outcome_bind V V' g m k :
  0 ≤ errorCount g → outcome V g m →
  (∀ g', 0 ≤ errorCount g' → outcome V' g' (k g')) →
  outcome (λ f v, V f v ∨ V' f v) g (rbind m k).
Proof.
  intros Hg [g1 Hro1 Hc1 Hle1 Hp1 [Hq1 Hq1']|f v ? ?] Hk; simpl; [|eapply out_panic; eauto].
  destruct (Hk g1) as [g2 Hro2 Hc2 Hle2 Hp2 [Hq2 Hq2']|f v ? ?]; [lia| |eapply out_panic; eauto].
  apply out_ret; [naive_solver|congruence|lia| |].
  - rewrite Hp2, Hp1. repeat case_decide; lia.
  - split.
    + intros He. assert (errorCount g1 = errorCount g) by lia.
      assert (errorCount g2 = errorCount g1) by lia. naive_solver.
    + intros H. rewrite Hq2' by naive_solver. apply Hq1'. naive_solver.
Qed.

(** The values visited in the fields of a struct. *)
Definition visits_in (h : gmap addr gval) (f : rflag) (depth : Z)
    (fields : list (string * bool * gval)) (f' : rflag) (v : gval) : Prop :=
  ∃ name embedded vv, (name, embedded, vv) ∈ fields ∧
    visits h (field_flag f (is_upper name) embedded) (depth + 1) vv f' v.

Lemma outcome_fields fuel h f depth fields g :
  (∀ g' f' x, x ∈ fields → 0 ≤ errorCount g' →
     outcome (visits h f' (depth + 1) x.2) g' (checkDefault1 fuel h f' (depth + 1) g' x.2)) →
  0 ≤ errorCount g →
  outcome (visits_in h f depth fields) g
    (res_fold (λ g '(name, embedded, vv),
       checkDefault1 fuel h (field_flag f (is_upper name) embedded) (depth + 1) g vv) g fields).
Proof.
  revert g. induction fields as [|[[name embedded] vv] fields IH]; intros g Hrec Hg; simpl.
  - apply outcome_none. intros f' v (? & ? & ? & H & _). by apply not_elem_of_nil in H.
  - eapply outcome_iff; [|apply (outcome_bind (visits h (field_flag f (is_upper name) embedded) (depth + 1) vv)
        (visits_in h f depth fields));
      [done|apply (Hrec g _ (name, embedded, vv)); [set_solver|done]|]].
    + intros f' v. unfold visits_in. setoid_rewrite elem_of_cons. naive_solver.
    + intros g' Hg'. apply IH; [|done]. intros; apply Hrec; set_solver.
Qed.

Lemma outcome_basic h f depth v z g :
  depth ≤ 3 → 0 ≤ errorCount g → basic_zero v = Some z →
  outcome (visits h f depth v) g
    (if ro f then Stop Panic else if z then Ret g else Ret (count_default g)).
Proof.
  intros Hd Hg Hz. assert (visits h f depth v f v) as Hv by by econstructor.
  assert (∀ f' v', visits h f depth v f' v' → f' = f ∧ v' = v) as Honly
    by (intros f' v' H; inversion H; simplify_eq; done).
  destruct (ro f) eqn:Hro; [by eapply out_panic|]. destruct z.
  - apply out_ret; [|done|done|rewrite decide_False by lia; lia|].
    + intros ? ? [-> _]%Honly. done.
    + split; [|done]. intros _ ? ? [-> ->]%Honly. done.
  - apply out_ret; simpl; [|done|lia|repeat case_decide; lia|].
    + intros ? ? [-> _]%Honly. done.
    + split; [lia|]. intros H. destruct (H _ _ Hv). congruence.
Qed.

Lemma checkDefault1_outcome fuel h f depth g v :
  heap_ok h → ptrs_in h v → 0 ≤ errorCount g → Z.max 0 (4 - depth) < Z.of_nat fuel →
  outcome (visits h f depth v) g (checkDefault1 fuel h f depth g v).
Proof.
  intros Hh. revert f depth g v. induction fuel as [|fuel IH]; intros f depth g v Hv Hg Hf; [lia|].
  simpl. case_decide as Hd.
  { apply outcome_none. intros f' v' H. destruct H; lia. }
  destruct v as [fields|[a|]|b|z|bits|str|];
    try (by eapply outcome_basic; [lia|done|done]).
  - eapply outcome_iff; [|apply outcome_fields; [|done]].
    + intros f' v'. unfold visits_in. split.
      * intros (name & embedded & vv & ? & ?). econstructor; [lia|done|done].
      * intros H. inversion H; simplify_eq; eauto 6.
    + intros g' f' x Hx Hg'. apply IH; [|done|lia]. inversion Hv; simplify_eq; eauto.
  - destruct (h !! a) as [vv|] eqn:Ha.
    + eapply outcome_iff; [|apply IH; [by eapply Hh|done|lia]].
      intros f' v'. split; [intros; econstructor; [lia|done|done]|].
      intros H. inversion H; simplify_eq; done.
    + inversion Hv as [|? [? ?]| | |]; simplify_eq.
  - apply outcome_none. intros f' v' H. inversion H; simplify_eq.
  - apply outcome_none. intros f' v' H. inversion H; simplify_eq.
Qed.
End unicode.

End LabGob.
