(* ===== verification/LabGobSpec.v ===== *)
(** * Properties of the gob wrapper's checks (labgob/labgob.go)

    [checkType] terminates on recursive types, visits what a type refers to and
    counts every lower-case field once per type; [checkDefault] looks three
    levels deep, terminates on cyclic values, and warns at most once. *)

From S2P Require Import Prelude LabGob.
Import LabGob.

(** The walk over a type terminates, on recursive types too, within a depth
    of one more than the number of types; when the types checked so far are closed
    under reference, it adds to them exactly the types reachable from the given
    one, stays closed, and adds to errorCount the number of lower-case fields of
    the newly added types, each type counted once; a later check of any of these
    types changes nothing. *)
Theorem checkType_counts_once upper env g t :
  env_ok env → is_Some (env !! t) → closed env (checked g) →
  ∃ g', checkType upper (S (size env)) env g t = Ret g' ∧
    (∀ u, u ∈ checked g' ↔ u ∈ checked g ∨ rtc (refers env) t u) ∧
    closed env (checked g') ∧
    errorCount g' = errorCount g + lower_total upper env (checked g' ∖ checked g) ∧
    (∀ u fuel, u ∈ checked g' → is_Some (env !! u) → checkType upper (S fuel) env g' u = Ret g').
Proof.
  intros Henv Ht Hcl.
  destruct (checkType_spec upper env (S (size env)) g t) as (g' & Heq & (Ha & Hb & Hc & Hd) & He);
    [done..| |].
  { unfold todo. rewrite <-size_dom. assert (dom env ∖ checked g ⊆ dom env) as Hs by set_solver.
    apply subseteq_size in Hs. lia. }
  assert (closed env (checked g')) as Hcl'.
  { intros u v Hu Huv. destruct (decide (u ∈ checked g)); [by eapply Ha, Hcl|by eapply Hc]. }
  exists g'. split_and!; [done| |done|lia|].
  - intros u. split.
    + intros Hu. destruct (decide (u ∈ checked g)) as [|Hn]; [by left|right].
      destruct (Hd u Hu Hn) as (r & ->%list_elem_of_singleton & ?). done.
    + intros [?|Hr]; [by apply Ha|]. eapply closed_rtc; [done| |done]. apply Hb. set_solver.
  - intros u fuel Hu [r Hr]. simpl. by rewrite Hr, decide_True.
Qed.

(** A self-referential type: [type T struct { val int; Next *T }]. *)
Definition list_env : gmap tid rtype :=
  {[0%nat := TStruct "T" [("val", 2%nat); ("Next", 1%nat)]; 1%nat := TPtr 0%nat; 2%nat := TBasic]}.
Definition fresh : gstate := MkG ∅ 0 0.

Lemma checkType_counts_once_witness :
  ∃ g', checkType (λ _, false) 4 list_env fresh 1 = Ret g' ∧ errorCount g' = 1.
Proof.
  destruct (checkType_counts_once (λ _, false) list_env fresh 1) as (g' & Heq & _).
  - intros t u (r & Hr & Hu). unfold list_env in *.
    repeat (rewrite lookup_insert_Some in Hr || rewrite lookup_singleton_Some in Hr).
    destruct Hr as [[<- <-]|[? [[<- <-]|[? [<- <-]]]]]; simpl in Hu;
      repeat (apply elem_of_cons in Hu as [->|Hu]); try (by eexists);
      by apply not_elem_of_nil in Hu.
  - by eexists.
  - intros t u Ht. simpl in Ht. set_solver.
  - exists g'. split; [exact Heq|]. revert Heq. vm_compute. by intros [= <-].
Defined.

(** The check of a decode target always ends, whatever cycles the value has.
    Either it returns: then none of the basic values within three levels is behind
    an unexported field, errorCount grows exactly when one of them differs from
    its zero value, and a warning is printed only for the first error ever
    counted; or it panics, and then one of these values is behind an unexported
    field. *)
Theorem checkDefault_outcome upper h g v :
  heap_ok h → ptrs_in h v → 0 ≤ errorCount g →
  (∃ g', checkDefault upper h g (Some v) = Ret g' ∧
     (∀ f' v', visits upper h no_flag 1 v f' v' → ro f' = false) ∧
     errorCount g ≤ errorCount g' ∧ checked g' = checked g ∧
     (errorCount g' = errorCount g ↔
        ∀ f' v', visits upper h no_flag 1 v f' v' → basic_zero v' = Some true) ∧
     printed g' = printed g +
       (if decide (errorCount g = 0 ∧ errorCount g' ≠ 0) then 1 else 0)) ∨
  (checkDefault upper h g (Some v) = Stop Panic ∧
     ∃ f' v', visits upper h no_flag 1 v f' v' ∧ ro f' = true).
Proof.
  intros Hh Hv Hg. unfold checkDefault.
  destruct (checkDefault1_outcome upper 4 h no_flag 1 g v Hh Hv Hg ltac:(lia))
    as [g' Hro Hc Hle Hp Hq|f' v' ? ?]; [left|right; eauto].
  exists g'. split_and!; [done|done|done|done| |].
  - rewrite Hq. unfold quiet. naive_solver.
  - rewrite Hp. repeat case_decide; lia.
Qed.

(** A pointer to a struct that holds a nonzero number and points back to itself. *)
Definition ring_heap : gmap addr gval :=
  {[0%nat := VStruct [("Val", false, VInt 3); ("Next", false, VPtr (Some 0%nat))]]}.

Lemma ring_heap_ok : heap_ok ring_heap.
Proof.
  intros a v. unfold ring_heap. rewrite lookup_singleton_Some. intros [<- <-].
  constructor. intros x Hx. repeat (apply elem_of_cons in Hx as [->|Hx]); simpl.
  - by eapply pi_basic.
  - constructor. by eexists.
  - by apply not_elem_of_nil in Hx.
Qed.

Lemma checkDefault_outcome_witness :
  ∃ g', checkDefault (λ _, false) ring_heap fresh (Some (VPtr (Some 0%nat))) = Ret g' ∧
    errorCount g' = 1 ∧ printed g' = 1.
Proof.
  destruct (checkDefault_outcome (λ _, false) ring_heap fresh (VPtr (Some 0%nat)) ring_heap_ok)
    as [(g' & Heq & _)|[Heq _]].
  - constructor. by eexists.
  - done.
  - exists g'. split; [exact Heq|]. revert Heq. vm_compute. by intros [= <-].
  - exfalso. revert Heq. by vm_compute.
Defined.
