(* ===== verification/Demux.v ===== *)
(** * Calls multiplexed over one connection (tester1/demux)

    A [DemuxClnt] lets many goroutines call over one connection: [SendReceive]
    takes a fresh tag, registers a reply channel under it in the [callMap], writes
    the request and waits; the reader goroutine matches every reply with its call
    by the tag, and when the connection breaks it fails the calls that are still
    outstanding.  A [DemuxSrv] reads requests, serves each in a goroutine of its
    own and writes the replies in any order.

    The model is a step relation in which the callers, the two readers, the
    serving goroutines and failures of the connection interleave freely.  The
    connection carries whole messages in order, which Wire.v proves of the framing.
    A reply channel is the number of its call; [issued] and [served] are ghost. *)

From S2P Require Import Prelude LabRpc.
Import LabRpc.

Module Demux.

(** ** callmap.go *)

Abbreviation chan := nat (only parsing).

Record callMap := MkCallMap { closed : bool; calls : gmap Z chan }.

Definition newCallMap : callMap := MkCallMap false ∅.
Definition cm_close (cm : callMap) : callMap := MkCallMap true (calls cm).
Definition isClosed (cm : callMap) : bool := closed cm.
(** put: [None] is the error "conn closed". *)
Definition put (tag : Z) (ch : chan) (cm : callMap) : option callMap :=
  if closed cm then None else Some (MkCallMap (closed cm) (<[tag := ch]> (calls cm))).
Definition remove (tag : Z) (cm : callMap) : option (chan * callMap) :=
  match calls cm !! tag with
  | Some ch => Some (ch, MkCallMap (closed cm) (delete tag (calls cm)))
  | None => None
  end.
(** outstanding returns the tags in some order. *)
Definition outstanding (cm : callMap) (ts : list Z) : Prop := range_order (calls cm) ts.

(** ** dmxclnt.go and dmxsrv.go *)

(** reply: the data, the ok of the server, and whether err is not nil. *)
Record reply := Reply { rep : bytes; rok : bool; rerr : bool }.

(** Where a call of SendReceive is. *)
Inductive cpc :=
| CTagged                       (** has its tag *)
| CPut                          (** registered, about to write *)
| CWait                         (** at [<-ch] *)
| CDone (r : reply).            (** returned *)
Record caller := Caller { ctag : Z; body : bytes; cat : cpc }.

(** Where the client's reader is; [RDeliver] is blocked in [ch <- reply{...}]. *)
Inductive rpc :=
| RRead
| RFailed                           (** left the loop, the map is closed *)
| RDrain (ts : list Z)
| RDeliver (ch : chan) (r : reply) (next : option (list Z))
| RExit
| RFatal.                           (** log.Fatalf: no matching request *)

(** The server behind a DemuxSrv: ServerI. *)
Class ServerI (S : Type) := ServeRequest : S → string → bytes → res (S * (bytes * bool)).

Section demux.
Context {S : Type} `{ServerI S} (clnt : string).

Record world := MkWorld {
  nextTag : Z; cmap : callMap; callers : gmap nat caller; reader : rpc;
  c2s : list (Z * bytes);                        (** requests on the connection *)
  jobs : list (Z * bytes);                       (** serving goroutines, before the service *)
  outbox : list (Z * (bytes * bool));            (** serving goroutines, about to write *)
  s2c : list (Z * (bytes * bool));               (** replies on the connection *)
  srv : S;
  issued : Z;                                    (** tags handed out so far *)
  served : list (Z * bytes * (bytes * bool))     (** what was served, with the answers *)
}.
Implicit Types w : world.

Definition upd_call (id : nat) (c : caller) w : world :=
  MkWorld (nextTag w) (cmap w) (<[id := c]> (callers w)) (reader w) (c2s w) (jobs w) (outbox w)
    (s2c w) (srv w) (issued w) (served w).
Definition upd_map (cm : callMap) (r : rpc) w : world :=
  MkWorld (nextTag w) cm (callers w) r (c2s w) (jobs w) (outbox w)
    (s2c w) (srv w) (issued w) (served w).
Definition upd_conn cs js ob sc w : world :=
  MkWorld (nextTag w) (cmap w) (callers w) (reader w) cs js ob sc (srv w) (issued w) (served w).
Definition upd_tag w : world :=
  MkWorld (u32 (nextTag w + 1)) (cmap w) (callers w) (reader w) (c2s w) (jobs w) (outbox w)
    (s2c w) (srv w) (issued w + 1) (served w).
Definition upd_srv (st : S) x w : world :=
  MkWorld (nextTag w) (cmap w) (callers w) (reader w) (c2s w) (jobs w) (outbox w)
    (s2c w) st (issued w) (served w ++ [x]).

(** After NewDemuxClnt and NewDemuxSrv: tag 0 went to the InitMsg. *)
Definition init (st : S) : world :=
  MkWorld 1 newCallMap ∅ RRead [] [] [] [] st 1 [].

Definition at_ (c : caller) (p : cpc) : caller := Caller (ctag c) (body c) p.

(** dmx.reply: look the channel up and remove it; log.Fatalf if there is none. *)
Definition reply_to (t : Z) (r : reply) (next : option (list Z)) w : world :=
  match remove t (cmap w) with
  | Some (ch, cm) => upd_map cm (RDeliver ch r next) w
  | None => upd_map (cmap w) RFatal w
  end.

(** Where the reader goes after a delivery. *)
Definition resume (next : option (list Z)) : rpc :=
  match next with None => RRead | Some ts => RDrain ts end.

(** The reader of a DemuxSrv, and the goroutines that serve the requests. *)
Inductive srv_step w : world → Prop :=
| s_request t b rest : c2s w = (t, b) :: rest →
    srv_step w (upd_conn rest (jobs w ++ [(t, b)]) (outbox w) (s2c w) w)
| s_serve t b js st r ok : jobs w ≡ₚ (t, b) :: js →
    ServeRequest (srv w) clnt b = Ret (st, (r, ok)) →
    srv_step w (upd_srv st (t, b, (r, ok)) (upd_conn (c2s w) js (outbox w ++ [(t, (r, ok))]) (s2c w) w))
| s_answer t x ob : outbox w ≡ₚ (t, x) :: ob →
    srv_step w (upd_conn (c2s w) (jobs w) ob (s2c w ++ [(t, x)]) w)
| s_answererr t x ob : outbox w ≡ₚ (t, x) :: ob →
    srv_step w (upd_conn (c2s w) (jobs w) ob (s2c w) w).

Inductive step w : world → Prop :=
(** SendReceive *)
| s_tag id b : callers w !! id = None →
    step w (upd_tag (upd_call id (Caller (nextTag w) b CTagged) w))
| s_put id c cm : callers w !! id = Some c → cat c = CTagged →
    put (ctag c) id (cmap w) = Some cm →
    step w (upd_call id (at_ c CPut) (upd_map cm (reader w) w))
| s_refused id c : callers w !! id = Some c → cat c = CTagged →
    put (ctag c) id (cmap w) = None →
    step w (upd_call id (at_ c (CDone (Reply [] false true))) w)
| s_write id c : callers w !! id = Some c → cat c = CPut →
    step w (upd_call id (at_ c CWait)
      (upd_conn (c2s w ++ [(ctag c, body c)]) (jobs w) (outbox w) (s2c w) w))
| s_writeerr id c : callers w !! id = Some c → cat c = CPut →
    step w (upd_call id (at_ c CWait) w)
(** the reader of the client *)
| s_read t r ok rest : reader w = RRead → s2c w = (t, (r, ok)) :: rest →
    step w (reply_to t (Reply r ok false) None (upd_conn (c2s w) (jobs w) (outbox w) rest w))
| s_readerr : reader w = RRead → step w (upd_map (cm_close (cmap w)) RFailed w)
| s_outstanding ts : reader w = RFailed → outstanding (cmap w) ts →
    step w (upd_map (cmap w) (RDrain ts) w)
| s_drain t ts : reader w = RDrain (t :: ts) →
    step w (reply_to t (Reply [] false true) (Some ts) w)
| s_exit : reader w = RDrain [] → step w (upd_map (cmap w) RExit w)
| s_deliver id c r next : reader w = RDeliver id r next → callers w !! id = Some c →
    cat c = CWait →
    step w (upd_call id (at_ c (CDone r)) (upd_map (cmap w) (resume next) w))
(** Close of the client *)
| s_close : isClosed (cmap w) = false → step w (upd_map (cm_close (cmap w)) (reader w) w)
(** the server *)
| s_srv w' : srv_step w w' → step w w'.

Definition reachable (st : S) w : Prop := rtc step (init st) w.
(** ** The invariant

    It holds as long as the tags have not wrapped around. *)

Definition live (c : caller) : Prop := cat c = CPut ∨ cat c = CWait.
Definition sent (c : caller) : Prop := cat c = CWait ∨ ∃ r, cat c = CDone r.

(** Tags are handed out once. *)
Record tags_ok w : Prop := {
  i_next : nextTag w = u32 (issued w);
  i_pos : 0 ≤ issued w;
  i_range id c : callers w !! id = Some c → 0 ≤ ctag c < issued w;
  i_inj i j c d : callers w !! i = Some c → callers w !! j = Some d → ctag c = ctag d → i = j
}.

(** The call map and the reader. *)
Record map_ok w : Prop := {
  i_calls t id : calls (cmap w) !! t = Some id →
    ∃ c, callers w !! id = Some c ∧ ctag c = t ∧ live c;
  i_live id c : callers w !! id = Some c → live c →
    calls (cmap w) !! ctag c = Some id ∨ ∃ r next, reader w = RDeliver id r next;
  i_deliver id r next : reader w = RDeliver id r next →
    ∃ c, callers w !! id = Some c ∧ live c ∧ calls (cmap w) !! ctag c = None;
  i_drain ts : reader w = RDrain ts ∨ (∃ id r, reader w = RDeliver id r (Some ts)) →
    closed (cmap w) = true ∧ NoDup ts ∧ ∀ t, t ∈ ts ↔ is_Some (calls (cmap w) !! t);
  i_failed : reader w = RFailed → closed (cmap w) = true;
  i_exit : reader w = RExit → closed (cmap w) = true ∧ calls (cmap w) = ∅;
  i_fatal : reader w ≠ RFatal
}.

(** The messages under way. *)
Definition requests w : list (Z * bytes) := c2s w ++ jobs w.
Definition replies w : list (Z * (bytes * bool)) := outbox w ++ s2c w.
Definition flight w : list Z := (requests w).*1 ++ (replies w).*1.
Definition served_tags w : list Z := (served w).*1.*1.
Definition reading (r : rpc) : Prop := r = RRead ∨ ∃ id x, r = RDeliver id x None.

Record flight_ok w : Prop := {
  i_nodup : NoDup (flight w);
  i_once : NoDup ((requests w).*1 ++ served_tags w);
  i_waits t : reading (reader w) → t ∈ flight w → ∃ id, calls (cmap w) !! t = Some id;
  i_sent t : t ∈ (requests w).*1 ++ served_tags w →
    ∃ id c, callers w !! id = Some c ∧ ctag c = t ∧ sent c;
  i_body t b id c : (t, b) ∈ requests w → callers w !! id = Some c → ctag c = t → body c = b;
  i_served t b x id c : (t, b, x) ∈ served w → callers w !! id = Some c → ctag c = t → body c = b;
  i_reply t x : (t, x) ∈ replies w → ∃ b, (t, b, x) ∈ served w;
  i_carried id r next : reader w = RDeliver id r next → rerr r = false ∨ next = None →
    ∃ c, callers w !! id = Some c ∧ (ctag c, body c, (rep r, rok r)) ∈ served w;
  i_done id c r : callers w !! id = Some c → cat c = CDone r → rerr r = false →
    (ctag c, body c, (rep r, rok r)) ∈ served w
}.

Lemma issued_mono w w' : step w w' → issued w ≤ issued w'.
Proof.
  intros Hs. destruct Hs as [| | | | | | | | | | | |w' []]; simpl; try lia;
    unfold reply_to; repeat case_match; simpl; lia.
Qed.

(** A change of one call that keeps its tag and body keeps the tags. *)
Lemma tags_ok_upd_call id c p w :
  callers w !! id = Some c → tags_ok w → tags_ok (upd_call id (at_ c p) w).
Proof.
  intros Hid [Hn Hp Hr Hi]. split; simpl; [done|done| |].
  - intros id' c'. rewrite lookup_insert_Some. naive_solver.
  - intros i j d d'. rewrite !lookup_insert_Some. naive_solver.
Qed.

Lemma tags_ok_same w w' :
  nextTag w' = nextTag w → issued w' = issued w → callers w' = callers w →
  tags_ok w → tags_ok w'.
Proof. intros Hn Hi Hc [????]. split; rewrite ?Hn, ?Hi, ?Hc; done. Qed.

Lemma reply_to_fields t r next w :
  nextTag (reply_to t r next w) = nextTag w ∧ issued (reply_to t r next w) = issued w ∧
  callers (reply_to t r next w) = callers w.
Proof. unfold reply_to. by repeat case_match. Qed.

Lemma step_tags_ok w w' : step w w' → issued w' ≤ two32 → tags_ok w → tags_ok w'.
Proof.
  intros Hs Hle Hw. destruct Hs as [| | | | | | | | | | | |w' []]; try (by apply (tags_ok_same w));
    try (apply tags_ok_upd_call; [done|]; by apply (tags_ok_same w));
    try (eapply tags_ok_same; [apply reply_to_fields..|]; by apply (tags_ok_same w)).
  destruct Hw as [Hn Hp Hr Hi]. simpl in *. split; simpl.
  - rewrite Hn. unfold u32. by rewrite Zplus_mod_idemp_l.
  - lia.
  - intros id' c. rewrite lookup_insert_Some. intros [[<- <-]|[? Hc]]; simpl.
    + rewrite Hn. pose proof (u32_id (issued w)). lia.
    + specialize (Hr _ _ Hc). lia.
  - assert (nextTag w = issued w) as Hnt by (rewrite Hn; apply u32_id; lia).
    intros i j c d. rewrite !lookup_insert_Some.
    intros [[<- <-]|[? Hc]] [[<- <-]|[? Hd]]; simpl; try done.
    + specialize (Hr _ _ Hd). lia.
    + specialize (Hr _ _ Hc). lia.
    + by eapply Hi.
Qed.
Lemma map_ok_same w w' :
  cmap w' = cmap w → reader w' = reader w → callers w' = callers w → map_ok w → map_ok w'.
Proof. intros Hm Hr Hc [???????]. split; rewrite ?Hm, ?Hr, ?Hc; done. Qed.

(** A call that stays as live as it was. *)
Lemma map_ok_upd_call id c p w :
  callers w !! id = Some c → (live c ↔ live (at_ c p)) → map_ok w → map_ok (upd_call id (at_ c p) w).
Proof.
  intros Hid Hlive [Hcalls Hl Hdel Hdr Hf He Hfat]. split; simpl; try done.
  - intros t i Hi. destruct (Hcalls t i Hi) as (d & Hd & Ht & Hld).
    destruct (decide (id = i)) as [->|?]; [|rewrite lookup_insert_ne by done; eauto].
    simplify_eq. rewrite lookup_insert_eq. eexists. split; [done|]. naive_solver.
  - intros i d. rewrite lookup_insert_Some. intros [[<- <-]|[? Hd]] Hld; [|by eauto].
    apply (Hl id c Hid). by apply Hlive.
  - intros i r next Hr. destruct (Hdel i r next Hr) as (d & Hd & Hld & Hn).
    destruct (decide (id = i)) as [->|?]; [|rewrite lookup_insert_ne by done; eauto].
    simplify_eq. rewrite lookup_insert_eq. eexists. split; [done|]. split; [by apply Hlive|done].
Qed.

Lemma map_ok_tag id b w :
  callers w !! id = None → map_ok w →
  map_ok (upd_tag (upd_call id (Caller (nextTag w) b CTagged) w)).
Proof.
  intros Hid [Hcalls Hl Hdel Hdr Hf He Hfat]. split; simpl; try done.
  - intros t i Hi. destruct (Hcalls t i Hi) as (d & Hd & Ht & Hld).
    exists d. by rewrite lookup_insert_ne by congruence.
  - intros i d. rewrite lookup_insert_Some. intros [[<- <-]|[? Hd]]; [|by eauto].
    intros [?|?]; done.
  - intros i r next Hr. destruct (Hdel i r next Hr) as (d & Hd & Hld).
    exists d. by rewrite lookup_insert_ne by congruence.
Qed.

Lemma map_ok_put id c cm w :
  tags_ok w → callers w !! id = Some c → cat c = CTagged → put (ctag c) id (cmap w) = Some cm →
  map_ok w → map_ok (upd_call id (at_ c CPut) (upd_map cm (reader w) w)).
Proof.
  intros Ht Hid Hcat Hput [Hcalls Hl Hdel Hdr Hf He Hfat].
  unfold put in Hput. destruct (closed (cmap w)) eqn:Hcl; [done|]. injection Hput as <-.
  assert (∀ d, live d → d ≠ c) as Hne by (intros d [?|?] ->; congruence).
  split; simpl; try done.
  - intros t i. rewrite lookup_insert_Some. intros [[<- <-]|[? Hi]].
    + rewrite lookup_insert_eq. eexists. split; [done|]. split; [done|by left].
    + destruct (Hcalls t i Hi) as (d & Hd & ? & Hld). exists d. rewrite lookup_insert_ne; [done|].
      naive_solver.
  - intros i d. rewrite lookup_insert_Some. intros [[<- <-]|[? Hd]] Hld; simpl.
    + left. apply lookup_insert_eq.
    + destruct (Hl i d Hd Hld) as [?|?]; [left|by right].
      rewrite lookup_insert_ne; [done|]. intros Heq. by eapply (i_inj w Ht) in Heq.
  - intros i r next Hr. destruct (Hdel i r next Hr) as (d & Hd & Hld & Hn). exists d.
    assert (id ≠ i) by (intros <-; simplify_eq; by apply Hne in Hld).
    rewrite !lookup_insert_ne; [done| |done]. intros Heq. by eapply (i_inj w Ht) in Heq.
  - intros ts Hts. destruct (Hdr ts Hts) as [? _]. congruence.
  - intros Hx. destruct (He Hx). congruence.
Qed.

(** The reader changes without taking anything out of the map. *)
Lemma map_ok_reader cm r w :
  map_ok w → calls cm = calls (cmap w) → (closed (cmap w) = true → closed cm = true) →
  (∀ id x next, reader w ≠ RDeliver id x next) ∧ (∀ id x next, r ≠ RDeliver id x next) ∨ reader w = r →
  r ≠ RFatal → (r = RFailed → closed cm = true) →
  (r = RExit → closed cm = true ∧ calls cm = ∅) →
  (∀ ts, r = RDrain ts → closed cm = true ∧ NoDup ts ∧ ∀ t, t ∈ ts ↔ is_Some (calls cm !! t)) →
  map_ok (upd_map cm r w).
Proof.
  intros [Hcalls Hl Hdel Hdr Hf He Hfat] Hcm Hcl Hr Hnf Hfl Hex Hd.
  split; simpl; try done; rewrite ?Hcm; try done.
  - intros id c Hc Hlc. destruct (Hl id c Hc Hlc) as [?|(x & next & ?)]; [by left|].
    destruct Hr as [[Hn _]|<-]; [by apply Hn in H0|eauto].
  - intros id x next ->. destruct Hr as [[_ Hn]|Hr]; [by destruct (Hn id x next)|eauto].
  - intros ts [->|(id & x & ->)].
    + rewrite <-Hcm. by apply Hd.
    + destruct Hr as [[_ Hn]|Hr]; [by destruct (Hn id x (Some ts))|].
      destruct (Hdr ts) as (? & ? & ?); [by eauto|]. auto.
Qed.
(** dmx.reply finds the call: it leaves the map and is being delivered. *)
Lemma map_ok_reply_to t r next id w :
  tags_ok w → map_ok w → calls (cmap w) !! t = Some id →
  match next with None => reader w = RRead | Some ts => reader w = RDrain (t :: ts) end →
  map_ok (reply_to t r next w).
Proof.
  intros Ht [Hcalls Hl Hdel Hdr Hf He Hfat] Hid Hrd. unfold reply_to, remove. rewrite Hid.
  assert (∀ i x n, reader w ≠ RDeliver i x n) as Hnd by (intros i x n; destruct next; congruence).
  destruct (Hcalls t id Hid) as (c & Hc & Hct & Hlc).
  split; simpl; try done.
  - intros u i. rewrite lookup_delete_Some. naive_solver.
  - intros i d Hd Hld. destruct (decide (i = id)) as [->|Hne]; [by eauto|left].
    destruct (Hl i d Hd Hld) as [?|(x & n & ?)]; [|by destruct (Hnd i x n)].
    rewrite lookup_delete_ne; [done|]. intros Heq. apply Hne. eapply (i_inj w Ht); eauto. congruence.
  - intros i x n [= <- _ _]. exists c. split_and!; [done|done|]. rewrite Hct. apply lookup_delete_eq.
  - intros ts [?|(i & x & [= <- <- ->])]; [done|].
    destruct (Hdr (t :: ts)) as (? & Hnd' & Hts); [by left|].
    apply list.NoDup_cons in Hnd' as [Hnin Hnd']. split_and!; [done|done|].
    intros u. rewrite lookup_delete_is_Some, <-Hts, elem_of_cons. naive_solver.
Qed.

Lemma map_ok_deliver id c r next w :
  map_ok w → reader w = RDeliver id r next → callers w !! id = Some c →
  map_ok (upd_call id (at_ c (CDone r)) (upd_map (cmap w) (resume next) w)).
Proof.
  intros [Hcalls Hl Hdel Hdr Hf He Hfat] Hrd Hc.
  destruct (Hdel id r next Hrd) as (c' & Hc' & Hlc & Hn); simplify_eq.
  split; simpl; try (by destruct next).
  - intros t i Hi. destruct (Hcalls t i Hi) as (d & Hd & ? & ?). exists d.
    rewrite lookup_insert_ne; [done|]. intros ->. by simplify_eq.
  - intros i d. rewrite lookup_insert_Some. intros [[<- <-]|[Hne Hd]] Hld; [by destruct Hld|].
    destruct (Hl i d Hd Hld) as [?|(x & n & ?)]; [by left|congruence].
  - intros ts Hts. apply Hdr. right. destruct next as [ts'|]; simpl in Hts; [|naive_solver].
    destruct Hts as [[= ->]|(? & ? & [=])]. by eauto.
Qed.

Lemma step_map_ok w w' :
  step w w' → tags_ok w → flight_ok w → map_ok w → map_ok w'.
Proof.
  intros Hs Ht Hfl Hm. destruct Hs as
    [id b Hid|id c cm Hid Hc Hp|id c Hid Hc Hp|id c Hid Hc|id c Hid Hc|t r ok rest Hr Hs|Hr
    |ts Hr Ho|t ts Hr|Hr|id c r next Hr Hid Hc|Hcl|w' []]; try (by apply (map_ok_same w)).
  - by apply map_ok_tag.
  - by apply map_ok_put.
  - apply map_ok_upd_call; [done| |done]. unfold live. simpl. rewrite Hc. naive_solver.
  - apply map_ok_upd_call; [done| |by apply (map_ok_same w)]. unfold live. simpl. naive_solver.
  - apply map_ok_upd_call; [done| |done]. unfold live. simpl. naive_solver.
  - destruct (i_waits w Hfl t) as [id Hid]; [by left| |].
    { unfold flight, replies. rewrite Hs, fmap_app, fmap_cons. set_solver. }
    eapply map_ok_reply_to; [by apply (tags_ok_same w)|by apply (map_ok_same w)|done|done].
  - apply map_ok_reader; try done. left. by rewrite Hr.
  - apply map_ok_reader; try done; [left; by rewrite Hr|].
    intros ts' [= <-]. split_and!; [by apply (i_failed w Hm)|by eapply range_order_NoDup|].
    intros t. by apply range_order_elem.
  - destruct (i_drain w Hm (t :: ts)) as (_ & _ & Hts); [by left|].
    destruct (proj1 (Hts t)) as [id Hid]; [set_solver|]. by eapply map_ok_reply_to.
  - destruct (i_drain w Hm []) as (? & _ & Hts); [by left|]. apply map_ok_reader; try done.
    + left. by rewrite Hr.
    + intros _. split; [done|]. apply map_eq. intros t. rewrite lookup_empty.
      destruct (calls (cmap w) !! t) eqn:E; [|done].
      exfalso. eapply not_elem_of_nil, (proj2 (Hts t)). by rewrite E.
  - by apply map_ok_deliver.
  - apply map_ok_reader; try done; [by right|apply Hm|..].
    + intros Hx. split; [done|]. by apply (i_exit w Hm).
    + intros ts Hx. destruct (i_drain w Hm ts) as (_ & ? & ?); [by left|]. done.
Qed.
Lemma at_lookup w id c p i d :
  callers w !! id = Some c → <[id := at_ c p]> (callers w) !! i = Some d →
  ∃ d', callers w !! i = Some d' ∧ ctag d' = ctag d ∧ body d' = body d.
Proof. intros Hc. rewrite lookup_insert_Some. naive_solver. Qed.

(** A call that moves on without losing that it was sent. *)
Lemma flight_ok_upd_call id c p w :
  callers w !! id = Some c → (sent c → sent (at_ c p)) →
  (∀ r, p = CDone r → rerr r = false → (ctag c, body c, (rep r, rok r)) ∈ served w) →
  flight_ok w → flight_ok (upd_call id (at_ c p) w).
Proof.
  intros Hc Hs Hd [H1 H2 H3 H4 H5 H6 H7 H8 H9]. split; try done; simpl.
  - intros t Ht. destruct (H4 t Ht) as (i & d & Hi & Hdt & Hsd).
    destruct (decide (id = i)) as [->|?]; simplify_eq.
    + exists i. eexists. rewrite lookup_insert_eq. auto.
    + exists i, d. by rewrite lookup_insert_ne.
  - intros t b i d Hb Hi Hdt. destruct (at_lookup _ _ _ _ _ _ Hc Hi) as (d' & ? & ? & <-).
    apply (H5 t b i); [done|done|congruence].
  - intros t b x i d Hb Hi Hdt. destruct (at_lookup _ _ _ _ _ _ Hc Hi) as (d' & ? & ? & <-).
    apply (H6 t b x i); [done|done|congruence].
  - intros i r next Hr He. destruct (H8 i r next Hr He) as (d & Hi & Hsv).
    destruct (decide (id = i)) as [->|?]; simplify_eq.
    + eexists. by rewrite lookup_insert_eq.
    + exists d. by rewrite lookup_insert_ne.
  - intros i d r. rewrite lookup_insert_Some. intros [[<- <-]|[? Hi]]; simpl; eauto.
Qed.

(** The map and the reader change. *)
Lemma flight_ok_upd_map cm r w :
  flight_ok w →
  (reading r → ∀ t, t ∈ flight w → ∃ id, calls cm !! t = Some id) →
  (∀ id x next, r = RDeliver id x next → rerr x = false ∨ next = None →
    ∃ c, callers w !! id = Some c ∧ (ctag c, body c, (rep x, rok x)) ∈ served w) →
  flight_ok (upd_map cm r w).
Proof. intros [H1 H2 H3 H4 H5 H6 H7 H8 H9] Hw Hr. split; try done; simpl; eauto. Qed.

(** Messages move along, and replies may be lost or read. *)
Lemma flight_ok_moved cs js ob sc gone w :
  cs ++ js ≡ₚ requests w → replies w ≡ₚ gone ++ (ob ++ sc) →
  flight_ok w → flight_ok (upd_conn cs js ob sc w).
Proof.
  intros HR HP [H1 H2 H3 H4 H5 H6 H7 H8 H9].
  assert (flight w ≡ₚ gone.*1 ++ flight (upd_conn cs js ob sc w)) as Hfl.
  { unfold flight. rewrite HP, <-HR. unfold requests, replies. simpl.
    rewrite !fmap_app. solve_Permutation. }
  assert (∀ t, t ∈ flight (upd_conn cs js ob sc w) → t ∈ flight w) as Hsub
    by (intros t; rewrite Hfl, elem_of_app; auto).
  split; try done.
  - rewrite Hfl in H1. by apply list.NoDup_app in H1 as (_ & _ & ?).
  - unfold requests. simpl. by rewrite HR.
  - intros t Hr Ht. apply (H3 t Hr). by apply Hsub.
  - intros t. unfold requests. simpl. rewrite HR. apply H4.
  - intros t b id c. unfold requests. simpl. rewrite HR. apply H5.
  - intros t x. unfold replies at 1. simpl. intros Hx. apply H7. rewrite HP, elem_of_app. by right.
Qed.

Lemma elem_of_served_tags w t b x : (t, b, x) ∈ served w → t ∈ served_tags w.
Proof.
  intros Hin. unfold served_tags. apply list_elem_of_fmap. exists (t, b). split; [done|].
  apply list_elem_of_fmap. by exists (t, b, x).
Qed.

Lemma replies_served w t : flight_ok w → t ∈ (replies w).*1 → t ∈ served_tags w.
Proof.
  intros Hfl ([u x] & -> & Hin)%list_elem_of_fmap. destruct (i_reply w Hfl _ _ Hin) as [b Hb].
  by eapply elem_of_served_tags.
Qed.

(** A call that is not sent has no message under way and was not served. *)
Lemma unsent_new w id c :
  tags_ok w → flight_ok w → callers w !! id = Some c → ¬ sent c →
  ctag c ∉ flight w ∧ ctag c ∉ (requests w).*1 ++ served_tags w.
Proof.
  intros Ht Hfl Hc Hns.
  assert (ctag c ∉ (requests w).*1 ++ served_tags w) as Hnew.
  { intros Hin. destruct (i_sent w Hfl _ Hin) as (i & d & Hi & Hdt & Hsd).
    assert (i = id) as -> by (by eapply (i_inj w Ht)). by simplify_eq. }
  split; [|done]. unfold flight. rewrite elem_of_app in *.
  intros [?|?%replies_served]; auto.
Qed.

Lemma flight_ok_write id c w :
  tags_ok w → map_ok w → flight_ok w → callers w !! id = Some c → cat c = CPut →
  flight_ok (upd_call id (at_ c CWait)
    (upd_conn (c2s w ++ [(ctag c, body c)]) (jobs w) (outbox w) (s2c w) w)).
Proof.
  intros Ht Hm Hfl Hc Hcat.
  assert (¬ sent c) as Hns by (intros [?|[? ?]]; congruence).
  destruct (unsent_new w id c Ht Hfl Hc Hns) as [Hnew Hnew'].
  assert (flight_ok (upd_call id (at_ c CWait) w)) as [H1 H2 H3 H4 H5 H6 H7 H8 H9].
  { apply flight_ok_upd_call; [done| |done|done]. intros _. by left. }
  set (w1 := upd_call id (at_ c CWait) w) in *. set (w2 := upd_call _ _ _).
  assert (requests w2 ≡ₚ (ctag c, body c) :: requests w1) as HR.
  { unfold requests. simpl. solve_Permutation. }
  assert (flight w2 ≡ₚ ctag c :: flight w1) as HF by (unfold flight; by rewrite HR).
  split; try done.
  - rewrite HF. by constructor.
  - rewrite HR. by constructor.
  - intros t Hr. rewrite HF. intros [->|?]%elem_of_cons; [|by apply H3].
    destruct (i_live w Hm id c Hc) as [?|(r & next & Hrd)]; [by left|by exists id|].
    exfalso. destruct (i_carried w Hfl id r next Hrd) as (d & ? & Hin).
    { right. destruct Hr as [Hr|(? & ? & Hr)]; simpl in Hr; congruence. }
    simplify_eq. apply Hnew'. rewrite elem_of_app. right. by eapply elem_of_served_tags.
  - intros t. rewrite HR. simpl. rewrite elem_of_cons. intros [->|?]; [|by apply H4].
    exists id, (at_ c CWait). split; [apply lookup_insert_eq|]. split; [done|by left].
  - intros t b i d. rewrite HR, elem_of_cons. intros [[= -> ->]|?]; [|by apply H5].
    simpl. intros (d' & Hd' & Hdt & <-)%at_lookup Heq; [|done].
    assert (i = id) as -> by (eapply (i_inj w Ht); eauto; congruence). congruence.
Qed.

Lemma flight_ok_serve t b js st x w :
  jobs w ≡ₚ (t, b) :: js → flight_ok w →
  flight_ok (upd_srv st (t, b, x) (upd_conn (c2s w) js (outbox w ++ [(t, x)]) (s2c w) w)).
Proof.
  intros Hj [H1 H2 H3 H4 H5 H6 H7 H8 H9]. set (w' := upd_srv _ _ _).
  assert (requests w ≡ₚ (t, b) :: requests w') as HR.
  { unfold requests. simpl. rewrite Hj. solve_Permutation. }
  assert (replies w' ≡ₚ (t, x) :: replies w) as HP.
  { unfold replies. simpl. solve_Permutation. }
  assert (flight w' ≡ₚ flight w) as HF.
  { unfold flight. rewrite HR, HP. simpl. solve_Permutation. }
  assert (served_tags w' ≡ₚ t :: served_tags w) as HS.
  { unfold served_tags. simpl. rewrite !fmap_app. simpl. solve_Permutation. }
  assert ((requests w').*1 ++ served_tags w' ≡ₚ (requests w).*1 ++ served_tags w) as HRS.
  { rewrite HS, HR. simpl. solve_Permutation. }
  split; try done.
  - by rewrite HF.
  - by rewrite HRS.
  - intros u Hr. rewrite HF. by apply H3.
  - intros u. rewrite HRS. apply H4.
  - intros u b' id c Hin. apply H5. rewrite HR. by right.
  - intros u b' x' id c. simpl. rewrite elem_of_app, list_elem_of_singleton.
    intros [?|[= -> -> ->]]; [by eapply H6|]. apply H5. rewrite HR. by left.
  - intros u x'. rewrite HP, elem_of_cons. simpl. intros [[= -> ->]|Hin].
    + exists b. apply elem_of_app. right. by left.
    + destruct (H7 u x' Hin) as [b' ?]. exists b'. apply elem_of_app. by left.
  - intros id r next Hr He. destruct (H8 id r next Hr He) as (c & ? & ?). exists c.
    split; [done|]. simpl. apply elem_of_app. by left.
  - intros id c r Hc Hd He. simpl. apply elem_of_app. left. eauto.
Qed.
Lemma flight_ok_tag id b w :
  tags_ok w → issued w < two32 → callers w !! id = None → flight_ok w →
  flight_ok (upd_tag (upd_call id (Caller (nextTag w) b CTagged) w)).
Proof.
  intros Ht Hlt Hid Hfl. pose proof Hfl as [H1 H2 H3 H4 H5 H6 H7 H8 H9].
  assert (nextTag w ∉ (requests w).*1 ++ served_tags w) as Hnew.
  { intros Hin. destruct (H4 _ Hin) as (i & d & Hi & Hdt & _). apply (i_range w Ht) in Hi.
    rewrite (i_next w Ht), u32_id in Hdt by (pose proof (i_pos w Ht); lia). lia. }
  rewrite not_elem_of_app in Hnew. destruct Hnew as [HnR HnS].
  split; try done; simpl.
  - intros t Hin. destruct (H4 _ Hin) as (i & d & Hi & ? & ?). exists i, d.
    rewrite lookup_insert_ne by congruence. done.
  - intros t b' i d Hb. rewrite lookup_insert_Some. intros [[<- <-]|[? ?]]; simpl; [|by eapply H5].
    intros <-. destruct HnR. by apply (list_elem_of_fmap_2 fst) in Hb.
  - intros t b' x i d Hb. rewrite lookup_insert_Some. intros [[<- <-]|[? ?]]; simpl; [|by eapply H6].
    intros <-. destruct HnS. by eapply elem_of_served_tags.
  - intros i r next Hr He. destruct (H8 i r next Hr He) as (d & Hi & ?). exists d.
    rewrite lookup_insert_ne by congruence. done.
  - intros i d r. rewrite lookup_insert_Some. intros [[<- <-]|[? ?]]; [done|]. by eapply H9.
Qed.

(** The reader takes a reply off the connection and finds its call. *)
Lemma flight_ok_read t r ok rest w :
  map_ok w → reader w = RRead → s2c w = (t, (r, ok)) :: rest → flight_ok w →
  flight_ok (reply_to t (Reply r ok false) None (upd_conn (c2s w) (jobs w) (outbox w) rest w)).
Proof.
  intros Hm Hr Hs Hfl. assert (replies w ≡ₚ [(t, (r, ok))] ++ outbox w ++ rest) as HP
    by (unfold replies; rewrite Hs; solve_Permutation).
  set (w1 := upd_conn (c2s w) (jobs w) (outbox w) rest w).
  assert (flight_ok w1) as Hfl1 by by eapply flight_ok_moved.
  assert (flight w ≡ₚ t :: flight w1) as HF.
  { unfold flight. rewrite HP. unfold requests, replies. simpl. rewrite !fmap_app. solve_Permutation. }
  destruct (i_waits w Hfl t) as [id Hid]; [by left|rewrite HF; by left|].
  unfold reply_to, remove. simpl. rewrite Hid. apply flight_ok_upd_map; [done| |].
  - intros _ u Hu. destruct (i_waits w Hfl u) as [i Hi]; [by left|rewrite HF; by right|].
    exists i. simpl. rewrite lookup_delete_ne; [done|]. intros <-.
    pose proof (i_nodup w Hfl) as Hnd. rewrite HF in Hnd. by apply list.NoDup_cons in Hnd as [? _].
  - intros i x next [= <- <- <-] _. destruct (i_calls w Hm t id Hid) as (c & Hc & Hct & _).
    exists c. split; [done|]. simpl.
    destruct (i_reply w Hfl t (r, ok)) as [b Hb]; [rewrite HP; by left|].
    by rewrite Hct, (i_served w Hfl t b (r, ok) id c Hb Hc Hct).
Qed.

Lemma step_flight_ok w w' :
  step w w' → issued w' ≤ two32 → tags_ok w → map_ok w → flight_ok w → flight_ok w'.
Proof.
  intros Hs Hle Ht Hm Hfl. destruct Hs as
    [id b Hid|id c cm Hid Hc Hp|id c Hid Hc Hp|id c Hid Hc|id c Hid Hc|t r ok rest Hr Hs|Hr
    |ts Hr Ho|t ts Hr|Hr|id c r next Hr Hid Hc|Hcl|w' [t b rest Hs|t b js st r ok Hj _|t x ob Ho|t x ob Ho]].
  - apply flight_ok_tag; try done. simpl in Hle. lia.
  - unfold put in Hp. destruct (closed (cmap w)) eqn:Hcl; [done|]. injection Hp as <-.
    apply flight_ok_upd_call; [done| |done|].
    { intros [?|[? ?]]; congruence. }
    apply flight_ok_upd_map; [done| |by eapply (i_carried w Hfl)].
    intros Hr t Hin. destruct (i_waits w Hfl t Hr Hin) as [i Hi]. simpl.
    destruct (decide (ctag c = t)) as [->|?]; [exists id; apply lookup_insert_eq|].
    exists i. by rewrite lookup_insert_ne.
  - apply flight_ok_upd_call; [done|intros _; right; by eexists| |done]. by intros r [= <-].
  - by apply flight_ok_write.
  - apply flight_ok_upd_call; [done|intros _; by left|done|done].
  - by apply flight_ok_read.
  - apply flight_ok_upd_map; [done| |done]. by intros [?|(? & ? & ?)].
  - apply flight_ok_upd_map; [done| |done]. by intros [?|(? & ? & ?)].
  - unfold reply_to. destruct (remove t (cmap w)) as [[ch cm]|];
      (apply flight_ok_upd_map; [done| |]).
    + by intros [?|(? & ? & ?)].
    + intros id x next [= <- <- <-]. by intros [?|?].
    + by intros [?|(? & ? & ?)].
    + done.
  - apply flight_ok_upd_map; [done| |done]. by intros [?|(? & ? & ?)].
  - apply flight_ok_upd_call; [done|intros _; right; by eexists| |].
    + intros r' [= <-] He. destruct (i_carried w Hfl id r next Hr) as (d & ? & ?); [by left|].
      by simplify_eq.
    + apply flight_ok_upd_map; [done| |by destruct next].
      intros Hrd t. apply (i_waits w Hfl t). right. destruct next; [|by eauto].
      by destruct Hrd as [?|(? & ? & ?)].
  - apply flight_ok_upd_map; [done| |apply (i_carried w Hfl)].
    intros Hrd t. by apply (i_waits w Hfl t).
  - apply (flight_ok_moved _ _ _ _ []); [|done|done]. unfold requests. rewrite Hs. solve_Permutation.
  - by apply flight_ok_serve.
  - apply (flight_ok_moved _ _ _ _ []); [done| |done]. unfold replies. rewrite Ho. solve_Permutation.
  - apply (flight_ok_moved _ _ _ _ [(t, x)]); [done| |done]. unfold replies. by rewrite Ho.
Qed.

Definition ok w : Prop := tags_ok w ∧ map_ok w ∧ flight_ok w.

Lemma init_ok st : ok (init st).
Proof.
  split_and!; split; simpl; intros *; try (by rewrite ?lookup_empty); try done; try set_solver.
  all: try (by intros [?|(? & ? & ?)]). all: try constructor.
Qed.

Lemma step_ok w w' : step w w' → issued w' ≤ two32 → ok w → ok w'.
Proof.
  intros Hs Hle (? & ? & ?). split_and!;
    [by eapply step_tags_ok|by eapply step_map_ok|by eapply step_flight_ok].
Qed.

Lemma rtc_ok w w' : rtc step w w' → issued w' ≤ two32 → ok w → ok w'.
Proof.
  intros Hs. enough (issued w ≤ issued w' ∧ (issued w' ≤ two32 → ok w → ok w')) by naive_solver.
  induction Hs as [w|w w1 w2 Hs _ [Hle IH]]; [done|]. pose proof (issued_mono _ _ Hs).
  split; [lia|]. intros ? ?. apply IH; [done|]. eapply step_ok; [done|lia|done].
Qed.

Lemma reachable_ok st w : reachable st w → issued w ≤ two32 → ok w.
Proof. intros Hr Hle. eapply rtc_ok; [done|done|apply init_ok]. Qed.

(** Every recorded answer is one that the server gave. *)
Lemma reachable_served st w t b x :
  reachable st w → (t, b, x) ∈ served w → ∃ s s', ServeRequest s clnt b = Ret (s', x).
Proof.
  unfold reachable. intros Hr. revert t b x. revert w Hr.
  apply (rtc_ind_r (λ w, ∀ t b x, (t, b, x) ∈ served w → ∃ s s', ServeRequest s clnt b = Ret (s', x))).
  - intros t b x. set_solver.
  - intros w w' _ Hs IH t b x. destruct Hs as [| | | | | | | | | | | |w'' []]; simpl; try apply IH;
      try (unfold reply_to; repeat case_match; simpl; apply IH).
    rewrite elem_of_app, list_elem_of_singleton. intros [?|[= -> -> ->]]; eauto.
Qed.

(** ** The reader gets through, whatever it is doing *)

Lemma step_callers w w' id c :
  step w w' → callers w !! id = Some c → cat c ≠ CTagged →
  ∃ c', callers w' !! id = Some c' ∧ cat c' ≠ CTagged.
Proof.
  intros Hs Hc Hn. destruct Hs as
    [i b Hi|i d cm Hi|i d Hi|i d Hi|i d Hi| | | | | |i d r next Hr Hi| |w' []]; simpl; eauto;
    try (destruct (decide (i = id)) as [->|?];
      [rewrite lookup_insert_eq|rewrite lookup_insert_ne by done; by eauto]);
    try (eexists; split; [done|]; simpl; congruence); try congruence;
    unfold reply_to; repeat case_match; simpl; eauto.
Qed.

Lemma rtc_callers w w' id c :
  rtc step w w' → callers w !! id = Some c → cat c ≠ CTagged →
  ∃ c', callers w' !! id = Some c' ∧ cat c' ≠ CTagged.
Proof.
  intros Hs. revert c. induction Hs as [|w w1 w2 Hs _ IH]; [eauto|].
  intros c Hc Hn. destruct (step_callers _ _ _ _ Hs Hc Hn) as (c1 & ? & ?). eauto.
Qed.

(** Only a new call takes a tag; other steps keep the set of calls. *)
Lemma step_issued w w' :
  step w w' → issued w' = issued w → dom (callers w') = dom (callers w).
Proof.
  intros Hs Hi. destruct Hs as
    [i b Hid|i d cm Hid|i d Hid|i d Hid|i d Hid| | | | | |i d r next Hr Hid| |w' []]; simpl in *;
    try done; try lia; try (by apply dom_insert_lookup_L); unfold reply_to; by repeat case_match.
Qed.

Lemma rtc_issued w w' : rtc step w w' → issued w ≤ issued w'.
Proof.
  induction 1 as [|w w1 w2 Hs _ IH]; [done|]. pose proof (issued_mono _ _ Hs). lia.
Qed.

(** A run that takes no tags has no new calls. *)
Lemma no_new_calls w w' :
  rtc step w w' → issued w' = issued w →
  rtc (λ v v', step v v' ∧ issued v' = issued v ∧ dom (callers v') = dom (callers v)) w w'.
Proof.
  induction 1 as [|w w1 w2 Hs Hs' IH]; intros Hi; [done|].
  pose proof (issued_mono _ _ Hs). pose proof (rtc_issued _ _ Hs').
  eapply rtc_l; [|apply IH; lia]. assert (issued w1 = issued w) by lia.
  split_and!; [done..|by apply step_issued].
Qed.

(** [w] can reach a state where the reader is at [r], without new calls. *)
Definition reader_reaches w (r : rpc) : Prop :=
  ∃ w', rtc step w w' ∧ reader w' = r ∧ issued w' = issued w.

Lemma reader_reaches_step w w' r :
  step w w' → issued w' = issued w → reader_reaches w' r → reader_reaches w r.
Proof. intros Hs Hi (w2 & ? & ? & ?). exists w2. split_and!; [by eapply rtc_l|done|congruence]. Qed.

(** A blocked delivery can go on: its call is at the channel, or gets there. *)
Lemma deliver_progress w id r next :
  ok w → reader w = RDeliver id r next → reader_reaches w (resume next).
Proof.
  intros (_ & Hm & _) Hr. destruct (i_deliver w Hm id r next Hr) as (c & Hc & Hl & _).
  assert (∀ w c, reader w = RDeliver id r next → callers w !! id = Some c → cat c = CWait →
    reader_reaches w (resume next)) as Hwait.
  { intros v d ???. eexists. split; [by apply rtc_once, s_deliver|done]. }
  destruct Hl as [Hl|Hl]; [|by eauto].
  eapply reader_reaches_step; [by apply s_writeerr|done|].
  by eapply Hwait; [|apply lookup_insert_eq|].
Qed.

Lemma drain_progress ts w :
  ok w → issued w ≤ two32 → reader w = RDrain ts → reader_reaches w RExit.
Proof.
  revert w. induction ts as [|t ts IH]; intros w Hok Hle Hr.
  - eexists. split; [by apply rtc_once, s_exit|done].
  - pose proof Hok as (_ & Hm & _). destruct (i_drain w Hm (t :: ts)) as (_ & _ & Hts); [by left|].
    destruct (proj1 (Hts t)) as [id Hid]; [by left|].
    assert (step w (reply_to t (Reply [] false true) (Some ts) w)) as Hs by by apply s_drain.
    unfold reply_to, remove in Hs. rewrite Hid in Hs.
    eapply reader_reaches_step; [exact Hs|done|].
    assert (ok (upd_map (MkCallMap (closed (cmap w)) (delete t (calls (cmap w))))
      (RDeliver id (Reply [] false true) (Some ts)) w)) as Hok1 by by eapply step_ok.
    destruct (deliver_progress _ id (Reply [] false true) (Some ts) Hok1) as (w2 & Hs2 & Hr2 & Hi2);
      [done|]. simpl in Hi2.
    destruct (IH w2) as (w3 & ? & ? & ?); [eapply rtc_ok; [done|lia|done]|lia|done|].
    exists w3. split_and!; [by etrans|done|simpl; congruence].
Qed.

Lemma failed_progress w :
  ok w → issued w ≤ two32 → reader w = RFailed → reader_reaches w RExit.
Proof.
  intros Hok Hle Hr.
  assert (step w (upd_map (cmap w) (RDrain (map_keys (calls (cmap w)))) w)) as Hs
    by (apply s_outstanding; [done|apply range_order_refl]).
  eapply reader_reaches_step; [exact Hs|done|].
  eapply drain_progress; [by eapply step_ok|done|done].
Qed.

Lemma read_progress w :
  ok w → issued w ≤ two32 → reader w = RRead → reader_reaches w RExit.
Proof.
  intros Hok Hle Hr. pose proof (s_readerr w Hr) as Hs.
  eapply reader_reaches_step; [exact Hs|done|].
  eapply failed_progress; [by eapply step_ok|done|done].
Qed.

Lemma exit_progress w : ok w → issued w ≤ two32 → reader_reaches w RExit.
Proof.
  intros Hok Hle. destruct (reader w) as [| |ts|id r next| |] eqn:Hr.
  - by apply read_progress.
  - by apply failed_progress.
  - by eapply drain_progress.
  - destruct (deliver_progress w id r next Hok Hr) as (w1 & Hs1 & Hr1 & Hi1).
    assert (ok w1) by (eapply rtc_ok; [done|lia|done]).
    assert (reader_reaches w1 RExit) as (w2 & ? & ? & ?).
    { destruct next; [eapply drain_progress|apply read_progress]; try done; lia. }
    exists w2. split_and!; [by etrans|done|congruence].
  - by exists w.
  - destruct Hok as (_ & Hm & _). by destruct (i_fatal w Hm).
Qed.
End demux.
Arguments world : clear implicits.

End Demux.
