(* ===== verification/SockRpc.v ===== *)
(** * RPCs between the tester and its daemons (tester1/sockrpc)

    An [RPCClnt] marshals a method name and its arguments and sends them through
    its [DemuxClnt]; an [RPCSrv] is the server behind the [DemuxSrv] at the other
    end, and dispatches the request to the services of a labrpc [Server].  Dialling
    and listening on the Unix socket are the operating system's. *)

From S2P Require Import Prelude LabRpc Wire Demux.
Import LabRpc Wire Demux.

Module SockRpc.

Record RPCArgs := MkRPCArgs { Method : string; Args : bytes }.

Definition SockName (endName : string) : string := "/tmp/6.5840-" +:+ endName.

(** dial: at most MAXRETRY attempts; [attempts i] is what the i-th one returns. *)
Definition MAXRETRY : nat := 100.
Fixpoint dial_loop {C} (attempts : nat → option C) (i n : nat) : option C :=
  match n with
  | O => None
  | S n => match attempts i with Some c => Some c | None => dial_loop attempts (S i) n end
  end.
Definition dial {C} (attempts : nat → option C) : option C := dial_loop attempts 0 MAXRETRY.
(** getDmx: no connection ends the process, and so does a connection on which
    NewDemuxClnt cannot write its InitMsg ([writes c] says whether it can). *)
Definition getDmx {C} (attempts : nat → option C) (writes : C → bool) : res C :=
  match dial attempts with
  | Some c => if writes c then Ret c else Stop LogFatal
  | None => Stop LogFatal
  end.

Section rpc.
Context `{Codec RPCArgs} {St : Type}.

(** The request that RPC sends, and what it makes of the reply. *)
Definition RPC_request (method : string) (args : bytes) : res bytes :=
  Marshall (MkRPCArgs method args).
Definition RPC_result (r : reply) : bytes * bool :=
  if rerr r then ([], false) else (rep r, rok r).

(** RPCMarshall: the reply is decoded only when the RPC succeeded. *)
Definition RPCMarshall_result {R} `{Codec R} (r : reply) : res (option R * bool) :=
  let '(rep, ok) := RPC_result r in
  if ok then let* v := Unmarshall rep in Ret (Some v, ok) else Ret (None, ok).

(** ServeRequest of an RPCSrv: its labrpc server and the state behind it. *)
Global Instance RPCSrv_ServerI : ServerI (Server St * St) := λ '(rs, st) clntEnd b,
  let* req := Unmarshall b in
  let* '(rs', st', rep) := Dispatch (Method req) clntEnd (Args req) rs st in
  Ret ((rs', st'), rep).
End rpc.

Lemma dial_loop_spec {C} (attempts : nat → option C) i n :
  match dial_loop attempts i n with
  | Some c => ∃ j, (i ≤ j < i + n)%nat ∧ attempts j = Some c ∧
                   ∀ k, (i ≤ k < j)%nat → attempts k = None
  | None => ∀ k, (i ≤ k < i + n)%nat → attempts k = None
  end.
Proof.
  revert i. induction n as [|n IH]; intros i; simpl; [lia|].
  destruct (attempts i) as [c|] eqn:Hi.
  - exists i. split_and!; [lia|lia|done|]. lia.
  - specialize (IH (S i)). destruct (dial_loop attempts (S i) n) as [c|].
    + destruct IH as (j & Hj & Hc & Hb). exists j. split_and!; [lia|lia|done|].
      intros k Hk. destruct (decide (k = i)) as [->|?]; [done|]. apply Hb. lia.
    + intros k Hk. destruct (decide (k = i)) as [->|?]; [done|]. apply IH. lia.
Qed.

End SockRpc.
