(* ===== verification/DemuxSpec.v ===== *)
(** * Properties of the sockets layer (tester1/demux, tester1/sockrpc)

    The framing delivers what was written, whole messages only, even when the
    stream is cut; the demultiplexer gives every call the answer to its own
    request and leaves no call waiting; together, an RPC that succeeds returns
    what the server's dispatch returned. *)

From S2P Require Import Prelude LabRpc Wire Demux SockRpc.
Import LabRpc Wire Demux SockRpc.

(** ** Framing *)

(** C18. The transport delivers the messages in order, and only whole ones: when
    a sequence of messages is written and the stream is cut after any number of
    bytes, the reader gets a prefix of the messages and then an error of the
    stream, and it gets all of them, then EOF, when nothing was cut. *)
Theorem transport_delivers `{CodecLaws msg} ms s k :
  Forall fits ms → write_all ms = Ret s →
  ∃ n e, read_all (S (length ms)) (take k s) = Ret (take n ms, e) ∧ e ≠ ShortRead ∧
    ((length s ≤ k)%nat → n = length ms ∧ e = EOF).
Proof. apply read_all_cut. Qed.

(** A codec for messages: the tag's four bytes, the ok flag, the data. *)
Definition toy_encode (m : msg) : option bytes :=
  if decide (0 ≤ Tag m < two32) then
    Some (put_u32 (Tag m) ++ (if Ok m then "001"%byte else "000"%byte) :: Data m)
  else None.
Definition toy_decode (b : bytes) : option msg :=
  match b with
  | b0 :: b1 :: b2 :: b3 :: o :: d =>
      Some (Msg (get_u32 [b0; b1; b2; b3]) d (bool_decide (o = "001"%byte)))
  | _ => None
  end.
#[local] Instance toy_codec : Codec msg := {| encode := toy_encode; decode := toy_decode |}.
#[local] Instance toy_laws : CodecLaws msg.
Proof.
  intros [t d o] b. simpl. unfold toy_encode. simpl. case_decide as Ht; [|done]. intros [= <-].
  unfold put_u32. cbv zeta. simpl.
  pose proof (get_put_u32 t) as Hg. unfold put_u32 in Hg. cbv zeta in Hg. rewrite Hg, u32_id by done.
  by destruct o.
Qed.

Definition two_msgs : list msg :=
  [Msg 7 ["a"%byte; "b"%byte] true; Msg 8 ["c"%byte; "d"%byte; "e"%byte] false].
Definition two_frames : bytes :=
  Eval vm_compute in match write_all two_msgs with Ret s => s | Stop _ => [] end.

Lemma transport_delivers_witness :
  ∃ n e, read_all 3 (take 20 two_frames) = Ret (take n two_msgs, e) ∧ e ≠ ShortRead.
Proof.
  destruct (transport_delivers two_msgs two_frames 20) as (n & e & H1 & H2 & _).
  - apply Forall_cons; [|apply Forall_cons; [|apply Forall_nil]];
      intros b Hb; vm_compute in Hb; injection Hb as <-; vm_compute; reflexivity.
  - vm_compute. reflexivity.
  - exists n, e. split; [exact H1|exact H2].
Defined.

(** ** Matching replies with calls *)

(** A server that answers with the request itself, and counts. *)
#[local] Instance echo : ServerI nat := λ n _ b, Ret (S n, (b, true)).

(** One call, from the tag to the answer. *)
Definition echo_answered : world nat :=
  MkWorld 2 (MkCallMap false ∅) {[5%nat := Caller 1 ["x"%byte] (CDone (Reply ["x"%byte] true false))]}
    RRead [] [] [] [] 1%nat 2 [(1, ["x"%byte], (["x"%byte], true))].

Lemma echo_answered_reachable : reachable "clnt" 0%nat echo_answered.
Proof.
  unfold reachable.
  eapply rtc_l; [by apply (s_tag _ _ 5 ["x"%byte])|].
  eapply rtc_l; [by eapply (s_put _ _ 5)|].
  eapply rtc_l; [by eapply (s_write _ _ 5)|].
  eapply rtc_l; [by eapply s_srv, s_request|].
  eapply rtc_l; [eapply s_srv, s_serve; [simpl; reflexivity|reflexivity]|].
  eapply rtc_l; [eapply s_srv, s_answer; simpl; reflexivity|].
  eapply rtc_l; [by eapply s_read|].
  eapply rtc_once, eq_rect; [by eapply (s_deliver _ _ 5)|]. vm_compute. reflexivity.
Qed.

(** C19. Replies are matched with calls.  As long as the 32-bit tags have not wrapped
    around, in every reachable state the reader has not run into a reply without a call;
    and a call that has returned without an error returned the server's answer to
    its own request, which was served exactly once. *)
Theorem reply_matches_request {S} `{ServerI S} clnt (st : S) w :
  reachable clnt st w → issued w ≤ two32 →
  reader w ≠ RFatal ∧
  ∀ id c r, callers w !! id = Some c → cat c = CDone r → rerr r = false →
    (∃ s s', ServeRequest s clnt (body c) = Ret (s', (rep r, rok r))) ∧
    (ctag c, body c, (rep r, rok r)) ∈ served w ∧ occ (ctag c) (served_tags w) = 1.
Proof.
  intros Hr Hle. destruct (reachable_ok clnt st w Hr Hle) as (Ht & Hm & Hfl).
  split; [apply (i_fatal w Hm)|]. intros id c r Hc Hd He.
  pose proof (i_done w Hfl id c r Hc Hd He) as Hin. split_and!.
  - by eapply reachable_served.
  - done.
  - apply occ_NoDup; [|by eapply elem_of_served_tags].
    pose proof (i_once w Hfl) as Hnd. by apply list.NoDup_app in Hnd as (_ & _ & ?).
Qed.

Lemma reply_matches_request_witness :
  reader echo_answered ≠ RFatal ∧ occ 1 (served_tags echo_answered) = 1.
Proof.
  destruct (reply_matches_request "clnt" 0%nat echo_answered echo_answered_reachable) as [H1 H2];
    [by vm_compute|]. split; [exact H1|].
  destruct (H2 5%nat (Caller 1 ["x"%byte] (CDone (Reply ["x"%byte] true false)))
    (Reply ["x"%byte] true false)) as (_ & _ & H); [reflexivity..|exact H].
Defined.

(** C20. No call is left behind: from every reachable state (tags not wrapped),
    whatever the callers, the server and the reader are doing, there is a run
    without new calls in which the connection fails, the reader ends, and every
    call that had registered in the call map has returned. *)
Theorem no_call_stranded {S} `{ServerI S} clnt (st : S) w :
  reachable clnt st w → issued w ≤ two32 →
  ∃ w', rtc (λ v v', step clnt v v' ∧ issued v' = issued v ∧ dom (callers v') = dom (callers v)) w w' ∧
    reader w' = RExit ∧ closed (cmap w') = true ∧
    ∀ id c, callers w !! id = Some c → cat c ≠ CTagged →
      ∃ c' r, callers w' !! id = Some c' ∧ cat c' = CDone r.
Proof.
  intros Hr Hle. pose proof (reachable_ok clnt st w Hr Hle) as Hok.
  destruct (exit_progress clnt w Hok Hle) as (w' & Hs & Hx & Hi).
  assert (ok w') as (_ & Hm & _) by (eapply rtc_ok; [done|lia|done]).
  destruct (i_exit w' Hm Hx) as [Hcl Hemp].
  exists w'. split_and!; [by apply no_new_calls|done..|]. intros id c Hc Hn.
  destruct (rtc_callers clnt w w' id c Hs Hc Hn) as (c' & Hc' & Hn').
  destruct (cat c') as [| | |r] eqn:Hcat; [done| | |by eauto];
    (destruct (i_live w' Hm id c' Hc') as [Hl|(? & ? & ?)];
      [unfold live; auto|by rewrite Hemp, lookup_empty in Hl|congruence]).
Qed.

Lemma no_call_stranded_witness :
  ∃ w', rtc (λ v v', step "clnt" v v' ∧ issued v' = issued v ∧ dom (callers v') = dom (callers v))
      echo_answered w' ∧ reader w' = RExit.
Proof.
  destruct (no_call_stranded "clnt" 0%nat echo_answered echo_answered_reachable)
    as (w' & H1 & H2 & _); [by vm_compute|exists w'; by split].
Defined.

(** ** RPCs *)

(** An RPC over a socket that succeeds returns what the dispatch of its
    method on its arguments returned, on the server at the other end. *)
Theorem RPC_returns_dispatch `{CodecLaws RPCArgs} {St} clnt (s0 : Server St * St) w id c r
    method args b rep' :
  reachable clnt s0 w → issued w ≤ two32 →
  RPC_request method args = Ret b →
  callers w !! id = Some c → body c = b → cat c = CDone r → RPC_result r = (rep', true) →
  ∃ (rs rs' : Server St) (st st' : St),
    Dispatch method clnt args rs st = Ret (rs', st', (rep', true)).
Proof.
  intros Hr Hle Hb Hc Hbody Hd Hres. unfold RPC_result in Hres.
  destruct (rerr r) eqn:He; [done|]. injection Hres as Hrep Hok.
  destruct (reachable_ok clnt s0 w Hr Hle) as (_ & _ & Hfl).
  pose proof (i_done w Hfl id c r Hc Hd He) as Hin.
  destruct (reachable_served clnt s0 w _ _ _ Hr Hin) as ([rs st] & [rs' st'] & Hsv).
  exists rs, rs', st, st'. unfold ServeRequest, RPCSrv_ServerI in Hsv.
  rewrite Hbody, (Unmarshall_Marshall _ _ Hb) in Hsv. simpl in Hsv.
  apply rbind_Ret_inv in Hsv as ([[rs1 st1] x] & Hdisp & [= -> -> ->]). by rewrite Hdisp, Hrep, Hok.
Qed.

(** A codec for the requests of one method: the arguments. *)
#[local] Instance args_codec : Codec RPCArgs :=
  {| encode a := if decide (Method a = "Counter.Add"%string) then Some (Args a) else None;
     decode b := Some (MkRPCArgs "Counter.Add" b) |}.
#[local] Instance args_laws : CodecLaws RPCArgs.
Proof. intros [m a] b. simpl. case_decide; [|done]. intros [= <-]. by subst. Qed.

(** A counter service, and one RPC on it from beginning to end. *)
Definition add_handler : LabRpc.Method nat :=
  {| m_name := "Add"; m_pkgpath := ""; m_numIn := 3; m_in2ptr := true; m_numOut := 0;
     m_args := bytes; m_replyT := bytes; m_decode b := Some b; m_zero := [];
     m_func st args _ := ((st + length args)%nat, args); m_encode r := r |}.
Definition add_srv (n : Z) : Server nat :=
  MkServer {["Counter" := MakeService "Counter" [add_handler]]} n None.

Definition rpc_done : world (Server nat * nat) :=
  MkWorld 2 (MkCallMap false ∅) {[5%nat := Caller 1 ["x"%byte] (CDone (Reply ["x"%byte] true false))]}
    RRead [] [] [] [] (add_srv 1, 4%nat) 2 [(1, ["x"%byte], (["x"%byte], true))].

Lemma rpc_done_reachable : reachable "clnt" (add_srv 0, 3%nat) rpc_done.
Proof.
  unfold reachable.
  eapply rtc_l; [by apply (s_tag _ _ 5 ["x"%byte])|].
  eapply rtc_l; [by eapply (s_put _ _ 5)|].
  eapply rtc_l; [by eapply (s_write _ _ 5)|].
  eapply rtc_l; [by eapply s_srv, s_request|].
  eapply rtc_l; [eapply s_srv, s_serve; [simpl; reflexivity|reflexivity]|].
  eapply rtc_l; [eapply s_srv, s_answer; simpl; reflexivity|].
  eapply rtc_l; [by eapply s_read|].
  eapply rtc_once, eq_rect; [by eapply (s_deliver _ _ 5)|]. vm_compute. reflexivity.
Qed.

Lemma RPC_returns_dispatch_witness :
  ∃ (rs rs' : Server nat) (st st' : nat),
    Dispatch "Counter.Add" "clnt" ["x"%byte] rs st = Ret (rs', st', (["x"%byte], true)).
Proof.
  apply (RPC_returns_dispatch "clnt" (add_srv 0, 3%nat) rpc_done 5
    (Caller 1 ["x"%byte] (CDone (Reply ["x"%byte] true false))) (Reply ["x"%byte] true false)
    "Counter.Add" ["x"%byte] ["x"%byte] ["x"%byte] rpc_done_reachable);
    [by vm_compute|reflexivity..].
Defined.
