(* ===== verification/SockSrv.v ===== *)
(** * Connections between the processes (tester1/sockrpc, tester1/demux)

    How a connection starts and ends: an [RPCClnt] dials the socket of an [RPCSrv] and
    its [DemuxClnt] writes an [InitMsg] with the name of the client; the listening
    goroutine of the server accepts the connection and [NewDemuxSrv] reads the name, under
    which it then serves the requests of the connection (Demux.v).  A connection is the
    bytes that the client writes; listening, accepting and closing sockets are the
    operating system's. *)

From S2P Require Import Prelude LabRpc Wire Demux SockRpc DemuxSpec.
Import Wire Demux SockRpc.

Local Open Scope Z_scope.

Module SockSrv.

Record InitMsg := MkInitMsg { Clnt : string }.

(** ** dmxclnt.go, rpcclnt.go *)

Record DemuxClnt := MkDemuxClnt { callmap : callMap; dnextTag : Z; dclntEnd : string; dsrvEnd : string }.

Section sock.
Context `{Codec msg} `{Codec InitMsg} {St : Type}.

(** The client, and what it wrote on the connection. *)
Definition NewDemuxClnt (clnt srv : string) : res (DemuxClnt * bytes) :=
  let dmx := MkDemuxClnt newCallMap 0 clnt srv in
  let* b := Marshall (MkInitMsg clnt) in
  let tag := dnextTag dmx in
  let dmx := MkDemuxClnt newCallMap (u32 (tag + 1)) clnt srv in
  let* f := WriteCall tag b true in
  Ret (dmx, f).

(** Close: nothing if the reader has closed the map; else the map is closed, whatever the
    connection says. *)
Definition dmx_Close (dmx : DemuxClnt) : DemuxClnt :=
  if isClosed (callmap dmx) then dmx
  else MkDemuxClnt (cm_close (callmap dmx)) (dnextTag dmx) (dclntEnd dmx) (dsrvEnd dmx).
Definition IsClosed (dmx : DemuxClnt) : bool := isClosed (callmap dmx).

Record RPCClnt := MkRPCClnt { rc_clnt : string; rc_srvEnd : string; rc_dmx : DemuxClnt }.
(** NewRPCClnt, when dialling succeeds ([getDmx] of SockRpc.v has the dialling). *)
Definition NewRPCClnt (clntEnd srvEnd : string) : res (RPCClnt * bytes) :=
  let* '(dmx, f) := NewDemuxClnt clntEnd srvEnd in Ret (MkRPCClnt clntEnd srvEnd dmx, f).
Definition rpcc_Server (rpcc : RPCClnt) : string := rc_srvEnd rpcc.
Definition rpcc_Close (rpcc : RPCClnt) : RPCClnt :=
  MkRPCClnt (rc_clnt rpcc) (rc_srvEnd rpcc) (dmx_Close (rc_dmx rpcc)).

(** ** dmxsrv.go, rpcsrv.go *)

Record DemuxSrv := MkDemuxSrv { srvEnd : string; clntEnd : string; sclosed : bool }.
Definition ClntEnd (dmx : DemuxSrv) : string := clntEnd dmx.
(** setClosed: whether it was closed before. *)
Definition setClosed (dmx : DemuxSrv) : DemuxSrv * bool := (MkDemuxSrv (srvEnd dmx) (clntEnd dmx) true, sclosed dmx).
Definition dmxs_Close (dmx : DemuxSrv) : DemuxSrv := (setClosed dmx).1.

(** NewDemuxSrv on a connection: it ends the process if the first message does not
    come. *)
Definition NewDemuxSrv (srvEnd : string) (conn : bytes) : res (DemuxSrv * bytes) :=
  let* r := ReadCall conn in
  match r with
  | inr _ => Stop LogFatal
  | inl (m, conn) =>
      let* msg := Unmarshall (Data m) in
      Ret (MkDemuxSrv srvEnd (Clnt msg) false, conn)
  end.

(** [l] is None before the goroutine has called net.Listen. *)
Record RPCSrv := MkRPCSrv { sock : string; l : option bool; srv : LabRpc.Server St; conns : list (DemuxSrv * bytes) }.
Definition NewRPCSrv (sock : string) : RPCSrv := MkRPCSrv sock None LabRpc.MakeServer [].
(** Close, which dereferences [l]. *)
Definition rpcs_Close (rpcs : RPCSrv) : res RPCSrv :=
  match l rpcs with
  | Some _ => Ret (MkRPCSrv (sock rpcs) (Some false) (srv rpcs) (conns rpcs))
  | None => Stop Panic
  end.
Definition Name (rpcs : RPCSrv) : string := sock rpcs.
Definition rpcs_AddService (name : string) (methods : list (LabRpc.Method St)) (rpcs : RPCSrv) : RPCSrv :=
  MkRPCSrv (sock rpcs) (l rpcs) (LabRpc.AddService (LabRpc.MakeService name methods) (srv rpcs)) (conns rpcs).

(** listen: the call of net.Listen, and then the loop over the connections that Accept
    returns before it fails. *)
Fixpoint accept_loop (accepted : list bytes) (rpcs : RPCSrv) : res RPCSrv :=
  match accepted with
  | [] => Ret rpcs
  | conn :: accepted =>
      let* x := NewDemuxSrv (sock rpcs) conn in
      accept_loop accepted (MkRPCSrv (sock rpcs) (l rpcs) (srv rpcs) (conns rpcs ++ [x]))
  end.
Definition listen (listens : bool) (accepted : list bytes) (rpcs : RPCSrv) : res RPCSrv :=
  if listens then accept_loop accepted (MkRPCSrv (sock rpcs) (Some true) (srv rpcs) (conns rpcs))
  else Stop LogFatal.

(** ** Lemmas *)

Context `{!CodecLaws msg} `{!CodecLaws InitMsg}.

(** The InitMsg of a client is short enough. *)
Definition init_fits (clnt : string) : Prop :=
  ∀ b, encode (MkInitMsg clnt) = Some b → fits (Msg 0 b true).

Lemma NewDemuxClnt_frame clnt srv dmx f :
  NewDemuxClnt clnt srv = Ret (dmx, f) →
  dmx = MkDemuxClnt newCallMap 1 clnt srv ∧
  ∃ b, encode (MkInitMsg clnt) = Some b ∧ WriteCall 0 b true = Ret f ∧ Unmarshall b = Ret (MkInitMsg clnt).
Proof.
  unfold NewDemuxClnt. intros (b & Hb & Hrest)%rbind_Ret_inv. apply rbind_Ret_inv in Hrest as (f' & Hf & Hr).
  injection Hr as <- <-. split; [done|]. exists b. split_and!; [|done|by apply Unmarshall_Marshall].
  unfold Marshall in Hb. destruct (encode _); by simplify_eq.
Qed.

Lemma handshake clnt srv srvEnd dmx f rest :
  init_fits clnt → NewDemuxClnt clnt srv = Ret (dmx, f) →
  NewDemuxSrv srvEnd (f ++ rest) = Ret (MkDemuxSrv srvEnd clnt false, rest).
Proof.
  intros Hfit (_ & b & Hb & Hf & Hu)%NewDemuxClnt_frame. unfold NewDemuxSrv.
  rewrite (ReadCall_WriteCall (Msg 0 b true) f rest (Hfit b Hb) Hf). cbn [rbind Data]. by rewrite Hu.
Qed.

Lemma handshake_cut clnt srv srvEnd dmx f k :
  init_fits clnt → NewDemuxClnt clnt srv = Ret (dmx, f) → (k < length f)%nat →
  NewDemuxSrv srvEnd (take k f) = Stop LogFatal.
Proof.
  intros Hfit (_ & b & Hb & Hf & Hu)%NewDemuxClnt_frame Hk. unfold NewDemuxSrv.
  by destruct (ReadCall_cut (Msg 0 b true) f k (Hfit b Hb) Hf Hk) as (e & -> & _).
Qed.

(** A client that has dialled and written [rest] after its InitMsg. *)
Definition dialled (srv clnt : string) (rest conn : bytes) : Prop :=
  ∃ dmx f, init_fits clnt ∧ NewDemuxClnt clnt srv = Ret (dmx, f) ∧ conn = f ++ rest.

Lemma accept_loop_serves clients accepted rpcs :
  Forall2 (λ x conn, dialled (sock rpcs) x.1 x.2 conn) clients accepted →
  accept_loop accepted rpcs = Ret (MkRPCSrv (sock rpcs) (l rpcs) (srv rpcs)
    (conns rpcs ++ ((λ x, (MkDemuxSrv (sock rpcs) x.1 false, x.2)) <$> clients))).
Proof.
  intros Hall. remember (sock rpcs) as s eqn:Hs. revert rpcs Hs. induction Hall as [|[clnt rest] conn clients accepted Hd _ IH]; intros rpcs ->.
  - simpl. rewrite (right_id_L [] (++)). by destruct rpcs.
  - destruct Hd as (dmx & f & Hfit & Hn & ->). cbn [accept_loop fst snd] in *.
    rewrite (handshake clnt _ _ dmx f rest Hfit Hn). cbn [rbind]. rewrite IH by done. simpl.
    by rewrite <-(assoc_L (++)).
Qed.

Lemma accept_loop_app xs ys rpcs :
  accept_loop (xs ++ ys) rpcs = let* rpcs := accept_loop xs rpcs in accept_loop ys rpcs.
Proof.
  revert rpcs. induction xs as [|x xs IH]; intros rpcs; [done|]. simpl. rewrite rbind_assoc.
  destruct (NewDemuxSrv (sock rpcs) x); [apply IH|done].
Qed.
End sock.
End SockSrv.
Import SockSrv.

(** Connections are served under the name of their client.  When clients dial the
    socket of an RPCSrv and write anything after their InitMsg, the listening goroutine
    accepts all of them: it serves one connection per client, in order, each under the
    name with which the client was made, and the bytes that are left to read are exactly
    the client's requests.  But if a client ends before its InitMsg is written
    completely, the process of the server ends with log.Fatalf, whoever has connected
    before. *)
Theorem connections_named `{CodecLaws msg} `{CodecLaws InitMsg} {St} (clients : list (string * bytes)) accepted
    (rpcs : RPCSrv (St:=St)) :
  conns rpcs = [] → Forall2 (λ x conn, dialled (sock rpcs) x.1 x.2 conn) clients accepted →
  (∃ rpcs', listen true accepted rpcs = Ret rpcs' ∧
    conns rpcs' = (λ x, (MkDemuxSrv (sock rpcs) x.1 false, x.2)) <$> clients ∧ srv rpcs' = srv rpcs) ∧
  (∀ clnt dmx f k later, init_fits clnt → NewDemuxClnt clnt (sock rpcs) = Ret (dmx, f) → (k < length f)%nat →
    listen true (accepted ++ take k f :: later) rpcs = Stop LogFatal).
Proof.
  intros Hempty Hall. unfold listen. split.
  - eexists. split; [by apply (accept_loop_serves clients)|]. simpl. by rewrite Hempty.
  - intros clnt dmx f k later Hfit Hn Hk. rewrite accept_loop_app.
    rewrite (accept_loop_serves clients) by done. cbn [rbind accept_loop sock].
    by rewrite (handshake_cut clnt (sock rpcs) (sock rpcs) dmx f k Hfit Hn Hk).
Qed.

(** *** A witness: one client that writes two bytes, and one that is cut off *)

#[local] Existing Instance toy_codec.
#[local] Existing Instance toy_laws.
#[local] Instance init_codec : Codec InitMsg := {|
  encode m := Some (String.list_byte_of_string (Clnt m));
  decode b := Some (MkInitMsg (String.string_of_list_byte b)) |}.
#[local] Instance init_laws : CodecLaws InitMsg.
Proof. intros [c] b [= <-]. simpl. by rewrite String.string_of_list_byte_of_string. Qed.

Definition hello : bytes :=
  Eval vm_compute in match NewDemuxClnt "clnt" "srv" with Ret (_, f) => f | Stop _ => [] end.
Definition new_srv : RPCSrv (St:=nat) := NewRPCSrv "srv".

Lemma hello_dialled rest : dialled "srv" "clnt" rest (hello ++ rest).
Proof.
  exists (MkDemuxClnt newCallMap 1 "clnt" "srv"), hello. split; [|split; [vm_compute; reflexivity|reflexivity]].
  intros b Hb c Hc. vm_compute in Hb. injection Hb as <-. vm_compute in Hc. injection Hc as <-. vm_compute. reflexivity.
Qed.

Lemma connections_named_witness :
  (∃ rpcs', listen true [hello ++ ["a"%byte; "b"%byte]] new_srv = Ret rpcs' ∧
    conns rpcs' = [(MkDemuxSrv "srv" "clnt" false, ["a"%byte; "b"%byte])]) ∧
  listen true ((hello ++ ["a"%byte; "b"%byte]) :: [take 5 hello]) new_srv = Stop LogFatal.
Proof.
  destruct (connections_named [("clnt", ["a"%byte; "b"%byte])] [hello ++ ["a"%byte; "b"%byte]] new_srv) as [H1 H2].
  - reflexivity.
  - apply Forall2_cons; [apply hello_dialled|constructor].
  - split.
    + destruct H1 as (rpcs' & Hl & Hc & _). exists rpcs'. split; [exact Hl|exact Hc].
    + destruct (hello_dialled []) as (dmx & f & Hfit & Hn & Hf). rewrite (app_nil_r hello), (app_nil_r f) in Hf. subst f.
      apply (H2 "clnt" dmx hello 5%nat []); [exact Hfit|exact Hn|].
      apply (bool_decide_unpack _). vm_compute. exact I.
Defined.
