(* ===== verification/Persister.v ===== *)
(** * Saved server state (tester1/persister.go)

    A [Persister] holds a server's Raft state and snapshot.  Byte slices are
    shared objects in Go: what is saved must not change when the server goes on to
    write into the buffer it passed, nor when a reader writes into the buffer it
    got.  The model has a store of buffers; a slice is nil or the address of a
    buffer, and [clone] allocates. *)

From S2P Require Import Prelude LabRpc.
Import LabRpc.

Module Persister.

Abbreviation addr := nat.

(** The store: the buffers, and the next free address. *)
Record store := MkStore { bufs : gmap addr bytes; next : addr }.
Definition slice : Type := option addr.            (** [None] is the nil slice *)

Definition empty_store : store := MkStore ∅ 0.

Definition contents (s : store) (x : slice) : bytes :=
  match x with Some a => mget [] (bufs s) a | None => [] end.
Definition alloc (b : bytes) (s : store) : slice * store :=
  (Some (next s), MkStore (<[next s := b]> (bufs s)) (S (next s))).
(** A write through a slice by whoever holds it. *)
Definition scribble (a : addr) (b : bytes) (s : store) : store :=
  MkStore (<[a := b]> (bufs s)) (next s).

Record Persister := MkPersister { raftstate : slice; snapshot : slice }.

Definition MakePersister : Persister := MkPersister None None.

Definition clone (orig : slice) (s : store) : slice * store := alloc (contents s orig) s.

Definition Checkpoint (ps : Persister) (s : store) : Persister * store :=
  let (r, s) := clone (raftstate ps) s in
  let (n, s) := clone (snapshot ps) s in
  (MkPersister r n, s).

Definition ReadRaftState (ps : Persister) (s : store) : slice * store := clone (raftstate ps) s.
Definition ReadSnapshot (ps : Persister) (s : store) : slice * store := clone (snapshot ps) s.
Definition RaftStateSize (ps : Persister) (s : store) : Z :=
  Z.of_nat (length (contents s (raftstate ps))).
Definition SnapshotSize (ps : Persister) (s : store) : Z :=
  Z.of_nat (length (contents s (snapshot ps))).

(** Save changes the persister [ps] points to: the new value is returned. *)
Definition Save (rs sn : slice) (ps : Persister) (s : store) : Persister * store :=
  let (r, s) := clone rs s in
  let (n, s) := clone sn s in
  (MkPersister r n, s).

(** ** What the rest of the program can do

    [hidden] are the buffers only the persister has an address of; the rest of
    the program allocates buffers, writes into those it can reach, and reads the
    persister, which adds reachable buffers. *)

Definition store_ok (s : store) : Prop := ∀ a, (next s ≤ a)%nat → bufs s !! a = None.
Definition below (s : store) (x : slice) : Prop :=
  match x with Some a => (a < next s)%nat | None => True end.

(** The addresses behind a slice. *)
Definition held (x : slice) : gset addr := match x with Some a => {[a]} | None => ∅ end.

(** [pub] is the set of addresses that the rest of the program holds: those of its own
    buffers, and those of the slices that reading the persister returns. *)
Inductive others (ps : Persister) : gset addr * store → gset addr * store → Prop :=
| o_write pub a b s : a ∈ pub → others ps (pub, s) (pub, scribble a b s)
| o_alloc pub b s x s' : alloc b s = (x, s') → others ps (pub, s) (held x ∪ pub, s')
| o_readraft pub s x s' : ReadRaftState ps s = (x, s') → others ps (pub, s) (held x ∪ pub, s')
| o_readsnap pub s x s' : ReadSnapshot ps s = (x, s') → others ps (pub, s) (held x ∪ pub, s').

(** The persister's buffers are private. *)
Definition private (ps : Persister) (pub : gset addr) (s : store) : Prop :=
  store_ok s ∧ (∀ a, a ∈ pub → (a < next s)%nat) ∧
  below s (raftstate ps) ∧ below s (snapshot ps) ∧
  (∀ a, a ∈ pub → raftstate ps ≠ Some a ∧ snapshot ps ≠ Some a).

Lemma contents_fresh s x a b :
  below s x → (next s ≤ a)%nat → contents (MkStore (<[a := b]> (bufs s)) (S a)) x = contents s x.
Proof.
  destruct x as [c|]; [|done]. simpl. intros ? ?. apply mget_insert_ne. lia.
Qed.

Lemma contents_alloc s x b : below s x → contents (alloc b s).2 x = contents s x.
Proof. intros ?. by apply contents_fresh. Qed.

Lemma contents_allocated s x b y s' :
  alloc b s = (y, s') → below s x → contents s' x = contents s x.
Proof. intros [= _ <-] ?. by apply contents_fresh. Qed.

Lemma contents_new s b : contents (alloc b s).2 (alloc b s).1 = b.
Proof. apply mget_insert_eq. Qed.

Lemma store_ok_alloc s b : store_ok s → store_ok (alloc b s).2.
Proof. intros Hs a. simpl. intros ?. rewrite lookup_insert_ne by lia. apply Hs. lia. Qed.

Lemma private_alloc ps pub s b x s' :
  alloc b s = (x, s') → private ps pub s → private ps (held x ∪ pub) s'.
Proof.
  intros [= <- <-] (Hs & Hp & Hr & Hn & Hd). simpl held. split_and!.
  - by apply store_ok_alloc.
  - intros a. rewrite elem_of_union, elem_of_singleton. simpl. intros [->|?%Hp]; lia.
  - destruct (raftstate ps); simpl in *; [lia|done].
  - destruct (snapshot ps); simpl in *; [lia|done].
  - intros a. rewrite elem_of_union, elem_of_singleton. intros [->|?]; [|by apply Hd].
    split; intros Heq; [rewrite Heq in Hr|rewrite Heq in Hn]; simpl in *; lia.
Qed.

(** Nothing the rest of the program does changes what is saved. *)
Lemma others_private ps pub s pub' s' :
  others ps (pub, s) (pub', s') → private ps pub s →
  private ps pub' s' ∧ contents s' (raftstate ps) = contents s (raftstate ps) ∧
  contents s' (snapshot ps) = contents s (snapshot ps).
Proof.
  intros Ho Hpr. pose proof Hpr as (Hs & Hp & Hr & Hn & Hd). inversion Ho; subst.
  - destruct (Hd a) as [Hda Hdb]; [done|]. split_and!.
    + split_and!; try done. intros c Hc. simpl. rewrite lookup_insert_ne; [by apply Hs|].
      specialize (Hp a ltac:(done)). simpl in Hc. lia.
    + destruct (raftstate ps) as [c|]; [|done]. simpl. apply mget_insert_ne. congruence.
    + destruct (snapshot ps) as [c|]; [|done]. simpl. apply mget_insert_ne. congruence.
  - split_and!; [by eapply private_alloc|by eapply contents_allocated..].
  - split_and!; [by eapply private_alloc|by eapply contents_allocated..].
  - split_and!; [by eapply private_alloc|by eapply contents_allocated..].
Qed.

Lemma rtc_others_private ps x y :
  rtc (others ps) x y → private ps x.1 x.2 →
  private ps y.1 y.2 ∧ contents y.2 (raftstate ps) = contents x.2 (raftstate ps) ∧
  contents y.2 (snapshot ps) = contents x.2 (snapshot ps).
Proof.
  induction 1 as [x|[p1 s1] [p2 s2] [p3 s3] Ho _ IH]; intros Hx; [done|].
  destruct (others_private ps p1 s1 p2 s2 Ho Hx) as (? & ? & ?).
  destruct IH as (? & ? & ?); [done|]. simpl in *. split_and!; congruence.
Qed.

(** Save leaves the persister with private copies. *)
Lemma Save_private rs sn ps s pub :
  store_ok s → (∀ a, a ∈ pub → (a < next s)%nat) → below s sn →
  let '(ps', s') := Save rs sn ps s in
  private ps' pub s' ∧ contents s' (raftstate ps') = contents s rs ∧
  contents s' (snapshot ps') = contents s sn.
Proof.
  intros Hs Hp Hsn. unfold Save, clone. simpl. split_and!.
  - split_and!; simpl.
    + intros a. simpl. intros ?. rewrite !lookup_insert_ne by lia. apply Hs. lia.
    + intros a ?%Hp. lia.
    + lia.
    + lia.
    + intros a ?%Hp. split; intros [= <-]; lia.
  - simpl. rewrite mget_insert_ne by lia. apply mget_insert_eq.
  - simpl. rewrite mget_insert_eq. by apply contents_fresh.
Qed.

Lemma read_contents ps s :
  (let '(x, s') := ReadRaftState ps s in contents s' x = contents s (raftstate ps)) ∧
  (let '(x, s') := ReadSnapshot ps s in contents s' x = contents s (snapshot ps)).
Proof. unfold ReadRaftState, ReadSnapshot, clone. split; simpl; apply mget_insert_eq. Qed.

Lemma Checkpoint_contents ps s :
  below s (snapshot ps) →
  let '(np, s') := Checkpoint ps s in
  contents s' (raftstate np) = contents s (raftstate ps) ∧
  contents s' (snapshot np) = contents s (snapshot ps).
Proof.
  intros Hsn. unfold Checkpoint, clone. simpl. split.
  - rewrite mget_insert_ne by lia. apply mget_insert_eq.
  - rewrite mget_insert_eq. by apply contents_fresh.
Qed.

End Persister.
