(* ===== verification/Group.v ===== *)
(** * Groups of servers (tester1/group.go, srv.go, daemonclnt.go, daemonsrv.go)

    The tester keeps, per group, a [Server] for each member: the names of the
    member's ends to the other members, the state saved when it was shut down, and
    its daemon while it runs.  [connect] and [disconnect] switch ends of the
    simulated network on and off, [Partition] does so for two sides of the group,
    [ShutdownServer] and [StartServer] crash and restart a member.  [procs] counts the
    processes that run: a server that is started twice loses its first daemon, but not
    the process.  Daemons that run save what they like ([persist]).

    Saved states are values here (pairs of byte strings): Persister.v shows that
    the copies made by [Persister] justify this.  The names that Randstring draws
    are the values of the parameter [rand]; what the operating system answers when
    a daemon is started, called or killed is the argument [env]. *)

From stdpp Require Import pretty.
From S2P Require Import Prelude LabRpc.
Import LabRpc.

Module Group.

(** The contents of a Persister: Raft state and snapshot. *)
Definition image : Type := bytes * bytes.
Definition no_image : image := ([], []).

(** A running daemon: what its persister holds, once it got the Init RPC. *)
Abbreviation daemon := (option image).

(** [nil] endNames are [None]; the ClientEnd pointers are the names. *)
Record Server := MkServer { saved : option image; endNames : option (list string); dc : option daemon }.

Record ServerGrp := MkGrp {
  srvs : list Server; servernames : list string; gid : Z; connected : list bool }.

(** The network, the number of names drawn and of labrpc servers made, and the daemon
    processes that run, each by the group and the number of its server.  A server has
    two entries when it is started while its process runs. *)
Record tester := MkTester { net : Network; drawn : nat; objs : nat; procs : list (Z * Z) }.

Definition set_net (n : Network) (t : tester) : tester := MkTester n (drawn t) (objs t) (procs t).
Definition set_procs (l : list (Z * Z)) (t : tester) : tester := MkTester (net t) (drawn t) (objs t) l.

(** One process of the server [p] ends. *)
Fixpoint drop_proc (p : Z * Z) (l : list (Z * Z)) : list (Z * Z) :=
  match l with
  | [] => []
  | q :: l => if decide (q = p) then l else q :: drop_proc p l
  end.
Definition enable (e : string) (b : bool) (t : tester) : tester := set_net (Enable e b (net t)) t.

Definition ServerName (gid i : Z) : string := "server-" +:+ pretty gid +:+ "-" +:+ pretty i.

(** The outcomes of process creation and of the RPCs to a daemon. *)
Record env := MkEnv { e_start : bool; e_init : bool; e_checkpoint : bool; e_kill : bool }.

Lemma drop_proc_spec p l :
  NoDup l → NoDup (drop_proc p l) ∧ ∀ q, q ∈ drop_proc p l ↔ q ≠ p ∧ q ∈ l.
Proof.
  induction l as [|x l IH]; intros Hnd; simpl; [split; [done|]; set_solver|].
  apply list.NoDup_cons in Hnd as [Hx Hnd]. case_decide as Hd.
  - subst. split; [done|]. intros q. rewrite elem_of_cons. split; [|naive_solver].
    intros Hq. split; [congruence|by right].
  - destruct (IH Hnd) as [Hn Hin]. split.
    + apply list.NoDup_cons. split; [|done]. rewrite Hin. naive_solver.
    + intros q. rewrite !elem_of_cons, Hin. naive_solver.
Qed.

Section group.
Context (rand : nat → string).

Definition Randstring (t : tester) : string * tester :=
  (rand (drawn t), MkTester (net t) (S (drawn t)) (objs t) (procs t)).

(** ** srv.go *)

(** A fresh set of ends for this server to the servers [j], [j]+1, ... *)
Fixpoint makeServer_loop (gid : Z) (j : Z) (k : nat) (t : tester) : res (list string * tester) :=
  match k with
  | O => Ret ([], t)
  | S k =>
      let (e, t) := Randstring t in
      let* n := MakeEnd e (net t) in
      let t := set_net (Connect e (ServerName gid j) n) t in
      let* '(es, t) := makeServer_loop gid (j + 1) k t in
      Ret (e :: es, t)
  end.
Definition makeServer (gid : Z) (nsrv : nat) (t : tester) : res (Server * tester) :=
  let* '(es, t) := makeServer_loop gid 0 nsrv t in
  Ret (MkServer None (Some es) None, t).

Definition startServer (s : Server) (gid : Z) (t : tester) : res (Server * tester) :=
  let* '(srv, t) := makeServer gid (length (default [] (endNames s))) t in
  Ret (MkServer (Some (default no_image (saved s))) (endNames srv) None, t).

Definition IsConnected (i : Z) (sg : ServerGrp) : res bool := slice_get (connected sg) i.

Definition srv_connect (s : Server) (sg : ServerGrp) (to : list Z) (t : tester) : res tester :=
  res_fold (λ t j,
    let* c := IsConnected j sg in
    if c then let* e := slice_get (default [] (endNames s)) j in Ret (enable e true t)
    else Ret t) t to.

Definition srv_disconnect (s : Server) (from : list Z) (t : tester) : res tester :=
  match endNames s with
  | None => Ret t
  | Some es =>
      res_fold (λ t j, let* e := slice_get es j in Ret (enable e false t)) t from
  end.

(** checkpointPersister (the RPC, and CheckpointPersister in the daemon): a copy of
    what the daemon's persister holds.  A daemon without one dereferences nil and dies, so
    the RPC does not return. *)
Definition checkpointPersister (ev : env) (d : daemon) : res image :=
  if e_checkpoint ev then
    match d with Some im => Ret im | None => Stop LogFatal end
  else Stop LogFatal.

Definition kill (ev : env) : res () := if e_kill ev then Ret tt else Stop LogFatal.

Definition shutdownServer (ev : env) (s : Server) : res Server :=
  match dc s with
  | Some d =>
      let* p := checkpointPersister ev d in
      let* _ := kill ev in
      Ret (MkServer (Some p) (endNames s) None)
  | None => Ret s
  end.

(** snapshotSize and raftSize; both panic on a server without daemon or saved state.  A
    daemon without a persister dies of the StateSize RPC, as above. *)
Definition stateSize (d : daemon) : res (Z * Z) :=
  match d with
  | Some im => Ret (Z.of_nat (length im.1), Z.of_nat (length im.2))
  | None => Stop LogFatal
  end.
Definition snapshotSize (s : Server) : res Z :=
  match dc s with
  | Some d => let* p := stateSize d in Ret p.2
  | None => match saved s with Some im => Ret (Z.of_nat (length im.2)) | None => Stop Panic end
  end.
Definition raftSize (s : Server) : res Z :=
  match dc s with
  | Some d => let* p := stateSize d in Ret p.1
  | None => match saved s with Some im => Ret (Z.of_nat (length im.1)) | None => Stop Panic end
  end.

(** ** group.go *)

Fixpoint makeSrvs (gid : Z) (n k : nat) (t : tester) : res (list Server * tester) :=
  match k with
  | O => Ret ([], t)
  | S k =>
      let* '(s, t) := makeServer gid n t in
      let* '(ss, t) := makeSrvs gid n k t in
      Ret (s :: ss, t)
  end.
Definition makeSrvGrp (gid : Z) (n : nat) (t : tester) : res (ServerGrp * tester) :=
  let* '(ss, t) := makeSrvs gid n n t in
  Ret (MkGrp ss ((λ i, ServerName gid (Z.of_nat i)) <$> seq 0 n) gid (replicate n false), t).

Definition N (sg : ServerGrp) : Z := Z.of_nat (length (srvs sg)).
Definition SrvName (i : Z) (sg : ServerGrp) : res string := slice_get (servernames sg) i.
Definition SrvNamesTo (to : list Z) (sg : ServerGrp) : res (list string) :=
  res_fold (λ ns i, let* n := slice_get (servernames sg) i in Ret (ns ++ [n])) [] to.
Definition all (sg : ServerGrp) : list Z := Z.of_nat <$> seq 0 (length (srvs sg)).

Definition connect (i : Z) (to : list Z) (sg : ServerGrp) (t : tester) : res (ServerGrp * tester) :=
  let* conn := slice_set (connected sg) i true in
  let sg := MkGrp (srvs sg) (servernames sg) (gid sg) conn in
  let* s := slice_get (srvs sg) i in
  let* t := srv_connect s sg to t in
  let* t := res_fold (λ t j,
    let* c := IsConnected j sg in
    if c then
      let* sj := slice_get (srvs sg) j in
      let* e := slice_get (default [] (endNames sj)) i in
      Ret (enable e true t)
    else Ret t) t to in
  Ret (sg, t).

Definition disconnect (i : Z) (from : list Z) (sg : ServerGrp) (t : tester) :
    res (ServerGrp * tester) :=
  let* conn := slice_set (connected sg) i false in
  let sg := MkGrp (srvs sg) (servernames sg) (gid sg) conn in
  let* s := slice_get (srvs sg) i in
  let* t := srv_disconnect s from t in
  let* t := res_fold (λ t j,
    let* sj := slice_get (srvs sg) j in
    match endNames sj with
    | None => Ret t
    | Some es => let* e := slice_get es i in Ret (enable e false t)
    end) t from in
  Ret (sg, t).

Definition ConnectOne (i : Z) (sg : ServerGrp) (t : tester) := connect i (all sg) sg t.
Definition ConnectAll (sg : ServerGrp) (t : tester) : res (ServerGrp * tester) :=
  res_fold (λ '(sg, t) i, ConnectOne i sg t) (sg, t) (all sg).
Definition DisconnectAll (i : Z) (sg : ServerGrp) (t : tester) := disconnect i (all sg) sg t.

(** [n > max] over the servers *)
Definition max_size (f : Server → res Z) (sg : ServerGrp) : res Z :=
  res_fold (λ m s, let* n := f s in Ret (if bool_decide (n > m) then n else m)) 0 (srvs sg).
Definition RaftSize (sg : ServerGrp) : res Z := max_size raftSize sg.
Definition SnapshotSize (sg : ServerGrp) : res Z := max_size snapshotSize sg.

(** memSize: [mem] is the answer of a daemon to the RPC, [None] if the RPC fails; unlike
    the sizes above it has no case for a server without a daemon. *)
Definition dc_memSize (mem : daemon → option Z) (d : daemon) : res Z :=
  match mem d with Some n => Ret n | None => Stop LogFatal end.
Definition memSize (mem : daemon → option Z) (s : Server) : res Z :=
  match dc s with Some d => dc_memSize mem d | None => Stop Panic end.
Definition MemSize (mem : daemon → option Z) (sg : ServerGrp) : res Z := max_size (memSize mem) sg.

(** runDaemon, dc.init, dc.waitInit: a daemon that got the saved state, if its
    process started and the Init RPC got through. *)
Definition runDaemon (ev : env) : option daemon := if e_start ev then Some None else None.
Definition dc_init (ev : env) (im : option image) (d : daemon) : res daemon :=
  match im with
  | Some im => Ret (if e_init ev then Some im else d)
  | None => Stop Panic
  end.

(** StartServer: the error it returns is the boolean. *)
Definition StartServer (ev : env) (i : Z) (sg : ServerGrp) (t : tester) :
    res (ServerGrp * tester * bool) :=
  let* s := slice_get (srvs sg) i in
  let* '(srv, t) := startServer s (gid sg) t in
  let* ss := slice_set (srvs sg) i srv in
  let sg := MkGrp ss (servernames sg) (gid sg) (connected sg) in
  match runDaemon ev with
  | None => Ret (sg, t, false)
  | Some d =>
      let t := set_procs ((gid sg, i) :: procs t) t in
      let* d := dc_init ev (saved srv) d in
      let* ss := slice_set ss i (MkServer (saved srv) (endNames srv) (Some d)) in
      let sg := MkGrp ss (servernames sg) (gid sg) (connected sg) in
      let t := MkTester (AddServer (ServerName (gid sg) i) (objs t) (net t)) (drawn t) (S (objs t)) (procs t) in
      Ret (sg, t, true)
  end.

(** ShutdownServer; kill ends the process of the daemon that the server has. *)
Definition ShutdownServer (ev : env) (i : Z) (sg : ServerGrp) (t : tester) :
    res (ServerGrp * tester) :=
  let* '(sg, t) := disconnect i (all sg) sg t in
  let t := set_net (DeleteServer (ServerName (gid sg) i) (net t)) t in
  let* s := slice_get (srvs sg) i in
  let t := match dc s with Some _ => set_procs (drop_proc (gid sg, i) (procs t)) t | None => t end in
  let* s := shutdownServer ev s in
  let* ss := slice_set (srvs sg) i s in
  Ret (MkGrp ss (servernames sg) (gid sg) (connected sg), t).

Definition Kill (ev : env) (ss : list Z) (sg : ServerGrp) (t : tester) : res (ServerGrp * tester) :=
  res_fold (λ '(sg, t) i, ShutdownServer ev i sg t) (sg, t) ss.
Definition Shutdown (ev : env) (sg : ServerGrp) (t : tester) := Kill ev (all sg) sg t.

(** StartSrvs ignores the errors of StartServer. *)
Definition StartSrvs (ev : env) (ss : list Z) (sg : ServerGrp) (t : tester) : res (ServerGrp * tester) :=
  res_fold (λ '(sg, t) i, let* '(sg, t, _) := StartServer ev i sg t in Ret (sg, t)) (sg, t) ss.
Definition StartServers (ev : env) (sg : ServerGrp) (t : tester) : res (ServerGrp * tester) :=
  let* '(sg, t) := StartSrvs ev (all sg) sg t in ConnectAll sg t.

(** MakePartition: two arrays filled by index. *)
Definition MakePartition (l : Z) (sg : ServerGrp) : res (list Z * list Z) :=
  let n := N sg in
  let p1 := replicate (Z.to_nat (n `quot` 2 + 1)) 0 in
  let p2 := replicate (Z.to_nat (n `quot` 2)) 0 in
  let* '(p1, p2, j) := res_fold (λ '(p1, p2, j) i,
    if decide (i = l) then Ret (p1, p2, j)
    else if decide (j < Z.of_nat (length p1)) then
      let* p1 := slice_set p1 j i in Ret (p1, p2, j + 1)
    else
      let* p2 := slice_set p2 (j - Z.of_nat (length p1)) i in Ret (p1, p2, j + 1))
    (p1, p2, 0) (all sg) in
  let* p2 := slice_set p2 (Z.of_nat (length p2) - 1) l in
  Ret (p1, p2).

Definition Partition (p1 p2 : list Z) (sg : ServerGrp) (t : tester) : res (ServerGrp * tester) :=
  let side me other (st : ServerGrp * tester) :=
    res_fold (λ '(sg, t) i,
      let* '(sg, t) := disconnect i other sg t in connect i me sg t) st me in
  let* st := side p1 p2 (sg, t) in side p2 p1 st.
End group.

(** ** What a daemon does

    The service in a running daemon saves what it likes with its persister. *)

Definition persist (i : Z) (im : image) (sg : ServerGrp) : ServerGrp :=
  match srvs sg !! Z.to_nat i with
  | Some (MkServer sv es (Some (Some _))) =>
      MkGrp (<[Z.to_nat i := MkServer sv es (Some (Some im))]> (srvs sg)) (servernames sg) (gid sg) (connected sg)
  | _ => sg
  end.

(** ** The links of a group

    The end that server [a] uses to reach server [b], and whether it is on. *)

Definition end_name (sg : ServerGrp) (a b : Z) : option string :=
  s ← srvs sg !! Z.to_nat a; es ← endNames s; es !! Z.to_nat b.
Definition linked (sg : ServerGrp) (t : tester) (a b : Z) : bool :=
  match end_name sg a b with Some e => mget false (enabled (net t)) e | None => false end.
Definition is_conn (sg : ServerGrp) (a : Z) : Prop := connected sg !! Z.to_nat a = Some true.

Definition member (sg : ServerGrp) (a : Z) : Prop := 0 ≤ a < N sg.

Record wf (sg : ServerGrp) : Prop := {
  wf_conn : length (connected sg) = length (srvs sg);
  wf_ends s : s ∈ srvs sg → ∃ es, endNames s = Some es ∧ length es = length (srvs sg);
  wf_inj a b a' b' e : member sg a → member sg b → member sg a' → member sg b' →
    end_name sg a b = Some e → end_name sg a' b' = Some e → a = a' ∧ b = b'
}.

Global Instance is_conn_dec sg a : Decision (is_conn sg a).
Proof. unfold is_conn. apply _. Defined.

Lemma elem_of_all sg a : a ∈ all sg ↔ member sg a.
Proof.
  unfold all, member, N. rewrite list_elem_of_fmap. setoid_rewrite elem_of_seq. split.
  - intros (k & -> & ?). lia.
  - intros ?. exists (Z.to_nat a). lia.
Qed.

Lemma slice_get_Some {A} (l : list A) i x : 0 ≤ i → l !! Z.to_nat i = Some x → slice_get l i = Ret x.
Proof. intros Hi Hx. unfold slice_get. by rewrite decide_True, Hx by done. Qed.

Lemma slice_set_Ret {A} (l : list A) i x :
  0 ≤ i < Z.of_nat (length l) → slice_set l i x = Ret (<[Z.to_nat i := x]> l).
Proof. intros Hi. unfold slice_set. by rewrite decide_True. Qed.

Lemma wf_lookup sg a : wf sg → member sg a → ∃ s es, srvs sg !! Z.to_nat a = Some s ∧
  endNames s = Some es ∧ length es = length (srvs sg) ∧ ∀ b, end_name sg a b = es !! Z.to_nat b.
Proof.
  intros Hwf [Ha0 Ha]. unfold N in Ha.
  destruct (lookup_lt_is_Some_2 (srvs sg) (Z.to_nat a)) as [s Hs]; [lia|].
  destruct (wf_ends sg Hwf s) as (es & He & Hl); [by eapply list_elem_of_lookup_2|].
  exists s, es. split_and!; [done..|]. intros b. unfold end_name. rewrite Hs. simpl. by rewrite He.
Qed.

Lemma wf_end sg a b : wf sg → member sg a → member sg b → is_Some (end_name sg a b).
Proof.
  intros Hwf Ha [Hb0 Hb]. unfold N in Hb. destruct (wf_lookup sg a Hwf Ha) as (s & es & _ & _ & Hl & Hn).
  rewrite Hn. apply lookup_lt_is_Some_2. lia.
Qed.

(** Loops that switch ends on or off. *)
Definition enable_all (v : bool) (es : list string) (t : tester) : tester :=
  foldl (λ t e, enable e v t) t es.

Lemma enable_all_fold {A} (f : tester → A → res tester) (g : A → option string) v l t :
  (∀ t x, x ∈ l → f t x = Ret (match g x with Some e => enable e v t | None => t end)) →
  res_fold f t l = Ret (enable_all v (omap g l) t).
Proof.
  revert t. induction l as [|x l IH]; intros t Hf; [done|]. simpl.
  rewrite Hf by set_solver. simpl. rewrite IH by (intros; apply Hf; set_solver).
  by destruct (g x).
Qed.

Lemma enable_all_enabled v es t e :
  mget false (enabled (net (enable_all v es t))) e =
    if decide (e ∈ es) then v else mget false (enabled (net t)) e.
Proof.
  revert t. induction es as [|e' es IH]; intros t; simpl; [done|].
  rewrite IH. simpl. destruct (decide (e = e')) as [->|Hne].
  - rewrite mget_insert_eq. repeat case_decide; set_solver.
  - rewrite mget_insert_ne by done. repeat case_decide; set_solver.
Qed.

(** Only the [enabled] map changes. *)
Definition same_but_enabled (t t' : tester) : Prop :=
  drawn t' = drawn t ∧ (objs t', procs t') = (objs t, procs t) ∧ net t' = set_enabled (enabled (net t')) (net t).

Lemma enable_all_same v es t : same_but_enabled t (enable_all v es t).
Proof.
  revert t. induction es as [|e es IH]; intros t; simpl.
  - split_and!; [done..|]. by destruct t as [[]].
  - destruct (IH (enable e v t)) as (? & ? & Hn). split_and!; [done..|]. by rewrite Hn.
Qed.

Definition set_conn (i : Z) (v : bool) (sg : ServerGrp) : ServerGrp :=
  MkGrp (srvs sg) (servernames sg) (gid sg) (<[Z.to_nat i := v]> (connected sg)).

Lemma wf_set_conn i v sg : wf sg → wf (set_conn i v sg).
Proof. intros [Hc He Hi]. split; [simpl; by rewrite length_insert|done|exact Hi]. Qed.

(** The ends that [connect] and [disconnect] touch. *)
Definition ends_to (i : Z) (js : list Z) (sg : ServerGrp) : list string :=
  omap (λ j, end_name sg i j) js ++ omap (λ j, end_name sg j i) js.

Lemma elem_of_ends_to sg i js a b e :
  wf sg → member sg i → Forall (member sg) js → member sg a → member sg b →
  end_name sg a b = Some e →
  e ∈ ends_to i js sg ↔ (a = i ∧ b ∈ js) ∨ (b = i ∧ a ∈ js).
Proof.
  intros Hwf Hi Hjs Ha Hb He. unfold ends_to. rewrite elem_of_app, !list_elem_of_omap.
  rewrite list.Forall_forall in Hjs. split.
  - intros [(j & Hj & Hje)|(j & Hj & Hje)].
    + left. destruct (wf_inj sg Hwf a b i j e) as [-> ->]; auto.
    + right. destruct (wf_inj sg Hwf a b j i e) as [-> ->]; auto.
  - intros [[-> ?]|[-> ?]]; [left|right]; eauto.
Qed.

Lemma omap_filter {A B} (P : A → Prop) `{∀ x, Decision (P x)} (f : A → option B) (l : list A) :
  omap (λ x, if decide (P x) then f x else None) l = omap f (filter P l).
Proof.
  induction l as [|x l IH]; [done|]. rewrite filter_cons. simpl.
  case_decide; [simpl; destruct (f x); [f_equal|]|]; exact IH.
Qed.

Lemma connect_eq i to sg t :
  wf sg → member sg i → Forall (member sg) to →
  let sg' := set_conn i true sg in
  connect i to sg t =
    Ret (sg', enable_all true (ends_to i (filter (is_conn sg') to) sg) t).
Proof.
  intros Hwf Hi Hto sg'. rewrite list.Forall_forall in Hto.
  assert (wf sg') as Hwf' by by apply wf_set_conn.
  unfold connect. rewrite slice_set_Ret by (rewrite (wf_conn sg Hwf); apply Hi). simpl.
  fold (set_conn i true sg). fold sg'.
  destruct (wf_lookup sg i Hwf Hi) as (s & es & Hs & He & Hl & Hn).
  rewrite (slice_get_Some _ _ s) by (done || apply Hi). simpl.
  assert (∀ j, member sg j → IsConnected j sg' = Ret (bool_decide (is_conn sg' j))) as Hconn.
  { intros j Hj. unfold IsConnected. destruct (lookup_lt_is_Some_2 (connected sg') (Z.to_nat j))
      as [c Hc]. { rewrite (wf_conn sg' Hwf'). unfold member, N in Hj. simpl. lia. }
    rewrite (slice_get_Some _ _ c) by (done || apply Hj). f_equal. symmetry.
    destruct c; [by apply bool_decide_eq_true_2|apply bool_decide_eq_false_2; unfold is_conn; congruence]. }
  unfold srv_connect. rewrite (enable_all_fold _
    (λ j, if decide (is_conn sg' j) then end_name sg i j else None) true).
  2:{ intros t' j Hj%Hto. rewrite Hconn by done. simpl. rewrite <-decide_bool_decide.
      case_decide; [|done]. destruct (wf_end sg i j Hwf Hi Hj) as [e Hej]. rewrite Hej, He. simpl.
      rewrite Hn in Hej. by rewrite (slice_get_Some _ _ e) by (done || apply Hj). }
  cbn [rbind]. rewrite (enable_all_fold _
    (λ j, if decide (is_conn sg' j) then end_name sg j i else None) true).
  2:{ intros t' j Hj%Hto. rewrite Hconn by done. simpl. rewrite <-decide_bool_decide.
      case_decide; [|done]. destruct (wf_lookup sg j Hwf Hj) as (sj & esj & Hsj & Hej & _ & Hnj).
      rewrite (slice_get_Some _ _ sj) by (done || apply Hj). simpl. rewrite Hej. simpl.
      destruct (wf_end sg j i Hwf Hj Hi) as [e Hee]. rewrite Hee. rewrite Hnj in Hee.
      by rewrite (slice_get_Some _ _ e) by (done || apply Hi). }
  cbn [rbind]. unfold enable_all, ends_to. by rewrite foldl_app, !omap_filter.
Qed.

Lemma disconnect_eq i from sg t :
  wf sg → member sg i → Forall (member sg) from →
  disconnect i from sg t = Ret (set_conn i false sg, enable_all false (ends_to i from sg) t).
Proof.
  intros Hwf Hi Hfrom. rewrite list.Forall_forall in Hfrom.
  unfold disconnect. rewrite slice_set_Ret by (rewrite (wf_conn sg Hwf); apply Hi). simpl.
  fold (set_conn i false sg).
  destruct (wf_lookup sg i Hwf Hi) as (s & es & Hs & He & Hl & Hn).
  rewrite (slice_get_Some _ _ s) by (done || apply Hi). simpl.
  unfold srv_disconnect. rewrite He. rewrite (enable_all_fold _ (λ j, end_name sg i j) false).
  2:{ intros t' j Hj%Hfrom. destruct (wf_end sg i j Hwf Hi Hj) as [e Hej]. rewrite Hej.
      rewrite Hn in Hej. by rewrite (slice_get_Some _ _ e) by (done || apply Hj). }
  cbn [rbind]. rewrite (enable_all_fold _ (λ j, end_name sg j i) false).
  2:{ intros t' j Hj%Hfrom. destruct (wf_lookup sg j Hwf Hj) as (sj & esj & Hsj & Hej & _ & Hnj).
      rewrite (slice_get_Some _ _ sj) by (done || apply Hj). simpl. rewrite Hej.
      destruct (wf_end sg j i Hwf Hj Hi) as [e Hee]. rewrite Hee. rewrite Hnj in Hee.
      by rewrite (slice_get_Some _ _ e) by (done || apply Hi). }
  cbn [rbind]. unfold enable_all, ends_to. by rewrite foldl_app.
Qed.

Lemma linked_enable_all sg i js v t a b :
  wf sg → member sg i → Forall (member sg) js → member sg a → member sg b →
  linked sg (enable_all v (ends_to i js sg) t) a b =
    if decide ((a = i ∧ b ∈ js) ∨ (b = i ∧ a ∈ js)) then v else linked sg t a b.
Proof.
  intros Hwf Hi Hjs Ha Hb. unfold linked.
  destruct (wf_end sg a b Hwf Ha Hb) as [e He]. rewrite He, enable_all_enabled.
  pose proof (elem_of_ends_to sg i js a b e Hwf Hi Hjs Ha Hb He) as Hin.
  destruct (decide (e ∈ ends_to i js sg)); destruct (decide (_ ∨ _)); tauto.
Qed.

(** ** One side of a partition *)

(** The links of a group that the steps of Partition read and write. *)
Record view := MkView { v_conn : Z → Prop; v_link : Z → Z → Prop }.
Definition view_of (sg : ServerGrp) (t : tester) : view :=
  MkView (is_conn sg) (λ a b, linked sg t a b = true).

(** Server [i] is cut off from [other] and joined to [me]. *)
Definition moved (i : Z) (me other : list Z) (v v' : view) (mem : Z → Prop) : Prop :=
  (∀ a, mem a → v_conn v' a ↔ (a = i ∨ v_conn v a)) ∧
  (∀ a b, mem a → mem b → v_link v' a b ↔
     (a = i ∧ b ∈ me ∧ v_conn v' b) ∨ (b = i ∧ a ∈ me ∧ v_conn v' a) ∨
     (¬ (a = i ∧ b ∈ other) ∧ ¬ (b = i ∧ a ∈ other) ∧ v_link v a b)).

Lemma is_conn_set_conn sg i v a :
  wf sg → member sg i → member sg a →
  is_conn (set_conn i v sg) a ↔ if decide (a = i) then v = true else is_conn sg a.
Proof.
  intros Hwf Hi Ha. unfold is_conn. simpl. case_decide as Hd.
  - subst. rewrite list_lookup_insert_eq; [naive_solver|]. rewrite (wf_conn sg Hwf).
    unfold member, N in Hi. lia.
  - rewrite list_lookup_insert_ne; [done|]. unfold member in *. lia.
Qed.

Lemma Forall_filter {A} (P Q : A → Prop) `{∀ x, Decision (P x)} (l : list A) :
  Forall Q l → Forall Q (filter P l).
Proof. rewrite !list.Forall_forall. intros HQ x [_ ?]%list_elem_of_filter. auto. Qed.

Lemma partition_step i me other sg t :
  wf sg → member sg i → Forall (member sg) me → Forall (member sg) other →
  ∃ sg' t',
    rbind (disconnect i other sg t) (λ '(sg, t), connect i me sg t) = Ret (sg', t') ∧
    srvs sg' = srvs sg ∧ gid sg' = gid sg ∧ servernames sg' = servernames sg ∧ wf sg' ∧
    same_but_enabled t t' ∧ moved i me other (view_of sg t) (view_of sg' t') (member sg).
Proof.
  intros Hwf Hi Hme Hot. rewrite disconnect_eq by done. simpl.
  assert (wf (set_conn i false sg)) as Hwf1 by by apply wf_set_conn.
  rewrite connect_eq by done.
  set (sg2 := set_conn i true (set_conn i false sg)).
  assert (wf sg2) as Hwf2 by by apply wf_set_conn.
  assert (∀ a, member sg a → is_conn sg2 a ↔ a = i ∨ is_conn sg a) as Hc.
  { intros a Ha. unfold sg2. rewrite is_conn_set_conn by done.
    destruct (decide (a = i)) as [|Hne]; [tauto|]. rewrite is_conn_set_conn by done.
    rewrite decide_False by done. tauto. }
  eexists _, _. split_and!; [done..| |split].
  - destruct (enable_all_same false (ends_to i other sg) t) as (? & ? & H1).
    destruct (enable_all_same true (ends_to i (filter (is_conn sg2) me) (set_conn i false sg))
      (enable_all false (ends_to i other sg) t)) as (? & ? & H2).
    split_and!; [congruence..|]. rewrite H2. by rewrite H1.
  - done.
  - intros a b Ha Hb. unfold view_of. simpl.
    change (linked sg2) with (linked sg).
    change (ends_to i (filter (is_conn sg2) me) (set_conn i false sg))
      with (ends_to i (filter (is_conn sg2) me) sg).
    rewrite !linked_enable_all by (done || by apply Forall_filter).
    assert (∀ x, x ∈ filter (is_conn sg2) me ↔ is_conn sg2 x ∧ x ∈ me) as Hf
      by (intros; apply list_elem_of_filter).
    pose proof (Hf a). pose proof (Hf b). assert (false ≠ true) by done.
    repeat case_decide; tauto.
Qed.

(** A fact that every step of a side establishes for one more server. *)
Lemma partition_fold me other (Q : list Z → view → Prop) todo d sg t :
  wf sg → Forall (member sg) me → Forall (member sg) other → (∀ i, i ∈ todo → i ∈ me) →
  (∀ d i v v', i ∈ me → Q d v → moved i me other v v' (member sg) → Q (i :: d) v') →
  Q d (view_of sg t) →
  ∃ sg' t',
    res_fold (λ '(sg, t) i, let* '(sg, t) := disconnect i other sg t in connect i me sg t)
      (sg, t) todo = Ret (sg', t') ∧
    srvs sg' = srvs sg ∧ gid sg' = gid sg ∧ servernames sg' = servernames sg ∧ wf sg' ∧
    same_but_enabled t t' ∧ Q (rev todo ++ d) (view_of sg' t').
Proof.
  intros Hwf Hme Hot Hsub Hstep. revert d sg t Hwf Hme Hot Hstep.
  induction todo as [|i todo IH]; intros d sg t Hwf Hme Hot Hstep HQ.
  { exists sg, t. split_and!; try done. by destruct t as [[]]. }
  assert (i ∈ me) as Hi by (apply Hsub; by left).
  destruct (partition_step i me other sg t) as (sg1 & t1 & Heq & Hs & Hg & Hn & Hwf1 & Ht & Hmv);
    [done|rewrite list.Forall_forall in Hme; auto|done|done|].
  assert (member sg1 = member sg) as Hmem by (unfold member, N; by rewrite Hs).
  destruct (IH ltac:(set_solver) (i :: d) sg1 t1) as (sg2 & t2 & Heq2 & Hs2 & Hg2 & Hn2 & Hwf2 & Ht2 & HQ2);
    rewrite ?Hmem; try done; [by eapply Hstep|].
  exists sg2, t2. cbn [res_fold]. rewrite Heq. cbn [rbind]. split_and!; try done; try congruence.
  - destruct Ht as (? & ? & H1), Ht2 as (? & ? & H2). split_and!; [congruence..|]. rewrite H2. by rewrite H1.
  - simpl. by rewrite <-(assoc_L (++)).
Qed.

(** The servers [d] are joined to each other and cut off from [other]. *)
Definition sided (other d : list Z) (v : view) : Prop :=
  (∀ a, a ∈ d → v_conn v a) ∧ (∀ a b, a ∈ d → b ∈ d → v_link v a b) ∧
  (∀ a b, a ∈ d → b ∈ other → ¬ v_link v a b ∧ ¬ v_link v b a).

Lemma sided_step i me other d v v' mem :
  me ## other → (∀ a, a ∈ me ∨ a ∈ other → mem a) → (∀ a, a ∈ d → a ∈ me) → i ∈ me →
  sided other d v → moved i me other v v' mem → sided other (i :: d) v'.
Proof.
  intros Hdisj Hmem Hd Hi (Hc & Hl & Hx) (Hc' & Hl').
  assert (∀ a, a ∈ i :: d → a ∈ me) as Hd' by (intros a [->|?]%elem_of_cons; auto).
  assert (∀ a, a ∈ i :: d → v_conn v' a) as Hcon.
  { intros a Ha. apply Hc'; [by auto|]. apply elem_of_cons in Ha as [->|?]; auto. }
  split_and!; [done| |].
  - intros a b Ha Hb. rewrite Hl' by auto. pose proof (Hcon a Ha). pose proof (Hcon b Hb).
    pose proof (Hd' a Ha). pose proof (Hd' b Hb).
    destruct (decide (a = i)); [tauto|]. destruct (decide (b = i)); [tauto|].
    right; right. split_and!; [tauto|tauto|]. apply Hl; set_solver.
  - intros a b Ha Hb. rewrite !Hl' by auto.
    assert (b ∉ me) by (intros ?; by apply (Hdisj b)).
    assert (b ≠ i) by congruence.
    destruct (decide (a = i)) as [->|Hne]; [tauto|].
    destruct (Hx a b) as [? ?]; [set_solver|done|]. tauto.
Qed.

(** The other side is left as it is. *)
Lemma sided_frame i me other v v' mem :
  me ## other → (∀ a, a ∈ me ∨ a ∈ other → mem a) → i ∈ me →
  sided me other v → moved i me other v v' mem → sided me other v'.
Proof.
  intros Hdisj Hmem Hi (Hc & Hl & Hx) (Hc' & Hl').
  assert (∀ a, a ∈ other → a ∉ me ∧ a ≠ i) as Hn by (intros a ?; set_solver).
  split_and!.
  - intros a Ha. apply Hc'; auto.
  - intros a b Ha Hb. rewrite Hl' by auto. right; right.
    pose proof (Hn a Ha). pose proof (Hn b Hb). split_and!; [tauto|tauto|auto].
  - intros a b Ha Hb. rewrite !Hl' by auto. pose proof (Hn a Ha). pose proof (Hx a b Ha Hb). tauto.
Qed.

Lemma sided_perm other d d' v : (∀ a, a ∈ d ↔ a ∈ d') → sided other d v → sided other d' v.
Proof. intros Hd (? & ? & ?). split_and!; intros; naive_solver. Qed.

Lemma Partition_sided p1 p2 sg t :
  wf sg → Forall (member sg) p1 → Forall (member sg) p2 → p1 ## p2 →
  ∃ sg' t', Partition p1 p2 sg t = Ret (sg', t') ∧
    srvs sg' = srvs sg ∧ gid sg' = gid sg ∧ servernames sg' = servernames sg ∧ wf sg' ∧
    same_but_enabled t t' ∧
    sided p2 p1 (view_of sg' t') ∧ sided p1 p2 (view_of sg' t').
Proof.
  intros Hwf Hp1 Hp2 Hdisj. pose proof Hp1 as Hm1. pose proof Hp2 as Hm2.
  rewrite list.Forall_forall in Hm1, Hm2.
  destruct (partition_fold p1 p2 (λ d v, (∀ a, a ∈ d → a ∈ p1) ∧ sided p2 d v) p1 [] sg t)
    as (sg1 & t1 & Heq1 & Hs1 & Hg1 & Hn1 & Hwf1 & Ht1 & [_ HQ1]); try done.
  { intros d i v v' Hi [Hd Hs] Hmv. split; [set_solver|].
    eapply sided_step; [done| |done|done|done|done]. naive_solver. }
  { split; [set_solver|]. split_and!; set_solver. }
  rewrite app_nil_r in HQ1.
  apply (sided_perm _ _ p1) in HQ1; [|intros; by rewrite <-Permutation_rev].
  assert (member sg1 = member sg) as Hmem by (unfold member, N; by rewrite Hs1).
  destruct (partition_fold p2 p1 (λ d v, (∀ a, a ∈ d → a ∈ p2) ∧ sided p1 d v ∧ sided p2 p1 v)
    p2 [] sg1 t1) as (sg2 & t2 & Heq2 & Hs2 & Hg2 & Hn2 & Hwf2 & Ht2 & (_ & HQ2 & HQ3));
    rewrite ?Hmem; try done.
  { intros d i v v' Hi (Hd & Hs & Hf) Hmv. split_and!; [set_solver| |].
    - apply (sided_step i p2 p1 d v v' (member sg)); try done; [set_solver|naive_solver].
    - apply (sided_frame i p2 p1 v v' (member sg)); try done; [set_solver|naive_solver]. }
  { split_and!; [set_solver| |done]. split_and!; set_solver. }
  rewrite app_nil_r in HQ2. apply (sided_perm _ _ p2) in HQ2; [|intros; by rewrite <-Permutation_rev].
  exists sg2, t2. unfold Partition. rewrite Heq1. cbn [rbind]. rewrite Heq2.
  split_and!; try done; try congruence.
  destruct Ht1 as (? & ? & H1), Ht2 as (? & ? & H2). split_and!; [congruence..|]. rewrite H2. by rewrite H1.
Qed.

(** ** MakePartition: arrays filled from the left *)

Definition fill (c : nat) (xs : list Z) : list Z := xs ++ replicate (c - length xs) 0.

Lemma length_fill c xs : (length xs ≤ c)%nat → length (fill c xs) = c.
Proof. intros ?. unfold fill. rewrite length_app, length_replicate. lia. Qed.

Lemma fill_set c xs x :
  (length xs < c)%nat → slice_set (fill c xs) (Z.of_nat (length xs)) x = Ret (fill c (xs ++ [x])).
Proof.
  intros Hlt. rewrite slice_set_Ret by (rewrite length_fill; lia). f_equal.
  unfold fill. rewrite Nat2Z.id, insert_app_r_alt, Nat.sub_diag, length_app by lia. simpl.
  replace (c - length xs)%nat with (S (c - (length xs + 1))) by lia.
  simpl. by rewrite <-(assoc_L (++)).
Qed.

Lemma MakePartition_loop l c1 c2 zs ys :
  (length ys + length (filter (.≠ l) zs) ≤ c1 + c2)%nat →
  res_fold (λ '(p1, p2, j) i,
    if decide (i = l) then Ret (p1, p2, j)
    else if decide (j < Z.of_nat (length p1)) then
      let* p1 := slice_set p1 j i in Ret (p1, p2, j + 1)
    else
      let* p2 := slice_set p2 (j - Z.of_nat (length p1)) i in Ret (p1, p2, j + 1))
    (fill c1 (take c1 ys), fill c2 (drop c1 ys), Z.of_nat (length ys)) zs =
  let us := ys ++ filter (.≠ l) zs in
  Ret (fill c1 (take c1 us), fill c2 (drop c1 us), Z.of_nat (length us)).
Proof.
  cbv zeta. revert ys. induction zs as [|z zs IH]; intros ys Hlen.
  { simpl. rewrite filter_nil, app_nil_r. done. }
  cbn [res_fold]. destruct (decide (z = l)) as [->|Hz].
  { rewrite filter_cons_False in * by auto. cbn [rbind]. by apply IH. }
  rewrite filter_cons_True in * by done. simpl in Hlen. rewrite (length_fill c1) by (rewrite length_take; lia).
  assert (length (ys ++ [z]) = S (length ys)) as Hl by (rewrite length_app; simpl; lia).
  specialize (IH (ys ++ [z]) ltac:(lia)). rewrite <-(assoc_L (++)) in IH.
  simpl in IH. rewrite <-IH. rewrite Hl.
  case_decide as Hj.
  - rewrite (take_ge ys), (drop_ge ys) by lia. rewrite fill_set by lia. cbn [rbind].
    rewrite (take_ge (ys ++ [z])), (drop_ge (ys ++ [z])) by lia. do 2 f_equal. lia.
  - rewrite !take_app_le, !drop_app_le by lia.
    replace (Z.of_nat (length ys) - Z.of_nat c1) with (Z.of_nat (length (drop c1 ys)))
      by (rewrite length_drop; lia).
    rewrite fill_set by (rewrite length_drop; lia). cbn [rbind]. do 2 f_equal. lia.
Qed.

Lemma length_all sg : length (all sg) = length (srvs sg).
Proof. unfold all. by rewrite length_fmap, length_seq. Qed.

(** The servers other than [l], and [l]. *)
Lemma others_perm l sg : member sg l → filter (.≠ l) (all sg) ++ [l] ≡ₚ all sg.
Proof.
  intros Hl. rewrite <-(filter_app_complement (.≠ l) (all sg)) at 2.
  apply Permutation_app; [done|]. apply elem_of_all in Hl.
  assert (NoDup (all sg)) as Hnd by (apply (NoDup_fmap_2 Z.of_nat), NoDup_seq).
  symmetry. apply NoDup_Permutation.
  - by apply list.NoDup_filter.
  - apply NoDup_singleton.
  - intros x. rewrite list_elem_of_filter, list_elem_of_singleton.
    destruct (decide (x = l)) as [->|]; tauto.
Qed.

(** What MakePartition computes, for any size of the group. *)
Lemma MakePartition_eq l sg :
  2 ≤ N sg → member sg l →
  let k := Z.to_nat (N sg `quot` 2) in
  let others := filter (.≠ l) (all sg) in
  MakePartition l sg =
    Ret (fill (S k) (take (S k) others),
         <[(k - 1)%nat := l]> (fill k (drop (S k) others))).
Proof.
  intros Hn Hl k others. unfold MakePartition.
  assert (N sg = 2 * (N sg `quot` 2) + Z.rem (N sg) 2) by (apply Z.quot_rem; lia).
  assert (0 ≤ Z.rem (N sg) 2 < 2) by (apply Z.rem_bound_pos; lia).
  assert (Z.to_nat (N sg `quot` 2 + 1) = S k) as -> by (unfold k; lia). fold k.
  assert ((1 ≤ k)%nat) as Hk1 by (unfold k; lia).
  assert (length others + 1 = length (all sg))%nat as Hlen.
  { rewrite <-(others_perm l sg Hl), length_app. done. }
  assert (length (all sg) = Z.to_nat (N sg)) as Hall
    by (rewrite length_all; unfold N; lia).
  pose proof (MakePartition_loop l (S k) k (all sg) []) as Hloop. cbv zeta in Hloop.
  unfold fill in Hloop at 1 2. rewrite take_nil, drop_nil in Hloop. simpl length in Hloop.
  rewrite !Nat.sub_0_r in Hloop. cbn [app] in Hloop. change (Z.of_nat 0) with 0 in Hloop. fold others in Hloop.
  rewrite Hloop by (unfold k in *; lia). cbn [rbind].
  rewrite length_fill by (rewrite length_drop; unfold k in *; lia).
  rewrite slice_set_Ret by (rewrite length_fill; [lia|rewrite length_drop; unfold k in *; lia]).
  cbn [rbind]. do 3 f_equal. lia.
Qed.

Lemma fill_full c xs : length xs = c → fill c xs = xs.
Proof. intros <-. unfold fill. by rewrite Nat.sub_diag, app_nil_r. Qed.

Lemma fill_last c xs x : S (length xs) = c → <[(c - 1)%nat := x]> (fill c xs) = xs ++ [x].
Proof.
  intros <-. unfold fill. replace (S (length xs) - length xs)%nat with 1%nat by lia. simpl.
  rewrite Nat.sub_0_r. rewrite insert_app_r_alt, Nat.sub_diag by lia. done.
Qed.

End Group.
