(* ===== verification/GroupStart.v ===== *)
(** * Starting and stopping servers: lemmas (tester1/group.go, srv.go)

    Every start of a server makes a fresh set of ends.  Their names are random
    strings; here they are the values of an injective function at the positions
    drawn so far, so that a new name differs from every name in use. *)

From S2P Require Import Prelude LabRpc Group.
Import LabRpc Group.

Module GroupStart.

Section fresh.
Context (rand : nat → string).

(** Every end of the network, and every end of the group, has a name drawn so far. *)
Definition drawn_name (t : tester) (e : string) : Prop := ∃ k, (k < drawn t)%nat ∧ e = rand k.
Definition tester_ok (t : tester) : Prop := ∀ e, e ∈ ends (net t) → drawn_name t e.
Definition names_ok (sg : ServerGrp) (t : tester) : Prop :=
  ∀ a b e, member sg a → member sg b → end_name sg a b = Some e → drawn_name t e.

(** What makeServer does to the network: [k] new ends, off, connected to the
    servers [j], [j]+1, ...; everything else is as before. *)
Record made (gid j : Z) (k : nat) (t t' : tester) : Prop := {
  md_drawn : drawn t' = (drawn t + k)%nat;
  md_procs : procs t' = procs t;
  md_objs : objs t' = objs t;
  md_servers : servers (net t') = servers (net t);
  md_ends e : e ∈ ends (net t) → e ∈ ends (net t');
  md_done : done (net t') = done (net t);
  md_old e : drawn_name t e → enabled (net t') !! e = enabled (net t) !! e ∧
    connections (net t') !! e = connections (net t) !! e;
  md_new i : (i < k)%nat → enabled (net t') !! rand (drawn t + i) = Some false ∧
    connections (net t') !! rand (drawn t + i) = Some (Some (ServerName gid (j + Z.of_nat i)))
}.

Context `{!Inj (=) (=) rand}.

Lemma rand_fresh t k : (drawn t ≤ k)%nat → ¬ drawn_name t (rand k).
Proof. intros Hk (k' & Hlt & ->%(inj rand)). lia. Qed.

Lemma drawn_name_mono t t' e : (drawn t ≤ drawn t')%nat → drawn_name t e → drawn_name t' e.
Proof. intros Hle (k & ? & ->). exists k. split; [lia|done]. Qed.

Lemma makeServer_loop_spec gid j k t :
  tester_ok t →
  ∃ t', makeServer_loop rand gid j k t = Ret (rand <$> seq (drawn t) k, t') ∧
    tester_ok t' ∧ made gid j k t t'.
Proof.
  revert j t. induction k as [|k IH]; intros j t Ht.
  { exists t. split_and!; [done|done|]. split; try done; lia. }
  cbn [makeServer_loop Randstring net]. unfold MakeEnd.
  rewrite bool_decide_false by (intros He; by apply (rand_fresh t (drawn t) ltac:(lia)), Ht).
  cbn [rbind].
  set (t1 := set_net (Connect (rand (drawn t)) (ServerName gid j) _) _).
  assert (drawn_name t1 (rand (drawn t))) as H1 by (exists (drawn t); simpl; split; [lia|done]).
  assert (∀ e, drawn_name t e → drawn_name t1 e) as Hsub
    by (intros e; apply drawn_name_mono; simpl; lia).
  destruct (IH (j + 1) t1) as (t' & Heq & Ht' & [Hd Hpr Ho Hs Hke Hdn Hold Hnew]).
  { intros e. simpl. rewrite elem_of_union, elem_of_singleton. intros [->|He]; auto. }
  exists t'. rewrite Heq. cbn [rbind]. split_and!; [done|done|]. simpl in *.
  split; [lia|done|done|done|intros e He; apply Hke; set_solver|done| |].
  - intros e He. destruct (Hold e (Hsub e He)) as [-> ->].
    assert (rand (drawn t) ≠ e) by (intros <-; by apply (rand_fresh t (drawn t) ltac:(lia))).
    by rewrite !lookup_insert_ne.
  - intros [|i] Hi.
    + rewrite Nat.add_0_r. destruct (Hold _ H1) as [-> ->].
      rewrite !lookup_insert_eq. split; [done|]. do 3 f_equal. lia.
    + destruct (Hnew i) as [Hn1 Hn2]; [lia|].
      replace (drawn t + S i)%nat with (S (drawn t + i)) by lia. rewrite Hn1, Hn2.
      split; [done|]. do 3 f_equal. lia.
Qed.

(** The group with server [i] replaced. *)
Definition with_srv (i : Z) (s : Server) (sg : ServerGrp) : ServerGrp :=
  MkGrp (<[Z.to_nat i := s]> (srvs sg)) (servernames sg) (gid sg) (connected sg).

Lemma member_with_srv i s sg a : member (with_srv i s sg) a ↔ member sg a.
Proof. unfold member, N. simpl. by rewrite length_insert. Qed.

Lemma end_name_with_srv i s sg a b :
  member sg i → member sg a →
  end_name (with_srv i s sg) a b =
    if decide (a = i) then (endNames s ≫= λ es, es !! Z.to_nat b) else end_name sg a b.
Proof.
  intros Hi Ha. unfold end_name, with_srv. simpl. unfold member, N in *. case_decide as Hd.
  - subst. rewrite list_lookup_insert_eq by lia. done.
  - rewrite list_lookup_insert_ne by lia. done.
Qed.

Lemma wf_with_srv i s sg es :
  wf sg → member sg i → endNames s = Some es → length es = length (srvs sg) →
  (∀ b b' e, es !! b = Some e → es !! b' = Some e → b = b') →
  (∀ a b e, a ≠ i → member sg a → member sg b → end_name sg a b = Some e → e ∉ es) →
  wf (with_srv i s sg).
Proof.
  intros Hwf Hi Hes Hlen Hinj Hnew. split.
  - simpl. rewrite length_insert. apply (wf_conn sg Hwf).
  - intros s' Hs'. simpl in *. rewrite length_insert.
    apply list_elem_of_lookup in Hs' as [k Hk].
    apply list_lookup_insert_Some in Hk as [(_ & -> & _)|[_ Hk]]; [by exists es|].
    by eapply (wf_ends sg Hwf), list_elem_of_lookup_2.
  - intros a b a' b' e. rewrite !member_with_srv. intros Ha Hb Ha' Hb'.
    rewrite !end_name_with_srv, Hes by done. simpl.
    assert (∀ b e, es !! b = Some e → e ∈ es) as Hin by (intros; by eapply list_elem_of_lookup_2).
    repeat case_decide; subst.
    + intros H1 H2. split; [done|]. pose proof (Hinj _ _ _ H1 H2). unfold member in *. lia.
    + intros H1 H2. destruct (Hnew a' b' e); eauto.
    + intros H1 H2. destruct (Hnew a b e); eauto.
    + by apply (wf_inj sg Hwf).
Qed.

(** The end names of a fresh server. *)
Lemma fresh_names_inj t n b b' e :
  (rand <$> seq (drawn t) n) !! b = Some e → (rand <$> seq (drawn t) n) !! b' = Some e → b = b'.
Proof.
  rewrite !list_lookup_fmap_Some.
  intros (x & -> & Hx%lookup_seq) (y & Heq%(inj rand) & Hy%lookup_seq). lia.
Qed.

Lemma fresh_names_new t n e : drawn_name t e → e ∉ rand <$> seq (drawn t) n.
Proof.
  intros He (k & -> & Hk%elem_of_seq)%list_elem_of_fmap. apply rand_fresh in He; [done|lia].
Qed.

(** A server that is started holds the state that was saved. *)
Definition started (im : image) (t : tester) (n : nat) : Server :=
  MkServer (Some im) (Some (rand <$> seq (drawn t) n)) (Some (Some im)).

(** Nothing but the registered servers and the ends with new names has changed. *)
Record kept (t t' : tester) : Prop := {
  k_drawn : (drawn t ≤ drawn t')%nat;
  k_connections e : drawn_name t e → connections (net t') !! e = connections (net t) !! e;
  k_enabled e : drawn_name t e → enabled (net t') !! e = enabled (net t) !! e;
  k_ends e : e ∈ ends (net t) → e ∈ ends (net t');
  k_done : done (net t') = done (net t)
}.

(** The ends of server [a] lead to the servers of the group. *)
Definition row_routed (sg : ServerGrp) (t : tester) (a : Z) : Prop :=
  ∀ b, member sg b → ∃ e, end_name sg a b = Some e ∧
    connections (net t) !! e = Some (Some (ServerName (gid sg) b)).

Lemma StartServer_spec ev i sg t s :
  wf sg → names_ok sg t → tester_ok t → member sg i → srvs sg !! Z.to_nat i = Some s →
  e_start ev = true → e_init ev = true →
  let im := default no_image (saved s) in
  ∃ t', let sg' := with_srv i (started im t (length (srvs sg))) sg in
    StartServer rand ev i sg t = Ret (sg', t', true) ∧
    wf sg' ∧ names_ok sg' t' ∧ tester_ok t' ∧
    (objs t' = S (objs t) ∧ procs t' = (gid sg, i) :: procs t) ∧
    servers (net t') = <[ServerName (gid sg) i := Some (objs t)]> (servers (net t)) ∧
    kept t t' ∧ row_routed sg' t' i ∧
    ∀ a b, member sg a → member sg b →
      linked sg' t' a b = if decide (a = i) then false else linked sg t a b.
Proof.
  intros Hwf Hn Ht Hi Hs Hst Hin im. set (n := length (srvs sg)).
  destruct (wf_lookup sg i Hwf Hi) as (s' & es & Hs' & Hes & Hel & _). simplify_eq.
  destruct (makeServer_loop_spec (gid sg) 0 n t Ht) as (t1 & Heq & Ht1 & [Hd Hpr Ho Hsv Hke Hdn Hold Hnew]).
  exists (MkTester (AddServer (ServerName (gid sg) i) (objs t1) (net t1)) (drawn t1) (S (objs t1)) ((gid sg, i) :: procs t1)).
  assert (wf (with_srv i (started im t n) sg)) as Hwf'.
  { eapply wf_with_srv; [done|done|done|by rewrite length_fmap, length_seq|apply fresh_names_inj|].
    intros a b e Hne Ha Hb He. apply fresh_names_new. by apply (Hn a b). }
  split_and!; [|done| |done| | | | | |].
  - unfold StartServer. rewrite (slice_get_Some _ _ s) by (done || apply Hi). cbn [rbind].
    unfold startServer, makeServer. rewrite Hes. simpl default. rewrite Hel. fold n. rewrite Heq.
    cbn [rbind endNames saved]. fold im. unfold runDaemon, dc_init. rewrite Hst, Hin.
    rewrite slice_set_Ret by apply Hi. cbn [rbind saved endNames].
    rewrite slice_set_Ret by (rewrite length_insert; apply Hi). cbn [rbind].
    rewrite list_insert_insert_eq. done.
  - intros a b e. rewrite !member_with_srv. intros Ha Hb. rewrite end_name_with_srv by done.
    simpl. case_decide.
    + intros (k & -> & ?%lookup_seq)%list_lookup_fmap_Some. exists k. simpl. split; [lia|done].
    + intros He. apply (drawn_name_mono t); [simpl; lia|]. by apply (Hn a b).
  - simpl. lia.
  - simpl. congruence.
  - simpl. by rewrite Hsv, Ho.
  - split; simpl; [lia|by intros e [_ ?]%Hold|by intros e [? _]%Hold|by apply Hke|done].
  - intros b Hb. rewrite member_with_srv in Hb. rewrite end_name_with_srv by done.
    rewrite decide_True by done. simpl. unfold member, N in Hb.
    exists (rand (drawn t + Z.to_nat b)). split.
    + rewrite list_lookup_fmap, lookup_seq_lt by (unfold n; lia). done.
    + destruct (Hnew (Z.to_nat b)) as [_ ->]; [unfold n; lia|]. do 3 f_equal. lia.
  - intros a b Ha Hb. unfold linked. rewrite end_name_with_srv by done. simpl. case_decide.
    + destruct (_ !! Z.to_nat b) as [e|] eqn:He; [|done].
      apply list_lookup_fmap_Some in He as (k & -> & [-> Hk]%lookup_seq).
      unfold mget. destruct (Hnew (Z.to_nat b)) as [-> _]; [lia|]. done.
    + destruct (end_name sg a b) as [e|] eqn:He; [|done]. unfold mget.
      destruct (Hold e) as [-> _]; [by apply (Hn a b)|done].
Qed.
(** A server that is shut down: its daemon is gone, its state is saved. *)
Definition stopped (im : image) (s : Server) : Server := MkServer (Some im) (endNames s) None.

(** What shutting a server down does to the rest; [s'] is what becomes of it. *)
Lemma ShutdownServer_gen ev i sg t s s' :
  wf sg → member sg i → srvs sg !! Z.to_nat i = Some s →
  shutdownServer ev s = Ret s' → endNames s' = endNames s →
  ∃ t', let sg' := with_srv i s' (set_conn i false sg) in
    ShutdownServer ev i sg t = Ret (sg', t') ∧ wf sg' ∧
    drawn t' = drawn t ∧
    (objs t' = objs t ∧ procs t' = if dc s then drop_proc (gid sg, i) (procs t) else procs t) ∧
    ends (net t') = ends (net t) ∧ connections (net t') = connections (net t) ∧ done (net t') = done (net t) ∧
    servers (net t') = <[ServerName (gid sg) i := None]> (servers (net t)) ∧
    ∀ a b, member sg a → member sg b → end_name sg' a b = end_name sg a b ∧
      linked sg' t' a b = if decide (a = i ∨ b = i) then false else linked sg t a b.
Proof.
  intros Hwf Hi Hs Hsh Hen.
  destruct (wf_lookup sg i Hwf Hi) as (s0 & es & Hs0 & Hes & Hel & Hn). simplify_eq.
  assert (Forall (member sg) (all sg)) as Hall
    by (apply list.Forall_forall; intros a; by rewrite elem_of_all).
  set (t1 := enable_all false (ends_to i (all sg) sg) t).
  set (t2 := set_net (DeleteServer (ServerName (gid sg) i) (net t1)) t1).
  exists (match dc s with Some _ => set_procs (drop_proc (gid sg, i) (procs t2)) t2 | None => t2 end).
  destruct (enable_all_same false (ends_to i (all sg) sg) t) as (Hd & Hop & Hnet). fold t1 in Hd, Hop, Hnet.
  injection Hop as Ho Hpr.
  assert (∀ o : option daemon, let t3 := match o with Some _ => set_procs (drop_proc (gid sg, i) (procs t2)) t2 | None => t2 end in
    net t3 = net t2 ∧ drawn t3 = drawn t ∧ objs t3 = objs t ∧
    procs t3 = if o then drop_proc (gid sg, i) (procs t) else procs t) as Hstop.
  { intros [d|]; simpl; by rewrite ?Hpr. }
  destruct (Hstop (dc s)) as (Hn3 & Hd3 & Ho3 & Hp3).
  assert (∀ a b, member sg a → end_name (with_srv i s' (set_conn i false sg)) a b =
    end_name sg a b) as Hend.
  { intros a b Ha. rewrite end_name_with_srv, Hen, Hes by done. simpl. case_decide; [|done].
    subst. by rewrite Hn. }
  split_and!; [| |done|done|done|rewrite Hn3; unfold t2; simpl; by rewrite Hnet..|].
  - unfold ShutdownServer. rewrite disconnect_eq by done. cbn [rbind].
    rewrite (slice_get_Some _ _ s) by (done || apply Hi). cbn [rbind].
    rewrite Hsh. cbn [rbind]. rewrite slice_set_Ret by apply Hi. done.
  - split.
    + simpl. rewrite !length_insert. apply (wf_conn sg Hwf).
    + intros x Hx. simpl in *. rewrite length_insert. apply list_elem_of_lookup in Hx as [k Hk'].
      apply list_lookup_insert_Some in Hk' as [(_ & <- & _)|[_ Hk']]; [exists es; by rewrite Hen|].
      by eapply (wf_ends sg Hwf), list_elem_of_lookup_2.
    + intros a b a' b' e. rewrite !member_with_srv. intros Ha Hb Ha' Hb'.
      rewrite !Hend by done. by apply (wf_inj sg Hwf).
  - intros a b Ha Hb. split; [by apply Hend|]. unfold linked at 1. rewrite Hend, Hn3 by done. simpl.
    change (match end_name sg a b with Some e => mget false (enabled (net t1)) e | None => false end)
      with (linked sg t1 a b).
    pose proof (elem_of_all sg a). pose proof (elem_of_all sg b).
    unfold t1. rewrite linked_enable_all by done. repeat case_decide; tauto.
Qed.

Lemma ShutdownServer_spec ev i sg t s im :
  wf sg → member sg i → srvs sg !! Z.to_nat i = Some s → dc s = Some (Some im) →
  e_checkpoint ev = true → e_kill ev = true →
  ∃ t', let sg' := with_srv i (stopped im s) (set_conn i false sg) in
    ShutdownServer ev i sg t = Ret (sg', t') ∧ wf sg' ∧
    drawn t' = drawn t ∧ (objs t' = objs t ∧ procs t' = drop_proc (gid sg, i) (procs t)) ∧
    ends (net t') = ends (net t) ∧ servers (net t') = <[ServerName (gid sg) i := None]> (servers (net t)) ∧
    ∀ a b, member sg a → member sg b →
      linked sg' t' a b = if decide (a = i ∨ b = i) then false else linked sg t a b.
Proof.
  intros Hwf Hi Hs Hdc Hck Hk.
  destruct (ShutdownServer_gen ev i sg t s (stopped im s)) as
    (t' & Heq & Hwf' & Hd & Ho & He & _ & _ & Hsv & Hl); [done..| |done|].
  { unfold shutdownServer, checkpointPersister, kill. by rewrite Hdc, Hck, Hk. }
  rewrite Hdc in Ho. exists t'. split_and!; try done; [apply Ho..|]. intros a b Ha Hb. by apply Hl.
Qed.

(** A new group: every server has its own ends, none is started or connected. *)
Lemma makeSrvs_spec gid n k t :
  tester_ok t →
  ∃ t', makeSrvs rand gid n k t =
      Ret ((λ i, MkServer None (Some (rand <$> seq (drawn t + i * n) n)) None) <$> seq 0 k, t') ∧
    tester_ok t' ∧ drawn t' = (drawn t + k * n)%nat ∧
    (objs t' = objs t ∧ procs t' = procs t) ∧
    servers (net t') = servers (net t) ∧ kept t t'.
Proof.
  revert t. induction k as [|k IH]; intros t Ht.
  { exists t. split_and!; [done|done|lia|done|done|done|by split]. }
  cbn [makeSrvs]. unfold makeServer.
  destruct (makeServer_loop_spec gid 0 n t Ht) as (t1 & Heq & Ht1 & [Hd Hpr Ho Hsv Hke Hdn Hold _]).
  rewrite Heq. cbn [rbind]. destruct (IH t1 Ht1) as (t2 & Heq2 & Ht2 & Hd2 & [Ho2 Hp2] & Hs2 & Hk2).
  rewrite Heq2. cbn [rbind]. exists t2. split_and!; [|done|lia|congruence..|].
  2:{ destruct Hk2 as [Hkd Hkc Hke2 Hkn Hkz]. split; [lia| | |auto|congruence]; intros e He;
      [rewrite Hkc|rewrite Hke2]; try (apply (drawn_name_mono t); [lia|done]); by apply Hold. }
  do 2 f_equal. rewrite <-!cons_seq, fmap_cons, <-fmap_S_seq, <-list_fmap_compose. f_equal.
  - do 3 f_equal. f_equal. lia.
  - apply list_fmap_ext. intros _ i _. simpl. do 3 f_equal. f_equal. lia.
Qed.

Lemma makeSrvGrp_spec gid n t :
  tester_ok t → ∃ sg t', makeSrvGrp rand gid n t = Ret (sg, t') ∧
    wf sg ∧ names_ok sg t' ∧ tester_ok t' ∧ N sg = Z.of_nat n ∧
    (∀ a, member sg a → ¬ is_conn sg a) ∧
    Group.gid sg = gid ∧ Forall (λ s, saved s = None ∧ dc s = None) (srvs sg) ∧
    (servers (net t') = servers (net t) ∧ procs t' = procs t) ∧ kept t t' ∧
    (∀ a b e, member sg a → member sg b → end_name sg a b = Some e → ¬ drawn_name t e).
Proof.
  intros Ht. destruct (makeSrvs_spec gid n n t Ht) as (t' & Heq & Ht' & Hd & [Ho Hpr] & Hsv & Hkept).
  unfold makeSrvGrp. rewrite Heq. cbn [rbind]. eexists _, t'. split; [done|].
  set (ss := (λ i, MkServer None (Some (rand <$> seq (drawn t + i * n) n)) None) <$> seq 0 n).
  assert (length ss = n) as Hlen by (unfold ss; by rewrite length_fmap, length_seq).
  assert (∀ nm c a b e, 0 ≤ a → end_name (MkGrp ss nm gid c) a b = Some e →
    e = rand (drawn t + Z.to_nat a * n + Z.to_nat b) ∧ (Z.to_nat a < n)%nat ∧ (Z.to_nat b < n)%nat) as Hen.
  { intros nm c a b e Ha. unfold end_name. simpl. rewrite bind_Some.
    intros (s & Hs & He). unfold ss in Hs. apply list_lookup_fmap_Some in Hs as (k & -> & [-> Hk]%lookup_seq).
    simpl in He. apply list_lookup_fmap_Some in He as (m & -> & [-> Hm]%lookup_seq). done. }
  split_and!.
  - split.
    + simpl. by rewrite length_replicate.
    + simpl. intros s Hs. unfold ss in Hs. apply list_elem_of_fmap in Hs as (k & -> & _).
      eexists. split; [done|]. by rewrite length_fmap, length_seq.
    + intros a b a' b' e [Ha _] [Hb _] [Ha' _] [Hb' _] H1 H2.
      apply Hen in H1 as (-> & ? & ?); [|done].
      apply Hen in H2 as (Heq2%(inj rand) & ? & ?); [|done].
      assert (Z.to_nat a = Z.to_nat a') by nia. assert (Z.to_nat b = Z.to_nat b') by nia. lia.
  - intros a b e [Ha _] _ (-> & ? & ?)%Hen; [|done]. eexists. split; [|done]. nia.
  - done.
  - unfold N. simpl. by rewrite Hlen.
  - intros a _. unfold is_conn. simpl. intros [? _]%lookup_replicate. done.
  - done.
  - apply list.Forall_forall. intros s (k & -> & _)%list_elem_of_fmap. done.
  - done.
  - done.
  - done.
  - intros a b e [Ha _] _ (-> & ? & ?)%Hen; [|done]. apply rand_fresh. lia.
Qed.
End fresh.

End GroupStart.
