(* ===== verification/GroupSpec.v ===== *)
(** * Properties of persisters and server groups (tester1)

    What is saved stays as it was saved; a partition separates the two sides and
    nothing else; MakePartition puts the leader in the minority for odd groups; a
    server that is shut down is cut off, and restarted it has its saved state. *)

From stdpp Require Import pretty.
From S2P Require Import Prelude LabRpc Persister Group GroupStart.
Import LabRpc Group GroupStart.

(** ** Persister *)

(** C22. What was saved is isolated: after Save(raftstate, snapshot), whatever the
    rest of the program writes into the buffers it holds (those it passed to Save,
    those it allocates, and those that ReadRaftState and ReadSnapshot return to it), a
    later Checkpoint, ReadRaftState or ReadSnapshot still has the bytes that were saved. *)
Theorem Save_isolated rs sn ps s pub y :
  Persister.store_ok s → (∀ a, a ∈ pub → (a < Persister.next s)%nat) → Persister.below s sn →
  let '(ps', s') := Persister.Save rs sn ps s in
  rtc (Persister.others ps') (pub, s') y →
  (let '(np, s2) := Persister.Checkpoint ps' y.2 in
   Persister.contents s2 (Persister.raftstate np) = Persister.contents s rs ∧
   Persister.contents s2 (Persister.snapshot np) = Persister.contents s sn) ∧
  (let '(x, s2) := Persister.ReadRaftState ps' y.2 in
   Persister.contents s2 x = Persister.contents s rs) ∧
  (let '(x, s2) := Persister.ReadSnapshot ps' y.2 in
   Persister.contents s2 x = Persister.contents s sn).
Proof.
  intros Hs Hp Hsn. pose proof (Persister.Save_private rs sn ps s pub Hs Hp Hsn) as Hsave.
  destruct (Persister.Save rs sn ps s) as [ps' s']. destruct Hsave as (Hpriv & Hr & Hn).
  intros Ho. destruct (Persister.rtc_others_private ps' _ y Ho Hpriv) as (Hpriv' & Hr' & Hn').
  simpl in Hr', Hn'. destruct (Persister.read_contents ps' y.2) as [HR HN]. split_and!.
  - pose proof (Persister.Checkpoint_contents ps' y.2) as Hck.
    destruct (Persister.Checkpoint ps' y.2) as [np s2].
    destruct Hck as [-> ->]; [apply Hpriv'|]. by rewrite Hr', Hn', Hr, Hn.
  - destruct (Persister.ReadRaftState ps' y.2) as [x s2]. congruence.
  - destruct (Persister.ReadSnapshot ps' y.2) as [x s2]. congruence.
Qed.

(** A server saves its buffer at address 0, reads its state back, and then overwrites
    both its buffer and what it has read. *)
Definition one_buf : Persister.store := Persister.MkStore {[0%nat := ["a"%byte]]} 1.

Lemma Save_isolated_witness :
  let '(ps', s') := Persister.Save (Some 0%nat) None Persister.MakePersister one_buf in
  let '(x, s1) := Persister.ReadRaftState ps' s' in
  let '(np, s2) := Persister.Checkpoint ps'
    (Persister.scribble 3 ["c"%byte] (Persister.scribble 0 ["b"%byte] s1)) in
  x = Some 3%nat ∧ Persister.contents s2 (Persister.raftstate np) = ["a"%byte].
Proof.
  pose proof (Save_isolated (Some 0%nat) None Persister.MakePersister one_buf {[0%nat]}
    ({[3%nat; 0%nat]}, Persister.scribble 3 ["c"%byte] (Persister.scribble 0 ["b"%byte]
      (Persister.ReadRaftState (Persister.MkPersister (Some 1%nat) (Some 2%nat))
        (Persister.Save (Some 0%nat) None Persister.MakePersister one_buf).2).2))) as H.
  split; [reflexivity|]. apply H.
  - intros a Ha. simpl in Ha. unfold one_buf. simpl. rewrite lookup_singleton_ne; [done|lia].
  - intros a ->%elem_of_singleton. simpl. lia.
  - done.
  - eapply rtc_l; [eapply Persister.o_readraft; reflexivity|].
    eapply rtc_l; [apply (Persister.o_write _ _ 0); set_solver|].
    apply rtc_once, Persister.o_write. set_solver.
Defined.

(** ** Concrete groups *)

Definition decimal (n : nat) : string := pretty (N.of_nat n).
#[local] Instance decimal_inj : Inj (=) (=) decimal.
Proof. intros x y. unfold decimal. intros H%(inj pretty). by apply Nat2N.inj. Qed.

Definition t0 : tester := MkTester MakeNetwork 0 0 [].
Lemma t0_ok : tester_ok decimal t0.
Proof. intros e He. simpl in He. set_solver. Qed.

Definition new_group (n : nat) : ServerGrp * tester :=
  match makeSrvGrp decimal 0 n t0 with Ret x => x | Stop _ => (MkGrp [] [] 0 [], t0) end.

Lemma new_group_ok n :
  wf (new_group n).1 ∧ names_ok decimal (new_group n).1 (new_group n).2 ∧
  tester_ok decimal (new_group n).2 ∧ Group.N (new_group n).1 = Z.of_nat n.
Proof.
  unfold new_group. destruct (makeSrvGrp_spec decimal 0 n t0 t0_ok) as (sg & t' & -> & ?). naive_solver.
Qed.

Lemma new_group_members n l :
  Forall (λ a, 0 ≤ a < Z.of_nat n) l → Forall (member (new_group n).1) l.
Proof.
  unfold member. destruct (new_group_ok n) as (_ & _ & _ & ->). done.
Qed.

(** ** Partitions *)

(** A partition separates: for any two disjoint lists of servers, whatever the
    links were before, Partition returns, everyone listed is connected, a server
    reaches another one exactly when both are on the same side, and apart from
    which ends are enabled the network does not change. *)
Theorem Partition_separates p1 p2 sg t :
  wf sg → Forall (member sg) p1 → Forall (member sg) p2 → p1 ## p2 →
  ∃ sg' t', Partition p1 p2 sg t = Ret (sg', t') ∧ wf sg' ∧ same_but_enabled t t' ∧
    (∀ a, a ∈ p1 ++ p2 → is_conn sg' a) ∧
    (∀ a b, a ∈ p1 ++ p2 → b ∈ p1 ++ p2 → linked sg' t' a b = true ↔ (a ∈ p1 ↔ b ∈ p1)).
Proof.
  intros Hwf H1 H2 Hd.
  destruct (Partition_sided p1 p2 sg t Hwf H1 H2 Hd) as
    (sg' & t' & Heq & _ & _ & _ & Hwf' & Ht & (Hc1 & Hl1 & Hx1) & (Hc2 & Hl2 & Hx2)).
  exists sg', t'. split_and!; [done..| |].
  - intros a [?|?]%elem_of_app; [by apply Hc1|by apply Hc2].
  - simpl in *. intros a b [Ha|Ha]%elem_of_app [Hb|Hb]%elem_of_app.
    + specialize (Hl1 a b Ha Hb). tauto.
    + destruct (Hx1 a b Ha Hb) as [? _]. assert (b ∉ p1) by set_solver. tauto.
    + destruct (Hx2 a b Ha Hb) as [? _]. assert (a ∉ p1) by set_solver. tauto.
    + specialize (Hl2 a b Ha Hb). assert (a ∉ p1) by set_solver. assert (b ∉ p1) by set_solver. tauto.
Qed.

Lemma Partition_separates_witness :
  ∃ sg' t', Partition [0; 2] [1] (new_group 3).1 (new_group 3).2 = Ret (sg', t') ∧
    linked sg' t' 0 2 = true ∧ linked sg' t' 2 1 ≠ true.
Proof.
  destruct (Partition_separates [0; 2] [1] (new_group 3).1 (new_group 3).2)
    as (sg' & t' & Heq & _ & _ & _ & Hl).
  - apply new_group_ok.
  - apply new_group_members, (bool_decide_unpack _). exact I.
  - apply new_group_members, (bool_decide_unpack _). exact I.
  - set_solver.
  - exists sg', t'. split; [exact Heq|]. clear Heq.
    assert (0 ∈ [0; 2] ∧ 2 ∈ [0; 2] ∧ 1 ∉ [0; 2]) as (H0 & H2 & H1) by (clear; set_solver).
    rewrite !Hl by (clear; set_solver). clear Hl. tauto.
Defined.

(** MakePartition on a group of odd size, at least three: the two lists are a
    partition of the servers, the first is a majority, and the given leader is in
    the second, the minority. *)
Lemma MakePartition_minority l sg :
  3 ≤ Group.N sg → Z.odd (Group.N sg) = true → member sg l →
  ∃ p1 p2, MakePartition l sg = Ret (p1, p2) ∧ p1 ++ p2 ≡ₚ all sg ∧ l ∈ p2 ∧
    Z.of_nat (length p1) = Group.N sg / 2 + 1 ∧ Z.of_nat (length p2) = Group.N sg / 2.
Proof.
  intros Hn Hodd Hl. pose proof (MakePartition_eq l sg ltac:(lia) Hl) as Heq. cbv zeta in Heq.
  rewrite Z.quot_div_nonneg in Heq by lia. set (k := Z.to_nat (Group.N sg / 2)) in *.
  set (others := filter (.≠ l) (all sg)) in *.
  assert (Group.N sg = 2 * Z.of_nat k + 1) as HN.
  { apply Z.odd_spec in Hodd as [m Hm]. unfold k. rewrite Hm.
    replace (2 * m + 1) with (1 + m * 2) by lia. rewrite Z.div_add by lia. change (1 `div` 2) with 0. lia. }
  assert (others ++ [l] ≡ₚ all sg) as Hperm by (by apply others_perm).
  assert (length others = (2 * k)%nat) as Hlen.
  { apply Permutation_length in Hperm. rewrite length_app, length_all in Hperm. simpl in Hperm.
    unfold Group.N in HN. lia. }
  assert (fill (S k) (take (S k) others) = take (S k) others) as Hf1.
  { apply fill_full. rewrite length_take. lia. }
  assert (<[(k - 1)%nat := l]> (fill k (drop (S k) others)) = drop (S k) others ++ [l]) as Hf2.
  { apply fill_last. rewrite length_drop. lia. }
  rewrite Hf1, Hf2 in Heq. eexists _, _. split; [exact Heq|].
  rewrite (assoc_L (++)), take_drop. split_and!; [done|set_solver| |].
  - rewrite length_take. lia.
  - rewrite length_app, length_drop. simpl. lia.
Qed.

(** MakePartition on a group of even size, at least four, with a leader other
    than server 0, does not give a partition: server 0 is on both sides, because
    the slot before the leader's is never filled. *)
Lemma MakePartition_even_overlap l sg :
  4 ≤ Group.N sg → Z.even (Group.N sg) = true → member sg l → l ≠ 0 →
  ∃ p1 p2, MakePartition l sg = Ret (p1, p2) ∧ 0 ∈ p1 ∧ 0 ∈ p2.
Proof.
  intros Hn Heven Hl Hl0. pose proof (MakePartition_eq l sg ltac:(lia) Hl) as Heq. cbv zeta in Heq.
  rewrite Z.quot_div_nonneg in Heq by lia. set (k := Z.to_nat (Group.N sg / 2)) in *.
  set (others := filter (.≠ l) (all sg)) in *.
  assert (Group.N sg = 2 * Z.of_nat k) as HN.
  { apply Z.even_spec in Heven as [m Hm]. unfold k. rewrite Hm.
    replace (2 * m) with (m * 2) by lia. rewrite Z.div_mul by lia. lia. }
  assert (others ++ [l] ≡ₚ all sg) as Hperm by (by apply others_perm).
  assert (length others = (2 * k - 1)%nat) as Hlen.
  { apply Permutation_length in Hperm. rewrite length_app, length_all in Hperm. simpl in Hperm.
    unfold Group.N in HN. lia. }
  eexists _, _. split; [exact Heq|]. split.
  - unfold fill. apply elem_of_app. left. unfold others, all.
    destruct (length (srvs sg)) as [|m] eqn:Hm; [unfold Group.N in Hn; lia|].
    simpl. rewrite filter_cons_True by done. by left.
  - apply list_elem_of_lookup. exists (k - 2)%nat. rewrite list_lookup_insert_ne by lia.
    unfold fill. rewrite lookup_app_r by (rewrite length_drop; lia).
    apply lookup_replicate. rewrite length_drop. split; [done|lia].
Qed.

(** The sides that MakePartition makes for a leader, in a group of at least three:
    it always returns.  When the size is odd, the two lists are a partition of the
    servers, the first is a majority and the leader is in the second, the minority.
    When the size is even and the leader is not server 0, they are not a partition:
    server 0 is on both sides, because the slot before the leader's is never filled. *)
Theorem MakePartition_sides l sg :
  3 ≤ Group.N sg → member sg l →
  ∃ p1 p2, MakePartition l sg = Ret (p1, p2) ∧
    (Z.odd (Group.N sg) = true → p1 ++ p2 ≡ₚ all sg ∧ l ∈ p2 ∧
       Z.of_nat (length p1) = Group.N sg / 2 + 1 ∧ Z.of_nat (length p2) = Group.N sg / 2) ∧
    (Z.odd (Group.N sg) = false → l ≠ 0 → 0 ∈ p1 ∧ 0 ∈ p2).
Proof.
  intros Hn Hl. destruct (Z.odd (Group.N sg)) eqn:Hodd.
  - destruct (MakePartition_minority l sg Hn Hodd Hl) as (p1 & p2 & Heq & Hrest).
    exists p1, p2. split; [exact Heq|]. split; [intros _; exact Hrest|done].
  - destruct (decide (l = 0)) as [->|Hl0].
    { pose proof (MakePartition_eq 0 sg ltac:(lia) Hl) as Heq. eexists _, _. split; [exact Heq|done]. }
    assert (Z.even (Group.N sg) = true) as Heven by (by rewrite Zeven.Zeven_odd_bool, Hodd).
    destruct (MakePartition_even_overlap l sg) as (p1 & p2 & Heq & Hrest); try done.
    { destruct (decide (Group.N sg = 3)) as [H3|]; [by rewrite H3 in Hodd|lia]. }
    exists p1, p2. split; [exact Heq|]. split; [done|]. intros _ _. exact Hrest.
Qed.

Lemma MakePartition_sides_witness :
  (∃ p1 p2, MakePartition 1 (new_group 5).1 = Ret (p1, p2) ∧ 1 ∈ p2 ∧ Z.of_nat (length p1) = 5 / 2 + 1) ∧
  (∃ p1 p2, MakePartition 2 (new_group 4).1 = Ret (p1, p2) ∧ 0 ∈ p1 ∧ 0 ∈ p2).
Proof.
  split.
  - destruct (MakePartition_sides 1 (new_group 5).1) as (p1 & p2 & Heq & Hodd & _).
    + destruct (new_group_ok 5) as (_ & _ & _ & ->). lia.
    + unfold member. destruct (new_group_ok 5) as (_ & _ & _ & ->). lia.
    + destruct (new_group_ok 5) as (_ & _ & _ & HN). rewrite HN in Hodd.
      destruct (Hodd eq_refl) as (_ & Hin & Hlen & _). exists p1, p2. split; [exact Heq|].
      split; [exact Hin|exact Hlen].
  - destruct (MakePartition_sides 2 (new_group 4).1) as (p1 & p2 & Heq & _ & Heven).
    + destruct (new_group_ok 4) as (_ & _ & _ & ->). lia.
    + unfold member. destruct (new_group_ok 4) as (_ & _ & _ & ->). lia.
    + destruct (new_group_ok 4) as (_ & _ & _ & HN). rewrite HN in Heven.
      exists p1, p2. split; [exact Heq|]. apply Heven; [reflexivity|lia].
Defined.

(** ** Crash and restart *)

(** C26. A server that is shut down and started again has its persistent state, and
    is off the network in between: ShutdownServer returns with no link to or from
    the server, its name unregistered and its daemon gone; StartServer then gives
    it a daemon whose persister holds what the old one held, registers a server
    object that did not exist before under the same name, and still leaves it
    unlinked; the links among the other servers are untouched throughout. *)
Theorem restart_restores rand `{!Inj (=) (=) rand} ev i sg t s im :
  wf sg → names_ok rand sg t → tester_ok rand t → member sg i →
  srvs sg !! Z.to_nat i = Some s → dc s = Some (Some im) →
  ev = MkEnv true true true true →
  ∃ sg1 t1 sg2 t2,
    ShutdownServer ev i sg t = Ret (sg1, t1) ∧
    servers (net t1) !! ServerName (gid sg) i = Some None ∧
    (dc <$> srvs sg1 !! Z.to_nat i) = Some None ∧ ¬ is_conn sg1 i ∧
    StartServer rand ev i sg1 t1 = Ret (sg2, t2, true) ∧
    (dc <$> srvs sg2 !! Z.to_nat i) = Some (Some (Some im)) ∧
    servers (net t2) !! ServerName (gid sg) i = Some (Some (objs t)) ∧ (objs t < objs t2)%nat ∧
    wf sg2 ∧
    (∀ a b, member sg a → member sg b →
       linked sg1 t1 a b = (if decide (a = i ∨ b = i) then false else linked sg t a b) ∧
       linked sg2 t2 a b = linked sg1 t1 a b).
Proof.
  intros Hwf Hn Ht Hi Hs Hdc ->. set (ev := MkEnv true true true true).
  destruct (ShutdownServer_spec ev i sg t s im Hwf Hi Hs Hdc) as
    (t1 & Heq1 & Hwf1 & Hd1 & [Ho1 _] & He1 & Hsv1 & Hl1); [done..|].
  set (sg1 := with_srv i (stopped im s) (set_conn i false sg)) in *.
  assert (∀ a, member sg1 a ↔ member sg a) as Hmem
    by (intros a; unfold sg1; by rewrite member_with_srv).
  assert (srvs sg1 !! Z.to_nat i = Some (stopped im s)) as Hs1.
  { simpl. apply list_lookup_insert_eq. destruct Hi. unfold Group.N in *. lia. }
  assert (names_ok rand sg1 t1) as Hn1.
  { intros a b e Ha%Hmem Hb%Hmem. unfold sg1. rewrite end_name_with_srv by done. intros He.
    apply (drawn_name_mono rand t); [lia|]. apply (Hn a b e Ha Hb).
    destruct (decide (a = i)) as [->|]; [|exact He]. unfold end_name. by rewrite Hs. }
  assert (tester_ok rand t1) as Ht1.
  { intros e. rewrite He1. intros ?%Ht. apply (drawn_name_mono rand t); [lia|done]. }
  destruct (StartServer_spec rand ev i sg1 t1 (stopped im s) Hwf1 Hn1 Ht1) as
    (t2 & Heq2 & Hwf2 & _ & _ & [Ho2 _] & Hsv2 & _ & _ & Hl2); [by apply Hmem|done..|].
  exists sg1, t1, (with_srv i (started rand im t1 (length (srvs sg1))) sg1), t2.
  split_and!; try done.
  - rewrite Hsv1. apply lookup_insert_eq.
  - by rewrite Hs1.
  - unfold sg1, is_conn. simpl. intros Hc. apply list_lookup_insert_Some in Hc as [(_ & ? & _)|[? _]]; done.
  - simpl. rewrite list_lookup_insert_eq; [done|]. rewrite length_insert.
    destruct Hi. unfold Group.N in *. lia.
  - rewrite Hsv2, Ho1. apply lookup_insert_eq.
  - lia.
  - intros a b Ha Hb. split; [by apply Hl1|]. rewrite Hl2 by by apply Hmem.
    case_decide; [|done]. rewrite Hl1 by done. rewrite decide_True; auto.
Qed.

(** A new group of three whose server 1 is started. *)
Definition all_ok : env := MkEnv true true true true.
Definition first (n : nat) : Server :=
  default (MkServer None None None) (srvs (new_group n).1 !! 1%nat).

Lemma restart_restores_witness :
  ∃ sg t sg1 t1 sg2 t2,
    StartServer decimal all_ok 1 (new_group 3).1 (new_group 3).2 = Ret (sg, t, true) ∧
    ShutdownServer all_ok 1 sg t = Ret (sg1, t1) ∧
    StartServer decimal all_ok 1 sg1 t1 = Ret (sg2, t2, true) ∧
    (dc <$> srvs sg2 !! 1%nat) = Some (Some (Some no_image)).
Proof.
  destruct (new_group_ok 3) as (Hwf & Hn & Ht & HN).
  assert (member (new_group 3).1 1) as H1 by (unfold member; rewrite HN; lia).
  assert (srvs (new_group 3).1 !! 1%nat = Some (first 3)) as Hs by (vm_compute; reflexivity).
  assert (default no_image (saved (first 3)) = no_image) as Him by (vm_compute; reflexivity).
  destruct (StartServer_spec decimal all_ok 1 _ _ (first 3) Hwf Hn Ht H1 Hs eq_refl eq_refl)
    as (t & Heq & Hwf' & Hn' & Ht' & _). rewrite Him in *.
  assert (Z.to_nat 1 < length (srvs (new_group 3).1))%nat as Hlt by (unfold Group.N in HN; lia).
  destruct (restart_restores decimal all_ok 1 _ t (started decimal no_image (new_group 3).2
      (length (srvs (new_group 3).1))) no_image Hwf' Hn' Ht')
    as (sg1 & t1 & sg2 & t2 & E1 & _ & _ & _ & E2 & E3 & _);
    [by apply member_with_srv|by apply list_lookup_insert_eq|reflexivity|reflexivity|].
  eexists _, t, sg1, t1, sg2, t2. split; [exact Heq|]. split; [exact E1|].
  split; [exact E2|exact E3].
Defined.

(** MemSize panics when a server of the group is down, where RaftSize and SnapshotSize use
    the saved state. *)
Lemma MemSize_down mem sg s :
  (∀ s d, s ∈ srvs sg → dc s = Some d → is_Some (mem d)) → s ∈ srvs sg → dc s = None → MemSize mem sg = Stop Panic.
Proof.
  unfold MemSize, max_size. generalize 0. induction (srvs sg) as [|s' l IH]; intros m Hans Hs Hdc; [by apply not_elem_of_nil in Hs|].
  cbn [res_fold]. apply elem_of_cons in Hs as [<-|Hs]; [unfold memSize; by rewrite Hdc|].
  unfold memSize at 1, dc_memSize. destruct (dc s') as [d|] eqn:Hd; [|done]. destruct (Hans s' d) as [k Hk]; [by left|done|].
  rewrite Hk. cbn [rbind]. apply IH; [|done|done]. intros s0 d0 Hs0. apply Hans. by right.
Qed.
