(* ===== verification/Clnts.v ===== *)
(** * Clients of the servers under test (tester1/clnts.go)

    A clerk reaches the servers through a [Clnt], which makes an end to a server
    the first time it is called and keeps it in a map.  The tester restricts a
    client to some servers, cuts it off, and deletes it.  [srvs] is a nil-able
    slice: [None] allows every server.  The loops over the map of ends touch each
    end once; the model runs them in the order of [map_to_list]. *)

From S2P Require Import Prelude LabRpc Group GroupStart.
Import LabRpc Group.

Module Clnts.

Record Clnt := MkClnt { ends : gmap string string; srvs : option (list string) }.

Definition makeClntTo (srvs : option (list string)) : Clnt := MkClnt ∅ srvs.

Definition allowedL (clnt : Clnt) (server : string) : bool :=
  match srvs clnt with
  | None => true
  | Some l => existsb (λ n, bool_decide (n = server)) l
  end.

(** The names of the ends of a client. *)
Definition end_names (clnt : Clnt) : list string := (map_to_list (ends clnt)).*2.

Section clnt.
Context (rand : nat → string).

Definition makeEnd (server : string) (clnt : Clnt) (t : tester) : res (string * Clnt * tester) :=
  match ends clnt !! server with
  | Some e => Ret (e, clnt, t)
  | None =>
      let (name, t) := Randstring rand t in
      let* n := MakeEnd name (net t) in
      let t := set_net (Connect name server n) t in
      let t := if allowedL clnt server then enable name true t else enable name false t in
      Ret (name, MkClnt (<[server := name]> (ends clnt)) (srvs clnt), t)
  end.

Definition ConnectAll (clnt : Clnt) (t : tester) : Clnt * tester :=
  (MkClnt (ends clnt) None, enable_all true (end_names clnt) t).

Definition ConnectTo (to : option (list string)) (clnt : Clnt) (t : tester) : Clnt * tester :=
  let clnt := MkClnt (ends clnt) to in
  (clnt, foldl (λ t '(s, e), if allowedL clnt s then enable e true t else t) t
           (map_to_list (ends clnt))).

Definition Disconnect (srv : string) (clnt : Clnt) (t : tester) : Clnt * tester :=
  (clnt, foldl (λ t '(s, e), if bool_decide (s = srv) then enable e false t else t) t
           (map_to_list (ends clnt))).

Definition DisconnectAll (clnt : Clnt) (t : tester) : Clnt * tester :=
  (MkClnt (ends clnt) (Some []), enable_all false (end_names clnt) t).

Definition remove (clnt : Clnt) (t : tester) : res tester :=
  res_fold (λ t e, let* n := DeleteEnd e (net t) in Ret (set_net n t)) t (end_names clnt).

(** ** Clnts: the clients of a test, by their addresses; nil after cleanup *)

Definition Clnts : Type := option (gmap nat Clnt).
Definition makeClnts : Clnts := Some ∅.

(** Clnts.makeEnd: an end that is on at once, outside the map of any client. *)
Definition clnts_makeEnd (servername : string) (t : tester) : res (string * tester) :=
  let (name, t) := Randstring rand t in
  let* n := MakeEnd name (net t) in
  Ret (name, enable name true (set_net (Connect name servername n) t)).

(** MakeClientTo with the address the new client gets; a write into the nil map
    panics. *)
Definition MakeClientTo (p : nat) (to : option (list string)) (cs : Clnts) : res Clnts :=
  match cs with
  | Some m => Ret (Some (<[p := makeClntTo to]> m))
  | None => Stop Panic
  end.
Definition MakeClient (p : nat) (cs : Clnts) : res Clnts := MakeClientTo p None cs.

Definition cleanup (cs : Clnts) (t : tester) : res (Clnts * tester) :=
  let* t := res_fold (λ t c, remove c t) t (map_to_list (default ∅ cs)).*2 in Ret (None, t).

Definition DeleteClient (p : nat) (cs : Clnts) (t : tester) : res (Clnts * tester) :=
  match cs ≫= (.!! p) with
  | Some c => let* t := remove c t in Ret (delete p <$> cs, t)
  | None => Ret (cs, t)
  end.
End clnt.

(** ** What a client can reach *)

(** Would a request to [server] be sent over an enabled end? *)
Definition reach (clnt : Clnt) (t : tester) (server : string) : bool :=
  match ends clnt !! server with
  | Some e => mget false (enabled (net t)) e
  | None => allowedL clnt server
  end.

(** Different servers have different ends. *)
Definition distinct (m : gmap string string) : Prop :=
  ∀ s s' e, m !! s = Some e → m !! s' = Some e → s = s'.

Lemma elem_of_end_names clnt e : e ∈ end_names clnt ↔ ∃ s, ends clnt !! s = Some e.
Proof.
  unfold end_names. rewrite list_elem_of_fmap. split.
  - intros ([s e'] & -> & ?%elem_of_map_to_list). by exists s.
  - intros [s ?]. exists (s, e). by rewrite elem_of_map_to_list.
Qed.

(** A loop that switches the ends of some of the servers. *)
Definition some_ends (P : string → bool) (m : gmap string string) : list string :=
  (filter (λ x : string * string, P x.1 = true) (map_to_list m)).*2.

Lemma foldl_enable (P : string → bool) v (m : gmap string string) t :
  foldl (λ t '(s, e), if P s then enable e v t else t) t (map_to_list m) =
    enable_all v (some_ends P m) t.
Proof.
  unfold some_ends. revert t. induction (map_to_list m) as [|[s e] l IH]; intros t; [done|].
  rewrite filter_cons. simpl. destruct (P s); rewrite IH; done.
Qed.

Lemma elem_of_some_ends P m s e :
  distinct m → m !! s = Some e → e ∈ some_ends P m ↔ P s = true.
Proof.
  intros Hm Hs. unfold some_ends. rewrite list_elem_of_fmap. setoid_rewrite list_elem_of_filter. split.
  - intros ([s' e'] & -> & HP & Hin%elem_of_map_to_list). simpl in *.
    by rewrite (Hm s s' e' Hs Hin).
  - intros HP. exists (s, e). by rewrite elem_of_map_to_list.
Qed.

Lemma allowedL_spec clnt s :
  allowedL clnt s = true ↔ match srvs clnt with None => True | Some l => s ∈ l end.
Proof.
  unfold allowedL. destruct (srvs clnt) as [l|]; [|done].
  rewrite existsb_exists. setoid_rewrite <-list_elem_of_In. setoid_rewrite bool_decide_eq_true.
  naive_solver.
Qed.

(** The effect of switching some of a client's ends. *)
Lemma reach_enable P v clnt to t s :
  distinct (ends clnt) →
  reach (MkClnt (ends clnt) to) (enable_all v (some_ends P (ends clnt)) t) s =
    match ends clnt !! s with
    | Some e => if P s then v else mget false (enabled (net t)) e
    | None => allowedL (MkClnt (ends clnt) to) s
    end.
Proof.
  intros Hd. unfold reach. simpl. destruct (ends clnt !! s) as [e|] eqn:He; [|done].
  rewrite enable_all_enabled. pose proof (elem_of_some_ends P _ s e Hd He).
  case_decide; destruct (P s); try done; naive_solver.
Qed.

Lemma some_ends_all clnt : some_ends (λ _, true) (ends clnt) = end_names clnt.
Proof.
  unfold some_ends, end_names. f_equal.
  induction (map_to_list (ends clnt)) as [|x l IH]; [done|]. by rewrite filter_cons_True, IH.
Qed.

(** ** Deleting ends *)

Lemma remove_spec clnt t :
  NoDup (end_names clnt) → (∀ e, e ∈ end_names clnt → e ∈ LabRpc.ends (net t)) →
  ∃ t', remove clnt t = Ret t' ∧
    (∀ e, e ∈ LabRpc.ends (net t') ↔ e ∈ LabRpc.ends (net t) ∧ e ∉ end_names clnt) ∧
    (∀ e, e ∈ end_names clnt → enabled (net t') !! e = None ∧ connections (net t') !! e = None) ∧
    (∀ e, e ∉ end_names clnt → enabled (net t') !! e = enabled (net t) !! e ∧
       connections (net t') !! e = connections (net t) !! e) ∧
    servers (net t') = servers (net t).
Proof.
  unfold remove. generalize (end_names clnt). intros l. revert t.
  induction l as [|e l IH]; intros t Hnd Hin.
  { exists t. split_and!; try done; set_solver. }
  apply list.NoDup_cons in Hnd as [He Hnd]. cbn [res_fold]. unfold DeleteEnd at 1.
  rewrite bool_decide_true by (apply Hin; by left). cbn [rbind].
  set (t1 := set_net _ t).
  destruct (IH t1 Hnd) as (t' & Heq & Hends & Hgone & Hrest & Hsv).
  { intros e' He'. simpl. assert (e ≠ e') by congruence. set_solver. }
  exists t'. split; [exact Heq|]. simpl in *. split_and!; [| | |done].
  - intros e'. rewrite Hends. set_solver.
  - intros e' [->|Hl]%elem_of_cons; [|by apply Hgone].
    destruct (Hrest e He) as [-> ->]. by rewrite !lookup_delete_eq.
  - intros e'. rewrite not_elem_of_cons. intros [Hne Hl]. destruct (Hrest e' Hl) as [-> ->].
    by rewrite !lookup_delete_ne.
Qed.

Lemma NoDup_end_names clnt : distinct (ends clnt) → NoDup (end_names clnt).
Proof.
  intros Hd. unfold end_names. apply NoDup_fmap_2_strong; [|apply NoDup_map_to_list].
  intros [s e] [s' e'] H1%elem_of_map_to_list H2%elem_of_map_to_list Heq. simpl in Heq. subst.
  f_equal. by eapply Hd.
Qed.

End Clnts.
