(* ===== verification/ClntsSpec.v ===== *)
(** * Properties of clients (tester1/clnts.go)

    Making an end does not change what a client can reach; the connect and
    disconnect operations change it as stated; deleting a client removes exactly
    its ends from the network; a client's calls are executed only where it may call. *)

From stdpp Require Import pretty.
From S2P Require Import Prelude LabRpc Group GroupStart Clnts.
Import LabRpc Group GroupStart Clnts.

(** A client whose ends have distinct names, drawn before. *)
Definition clnt_ok (rand : nat → string) (clnt : Clnt) (t : tester) : Prop :=
  distinct (Clnts.ends clnt) ∧ (∀ s e, Clnts.ends clnt !! s = Some e → drawn_name rand t e) ∧
  tester_ok rand t.

(** makeEnd returns the end of the server, making it at the first call; the
    end is connected to that server and enabled exactly when the client could
    reach the server before; what the client can reach does not change, and its
    ends still have distinct names. *)
Theorem makeEnd_reach rand `{!Inj (=) (=) rand} server clnt t :
  clnt_ok rand clnt t →
  ∃ e clnt' t', makeEnd rand server clnt t = Ret (e, clnt', t') ∧
    Clnts.ends clnt' !! server = Some e ∧
    mget false (enabled (net t')) e = reach clnt t server ∧
    (Clnts.ends clnt !! server = None → connections (net t') !! e = Some (Some server)) ∧
    (∀ s, reach clnt' t' s = reach clnt t s) ∧ clnt_ok rand clnt' t'.
Proof.
  intros (Hd & Hn & Ht). unfold makeEnd.
  destruct (Clnts.ends clnt !! server) as [e|] eqn:He.
  { exists e, clnt, t. split_and!; try done. unfold reach. by rewrite He. }
  cbn [Randstring]. set (e := rand (drawn t)). unfold MakeEnd. simpl net.
  assert (¬ drawn_name rand t e) as Hnew by (by apply rand_fresh).
  rewrite bool_decide_false by (intros ?; by apply Hnew, Ht). cbn [rbind].
  eexists e, _, _. split; [done|].
  set (t1 := set_net _ _). set (clnt' := MkClnt _ _).
  set (t' := if allowedL clnt server then enable e true t1 else enable e false t1).
  assert (∀ e', mget false (enabled (net t')) e' =
    if decide (e' = e) then allowedL clnt server else mget false (enabled (net t)) e') as Hen.
  { intros e'. unfold t'. destruct (decide (e' = e)) as [->|Hne]; destruct (allowedL clnt server);
      simpl; rewrite ?mget_insert_eq, ?mget_insert_ne by done; done. }
  assert (∀ s e', Clnts.ends clnt !! s = Some e' → e' ≠ e) as Hold
    by (intros s e' H ->; by apply Hnew, (Hn s)).
  assert (∀ e', drawn_name rand t e' ∨ e' = e → drawn_name rand t' e') as Hdr.
  { intros e' [He'| ->].
    - eapply drawn_name_mono; [|exact He']. unfold t'. destruct (allowedL clnt server); simpl; lia.
    - exists (drawn t). split; [|done]. unfold t'. destruct (allowedL clnt server); simpl; lia. }
  split_and!; [| | | |split_and!].
  - apply lookup_insert_eq.
  - rewrite Hen, decide_True by done. unfold reach. by rewrite He.
  - intros _. unfold t'. destruct (allowedL clnt server); apply lookup_insert_eq.
  - intros s. unfold reach at 1. unfold clnt'. simpl. destruct (decide (server = s)) as [<-|Hne].
    + rewrite lookup_insert_eq, Hen, decide_True by done. unfold reach. by rewrite He.
    + rewrite lookup_insert_ne by done. unfold reach.
      destruct (Clnts.ends clnt !! s) as [e'|] eqn:Hs; [|done].
      rewrite Hen, decide_False; [done|]. by apply (Hold s).
  - intros s s' e'. simpl. rewrite !lookup_insert_Some.
    intros [[<- <-]|[? H1]] [[<- H2]|[? H2]]; [done|by destruct (Hold _ _ H2)|
      subst; by destruct (Hold _ _ H1)|by eapply Hd].
  - intros s e'. simpl. rewrite lookup_insert_Some. intros [[_ <-]|[_ H]]; eauto.
  - intros e' H. apply Hdr. unfold t' in H.
    assert (e' ∈ {[e]} ∪ LabRpc.ends (net t)) as [->%elem_of_singleton|?]%elem_of_union
      by (by destruct (allowedL clnt server)); auto.
Qed.

Definition decimal' (n : nat) : string := pretty (N.of_nat n).
#[local] Instance decimal'_inj : Inj (=) (=) decimal'.
Proof. intros x y. unfold decimal'. intros H%(inj pretty). by apply Nat2N.inj. Qed.
Definition empty_net : tester := MkTester MakeNetwork 0 0 [].

Lemma new_clnt_ok to : clnt_ok decimal' (makeClntTo to) empty_net.
Proof.
  split_and!; [intros s s' e|intros s e|intros e He]; simpl in *; try set_solver.
  all: by rewrite lookup_empty.
Qed.

Lemma makeEnd_reach_witness :
  ∃ e clnt' t', makeEnd decimal' "server-0-1" (makeClntTo (Some ["server-0-0"])) empty_net =
      Ret (e, clnt', t') ∧ mget false (enabled (net t')) e = false.
Proof.
  destruct (makeEnd_reach decimal' "server-0-1" (makeClntTo (Some ["server-0-0"])) empty_net
    (new_clnt_ok _)) as (e & clnt' & t' & H1 & _ & H2 & _).
  exists e, clnt', t'. split; [exact H1|]. rewrite H2. vm_compute. reflexivity.
Defined.

(** What a client can reach, over the ends it has and those it would make:
    after ConnectAll every server; after DisconnectAll none; after ConnectTo the
    allowed servers and, besides them, every server it had an enabled end to (such
    an end is not switched off); after Disconnect the same servers as before
    without the given one, if there was an end to it. *)
Theorem connect_reach clnt t to srv s :
  distinct (Clnts.ends clnt) →
  (let '(c, t') := Clnts.ConnectAll clnt t in reach c t' s = true) ∧
  (let '(c, t') := DisconnectAll clnt t in reach c t' s = false) ∧
  (let '(c, t') := ConnectTo to clnt t in
   reach c t' s = allowedL (MkClnt ∅ to) s ||
     (bool_decide (is_Some (Clnts.ends clnt !! s)) && reach clnt t s)) ∧
  (let '(c, t') := Disconnect srv clnt t in
   reach c t' s = if decide (s = srv ∧ is_Some (Clnts.ends clnt !! s)) then false
                  else reach clnt t s).
Proof.
  intros Hd. split_and!.
  - unfold Clnts.ConnectAll. rewrite <-some_ends_all, reach_enable by done. by case_match.
  - unfold DisconnectAll. rewrite <-some_ends_all, reach_enable by done. by case_match.
  - unfold ConnectTo. rewrite (foldl_enable (allowedL (MkClnt (Clnts.ends clnt) to))).
    cbn [Clnts.ends]. rewrite reach_enable by done. unfold reach.
    change (allowedL (MkClnt (Clnts.ends clnt) to) s) with (allowedL (MkClnt ∅ to) s).
    destruct (Clnts.ends clnt !! s) as [e|]; simpl; by destruct (allowedL (MkClnt ∅ to) s).
  - unfold Disconnect. destruct clnt as [es l]. simpl in *.
    rewrite (foldl_enable (λ s, bool_decide (s = srv))).
    rewrite (reach_enable _ _ (MkClnt es l)) by done. unfold reach. simpl.
    destruct (es !! s) as [e|] eqn:He; simpl.
    + case_bool_decide; case_decide as Hx; try done; [|naive_solver]. destruct Hx. by eauto.
    + rewrite decide_False; [done|]. by intros [_ [? ?]].
Qed.

(** A client that has an enabled end to a server, then is restricted to no server
    at all, and still reaches it. *)
Definition one_end : Clnt := MkClnt {["server-0-0" := "e"]} None.
Definition one_end_net : tester := enable "e" true empty_net.

Lemma connect_reach_witness :
  let '(c, t') := ConnectTo (Some []) one_end one_end_net in reach c t' "server-0-0" = true.
Proof.
  assert (distinct (Clnts.ends one_end)) as Hd.
  { intros s s' e. simpl. rewrite !lookup_singleton_Some. intros [<- _] [<- _]. reflexivity. }
  destruct (connect_reach one_end one_end_net (Some []) "" "server-0-0" Hd) as (_ & _ & H & _).
  simpl in *. rewrite H. vm_compute. reflexivity.
Defined.

(** DeleteClient removes exactly the ends of the client: afterwards the
    network has neither a registration, nor an enabled flag, nor a connection for
    any of them, every other end is as it was, and so are the servers and the
    other clients. *)
Theorem DeleteClient_removes p cs clnt t :
  cs !! p = Some clnt → distinct (Clnts.ends clnt) →
  (∀ s e, Clnts.ends clnt !! s = Some e → e ∈ LabRpc.ends (net t)) →
  ∃ t', DeleteClient p (Some cs) t = Ret (Some (delete p cs), t') ∧
    (∀ e, e ∈ LabRpc.ends (net t') ↔
       e ∈ LabRpc.ends (net t) ∧ ∀ s, Clnts.ends clnt !! s ≠ Some e) ∧
    (∀ s e, Clnts.ends clnt !! s = Some e → readEndnameInfo e (net t') =
       (false, None, None, reliable (net t'), longReordering (net t'))) ∧
    (∀ e, (∀ s, Clnts.ends clnt !! s ≠ Some e) →
       enabled (net t') !! e = enabled (net t) !! e ∧
       connections (net t') !! e = connections (net t) !! e) ∧
    servers (net t') = servers (net t).
Proof.
  intros Hp Hd Hin. destruct (remove_spec clnt t) as (t' & Heq & Hends & Hgone & Hrest & Hsv).
  { by apply NoDup_end_names. }
  { intros e [s ?]%elem_of_end_names. by eapply Hin. }
  assert (∀ e, e ∉ end_names clnt ↔ ∀ s, Clnts.ends clnt !! s ≠ Some e) as Hnot.
  { intros e. rewrite elem_of_end_names. naive_solver. }
  exists t'. unfold DeleteClient. simpl. rewrite Hp, Heq. simpl. split_and!; [done| | |..].
  - intros e. by rewrite Hends, Hnot.
  - intros s e He. destruct (Hgone e) as [H1 H2]; [apply elem_of_end_names; by exists s|].
    unfold readEndnameInfo, mget. by rewrite H1, H2.
  - intros e He. by apply Hrest, Hnot.
  - done.
Qed.

Definition deleted_net : tester :=
  set_net (set_ends {["e"; "f"]} (Enable "e" true (Enable "f" true MakeNetwork))) empty_net.

Lemma DeleteClient_removes_witness :
  ∃ t', DeleteClient 7 (Some {[7%nat := one_end]}) deleted_net = Ret (Some (delete 7%nat {[7%nat := one_end]}), t') ∧
    enabled (net t') !! "f" = Some true.
Proof.
  destruct (DeleteClient_removes 7 {[7%nat := one_end]} one_end deleted_net) as (t' & H1 & _ & _ & H2 & _).
  - reflexivity.
  - intros s s' e. simpl. rewrite !lookup_singleton_Some. intros [<- _] [<- _]. reflexivity.
  - intros s e. simpl. rewrite !lookup_singleton_Some. intros [_ <-]. simpl. clear. set_solver.
  - exists t'. split; [exact H1|]. destruct (H2 "f") as [-> _]; [|vm_compute; reflexivity].
    intros s. simpl. rewrite lookup_singleton_Some. intros [_ [=]].
Defined.

(** ** Calls through a client

    [Clnt.Call] makes the end of the server, if the client has none, and calls on it.  Clnts.v
    has the first half, on the registry of the tester, and NetRpc.v the second, as the
    steps of a request in the network.  Here they are put together: where a call of a
    client can be executed is decided by the ends of the client and by the registry. *)

From S2P Require Import Wire NetRpc.
Import Wire NetRpc.

Module ClntCall.

(** Clnt.Call up to the point where the request is handed to the network: the request,
    and the client and the tester as makeEnd leaves them.  What Call returns when the reply
    [rep] is there is [Call_result rep]. *)
Definition Call {A} `{Codec A} (rand : nat → string) (server svcMeth : string) (args : A)
    (clnt : Clnts.Clnt) (t : Group.tester) : res (reqMsg * Clnts.Clnt * Group.tester) :=
  let* '(e, clnt, t) := Clnts.makeEnd rand server clnt t in
  let* rq := Call_request e svcMeth args in
  Ret (rq, clnt, t).

(** The network with the tester's registry, and with a new request. *)
Definition begin {S} (id : nat) (req : reqMsg) (t : Group.tester) (w : world S) : world S :=
  set_rpc id {| rq := req; at_pc := Sending; hs := HNone |} [] (set_net (Group.net t) w).

(** Every end of a client that is connected is connected to its server. *)
Definition connected (clnt : Clnts.Clnt) (t : Group.tester) : Prop :=
  ∀ s e, Clnts.ends clnt !! s = Some e → mget None (connections (Group.net t)) e = Some s.

(** ** What makeEnd does to the network *)

Section call.
Context {S : Type}.
Implicit Types w : world S.

Lemma set_net_id w : set_net (net w) w = w.
Proof. by destruct w. Qed.

Lemma makeEnd_steps rand server clnt t e clnt' t' w :
  Clnts.makeEnd rand server clnt t = Ret (e, clnt', t') → net w = Group.net t →
  rtc step w (set_net (Group.net t') w).
Proof.
  unfold Clnts.makeEnd. intros Hmk Hnet.
  destruct (Clnts.ends clnt !! server).
  { simplify_eq. by rewrite <-Hnet, set_net_id. }
  cbn [Group.Randstring] in Hmk. cbn [Group.net] in Hmk.
  destruct (MakeEnd _ _) as [n|] eqn:Hn; [|done]. cbn [rbind] in Hmk.
  eapply rtc_l; [apply (st_admin w n); eapply ad_makeend; rewrite Hnet; exact Hn|].
  eapply rtc_l; [apply st_admin, (ad_connect _ (rand (Group.drawn t)) server)|].
  eapply rtc_once, eq_rect;
    [apply st_admin, (ad_enable _ (rand (Group.drawn t)) (Clnts.allowedL clnt server))|].
  destruct (Clnts.allowedL clnt server); simplify_eq; reflexivity.
Qed.

Lemma makeEnd_connected rand `{!Inj (=) (=) rand} server clnt t e clnt' t' :
  clnt_ok rand clnt t → Clnts.makeEnd rand server clnt t = Ret (e, clnt', t') →
  connected clnt t → connected clnt' t'.
Proof.
  intros (_ & Hn & _) Hmk Hc. unfold Clnts.makeEnd in Hmk.
  destruct (Clnts.ends clnt !! server) eqn:He; [by simplify_eq|].
  cbn [Group.Randstring] in Hmk. unfold MakeEnd in Hmk. case_bool_decide; [done|]. cbn [rbind] in Hmk.
  assert (∀ s e', Clnts.ends clnt !! s = Some e' → e' ≠ rand (Group.drawn t)) as Hold.
  { intros s e' Hs ->. by eapply GroupStart.rand_fresh; [exact _|reflexivity|apply (Hn s)]. }
  assert (∀ x (n : Network), mget None (connections (Group.net t')) x =
    mget None (<[rand (Group.drawn t) := Some server]> (<[rand (Group.drawn t) := None]>
      (connections (Group.net t)))) x) as Hcon by (intros x _; by destruct (Clnts.allowedL clnt server); simplify_eq).
  assert (Clnts.ends clnt' = <[server := rand (Group.drawn t)]> (Clnts.ends clnt)) as Hes
    by (by destruct (Clnts.allowedL clnt server); simplify_eq).
  intros s x. rewrite Hes, (Hcon x MakeNetwork), lookup_insert_Some. intros [[<- <-]|[_ Hs]].
  - by rewrite mget_insert_eq.
  - rewrite !mget_insert_ne by (apply not_eq_sym; by apply (Hold s)). by apply Hc.
Qed.

(** ** Where a request can be executed *)

(** Every route that the registry has for [e] leads to a server in [P]. *)
Definition routes_in (e : string) (P : srvptr → Prop) w : Prop :=
  ∀ sn sp rel lre, route e (net w) = Some (sn, sp, rel, lre) → P sp.

(** Request [id] is sent on [e], and is only bound for servers in [P]. *)
Definition bound_for (e : string) (P : srvptr → Prop) (id : nat) w : Prop :=
  ∃ x, reqs w !! id = Some x ∧ rq_endname (rq x) = e ∧
    (∀ sp, pc_ptr (at_pc x) = Some sp ∨ hs x = HRunning sp → P sp) ∧
    ∀ sp r, EvExec sp r ∈ trace id w → P sp.

Lemma bound_set_rpc e P id i x evs w w' :
  reqs w' = reqs w → events w' = events w → bound_for e P id w →
  (i = id → rq_endname (rq x) = e ∧
     (∀ sp, pc_ptr (at_pc x) = Some sp ∨ hs x = HRunning sp → P sp) ∧
     ∀ sp r, EvExec sp r ∈ evs → P sp) →
  bound_for e P id (set_rpc i x evs w').
Proof.
  intros Hr He (y & Hid & Hrq & Hpc & Htr) Hx. unfold bound_for. rewrite trace_set_rpc. simpl. rewrite Hr.
  assert (trace id w' = trace id w) as -> by (unfold trace; by rewrite He).
  destruct (decide (i = id)) as [->|Hne].
  - destruct (Hx eq_refl) as (? & ? & ?). exists x. rewrite lookup_insert_eq. split_and!; try done.
    intros sp r [?|?]%elem_of_app; eauto.
  - exists y. rewrite lookup_insert_ne, app_nil_r by done. done.
Qed.

Lemma bound_env e P id w w' :
  reqs w' = reqs w → events w' = events w → bound_for e P id w → bound_for e P id w'.
Proof. intros Hr He. unfold bound_for, trace. by rewrite Hr, He. Qed.

Lemma step_bound e P id w w' : step w w' → routes_in e P w → bound_for e P id w → bound_for e P id w'.
Proof.
  intros Hs HP Hb. pose proof Hb as (y & Hid & Hrq & Hpc & Htr).
  destruct Hs; try (by eapply bound_env; [| |exact Hb]); unfold goto;
    (eapply bound_set_rpc; [| |exact Hb|]; [done|done|]); intros ->; simplify_eq; simpl;
    repeat match goal with H : at_pc _ = _ |- _ => rewrite H in Hpc; simpl in Hpc end;
    (split; [done|]); split; intros *; rewrite ?list_elem_of_nil, ?elem_of_cons, ?elem_of_nil; try naive_solver.
  all: intros sp' [[= <-]|Hh]; [by eapply HP|apply Hpc; by right].
Qed.

(** A run of the network in which, at every step, the end [e] is disabled or leads to
    [server], under whose name only servers in [P] are registered. *)
Definition kept (e server : string) (P : srvptr → Prop) w w' : Prop :=
  step w w' ∧
  (mget false (enabled (net w)) e = true →
     mget None (connections (net w)) e = Some server ∧
     ∀ sp, mget None (servers (net w)) server = Some sp → P sp).

Lemma kept_routes e server P w w' : kept e server P w w' → routes_in e P w.
Proof.
  intros [_ Hk] sn sp rel lre. unfold route, readEndnameInfo.
  destruct (mget false (enabled (net w)) e); [|done]. destruct (Hk eq_refl) as [-> Hsp].
  destruct (mget None (servers (net w)) server) as [sp'|] eqn:Hs; [|done]. intros [= _ <- _ _]. by apply Hsp.
Qed.

Lemma kept_bound e server P id w w' :
  rtc (kept e server P) w w' → bound_for e P id w → bound_for e P id w'.
Proof.
  induction 1 as [|w w1 w2 Hk _ IH]; [done|]. intros Hb. apply IH.
  eapply step_bound; [apply Hk|by eapply kept_routes|done].
Qed.
End call.

End ClntCall.
Import ClntCall.

(** A call of a client is executed only where the client may call.  Call makes a request on
    an end that is connected to the server it was asked for, and enabled exactly if the
    client could reach this server; what the client can reach stays the same, and the
    steps are those of the network.  Whatever happens then, a request whose end
    stays connected to its server is executed only by the objects that were registered
    under the name of this server; and as long as the end is disabled, by none. *)
Theorem Call_executed_at {S A} `{Codec A} rand `{!Inj (=) (=) rand} (st : S) w id
    server svcMeth (args : A) b clnt t :
  reachable st w → net w = Group.net t → reqs w !! id = None →
  clnt_ok rand clnt t → connected clnt t → encode args = Some b →
  ∃ e clnt' t', let w1 := begin id (ReqMsg e svcMeth b) t' w in
    Call rand server svcMeth args clnt t = Ret (ReqMsg e svcMeth b, clnt', t') ∧
    clnt_ok rand clnt' t' ∧ connected clnt' t' ∧
    (∀ s, Clnts.reach clnt' t' s = Clnts.reach clnt t s) ∧
    reachable st w1 ∧
    mget None (connections (net w1)) e = Some server ∧
    mget false (enabled (net w1)) e = Clnts.reach clnt t server ∧
    (∀ P w', rtc (kept e server P) w1 w' → ∀ sp r, EvExec sp r ∈ trace id w' → P sp) ∧
    (∀ w', rtc (λ v v', step v v' ∧ mget false (enabled (net v)) e = false) w1 w' →
       ∀ sp r, EvExec sp r ∉ trace id w').
Proof.
  intros Hr Hnet Hid Hok Hc Hb.
  destruct (makeEnd_reach rand server clnt t Hok) as (e & clnt' & t' & Hmk & He & Hen & _ & Hre & Hok').
  pose proof (makeEnd_connected _ _ _ _ _ _ _ Hok Hmk Hc) as Hc'.
  exists e, clnt', t'. intros w1.
  assert (trace id w = []) as Htr.
  { apply net_reachable_ok in Hr as [Hw _]. specialize (Hw id). by rewrite Hid in Hw. }
  assert (∀ P, bound_for e P id w1) as Hw1.
  { intros P. exists {| rq := ReqMsg e svcMeth b; at_pc := Sending; hs := HNone |}.
    split; [apply lookup_insert_eq|]. split_and!; [done|naive_solver|].
    intros sp r. unfold w1, begin. rewrite trace_set_rpc.
    change (trace id (set_net _ w)) with (trace id w). rewrite Htr. case_decide; set_solver. }
  split_and!; try done.
  - unfold Call, Call_request, Marshall. rewrite Hmk. cbn [rbind]. by rewrite Hb.
  - unfold reachable. etrans; [exact Hr|]. etrans; [by eapply makeEnd_steps|].
    apply rtc_once. by apply st_call.
  - by apply Hc'.
  - intros P w' Hrun. by destruct (kept_bound _ _ _ id _ _ Hrun (Hw1 P)) as (? & _ & _ & _ & ?).
  - intros w' Hrun sp r Hex.
    destruct (kept_bound e server (λ _, False) id w1 w') as (? & _ & _ & _ & Hno); [|done|by eapply Hno].
    eapply rtc_subrel; [|exact Hrun]. intros v v' [? Hoff]. split; [done|]. by rewrite Hoff.
Qed.

#[local] Instance raw_codec : Codec bytes := {| encode b := Some b; decode b := Some b |}.

(** A client that may call only server-0-0 calls server-0-1. *)
Definition call_net : Group.tester := Group.MkTester MakeNetwork 0 0 [].
Definition call_world : world nat := init 5%nat.

Lemma Call_executed_at_witness :
  ∃ e clnt' t', Call decimal' "server-0-1" "Counter.Add" [Byte.x41] (Clnts.makeClntTo (Some ["server-0-0"])) call_net =
      Ret (ReqMsg e "Counter.Add" [Byte.x41], clnt', t') ∧
    mget false (enabled (net (begin 1 (ReqMsg e "Counter.Add" [Byte.x41]) t' call_world))) e = false.
Proof.
  destruct (Call_executed_at decimal' 5%nat call_world 1 "server-0-1" "Counter.Add" [Byte.x41] [Byte.x41]
    (Clnts.makeClntTo (Some ["server-0-0"])) call_net) as (e & clnt' & t' & H1 & _ & _ & _ & _ & _ & H2 & _).
  - apply rtc_refl.
  - reflexivity.
  - reflexivity.
  - apply new_clnt_ok.
  - intros s e. simpl. by rewrite lookup_empty.
  - reflexivity.
  - exists e, clnt', t'. split; [exact H1|]. rewrite H2. vm_compute. reflexivity.
Defined.
