(* ===== verification/MapReduce.v ===== *)
(** * Sequential MapReduce and its applications (main/mrsequential.go, mrapps)

    [mrsequential] maps every input file, sorts the intermediate pairs by key, and
    reduces each run of equal keys.  [sort.Sort] is not stable: its result is any
    sorted permutation, so the program is a relation between inputs and outputs.
    A string is its bytes.  The applications split text into words at runes that
    are not letters: ASCII is written out, the UTF-8 and Unicode tables beyond it
    are the parameters [decode_multi] and [letter_unicode]. *)

From Stdlib Require Import Ascii.
From stdpp Require Import pretty.
From S2P Require Import Prelude.

Module MapReduce.

(** ** Strings in Go's byte order *)

Definition string_le (s1 s2 : string) : Prop := String.leb s1 s2 = true.
Definition string_lt (s1 s2 : string) : Prop := string_le s1 s2 ∧ s1 ≠ s2.
Global Instance string_le_dec : RelDecision string_le.
Proof. intros s1 s2. unfold string_le. apply _. Defined.

Lemma compare_trans_le s1 s2 s3 :
  String.compare s1 s2 ≠ Gt → String.compare s2 s3 ≠ Gt → String.compare s1 s3 ≠ Gt.
Proof.
  revert s2 s3. induction s1 as [|a s1 IH]; intros [|b s2] [|c s3]; simpl; try done.
  unfold Ascii.compare.
  destruct (N.compare_spec (N_of_ascii a) (N_of_ascii b)) as [Hab|Hab|Hab];
    destruct (N.compare_spec (N_of_ascii b) (N_of_ascii c)) as [Hbc|Hbc|Hbc];
    destruct (N.compare_spec (N_of_ascii a) (N_of_ascii c)) as [Hac|Hac|Hac];
    intros; try done; try lia.
  by eapply IH.
Qed.

Lemma string_le_compare s1 s2 : string_le s1 s2 ↔ String.compare s1 s2 ≠ Gt.
Proof. unfold string_le, String.leb. by destruct (String.compare s1 s2). Qed.

Global Instance string_le_trans : Transitive string_le.
Proof. intros x y z. rewrite !string_le_compare. apply compare_trans_le. Qed.
Global Instance string_le_total : Total string_le.
Proof. intros x y. unfold string_le. destruct (String.leb_total x y); auto. Qed.
Global Instance string_le_antisymm : AntiSymm (=) string_le.
Proof. intros x y. unfold string_le. apply String.leb_antisym. Qed.
Global Instance string_le_refl : Reflexive string_le.
Proof. intros x. by destruct (total string_le x x). Qed.

(** [sort.Strings] *)
Definition sort_Strings (l : list string) : list string := merge_sort string_le l.

Lemma sort_Strings_perm l l' : l ≡ₚ l' → sort_Strings l = sort_Strings l'.
Proof.
  intros Hp. unfold sort_Strings. apply (StronglySorted_unique string_le).
  - by apply (StronglySorted_merge_sort _).
  - by apply (StronglySorted_merge_sort _).
  - by rewrite !merge_sort_Permutation.
Qed.

(** ** mrsequential.go *)

Record KeyValue := KV { Key : string; Value : string }.

Definition by_key (x y : KeyValue) : Prop := string_le (Key x) (Key y).

(** [sort.Sort(ByKey(l))] leaves some permutation in which no later element is
    less than an earlier one. *)
Definition sort_Sort (l l' : list KeyValue) : Prop := l' ≡ₚ l ∧ StronglySorted by_key l'.

Section sequential.
Context (mapf : string → string → list KeyValue) (reducef : string → list string → string).

(** Reading and mapping the files; a file that cannot be read is [None]. *)
Definition map_files (files : list (string * option string)) : res (list KeyValue) :=
  res_fold (λ inter '(filename, content),
    match content with
    | Some c => Ret (inter ++ mapf filename c)
    | None => Stop LogFatal
    end) [] files.

(** [j++] while the key at [j] is the one at [i]. *)
Fixpoint scan (fuel : nat) (inter : list KeyValue) (key : string) (j : nat) : nat :=
  match fuel with
  | O => j
  | S fuel =>
      match inter !! j with
      | Some kv => if decide (Key kv = key) then scan fuel inter key (S j) else j
      | None => j
      end
  end.

(** The values of the run [i..j), and the loop over the runs: the lines of the
    output, each a key and the result of Reduce. *)
Definition values_of (inter : list KeyValue) (i j : nat) : list string :=
  Value <$> take (j - i) (drop i inter).

Fixpoint reduce_loop (fuel : nat) (inter : list KeyValue) (i : nat) : res (list (string * string)) :=
  match inter !! i with
  | None => Ret []                                 (* i < len(intermediate) fails *)
  | Some kv =>
      match fuel with
      | O => Stop OutOfFuel
      | S fuel =>
          let j := scan (length inter) inter (Key kv) (S i) in
          let output := reducef (Key kv) (values_of inter i j) in
          let* rest := reduce_loop fuel inter j in
          Ret ((Key kv, output) :: rest)
      end
  end.

(** main: a possible output of the program. *)
Definition mrsequential (files : list (string * option string)) (out : res (list (string * string)))
    : Prop :=
  match map_files files with
  | Stop f => out = Stop f
  | Ret inter =>
      ∃ sorted, sort_Sort inter sorted ∧ out = reduce_loop (length sorted) sorted 0
  end.

End sequential.

(** ** The reference: runs of equal keys *)

Section runs.
Context (reducef : string → list string → string).

Definition values_for (key : string) (l : list KeyValue) : list string :=
  Value <$> filter (λ kv, Key kv = key) l.

(** The leading run of a list, and what follows it. *)
Fixpoint run (key : string) (l : list KeyValue) : nat :=
  match l with
  | kv :: l => if decide (Key kv = key) then S (run key l) else 0
  | [] => 0
  end.

Lemma run_le key l : (run key l ≤ length l)%nat.
Proof. induction l as [|kv l IH]; simpl; [lia|]. case_decide; lia. Qed.

Lemma scan_run inter key j fuel :
  (length inter - j ≤ fuel)%nat → scan fuel inter key j = (j + run key (drop j inter))%nat.
Proof.
  revert j. induction fuel as [|fuel IH]; intros j Hf.
  { rewrite drop_ge by lia. simpl. lia. }
  simpl. destruct (inter !! j) as [kv|] eqn:Hj.
  - rewrite (drop_S _ kv) by done. simpl. case_decide; [|lia]. rewrite IH by lia. lia.
  - rewrite drop_ge by (by apply lookup_ge_None). simpl. lia.
Qed.

(** In a sorted list the leading run holds every occurrence of its key. *)
Lemma sorted_run l key :
  StronglySorted by_key l → (∀ kv, kv ∈ l → string_le key (Key kv)) →
  filter (λ kv, Key kv = key) l = take (run key l) l ∧
  ∀ kv, kv ∈ drop (run key l) l → Key kv ≠ key.
Proof.
  induction 1 as [|kv l Hs IH Hf]; intros Hkey; [split; [done|set_solver]|].
  simpl. rewrite filter_cons. destruct (decide (Key kv = key)) as [Hk|Hk]; simpl.
  - destruct IH as [-> ?]; [set_solver|done].
  - assert (∀ kv', kv' ∈ l → Key kv' ≠ key) as Hno.
    { intros kv' Hin Heq. rewrite list.Forall_forall in Hf. specialize (Hf kv' Hin). unfold by_key in Hf.
      apply Hk. apply (anti_symm string_le); [by rewrite <-Heq|]. apply Hkey. set_solver. }
    split; [by apply filter_none|set_solver].
Qed.

Lemma StronglySorted_drop {A} (R : A → A → Prop) n l : StronglySorted R l → StronglySorted R (drop n l).
Proof.
  revert n. induction l as [|x l IH]; intros [|n] Hs; simpl; try done.
  apply IH. by inversion Hs.
Qed.

(** What the loop does from position [i] of a sorted list: one line per key, in
    increasing order, each the reduction of all its values. *)
Definition reduced (l : list KeyValue) (out : list (string * string)) : Prop :=
  StronglySorted string_lt out.*1 ∧
  (∀ key, key ∈ out.*1 ↔ key ∈ Key <$> l) ∧
  (∀ key v, (key, v) ∈ out → v = reducef key (values_for key l)).

Lemma reduce_loop_spec fuel inter i :
  (length inter - i ≤ fuel)%nat → StronglySorted by_key (drop i inter) →
  ∃ out, reduce_loop reducef fuel inter i = Ret out ∧ reduced (drop i inter) out.
Proof.
  revert i. induction fuel as [|fuel IH]; intros i Hf Hs; simpl.
  - rewrite lookup_ge_None_2 by lia. exists []. split; [done|]. rewrite drop_ge by lia.
    split_and!; [constructor|done|set_solver].
  - destruct (inter !! i) as [kv|] eqn:Hi.
    2:{ exists []. split; [done|]. rewrite drop_ge by (by apply lookup_ge_None).
        split_and!; [constructor|done|set_solver]. }
    rewrite (drop_S _ kv) in Hs by done. inversion Hs as [|? ? Hs' Hle]; subst.
    rewrite list.Forall_forall in Hle.
    rewrite scan_run by (apply lookup_lt_Some in Hi; lia).
    set (n := run (Key kv) (drop (S i) inter)).
    assert (drop (S i + n) inter = drop n (drop (S i) inter)) as Hdrop by (rewrite drop_drop; f_equal; lia).
    destruct (IH (S i + n)%nat) as (out & Hout & Hlt & Hkeys & Hvals);
      [lia|rewrite Hdrop; by apply StronglySorted_drop|].
    destruct (sorted_run (drop (S i) inter) (Key kv) Hs' Hle) as [Hrun Hrest]. fold n in Hrun, Hrest.
    rewrite Hdrop in Hkeys, Hvals.
    assert (∀ key, key ≠ Key kv →
      values_for key (drop i inter) = values_for key (drop n (drop (S i) inter))) as Hother.
    { intros key Hne. unfold values_for. rewrite (drop_S _ kv) by done. rewrite filter_cons_False by done.
      rewrite <-(take_drop n (drop (S i) inter)) at 1. rewrite list.filter_app, <-Hrun.
      replace (filter (λ kv, Key kv = key) (filter _ _)) with (@nil KeyValue); [done|].
      symmetry. apply filter_none. intros x [Hx _]%list_elem_of_filter. congruence. }
    rewrite Hout. simpl. eexists. split; [done|]. split_and!.
    + rewrite fmap_cons. constructor; [done|]. apply list.Forall_forall. simpl. intros key Hkey.
      apply Hkeys in Hkey. apply list_elem_of_fmap in Hkey as (x & -> & Hx).
      split; [|intros Heq; by apply (Hrest x)].
      apply Hle. rewrite <-(take_drop n (drop (S i) inter)). set_solver.
    + intros key. rewrite fmap_cons, (drop_S _ kv), fmap_cons, !elem_of_cons, Hkeys by done.
      rewrite <-(take_drop n (drop (S i) inter)) at 2. rewrite fmap_app, elem_of_app.
      rewrite <-Hrun. split; [naive_solver|]. intros [?|[Hin|?]]; auto. left.
      apply list_elem_of_fmap in Hin as (x & -> & [? _]%list_elem_of_filter). done.
    + intros key v [[= -> ->]|Hin]%elem_of_cons.
      * f_equal. unfold values_of, values_for. rewrite (drop_S _ kv) by done.
        rewrite filter_cons_True by done. replace (S (i + n) - i)%nat with (S n) by lia.
        rewrite Hrun. done.
      * rewrite Hother; [by apply Hvals|]. intros ->.
        assert (Key kv ∈ out.*1) as (x & Heq & Hx)%Hkeys%list_elem_of_fmap
          by (apply list_elem_of_fmap; by exists (Key kv, v)).
        by destruct (Hrest x Hx).
Qed.
End runs.

(** ** The applications *)

(** [strconv.Itoa(len(l))] and [strings.Join] *)
Definition itoa_len {A} (l : list A) : string := pretty (Z.of_nat (length l)).
Fixpoint join (sep : string) (l : list string) : string :=
  match l with
  | [] => ""
  | [s] => s
  | s :: l => s +:+ sep +:+ join sep l
  end.

Section words.
(** [utf8.DecodeRuneInString] at a byte that is not ASCII: the rune and its width;
    [unicode.IsLetter] of a rune that is not ASCII.  The width of a rune of a string
    that is not empty is at least one. *)
Context (decode_multi : string → Z * nat) (letter_unicode : Z → bool).

Definition decode_rune (s : string) : Z * nat :=
  match s with
  | EmptyString => (65533, 0%nat)
  | String c _ =>
      let n := Z.of_N (N_of_ascii c) in
      if bool_decide (n < 128) then (n, 1%nat)
      else let (r, w) := decode_multi s in (r, max w 1)
  end.
Definition is_letter (r : Z) : bool :=
  if bool_decide (r < 128) then
    bool_decide (65 ≤ r ≤ 90) || bool_decide (97 ≤ r ≤ 122)
  else letter_unicode r.

(** [strings.FieldsFunc] with the separators of the applications: the maximal runs
    of letters.  [cur] is the word being read. *)
Definition flush (cur : string) : list string := if bool_decide (cur = "") then [] else [cur].
Fixpoint fields (fuel : nat) (s cur : string) : list string :=
  match fuel, s with
  | S fuel, String _ _ =>
      let (r, w) := decode_rune s in
      let rest := String.substring w (String.length s - w) s in
      if is_letter r then fields fuel rest (cur +:+ String.substring 0 w s)
      else flush cur ++ fields fuel rest ""
  | _, _ => flush cur
  end.
Definition FieldsFunc (s : string) : list string := fields (String.length s) s "".

(** *** wc.go *)
Definition wc_Map (filename contents : string) : list KeyValue :=
  (λ w, KV w "1") <$> FieldsFunc contents.
Definition wc_Reduce (key : string) (values : list string) : string := itoa_len values.

(** *** indexer.go: the words of the document once each, in the order [ks] in which
    the map is ranged over *)
Definition indexer_words (value : string) : gmap string bool :=
  fold_left (λ m w, <[w := true]> m) (FieldsFunc value) ∅.
Definition indexer_Map (document : string) (ks : list string) : list KeyValue :=
  (λ w, KV w document) <$> ks.
Definition indexer_Reduce (key : string) (values : list string) : string :=
  let values := sort_Strings values in
  itoa_len values +:+ " " +:+ join "," values.
End words.

(** *** early_exit.go; the sleep of Reduce has no effect on its result *)
Definition early_exit_Map (filename contents : string) : list KeyValue := [KV filename "1"].
Definition early_exit_Reduce (key : string) (values : list string) : string := itoa_len values.

(** *** crash.go and nocrash.go; [rr] is the random number below 1000 that was
    drawn, os.Exit(1) ends the process *)
Definition crash_maybeCrash (rr : Z) : res () := if bool_decide (rr < 330) then Stop LogFatal else Ret tt.
Definition nocrash_maybeCrash (rr : Z) : res () :=
  if false && bool_decide (rr < 500) then Stop LogFatal else Ret tt.

Definition crash_kva (filename contents : string) : list KeyValue :=
  [KV "a" filename; KV "b" (pretty (Z.of_nat (String.length filename)));
   KV "c" (pretty (Z.of_nat (String.length contents))); KV "d" "xyzzy"].
Definition crash_val (values : list string) : string := join " " (sort_Strings values).

Definition crash_Map (rr : Z) (filename contents : string) : res (list KeyValue) :=
  let* _ := crash_maybeCrash rr in Ret (crash_kva filename contents).
Definition crash_Reduce (rr : Z) (key : string) (values : list string) : res string :=
  let* _ := crash_maybeCrash rr in Ret (crash_val values).
Definition nocrash_Map (rr : Z) (filename contents : string) : res (list KeyValue) :=
  let* _ := nocrash_maybeCrash rr in Ret (crash_kva filename contents).
Definition nocrash_Reduce (rr : Z) (key : string) (values : list string) : res string :=
  let* _ := nocrash_maybeCrash rr in Ret (crash_val values).

(** ** Applications whose Reduce does not depend on the order of the values *)

Class OrderFree (reducef : string → list string → string) :=
  order_free : ∀ key vs vs', vs ≡ₚ vs' → reducef key vs = reducef key vs'.

Global Instance wc_order_free : OrderFree wc_Reduce.
Proof. intros key vs vs' Hp. unfold wc_Reduce, itoa_len. by rewrite Hp. Qed.
Global Instance indexer_order_free : OrderFree indexer_Reduce.
Proof. intros key vs vs' Hp. unfold indexer_Reduce. by rewrite (sort_Strings_perm _ _ Hp). Qed.
Global Instance early_exit_order_free : OrderFree early_exit_Reduce.
Proof. intros key vs vs' Hp. unfold early_exit_Reduce, itoa_len. by rewrite Hp. Qed.
Global Instance crash_val_order_free : OrderFree (λ _, crash_val).
Proof. intros key vs vs' Hp. unfold crash_val. by rewrite (sort_Strings_perm _ _ Hp). Qed.

Lemma values_for_perm key l l' : l ≡ₚ l' → values_for key l ≡ₚ values_for key l'.
Proof. intros Hp. unfold values_for. by rewrite Hp. Qed.

(** Sorted outputs with the same keys and the same lines are equal. *)
Lemma string_lt_unique (l l' : list string) :
  StronglySorted string_lt l → StronglySorted string_lt l' → (∀ x, x ∈ l ↔ x ∈ l') → l = l'.
Proof.
  intros Hl Hl' Heq. apply (StronglySorted_unique_strong string_lt); [|done|done|].
  - intros x y _ _ [H1 _] [H2 _]. by apply (anti_symm string_le).
  - assert (∀ k, StronglySorted string_lt k → NoDup k) as Hnd.
    { induction 1 as [|x k Hk IH Hf]; constructor; [|done]. intros Hin.
      rewrite list.Forall_forall in Hf. by destruct (Hf x Hin). }
    apply NoDup_Permutation; auto.
Qed.

Lemma lines_eq (f : string → string) (l l' : list (string * string)) :
  l.*1 = l'.*1 → (∀ x, x ∈ l → x.2 = f x.1) → (∀ x, x ∈ l' → x.2 = f x.1) → l = l'.
Proof.
  revert l'. induction l as [|[k v] l IH]; intros [|[k' v'] l'] Hk Hl Hl'; try done.
  rewrite !fmap_cons in Hk. simplify_eq/=. f_equal; [|apply IH; set_solver].
  pose proof (Hl (k', v) ltac:(set_solver)). pose proof (Hl' (k', v') ltac:(set_solver)).
  simpl in *. congruence.
Qed.

End MapReduce.
