(* ===== verification/MapReduceSpec.v ===== *)
(** * Properties of sequential MapReduce (main/mrsequential.go, mrapps)

    The output has one line per distinct key, in order, with the reduction of all
    its values; it does not depend on what the unstable sort does when Reduce does
    not depend on the order of values; with the word-count application the lines
    are the numbers of occurrences. *)

From stdpp Require Import pretty.
From S2P Require Import Prelude MapReduce.
Import MapReduce.

(** The intermediate pairs of files that can all be read. *)
Definition mapped (mapf : string → string → list KeyValue) (files : list (string * string)) :
    list KeyValue := mjoin ((λ f, mapf f.1 f.2) <$> files).
Definition readable (files : list (string * string)) : list (string * option string) :=
  (λ f, (f.1, Some f.2)) <$> files.

Lemma map_files_readable mapf files : map_files mapf (readable files) = Ret (mapped mapf files).
Proof.
  unfold map_files, mapped. change (mjoin _) with ([] ++ mjoin ((λ f, mapf f.1 f.2) <$> files)).
  generalize (@nil KeyValue) as acc. induction files as [|[n c] files IH]; intros acc; simpl.
  - by rewrite app_nil_r.
  - rewrite IH. by rewrite (assoc_L (++)).
Qed.

(** C30. mrsequential groups by key: whatever permutation the sort leaves, the
    program ends, its output lists every key that Map emitted exactly once, in
    strictly increasing order, and the line of a key is Reduce applied to all the
    values emitted for it, in some order. *)
Theorem mrsequential_groups mapf reducef files out :
  mrsequential mapf reducef (readable files) out →
  ∃ lines, out = Ret lines ∧ StronglySorted string_lt lines.*1 ∧
    (∀ key, key ∈ lines.*1 ↔ key ∈ Key <$> mapped mapf files) ∧
    (∀ key v, (key, v) ∈ lines →
       ∃ vs, vs ≡ₚ values_for key (mapped mapf files) ∧ v = reducef key vs).
Proof.
  unfold mrsequential. rewrite map_files_readable. intros (l & [Hp Hs] & ->).
  destruct (reduce_loop_spec reducef (length l) l 0) as (lines & Heq & Hlt & Hkeys & Hvals);
    [lia|by rewrite drop_0|]. rewrite drop_0 in *.
  exists lines. split_and!; [done|done| |].
  - intros key. rewrite Hkeys. by rewrite Hp.
  - intros key v Hin. exists (values_for key l). split; [by apply values_for_perm|by apply Hvals].
Qed.

(** Two small documents. *)
Definition docs : list (string * string) := [("f1", "b a b"); ("f2", "a, c!")].
Definition no_multi (_ : string) : Z * nat := (65533, 1%nat).
Definition no_letter (_ : Z) : bool := false.
Abbreviation wc_map := (wc_Map no_multi no_letter).
Definition wc_lines : list (string * string) := [("a", "2"); ("b", "2"); ("c", "1")].

Lemma docs_run : mrsequential wc_map wc_Reduce (readable docs) (Ret wc_lines).
Proof.
  unfold mrsequential. rewrite map_files_readable.
  exists [KV "a" "1"; KV "a" "1"; KV "b" "1"; KV "b" "1"; KV "c" "1"].
  split; [split|vm_compute; reflexivity].
  - replace (mapped wc_map docs) with [KV "b" "1"; KV "a" "1"; KV "b" "1"; KV "a" "1"; KV "c" "1"]
      by (vm_compute; reflexivity). solve_Permutation.
  - repeat constructor; vm_compute; reflexivity.
Qed.

Lemma mrsequential_groups_witness :
  ∃ lines, Ret wc_lines = Ret lines ∧ StronglySorted string_lt lines.*1.
Proof.
  destruct (mrsequential_groups wc_map wc_Reduce docs (Ret wc_lines) docs_run)
    as (lines & H1 & H2 & _). exists lines. split; [exact H1|exact H2].
Defined.

(** The output is determined: when Reduce does not depend on the order of the
    values, as in the word-count, indexer, early_exit, crash and nocrash
    applications, any two runs on the same files give the same lines, although the
    sort is not stable. *)
Theorem mrsequential_deterministic mapf reducef `{!OrderFree reducef} files out out' :
  mrsequential mapf reducef (readable files) out →
  mrsequential mapf reducef (readable files) out' → out = out'.
Proof.
  unfold mrsequential. rewrite map_files_readable. intros (l & [Hp Hs] & ->) (l' & [Hp' Hs'] & ->).
  destruct (reduce_loop_spec reducef (length l) l 0) as (o & Heq & Hlt & Hkeys & Hvals);
    [lia|by rewrite drop_0|].
  destruct (reduce_loop_spec reducef (length l') l' 0) as (o' & Heq' & Hlt' & Hkeys' & Hvals');
    [lia|by rewrite drop_0|]. rewrite !drop_0 in *. rewrite Heq, Heq'. f_equal.
  apply (lines_eq (λ key, reducef key (values_for key (mapped mapf files)))).
  - apply string_lt_unique; [done|done|]. intros key. rewrite Hkeys, Hkeys', Hp, Hp'. done.
  - intros [key v] Hin. simpl. rewrite (Hvals key v Hin). by apply order_free, values_for_perm.
  - intros [key v] Hin. simpl. rewrite (Hvals' key v Hin). by apply order_free, values_for_perm.
Qed.

Lemma mrsequential_deterministic_witness : Ret wc_lines = Ret wc_lines.
Proof. exact (mrsequential_deterministic wc_map wc_Reduce docs _ _ docs_run docs_run). Defined.

(** Word count counts words: with the wc application, in any run, the line of
    a word holds the decimal number of its occurrences among the words of all the
    files, and exactly the words that occur have a line. *)
Theorem wc_counts multi letter files out :
  mrsequential (wc_Map multi letter) wc_Reduce (readable files) out →
  ∃ lines, out = Ret lines ∧
    let ws := mjoin ((λ f, FieldsFunc multi letter f.2) <$> files) in
    (∀ w, w ∈ lines.*1 ↔ 0 < occ w ws) ∧
    (∀ w v, (w, v) ∈ lines → v = pretty (occ w ws)).
Proof.
  unfold mrsequential. rewrite map_files_readable. intros (l & [Hp Hs] & ->).
  destruct (reduce_loop_spec wc_Reduce (length l) l 0) as (lines & Heq & _ & Hkeys & Hvals);
    [lia|by rewrite drop_0|]. rewrite drop_0 in *.
  exists lines. split; [done|]. cbv zeta.
  set (ws := mjoin ((λ f : string * string, FieldsFunc multi letter f.2) <$> files)).
  assert (mapped (wc_Map multi letter) files = (λ w, KV w "1") <$> ws) as Hmap.
  { unfold ws, mapped. clear. induction files as [|[n c] files IH]; [done|].
    rewrite !fmap_cons. simpl. rewrite fmap_app. f_equal. exact IH. }
  assert (Key <$> l ≡ₚ ws) as Hk.
  { rewrite Hp, Hmap, <-list_fmap_compose. clear. induction ws; simpl; by f_equiv. }
  split.
  - intros w. by rewrite Hkeys, Hk, occ_pos.
  - intros w v Hin. rewrite (Hvals w v Hin). unfold wc_Reduce, itoa_len, occ. do 2 f_equal.
    rewrite <-Hk. unfold values_for. rewrite length_fmap. clear.
    induction l as [|[k x] l IH]; [done|]. rewrite fmap_cons, !filter_cons. simpl.
    destruct (decide (k = w)) as [->|Hne].
    + rewrite decide_True by done. simpl. by rewrite IH.
    + by rewrite decide_False, IH by congruence.
Qed.

Lemma wc_counts_witness :
  ∃ lines, Ret wc_lines = Ret lines ∧ ("b", "2") ∈ lines ∧
    "2" = pretty (occ "b" (mjoin ((λ f, FieldsFunc no_multi no_letter f.2) <$> docs))).
Proof.
  destruct (wc_counts no_multi no_letter docs (Ret wc_lines) docs_run) as (lines & H1 & _ & H2).
  exists lines. split; [exact H1|]. injection H1 as <-. split; [set_solver|].
  apply H2. set_solver.
Defined.
