(* ===== verification/Models.v ===== *)
(** * The linearizability model of the key/value service (models1/kv.go)

    The tests hand the recorded operations to a linearizability checker together
    with [KvModel]: how to split a history by key, the initial state of one key,
    and which results an operation may have in a state.  The checker itself
    (porcupine) is outside the repository. *)

From S2P Require Import Prelude MapReduce.
Import MapReduce.

Module Models.

Record KvInput := MkIn { Op : Z; Key : string; InValue : string; InVersion : Z }.
Record KvOutput := MkOut { OutValue : string; OutVersion : Z; Err : string }.
Record KvState := MkSt { StValue : string; StVersion : Z }.

(** An operation of a history, with the times of its call and its return. *)
Record Operation := MkOp { ClientId : Z; Input : KvInput; Call : Z; Output : KvOutput; Return : Z }.

(** [m[key] = append(m[key], v)] over the history *)
Definition by_key_map (history : list Operation) : gmap string (list Operation) :=
  fold_left (λ m v, <[Key (Input v) := mget [] m (Key (Input v)) ++ [v]]> m) history ∅.
Definition Partition (history : list Operation) : list (list Operation) :=
  let m := by_key_map history in
  (λ k, mget [] m k) <$> sort_Strings (map_keys m).

Definition Init : KvState := MkSt "" 0.

(** Step: whether the output is allowed, and the next state; [None] stands for the
    invalid state of an unknown operation.  Versions are 64-bit. *)
Definition Step (st : KvState) (inp : KvInput) (out : KvOutput) : bool * option KvState :=
  if decide (Op inp = 0) then (bool_decide (OutValue out = StValue st), Some st)
  else if decide (Op inp = 1) then
    if decide (StVersion st = InVersion inp) then
      (bool_decide (Err out = "OK"%string) || bool_decide (Err out = "ErrMaybe"%string),
       Some (MkSt (InValue inp) (u64 (StVersion st + 1))))
    else
      (bool_decide (Err out = "ErrVersion"%string) || bool_decide (Err out = "ErrMaybe"%string),
       Some st)
  else (false, None).

(** ** Sequential histories *)

(** A sequence of operations on one key that the model accepts from a state. *)
Fixpoint legal (st : KvState) (ops : list Operation) : bool :=
  match ops with
  | [] => true
  | o :: ops =>
      match Step st (Input o) (Output o) with
      | (true, Some st') => legal st' ops
      | _ => false
      end
  end.

(** The same on a whole store, where every operation acts on its own key. *)
Fixpoint legal_store (m : gmap string KvState) (ops : list Operation) : bool :=
  match ops with
  | [] => true
  | o :: ops =>
      let k := Key (Input o) in
      match Step (mget Init m k) (Input o) (Output o) with
      | (true, Some st') => legal_store (<[k := st']> m) ops
      | _ => false
      end
  end.

Definition on_key (k : string) (ops : list Operation) : list Operation :=
  filter (λ o, Key (Input o) = k) ops.

Lemma legal_store_keys m ops :
  legal_store m ops = true ↔ ∀ k, legal (mget Init m k) (on_key k ops) = true.
Proof.
  revert m. induction ops as [|o ops IH]; intros m; [done|]. unfold on_key in *.
  cbn [legal_store]. set (k0 := Key (Input o)).
  assert (filter (λ o', Key (Input o') = k0) (o :: ops) = o :: filter (λ o', Key (Input o') = k0) ops) as Hk0
    by (by apply filter_cons_True).
  destruct (Step (mget Init m k0) (Input o) (Output o)) as [[|] [st'|]] eqn:Hst.
  - rewrite IH. split; intros H k; specialize (H k).
    + destruct (decide (k = k0)) as [->|Hne].
      * rewrite Hk0. cbn [legal]. rewrite Hst. by rewrite mget_insert_eq in H.
      * rewrite filter_cons_False by (by intros <-). by rewrite mget_insert_ne in H.
    + destruct (decide (k = k0)) as [->|Hne].
      * rewrite Hk0 in H. cbn [legal] in H. rewrite Hst in H. by rewrite mget_insert_eq.
      * rewrite filter_cons_False in H by (by intros <-). by rewrite mget_insert_ne.
  - split; [done|]. intros H. specialize (H k0). rewrite Hk0 in H. cbn [legal] in H. by rewrite Hst in H.
  - split; [done|]. intros H. specialize (H k0). rewrite Hk0 in H. cbn [legal] in H. by rewrite Hst in H.
  - split; [done|]. intros H. specialize (H k0). rewrite Hk0 in H. cbn [legal] in H. by rewrite Hst in H.
Qed.

(** ** Partition *)

Lemma by_key_map_lookup history k :
  by_key_map history !! k = match on_key k history with [] => None | l => Some l end.
Proof.
  unfold by_key_map, on_key. rewrite <-(rev_involutive history).
  induction (rev history) as [|o l IH]; [done|]. simpl. rewrite fold_left_app, list.filter_app. simpl.
  set (m := fold_left _ (rev l) ∅) in *. set (k0 := Key (Input o)).
  destruct (decide (k0 = k)) as [<-|Hne].
  - rewrite lookup_insert_eq. unfold mget. rewrite IH. rewrite filter_cons_True, filter_nil by done.
    by destruct (filter _ (rev l)).
  - rewrite lookup_insert_ne, IH by done. rewrite filter_cons_False, filter_nil by done.
    by rewrite app_nil_r.
Qed.

Lemma mget_by_key_map history k : mget [] (by_key_map history) k = on_key k history.
Proof. unfold mget. rewrite by_key_map_lookup. by destruct (on_key k history). Qed.

Lemma elem_of_sort_Strings l x : x ∈ sort_Strings l ↔ x ∈ l.
Proof. unfold sort_Strings. by rewrite merge_sort_Permutation. Qed.

Lemma elem_of_Partition history p :
  p ∈ Partition history ↔ ∃ k, p = on_key k history ∧ on_key k history ≠ [].
Proof.
  unfold Partition. rewrite list_elem_of_fmap. setoid_rewrite elem_of_sort_Strings.
  setoid_rewrite elem_of_map_keys. split.
  - intros (k & -> & [l Hl]). exists k. rewrite mget_by_key_map. split; [done|].
    rewrite by_key_map_lookup in Hl. by destruct (on_key k history).
  - intros (k & -> & Hne). exists k. rewrite mget_by_key_map. split; [done|].
    rewrite by_key_map_lookup. destruct (on_key k history); [done|by eexists].
Qed.

End Models.
