(* ===== verification/Texts.v ===== *)
(** * Random names and messages

    (Randstring and Fatalf of tester1/config.go, RandString, coordinatorSock and mkOut of
    mr/util.go, DescribeOperation of models1/kv.go)

    Random bytes are arguments.  Elsewhere the names that Randstring draws are a sequence
    without repetitions; here is what it makes of its bytes. *)

From stdpp Require Import pretty.
From Stdlib Require Import Strings.Ascii.
From S2P Require Import Prelude LabRpc MapReduce Models.

Module Texts.

(** ** encoding/base64, URLEncoding *)

Definition url_alphabet : list ascii :=
  String.list_ascii_of_string "ABCDEFGHIJKLMNOPQRSTUVWXYZabcdefghijklmnopqrstuvwxyz0123456789-_".
Definition enc6 (v : Z) : ascii := nth (Z.to_nat v) url_alphabet "="%char.

Fixpoint EncodeToString (bs : list Z) : list ascii :=
  match bs with
  | a :: b :: c :: bs =>
      enc6 (Z.shiftr a 2) :: enc6 (Z.lor (Z.shiftl (Z.land a 3) 4) (Z.shiftr b 4)) ::
      enc6 (Z.lor (Z.shiftl (Z.land b 15) 2) (Z.shiftr c 6)) :: enc6 (Z.land c 63) :: EncodeToString bs
  | [a; b] =>
      [enc6 (Z.shiftr a 2); enc6 (Z.lor (Z.shiftl (Z.land a 3) 4) (Z.shiftr b 4)); enc6 (Z.shiftl (Z.land b 15) 2); "="%char]
  | [a] => [enc6 (Z.shiftr a 2); enc6 (Z.shiftl (Z.land a 3) 4); "="%char; "="%char]
  | [] => []
  end.

(** ** Names

    crand.Read has filled the buffer with [bs], of length [2*n]; s[0:n] panics when the
    string is shorter. *)

Definition Randstring (n : nat) (bs : list Z) : res (list ascii) :=
  let s := EncodeToString bs in
  if decide (n ≤ length s)%nat then Ret (take n s) else Stop Panic.
Definition RandString : nat → list Z → res (list ascii) := Randstring.

Definition coordinatorSock (bs : list Z) : res string :=
  let* s := RandString 20 bs in Ret ("/tmp/5840-mr-" +:+ String.string_of_list_ascii s).
(** The directory that is made, and the global variable [tmp]. *)
Definition mkOut (bs : list Z) : res string :=
  let* s := RandString 8 bs in Ret ("mr-tmp-" +:+ String.string_of_list_ascii s).

(** ** Messages *)

(** Fatalf: the lines that it prints, for the frames (file and line) of the callers,
    innermost first, before it ends the test. *)
Definition Fatalf (message : string) (frames : list (string * Z)) : list string * fault :=
  match frames with
  | [] => (["Fatal: " +:+ message], Panic)
  | _ =>
      (("Fatal: " +:+ message) ::
         omap (λ '(file, line), if String.index 0 "test.go" file then Some ("        " +:+ file +:+ ":" +:+ pretty (line : Z)) else None)
           frames, FailNow)
  end.

Definition DescribeOperation (inp : Models.KvInput) (out : Models.KvOutput) : string :=
  if decide (Models.Op inp = 0) then
    "get('" +:+ Models.Key inp +:+ "') -> ('" +:+ Models.OutValue out +:+ "', '" +:+ pretty (Models.OutVersion out) +:+ "', '" +:+
      Models.Err out +:+ "')"
  else if decide (Models.Op inp = 1) then
    "put('" +:+ Models.Key inp +:+ "', '" +:+ Models.InValue inp +:+ "', '" +:+ pretty (Models.InVersion inp) +:+ "') -> ('" +:+
      Models.Err out +:+ "')"
  else "<invalid>".

(** ** Properties *)

Definition byte (b : Z) : Prop := 0 ≤ b < 256.
Definition bytes256 : list Z := Z.of_nat <$> seq 0 256.

Lemma byte_in b : byte b → b ∈ bytes256.
Proof. intros [? ?]. apply list_elem_of_fmap. exists (Z.to_nat b). rewrite elem_of_seq. lia. Qed.

(** A statement about two bytes can be checked on all of them. *)
Lemma two_bytes (P : Z → Z → bool) :
  forallb (λ a, forallb (P a) bytes256) bytes256 = true → ∀ a b, byte a → byte b → P a b = true.
Proof.
  rewrite forallb_forall. intros Hall a b Ha%byte_in%list_elem_of_In Hb%byte_in%list_elem_of_In.
  specialize (Hall a Ha). rewrite forallb_forall in Hall. by apply Hall.
Qed.

Definition six (v : Z) : Prop := 0 ≤ v < 64.

(** The four 6-bit values of three bytes. *)
Lemma sixes a b : byte a → byte b →
  Z.shiftr a 2 = a / 4 ∧ Z.lor (Z.shiftl (Z.land a 3) 4) (Z.shiftr b 4) = a mod 4 * 16 + b / 16 ∧
  Z.lor (Z.shiftl (Z.land a 15) 2) (Z.shiftr b 6) = a mod 16 * 4 + b / 64 ∧ Z.land a 63 = a mod 64 ∧
  Z.shiftl (Z.land a 15) 2 = a mod 16 * 4 ∧ Z.shiftl (Z.land a 3) 4 = a mod 4 * 16.
Proof.
  intros Ha Hb. pose proof (two_bytes (λ a b, (Z.shiftr a 2 =? a / 4) && (Z.lor (Z.shiftl (Z.land a 3) 4) (Z.shiftr b 4) =? a mod 4 * 16 + b / 16) &&
    (Z.lor (Z.shiftl (Z.land a 15) 2) (Z.shiftr b 6) =? a mod 16 * 4 + b / 64) && (Z.land a 63 =? a mod 64) &&
    (Z.shiftl (Z.land a 15) 2 =? a mod 16 * 4) && (Z.shiftl (Z.land a 3) 4 =? a mod 4 * 16)) ltac:(vm_compute; reflexivity) a b Ha Hb) as H.
  rewrite !andb_true_iff, !Z.eqb_eq in H. tauto.
Qed.

Lemma enc6_inj v w : six v → six w → enc6 v = enc6 w → v = w.
Proof.
  intros [? ?] [? ?] Heq. unfold enc6 in Heq. apply Z2Nat.inj; [lia..|].
  eapply NoDup_nth; [| | |exact Heq].
  - apply NoDup_ListNoDup, (bool_decide_unpack _). vm_compute. reflexivity.
  - change (length url_alphabet) with 64%nat. lia.
  - change (length url_alphabet) with 64%nat. lia.
Qed.

Lemma enc6_in v : six v → enc6 v ∈ url_alphabet.
Proof. intros [? ?]. apply list_elem_of_In, nth_In. change (length url_alphabet) with 64%nat. lia. Qed.

Ltac sixes := unfold six, byte in *; repeat match goal with |- _ ∧ _ => split end; try (apply Z.div_pos; lia);
  try (apply Z.div_lt_upper_bound; lia); Z.div_mod_to_equations; lia.

Lemma EncodeToString_cons a b c bs : byte a → byte b → byte c →
  EncodeToString (a :: b :: c :: bs) =
    enc6 (a / 4) :: enc6 (a mod 4 * 16 + b / 16) :: enc6 (b mod 16 * 4 + c / 64) :: enc6 (c mod 64) :: EncodeToString bs.
Proof.
  intros Ha Hb Hc. cbn [EncodeToString]. destruct (sixes a b Ha Hb) as (-> & -> & _).
  destruct (sixes b c Hb Hc) as (_ & _ & -> & _). by destruct (sixes c c Hc Hc) as (_ & _ & _ & -> & _).
Qed.

(** Whole groups of three bytes. *)
Lemma Encode_groups k bs :
  Forall byte bs → (3 * k ≤ length bs)%nat →
  take (4 * k) (EncodeToString bs) = take (4 * k) (EncodeToString (take (3 * k) bs)) ∧
  (4 * k ≤ length (EncodeToString bs))%nat ∧ Forall (λ c, c ∈ url_alphabet) (take (4 * k) (EncodeToString bs)).
Proof.
  revert bs. induction k as [|k IH]; intros bs Hb Hl; [rewrite !take_0; split_and!; [done|lia|constructor]|].
  destruct bs as [|a [|b [|c bs]]]; simpl in Hl; try lia.
  apply list.Forall_cons in Hb as [Ha Hb]. apply list.Forall_cons in Hb as [Hb Hb']. apply list.Forall_cons in Hb' as [Hc Hb'].
  replace (3 * S k)%nat with (S (S (S (3 * k)))) by lia. replace (4 * S k)%nat with (S (S (S (S (4 * k))))) by lia.
  rewrite !firstn_cons, !EncodeToString_cons by done. rewrite !firstn_cons.
  destruct (IH bs Hb') as (Heq & Hlen & Hall); [lia|]. split_and!; [by rewrite Heq|simpl; lia|].
  assert (six (a / 4) ∧ six (a mod 4 * 16 + b / 16) ∧ six (b mod 16 * 4 + c / 64) ∧ six (c mod 64)) as (? & ? & ? & ?) by sixes.
  repeat (apply list.Forall_cons; split; [by apply enc6_in|]). done.
Qed.

Lemma Encode_inj k bs bs' :
  Forall byte bs → Forall byte bs' → length bs = (3 * k)%nat → length bs' = (3 * k)%nat →
  take (4 * k) (EncodeToString bs) = take (4 * k) (EncodeToString bs') → bs = bs'.
Proof.
  revert bs bs'. induction k as [|k IH]; intros bs bs' Hb Hb' Hl Hl' Heq.
  { destruct bs, bs'; simpl in *; try lia; done. }
  destruct bs as [|a [|b [|c bs]]], bs' as [|a' [|b' [|c' bs']]]; simpl in Hl, Hl'; try lia.
  repeat match goal with H : Forall byte (_ :: _) |- _ => apply list.Forall_cons in H as [? H] end.
  replace (4 * S k)%nat with (S (S (S (S (4 * k))))) in Heq by lia. rewrite !EncodeToString_cons, !firstn_cons in Heq by done.
  injection Heq as E1 E2 E3 E4 Heq. apply enc6_inj in E1, E2, E3, E4; [|sixes..].
  assert (a = a' ∧ b = b' ∧ c = c') as (-> & -> & ->) by (unfold byte in *; Z.div_mod_to_equations; lia).
  do 3 f_equal. apply IH; [done..|lia|lia|done].
Qed.

(** The names that the tests draw.  From [8*k] random bytes, Randstring makes a name of
    exactly [4*k] characters, all of them letters, digits, minus and underscore, so no
    separator of file names; and it does not lose randomness beyond the length asked for:
    two names are equal exactly when the first [3*k] bytes are.  (The callers ask for 20 and
    8 characters.) *)
Theorem Randstring_names k bs :
  Forall byte bs → length bs = (2 * (4 * k))%nat →
  ∃ s, Randstring (4 * k) bs = Ret s ∧ length s = (4 * k)%nat ∧ Forall (λ c, c ∈ url_alphabet) s ∧
    ∀ bs' s', Forall byte bs' → length bs' = (2 * (4 * k))%nat → Randstring (4 * k) bs' = Ret s' →
      s = s' ↔ take (3 * k) bs = take (3 * k) bs'.
Proof.
  intros Hb Hl. destruct (Encode_groups k bs Hb) as (Heq & Hlen & Hall); [lia|].
  exists (take (4 * k) (EncodeToString bs)). unfold Randstring. rewrite decide_True by done.
  split_and!; [done|rewrite length_take; lia|done|]. intros bs' s' Hb' Hl' Hs'.
  destruct (Encode_groups k bs' Hb') as (Heq' & Hlen' & _); [lia|]. rewrite decide_True in Hs' by done. injection Hs' as Hs'. change (k + (k + (k + (k + 0))))%nat with (4 * k)%nat in Hs'.
  rewrite <-Hs', Heq, Heq'. split; [|by intros ->]. apply Encode_inj; [by apply Forall_take..|rewrite length_take; lia|rewrite length_take; lia].
Qed.
End Texts.
