(* ===== verification/KvTest.v ===== *)
(** * The key/value tests' helpers (kvtest1/kvtest.go, kvtest1/porcupine.go)

    The helpers drive a [Clerk] and record what it was asked and what it answered.
    The clerk is the program under test: it is an interface here ([IKVClerk]), a
    state and its two operations.  [SingleWriter] says what the labs promise of a
    clerk that is the only one to write a key.  The clock of the host is the
    parameter [clock], indexed by the number of times it was read.  Counters and
    indices of the tests stay far below the width of an int; versions wrap. *)

From stdpp Require Import pretty.
From S2P Require Import Prelude Models.
Import Models.

Module KvTest.

(** rpc.go *)
Definition OK : string := "OK".
Definition ErrNoKey : string := "ErrNoKey".
Definition ErrVersion : string := "ErrVersion".
Definition ErrMaybe : string := "ErrMaybe".

Class IKVClerk (W : Type) := {
  ck_Get : W → string → W * (string * Z * string);
  ck_Put : W → string → string → Z → W * string
}.

Section test.
Context {W : Type} `{IKVClerk W} (clock : nat → Z).

(** The clerk, the operation log, the operation counter, and the clock readings. *)
Record test := MkTest { ck : W; oplog : option (list Operation); ops : Z; ticks : nat }.

(** [time.Since(t0)] *)
Definition now (ts : test) : Z * test :=
  (clock (ticks ts), MkTest (ck ts) (oplog ts) (ops ts) (S (ticks ts))).
Definition OpInc (ts : test) : test := MkTest (ck ts) (oplog ts) (i32 (ops ts + 1)) (ticks ts).
(** OpLog.Append, when there is a log *)
Definition log_append (op : Operation) (ts : test) : test :=
  MkTest (ck ts) ((λ l, l ++ [op]) <$> oplog ts) (ops ts) (ticks ts).

(** Test.Get and the function Get *)
Definition ts_Get (key : string) (cli : Z) (ts : test) : (string * Z * string) * test :=
  let (start, ts) := now ts in
  let '(w, (val, ver, err)) := ck_Get (ck ts) key in
  let ts := MkTest w (oplog ts) (ops ts) (ticks ts) in
  let (fin, ts) := now ts in
  let ts := OpInc ts in
  ((val, ver, err),
   log_append (MkOp cli (MkIn 0 key "" 0) start (MkOut val ver err) fin) ts).

(** Test.Put, which unlike the function Put does not count the operation *)
Definition ts_Put (key value : string) (version cli : Z) (ts : test) : string * test :=
  let (start, ts) := now ts in
  let (w, err) := ck_Put (ck ts) key value version in
  let ts := MkTest w (oplog ts) (ops ts) (ticks ts) in
  let (fin, ts) := now ts in
  (err, log_append (MkOp cli (MkIn 1 key value version) start (MkOut "" 0 err) fin) ts).
Definition kv_Put (key value : string) (version cli : Z) (ts : test) : string * test :=
  let (start, ts) := now ts in
  let (w, err) := ck_Put (ck ts) key value version in
  let ts := MkTest w (oplog ts) (ops ts) (ticks ts) in
  let (fin, ts) := now ts in
  let ts := OpInc ts in
  (err, log_append (MkOp cli (MkIn 1 key value version) start (MkOut "" 0 err) fin) ts).

(** PutAtLeastOnce: the version after the put *)
Fixpoint PutAtLeastOnce (fuel : nat) (key value : string) (ver me : Z) (ts : test) : res (Z * test) :=
  match fuel with
  | O => Stop OutOfFuel
  | S fuel =>
      let (err, ts) := ts_Put key value ver me ts in
      if decide (err = OK) then Ret (u64 (ver + 1), ts)
      else if decide (err = ErrMaybe ∨ err = ErrVersion) then
        PutAtLeastOnce fuel key value (u64 (ver + 1)) me ts
      else if decide (ver ≠ 0) then Stop FailNow
      else PutAtLeastOnce fuel key value ver me ts
  end.

Definition CheckGet (key value : string) (version : Z) (ts : test) : res test :=
  let '((val, ver, err), ts) := ts_Get key 0 ts in
  if decide (err ≠ OK) then Stop FailNow
  else if decide (val ≠ value ∨ ver ≠ version) then Stop FailNow
  else Ret ts.
End test.
Arguments test : clear implicits.

Definition MakeKeys (n : nat) : list string := (λ i, "k" +:+ pretty (Z.of_nat i)) <$> seq 0 n.

(** ** The checks on results *)

Record ClntRes := MkRes { Nok : Z; Nmaybe : Z }.

(** CheckPutConcurrent on the version read: the sums over the clients *)
Definition add_res (res r : ClntRes) : ClntRes := MkRes (Nok res + Nok r) (Nmaybe res + Nmaybe r).
Definition CheckPutConcurrent (ver0 : Z) (rs : list ClntRes) (res : ClntRes) (reliable : bool)
    : Prelude.res ClntRes :=
  let res := fold_left add_res rs res in
  if reliable then
    if decide (ver0 ≠ u64 (Nok res)) then Stop FailNow else Ret res
  else if decide (ver0 > u64 (Nok res + Nmaybe res)) then Stop FailNow
  else Ret res.

Record EntryN := MkEntry { Id : Z; EN : Z }.
Global Instance EntryN_eq_dec : EqDecision EntryN.
Proof. solve_decision. Defined.
Global Instance EntryN_countable : Countable EntryN :=
  inj_countable' (λ e, (Id e, EN e)) (λ x, MkEntry x.1 x.2) (λ e, match e with MkEntry _ _ => eq_refl end).

(** CheckAppends: what is expected next of every client, and how many were skipped *)
Definition counts : Type := gmap Z Z * gmap Z Z.
Definition append_step (s : counts) (e : EntryN) : res counts :=
  let '(expect, skipped) := s in
  let x := mget 0 expect (Id e) in
  if decide (x > EN e) then Stop FailNow
  else if decide (x = EN e) then Ret (<[Id e := x + 1]> expect, skipped)
  else Ret (<[Id e := EN e + 1]> expect,
            <[Id e := mget 0 skipped (Id e) + (EN e - x)]> skipped).

Definition init_counts (nclnt : nat) : gmap Z Z :=
  fold_left (λ m i, <[Z.of_nat i := 0]> m) (seq 0 nclnt) ∅.

(** The last loop, over the clients in the order [order] of the range. *)
Definition check_client (s : counts) (rs : list ClntRes) (c : Z) : res () :=
  let* r := slice_get rs c in
  if decide (mget 0 s.2 c > Nmaybe r) then Stop FailNow
  else if decide (mget 0 s.1 c > Nok r + Nmaybe r) then Stop FailNow
  else Ret tt.
Definition CheckAppends (es : list EntryN) (nclnt : nat) (rs : list ClntRes) (ver : Z)
    (order : gmap Z Z → list Z) : res () :=
  let* s := res_fold append_step (init_counts nclnt, init_counts nclnt) es in
  if decide (Z.of_nat (length es) + 1 ≠ i64 ver) then Stop FailNow
  else res_fold (λ _ c, check_client s rs c) tt (order s.1).

(** ** What CheckAppends accepts *)

(** The numbers of client [c], in the order of the value. *)
Definition numbers (c : Z) (es : list EntryN) : list Z := EN <$> filter (λ e, Id e = c) es.
(** One more than the last number; zero when there is none. *)
Definition next_of (l : list Z) : Z := match list.last l with Some n => n + 1 | None => 0 end.
(** Strictly increasing from zero on. *)
Definition ascending (l : list Z) : Prop := StronglySorted (<) ((-1) :: l).

Lemma numbers_snoc c es e :
  numbers c (es ++ [e]) = numbers c es ++ (if decide (Id e = c) then [EN e] else []).
Proof.
  unfold numbers. rewrite list.filter_app, fmap_app. f_equal. rewrite filter_cons, filter_nil.
  by case_decide.
Qed.

Lemma ascending_snoc l x : ascending (l ++ [x]) ↔ ascending l ∧ next_of l ≤ x.
Proof.
  unfold ascending. rewrite app_comm_cons. unfold next_of. split.
  - intros Hs. apply StronglySorted_app in Hs as (Hl & Hs & _). split; [done|].
    destruct (list.last l) as [n|] eqn:Hlast.
    + apply last_Some_elem_of in Hlast. specialize (Hl n x ltac:(set_solver) ltac:(set_solver)). lia.
    + specialize (Hl (-1) x ltac:(set_solver) ltac:(set_solver)). lia.
  - intros [Hs Hle]. apply StronglySorted_app. split_and!; [|done|repeat constructor].
    intros y z Hy ->%list_elem_of_singleton.
    destruct (list.last l) as [n|] eqn:Hlast.
    + apply last_Some in Hlast as [l' ->]. rewrite app_comm_cons in Hs, Hy.
      apply StronglySorted_app in Hs as (Hs & _ & _).
      apply elem_of_app in Hy as [Hy| ->%list_elem_of_singleton]; [|lia].
      specialize (Hs y n Hy ltac:(set_solver)). lia.
    + apply last_None in Hlast as ->. apply list_elem_of_singleton in Hy as ->. lia.
Qed.

Lemma next_of_snoc l x : next_of (l ++ [x]) = x + 1.
Proof. unfold next_of. by rewrite last_snoc. Qed.

Definition counted (nclnt : nat) (es : list EntryN) (s : counts) : Prop :=
  ∀ c, mget 0 s.1 c = next_of (numbers c es) ∧
    mget 0 s.2 c = next_of (numbers c es) - Z.of_nat (length (numbers c es)) ∧
    (is_Some (s.1 !! c) ↔ 0 ≤ c < Z.of_nat nclnt ∨ c ∈ Id <$> es).
Definition in_order (es : list EntryN) : Prop := ∀ c, ascending (numbers c es).

Lemma in_order_snoc es e :
  in_order (es ++ [e]) ↔ in_order es ∧ next_of (numbers (Id e) es) ≤ EN e.
Proof.
  unfold in_order. setoid_rewrite numbers_snoc. split.
  - intros Hc. split.
    + intros c. specialize (Hc c). case_decide; [by apply ascending_snoc in Hc as [? _]|].
      by rewrite app_nil_r in Hc.
    + specialize (Hc (Id e)). rewrite decide_True in Hc by done. by apply ascending_snoc in Hc as [_ ?].
  - intros [Hc Hn] c. case_decide as Hd; [|by rewrite app_nil_r]. subst c.
    apply ascending_snoc. auto.
Qed.

Lemma append_step_counted n es e s :
  counted n es s →
  match append_step s e with
  | Ret s' => next_of (numbers (Id e) es) ≤ EN e ∧ counted n (es ++ [e]) s'
  | Stop f => EN e < next_of (numbers (Id e) es) ∧ f = FailNow
  end.
Proof.
  intros Hs. destruct s as [ex sk]. unfold append_step.
  destruct (Hs (Id e)) as (H1 & H2 & H3). simpl in H1, H2. rewrite H1.
  case_decide; [split; [lia|done]|].
  assert (∀ c x, is_Some (<[Id e := x]> ex !! c) ↔ 0 ≤ c < Z.of_nat n ∨ c ∈ Id <$> es ++ [e]) as Hdom.
  { intros c x. rewrite lookup_insert_is_Some', fmap_app, elem_of_app.
    change (Id <$> [e]) with [Id e]. rewrite list_elem_of_singleton.
    destruct (Hs c) as (_ & _ & Hc). simpl in *. rewrite Hc. split; [intros [->|[?|?]]|]; auto.
    intros [?|[?|?]]; auto. }
  case_decide as Heq; (split; [lia|]); intros c; rewrite numbers_snoc; cbn [fst snd];
    rewrite Hdom;
    (destruct (decide (Id e = c)) as [<-|Hne];
      [rewrite !next_of_snoc, ?mget_insert_eq, length_app; cbn [length]; rewrite ?H2; (split; [lia|split; [lia|done]])|
       rewrite app_nil_r, ?mget_insert_ne by done; destruct (Hs c) as (? & ? & _); done]).
Qed.

Lemma append_fold_counted n es0 es s :
  counted n es0 s → in_order es0 →
  match res_fold append_step s es with
  | Ret s' => in_order (es0 ++ es) ∧ counted n (es0 ++ es) s'
  | Stop f => ¬ in_order (es0 ++ es) ∧ f = FailNow
  end.
Proof.
  revert es0 s. induction es as [|e es IH]; intros es0 s Hs Ho; simpl.
  { by rewrite app_nil_r. }
  pose proof (append_step_counted n es0 e s Hs) as Hstep.
  replace (es0 ++ e :: es) with ((es0 ++ [e]) ++ es) by by rewrite <-(assoc_L (++)).
  destruct (append_step s e) as [s'|f]; simpl.
  - destruct Hstep. apply IH; [done|]. by apply in_order_snoc.
  - destruct Hstep as [Hlt ->]. split; [|done]. intros Hc.
    assert (in_order (es0 ++ [e])) as Hc'.
    { intros c. specialize (Hc c). unfold numbers in Hc. rewrite list.filter_app, fmap_app in Hc.
      unfold ascending in *. rewrite app_comm_cons in Hc. by apply StronglySorted_app in Hc as (_ & ? & _). }
    apply in_order_snoc in Hc' as [_ ?]. lia.
Qed.

Lemma init_counts_lookup n c :
  init_counts n !! c = if decide (0 ≤ c < Z.of_nat n) then Some 0 else None.
Proof.
  unfold init_counts. induction n as [|n IH].
  { rewrite decide_False by lia. apply lookup_empty. }
  rewrite seq_S, fold_left_app. simpl. destruct (decide (Z.of_nat n = c)) as [<-|Hne].
  - rewrite lookup_insert_eq, decide_True by lia. done.
  - rewrite lookup_insert_ne, IH by done. repeat case_decide; lia || done.
Qed.

Lemma counted_init n : counted n [] (init_counts n, init_counts n).
Proof.
  intros c. unfold mget. simpl. rewrite init_counts_lookup. case_decide; simpl.
  - split_and!; [done|done|]. split; [auto|by eexists].
  - split_and!; [done|done|]. split; [by intros [? ?]|]. intros [?|?]; [done|]. set_solver.
Qed.

(** The last loop accepts when every client passes. *)
Lemma check_clients_Ret s rs l :
  res_fold (λ _ c, check_client s rs c) tt l = Ret tt ↔
  ∀ c, c ∈ l → check_client s rs c = Ret tt.
Proof.
  induction l as [|c l IH]; simpl; [split; [intros _; set_solver|done]|].
  setoid_rewrite elem_of_cons.
  destruct (check_client s rs c) as [[]|f] eqn:Hc; simpl.
  - rewrite IH. naive_solver.
  - split; [done|]. intros Hall. rewrite <-Hc. apply Hall. by left.
Qed.

Lemma check_client_Ret s rs c :
  check_client s rs c = Ret tt ↔
  0 ≤ c ∧ ∃ r, rs !! Z.to_nat c = Some r ∧ mget 0 s.2 c ≤ Nmaybe r ∧ mget 0 s.1 c ≤ Nok r + Nmaybe r.
Proof.
  unfold check_client, slice_get. case_decide; simpl; [|naive_solver lia].
  destruct (rs !! Z.to_nat c) as [r|]; simpl; [|naive_solver].
  repeat case_decide; naive_solver lia.
Qed.

(** What CheckAppends accepts, in terms of the numbers of the clients. *)
Lemma CheckAppends_Ret es nclnt rs ver order :
  (∀ m, range_order m (order m)) →
  CheckAppends es nclnt rs ver order = Ret tt ↔
    in_order es ∧ Z.of_nat (length es) + 1 = i64 ver ∧
    ∀ c, 0 ≤ c < Z.of_nat nclnt ∨ c ∈ Id <$> es →
      0 ≤ c ∧ ∃ r, rs !! Z.to_nat c = Some r ∧
        next_of (numbers c es) - Z.of_nat (length (numbers c es)) ≤ Nmaybe r ∧
        next_of (numbers c es) ≤ Nok r + Nmaybe r.
Proof.
  intros Hord. unfold CheckAppends.
  pose proof (append_fold_counted nclnt [] es _ (counted_init nclnt)) as Hfold. simpl in Hfold.
  specialize (Hfold ltac:(intros c; repeat constructor)).
  destruct (res_fold append_step _ es) as [s|f]; simpl.
  2:{ destruct Hfold as [Hno ->]. split; [done|]. by intros [? _]. }
  destruct Hfold as [Hin Hcnt]. case_decide as Hver.
  { split; [done|]. by intros (_ & ? & _). }
  rewrite check_clients_Ret. setoid_rewrite (range_order_elem _ _ _ (Hord s.1)).
  setoid_rewrite check_client_Ret. split.
  - intros Hall. split_and!; [done|lia|]. intros c Hc. destruct (Hcnt c) as (H1 & H2 & H3).
    apply H3 in Hc. specialize (Hall c Hc). by rewrite H1, H2 in Hall.
  - intros (_ & _ & Hall) c Hc. destruct (Hcnt c) as (H1 & H2 & H3). rewrite H1, H2.
    apply Hall. by apply H3.
Qed.

(** ** A clerk that is the only writer of a key *)

Section single.
Context {W : Type} `{IKVClerk W}.

(** What the labs document of such a clerk: [stored] is the value and version the
    server has for a key; a put at the current version is performed and answered
    with OK or, when a reply was lost, with ErrMaybe; [patience] bounds how often
    in a row replies are lost. *)
Class SingleWriter (stored : W → string → string * Z) (patience : W → nat) := {
  put_current w key value w' err :
    ck_Put w key value (stored w key).2 = (w', err) →
    (err = OK ∨ err = ErrMaybe ∧ (patience w' < patience w)%nat) ∧
    stored w' key = (value, u64 ((stored w key).2 + 1))
}.
End single.

End KvTest.
