(* ===== verification/KvDoc.v ===== *)
(** * The documented key/value server, and the model of the linearizability checker

    The server of kvsrv1 is a lab skeleton; its comments say what Get and Put have to
    answer.  Here a store that follows them, and what the model of models1/kv.go says of
    its answers. *)

From S2P Require Import Prelude Models KvTest.
Import Models KvTest.

Local Open Scope Z_scope.

Module KvDoc.

(** KVServer.Get: the value and version of a key that exists, otherwise ErrNoKey. *)
Definition doc_Get (m : gmap string (string * Z)) (key : string) (r : string * Z * string) : Prop :=
  match m !! key with
  | Some (val, ver) => r = (val, ver, OK)
  | None => r.2 = ErrNoKey
  end.

(** KVServer.Put: the value is updated if the version is that of the key, otherwise
    ErrVersion; a key that does not exist is installed at version 0, otherwise
    ErrNoKey. *)
Definition doc_Put (m : gmap string (string * Z)) (key value : string) (version : Z) :
    gmap string (string * Z) * string :=
  match m !! key with
  | Some (_, ver) => if decide (ver = version) then (<[key := (value, u64 (ver + 1))]> m, OK) else (m, ErrVersion)
  | None => if decide (version = 0) then (<[key := (value, 1)]> m, OK) else (m, ErrNoKey)
  end.

(** The store answers an operation of a history.  The reply of a Get that finds no key
    keeps its zero values. *)
Definition answer (m : gmap string (string * Z)) (inp : KvInput) : gmap string (string * Z) * KvOutput :=
  if decide (Op inp = 0) then
    (m, match m !! Key inp with Some (val, ver) => MkOut val ver OK | None => MkOut "" 0 ErrNoKey end)
  else let (m, err) := doc_Put m (Key inp) (InValue inp) (InVersion inp) in (m, MkOut "" 0 err).

(** A history: operations, each with the answer of the store at its turn. *)
Inductive served : gmap string (string * Z) → list Operation → Prop :=
| sv_nil m : served m []
| sv_cons m o ops : Op (Input o) = 0 ∨ Op (Input o) = 1 → Output o = (answer m (Input o)).2 →
    served (answer m (Input o)).1 ops → served m (o :: ops).

(** The states of the model that a store stands for. *)
Definition st_of (m : gmap string (string * Z)) (key : string) : KvState :=
  match m !! key with Some (val, ver) => MkSt val ver | None => Init end.

Definition no_key_put (o : Operation) : Prop := Op (Input o) = 1 ∧ Err (Output o) = ErrNoKey.

Lemma st_of_insert m k v n key : st_of (<[k := (v, n)]> m) key = if decide (key = k) then MkSt v n else st_of m key.
Proof.
  unfold st_of. case_decide as Hk; [subst; by rewrite lookup_insert_eq|]. by rewrite lookup_insert_ne.
Qed.

(** One operation. *)
Lemma answer_step m o :
  Op (Input o) = 0 ∨ Op (Input o) = 1 → Output o = (answer m (Input o)).2 →
  (no_key_put o ∧ (Step (st_of m (Key (Input o))) (Input o) (Output o)).1 = false) ∨
  (¬ no_key_put o ∧ ∃ st, Step (st_of m (Key (Input o))) (Input o) (Output o) = (true, Some st) ∧
    ∀ key, st_of (answer m (Input o)).1 key = if decide (key = Key (Input o)) then st else st_of m key).
Proof.
  unfold no_key_put, answer, Step, st_of. intros Hop Hout. rewrite Hout. clear Hout.
  destruct Hop as [Hop|Hop]; rewrite Hop.
  - right. split; [by intros [? _]|]. rewrite !decide_True by done. cbn [fst snd].
    destruct (m !! Key (Input o)) as [[val ver]|] eqn:Hk; (eexists; split; [by rewrite bool_decide_true|]);
      intros key; case_decide as Hkey; try done; subst; by rewrite Hk.
  - rewrite !(decide_False (P := 1 = 0)), decide_True by done. unfold doc_Put.
    destruct (m !! Key (Input o)) as [[val ver]|] eqn:Hk; cbn [StVersion StValue Init].
    + right. destruct (decide (ver = InVersion (Input o))) as [Hv|Hv]; cbn [fst snd Err];
        (split; [by intros [_ ?]|]); eexists; (split; [done|]); intros key; cbn [StVersion].
      * fold (st_of (<[Key (Input o) := (InValue (Input o), u64 (ver + 1))]> m) key). by rewrite st_of_insert.
      * case_decide as Hkey; [|done]. subst key. by rewrite Hk.
    + destruct (decide (InVersion (Input o) = 0)) as [Hv|Hv]; cbn [fst snd Err].
      * right. split; [by intros [_ ?]|]. rewrite decide_True by done. eexists. split; [done|]. intros key.
        fold (st_of (<[Key (Input o) := (InValue (Input o), 1)]> m) key). by rewrite st_of_insert.
      * left. rewrite decide_False by done. done.
Qed.

Lemma served_legal m M ops :
  served m ops → (∀ key, mget Init M key = st_of m key) →
  legal_store M ops = true ↔ Forall (λ o, ¬ no_key_put o) ops.
Proof.
  intros Hs. revert M. induction Hs as [m|m o ops Hop Hout _ IH]; intros M HM; [done|].
  cbn [legal_store]. rewrite HM, list.Forall_cons.
  destruct (answer_step m o Hop Hout) as [[Hno Hst]|(Hno & st & Hst & Hall)].
  - destruct (Step _ _ _) as [b st]. simpl in Hst. subst b. naive_solver.
  - rewrite Hst, IH; [naive_solver|]. intros key. rewrite Hall. unfold mget in *.
    case_decide as Hk; [subst; by rewrite lookup_insert_eq|]. rewrite lookup_insert_ne by done. apply HM.
Qed.
End KvDoc.
Import KvDoc.

(** C8. The model of the linearizability checker against the documented server.  A
    sequential history of a server that answers as documented, from an empty store, is
    legal in the model exactly when no put was answered with ErrNoKey: the model agrees
    with the documentation on every other answer, and rejects that one. *)
Theorem model_judges_documented ops :
  served ∅ ops → legal_store ∅ ops = true ↔ Forall (λ o, ¬ no_key_put o) ops.
Proof. intros Hs. apply (served_legal ∅ ∅ ops Hs). intros key. unfold mget, st_of. by rewrite !lookup_empty. Qed.

(** *** A witness: put, get, a put of an old version, and a put to a key that is not there *)

Definition op_of (i : KvInput) (o : KvOutput) : Operation := MkOp 0 i 0 o 0.
Definition good_history : list Operation :=
  [op_of (MkIn 1 "k" "a" 0) (MkOut "" 0 OK); op_of (MkIn 0 "k" "" 0) (MkOut "a" 1 OK);
   op_of (MkIn 1 "k" "b" 0) (MkOut "" 0 ErrVersion)].
Definition no_key_history : list Operation := good_history ++ [op_of (MkIn 1 "y" "b" 1) (MkOut "" 0 ErrNoKey)].

Lemma model_judges_documented_witness :
  legal_store ∅ good_history = true ∧ legal_store ∅ no_key_history = false.
Proof.
  assert (served ∅ good_history ∧ served ∅ no_key_history) as [Hg Hn]
    by (split; repeat (constructor; [by auto|by vm_compute|]); constructor).
  split; [apply (model_judges_documented _ Hg)|].
  - repeat (constructor; [intros [? ?]; discriminate|]). constructor.
  - apply not_true_iff_false. intros Hf%(model_judges_documented _ Hn). apply Forall_app in Hf as [_ Hf].
    inversion Hf as [|x y Hx]. apply Hx. split; reflexivity.
Defined.
