(* ===== verification/KvService.v ===== *)
(** * The clerks and the service that the test clients run against

    The KV servers of the repository are lab skeletons.  The test library only
    knows a clerk ([IKVClerk] in kvtest1/kvtest.go), whose calls kvsrv1/rpc/rpc.go
    and kvsrv1/client.go document: this is [ClerkService], with the documented
    behaviour as [ServiceLaws] and [ResendLaws].  The JSON package of the standard
    library is [Json], with its round trip as [JsonLaws].  On top of them, GetJson
    and PutJson of the test library. *)

From Stdlib Require Import Strings.Ascii.
From S2P Require Import Prelude Models KvTest.
Import KvTest.

Module KvService.

Class Json (A : Type) := { marshal : A → option string; unmarshal : string → option A }.
(** What json.Marshal promises for values without pointers, channels or functions. *)
Class JsonLaws (A : Type) `{Json A} := {
  marshal_total (a : A) : is_Some (marshal a);
  unmarshal_marshal (a : A) s : marshal a = Some s → unmarshal s = Some a
}.

(** ** The service behind the clerks *)

(** A state [W] of the service and of the messages between it and the clerks.
    A put is an attempt, with a number; [attempts] are the puts of all the clerks
    so far and [performed] those that changed the value. *)
Class ClerkService (W : Type) := {
  cur : W → string * Z;                           (** value and version of the key *)
  attempts : W → gmap nat (string * Z);
  performed : W → gset nat;
  svc_get : W → W → string * Z * string → Prop;       (** Get, with its result *)
  svc_send : W → W → string → Z → nat → Prop;         (** Put starts *)
  svc_reply : W → W → nat → string → Prop;           (** Put returns, with its result *)
  svc_run : W → W → Prop                             (** the service and the network *)
}.

(** The key does not change. *)
Definition same {W} `{ClerkService W} (w w' : W) : Prop :=
  cur w' = cur w ∧ attempts w' = attempts w ∧ performed w' = performed w.

(** Version 0 is that of a key that does not exist.
    Get of a key that exists returns its value and version,
    otherwise ErrNoKey.  Put is performed
    only at the version it names, which goes up by one; it is performed, or not,
    at any time after it was sent, also after the clerk has given up.  OK means
    that it was performed, ErrMaybe says nothing, and any other error that it was
    not and cannot be any more, because its version is over. *)
Class ServiceLaws (W : Type) `{ClerkService W} := {
  get_law w w' val ver err : svc_get w w' (val, ver, err) →
    same w w' ∧ ((cur w).2 ≠ 0 → err = OK ∧ (val, ver) = cur w) ∧
    ((cur w).2 = 0 → err = ErrNoKey);
  send_law w w' val ver id : svc_send w w' val ver id →
    attempts w !! id = None ∧ cur w' = cur w ∧ performed w' = performed w ∧
    attempts w' = <[id := (val, ver)]> (attempts w);
  reply_law w w' id err : svc_reply w w' id err →
    same w w' ∧ (err = OK → id ∈ performed w) ∧
    (err ≠ OK → err ≠ ErrMaybe →
      id ∉ performed w ∧ ∃ val ver, attempts w !! id = Some (val, ver) ∧ ver < (cur w).2);
  run_law w w' : svc_run w w' → same w w' ∨
    ∃ id val, attempts w !! id = Some (val, (cur w).2) ∧ attempts w' = attempts w ∧
      cur w' = (val, (cur w).2 + 1) ∧ performed w' = {[id]} ∪ performed w
}.

(** What a clerk does when it has to send a put again: it returns ErrMaybe when a
    later copy is answered with ErrVersion, so the version of the put is over.  The
    errors are those of rpc.go; ErrNoKey is for a key that does not exist. *)
Class ResendLaws (W : Type) `{ClerkService W} := {
  maybe_law w w' id : svc_reply w w' id ErrMaybe →
    ∃ val ver, attempts w !! id = Some (val, ver) ∧ ver < (cur w).2;
  errors_law w w' id err : svc_reply w w' id err →
    err = OK ∨ err = ErrVersion ∨ err = ErrMaybe ∨ (err = ErrNoKey ∧ (cur w).2 = 0)
}.

(** ** GetJson and PutJson *)

Section json.
Context {A : Type} `{Json A}.
(** GetJson, on what the clerk returned. *)
Definition GetJson (r : string * Z * string) : res (A * Z) :=
  let '(val, ver, err) := r in
  if decide (err = OK) then
    match unmarshal val with Some v => Ret (v, ver) | None => Stop FailNow end
  else Stop FailNow.
(** PutJson: what the clerk is given. *)
Definition PutJson (v : A) : res string :=
  match marshal v with Some s => Ret s | None => Stop FailNow end.
End json.

Lemma PutJson_unmarshal `{JsonLaws A} (v : A) s : PutJson v = Ret s → unmarshal s = Some v.
Proof.
  unfold PutJson. destruct (marshal v) as [s'|] eqn:Hm; [|done]. intros [= <-].
  by apply unmarshal_marshal.
Qed.

Lemma PutJson_total `{JsonLaws A} (v : A) f : PutJson v ≠ Stop f.
Proof. unfold PutJson. by destruct (marshal_total v) as [s ->]. Qed.

(** ** Instances

    A service whose messages are never lost, and a JSON of bits. *)

Record memory := MkMem { m_cur : string * Z; m_att : gmap nat (string * Z); m_perf : gset nat }.
Global Instance memory_service : ClerkService memory := {|
  cur := m_cur; attempts := m_att; performed := m_perf;
  svc_get w w' r := w' = w ∧ r = if decide ((m_cur w).2 = 0) then ("", 0, ErrNoKey) else (m_cur w, OK);
  svc_send w w' val ver id := m_att w !! id = None ∧
    w' = MkMem (m_cur w) (<[id := (val, ver)]> (m_att w)) (m_perf w);
  svc_reply w w' id err := w' = w ∧ (id ∈ m_perf w ∧ err = OK ∨ id ∉ m_perf w ∧ err = ErrVersion ∧
    ∃ val ver, m_att w !! id = Some (val, ver) ∧ ver < (m_cur w).2);
  svc_run w w' := ∃ id val, m_att w !! id = Some (val, (m_cur w).2) ∧
    w' = MkMem (val, (m_cur w).2 + 1) (m_att w) ({[id]} ∪ m_perf w)
|}.
Global Instance memory_laws : ServiceLaws memory.
Proof.
  split.
  - intros w w' val ver err [-> Hr]. split; [done|]. simpl. case_decide; simplify_eq/=; naive_solver.
  - by intros w w' val ver id [? ->].
  - intros w w' id err (-> & [[? ->]|(? & -> & ?)]); done.
  - intros w w' (id & val & ? & ->). right. by exists id, val.
Qed.

Global Instance memory_resend : ResendLaws memory.
Proof.
  split; [by intros w w' id (_ & [[_ ?]|(_ & ? & _)])|].
  intros w w' id err (_ & [[_ ->]|(_ & -> & _)]); auto.
Qed.

Fixpoint bits (p : positive) : string :=
  match p with
  | xH => ""
  | xO p => String "0"%char (bits p)
  | xI p => String "1"%char (bits p)
  end.
Fixpoint of_bits (s : string) : positive :=
  match s with
  | EmptyString => xH
  | String b s => if decide (b = "0"%char) then xO (of_bits s) else xI (of_bits s)
  end.
Lemma of_bits_bits p : of_bits (bits p) = p.
Proof. induction p; simpl; congruence. Qed.

Section bits_json.
Context {A : Type} `{Countable A}.
Definition bits_json : Json A := {|
  marshal a := Some (bits (encode a)); unmarshal s := decode (of_bits s) |}.
Lemma bits_json_laws : @JsonLaws A bits_json.
Proof.
  split; [by eexists|]. intros a s [= <-]. simpl. by rewrite of_bits_bits, decode_encode.
Qed.
End bits_json.

End KvService.
