(* ===== verification/KvAppend.v ===== *)
(** * Concurrent appenders of the test library (kvtest1/kvtest.go)

    [OneClientAppend] runs in several clients at once, on one key, each with a
    clerk of its own: a step relation interleaves the clients with the service
    of KvService.v. *)

From S2P Require Import Prelude Models KvTest KvService.
Import KvTest KvService.

Module KvAppend.

(** ** The clients *)

(** Where OneClientAppend is; [i], [nok] and [nmay] are its variables. *)
Inductive pc :=
| Select (i nok nmay : Z)                              (** the select of the outer loop *)
| Try (i nok nmay : Z)                                 (** the head of the inner loop *)
| Got (i nok nmay : Z) (es : list EntryN) (ver : Z)    (** es has been extended *)
| Wait (i nok nmay : Z) (id : nat)                     (** in ck.Put *)
| Done (r : ClntRes)
| Fatal.                                               (** ts.Fatalf *)

Section clients.
Context {W : Type} `{ServiceLaws W} `{JsonLaws (list EntryN)}.

(** The inner loop after GetJson, and after PutJson. *)
Definition after_get (me i nok nmay : Z) (r : res (list EntryN * Z)) : pc :=
  match r with
  | Ret (es, ver) => Got i nok nmay (es ++ [MkEntry me i]) ver
  | Stop _ => Fatal
  end.
Definition after_put (i nok nmay : Z) (err : string) : pc :=
  if decide (err = OK) then Select (i + 1) (nok + 1) nmay
  else if decide (err = ErrMaybe) then Select (i + 1) nok (nmay + 1)
  else Try i nok nmay.

Record world := MkWorld { svc : W; clients : gmap Z pc }.
Implicit Types w : world.
Definition goto (c : Z) (p : pc) (s : W) w : world := MkWorld s (<[c := p]> (clients w)).

(** Client [c] in the inner loop, between two selects. *)
Inductive work (c : Z) w : world → Prop :=
| s_get i nok nmay s r : clients w !! c = Some (Try i nok nmay) → svc_get (svc w) s r →
    work c w (goto c (after_get c i nok nmay (GetJson r)) s w)
| s_marshal i nok nmay es ver f : clients w !! c = Some (Got i nok nmay es ver) →
    PutJson es = Stop f → work c w (goto c Fatal (svc w) w)
| s_put i nok nmay es ver val s id : clients w !! c = Some (Got i nok nmay es ver) →
    PutJson es = Ret val → svc_send (svc w) s val ver id →
    work c w (goto c (Wait i nok nmay id) s w)
| s_reply i nok nmay id err s : clients w !! c = Some (Wait i nok nmay id) →
    svc_reply (svc w) s id err →
    work c w (goto c (after_put i nok nmay err) s w).

(** OneClientAppend of every client, and the service. *)
Inductive step w : world → Prop :=
| s_done c i nok nmay : clients w !! c = Some (Select i nok nmay) →
    step w (goto c (Done (MkRes nok nmay)) (svc w) w)
| s_default c i nok nmay : clients w !! c = Some (Select i nok nmay) →
    step w (goto c (Try i nok nmay) (svc w) w)
| s_work c w' : work c w w' → step w w'
| s_run s : svc_run (svc w) s → step w (MkWorld s (clients w)).

(** [nclnt] clients, and the key with an empty list at version 1. *)
Definition start (nclnt : nat) w : Prop :=
  (∀ c, clients w !! c = if decide (0 ≤ c < Z.of_nat nclnt) then Some (Select 0 0 0) else None) ∧
  attempts (svc w) = ∅ ∧ performed (svc w) = ∅ ∧
  (cur (svc w)).2 = 1 ∧ unmarshal (cur (svc w)).1 = Some [].

(** ** The invariant *)

(** The attempts that can still be performed on the value [es] add an entry to
    it; those of client [c], but for [skip], have numbers below [i]. *)
Definition live_below (s : W) (es : list EntryN) (c : Z) (skip : option nat) (i : Z) : Prop :=
  ∀ id val k, Some id ≠ skip → attempts s !! id = Some (val, (cur s).2) →
    unmarshal val = Some (es ++ [MkEntry c k]) → k < i.

Definition below (l : list Z) (i : Z) : Prop := ∀ k, k ∈ l → k < i.

(** The counters of a client. *)
Definition tally (i nok nmay : Z) : Prop := 0 ≤ nok ∧ 0 ≤ nmay ∧ nok + nmay = i.

(** A client about to append its [i]-th entry. *)
Definition idle (s : W) (es : list EntryN) (c i nok nmay : Z) : Prop :=
  tally i nok nmay ∧ below (numbers c es) i ∧ nok ≤ Z.of_nat (length (numbers c es)) ∧
  live_below s es c None i.

Definition pc_ok (s : W) (es : list EntryN) (c : Z) (p : pc) : Prop :=
  match p with
  | Select i nok nmay | Try i nok nmay => idle s es c i nok nmay
  | Got i nok nmay es' ver => idle s es c i nok nmay ∧ ver ≤ (cur s).2 ∧
      (ver = (cur s).2 → es' = es ++ [MkEntry c i])
  | Wait i nok nmay id =>
      tally i nok nmay ∧ live_below s es c (Some id) i ∧
      (∃ val ver, attempts s !! id = Some (val, ver) ∧
        (ver = (cur s).2 → unmarshal val = Some (es ++ [MkEntry c i]))) ∧
      if decide (id ∈ performed s)
      then below (numbers c es) (i + 1) ∧ nok + 1 ≤ Z.of_nat (length (numbers c es))
      else below (numbers c es) i ∧ nok ≤ Z.of_nat (length (numbers c es))
  | Done r => idle s es c (Nok r + Nmaybe r) (Nok r) (Nmaybe r)
  | Fatal => False
  end.

Record inv w (es : list EntryN) : Prop := {
  v_cur : unmarshal (cur (svc w)).1 = Some es;
  v_ver : (cur (svc w)).2 = Z.of_nat (length es) + 1;
  v_order : in_order es;
  v_ids e : e ∈ es → is_Some (clients w !! Id e);
  v_att id val ver : attempts (svc w) !! id = Some (val, ver) →
    ver ≤ (cur (svc w)).2 ∧
    (ver = (cur (svc w)).2 → ∃ c k, is_Some (clients w !! c) ∧
      unmarshal val = Some (es ++ [MkEntry c k]) ∧ next_of (numbers c es) ≤ k);
  v_perf id : id ∈ performed (svc w) →
    ∃ val ver, attempts (svc w) !! id = Some (val, ver) ∧ ver < (cur (svc w)).2;
  v_pc c p : clients w !! c = Some p → pc_ok (svc w) es c p
}.

Lemma pc_ok_same s s' es c p : same s s' → pc_ok s es c p → pc_ok s' es c p.
Proof.
  intros (Hc & Ha & Hp). unfold pc_ok, idle, live_below. by rewrite Hc, Ha, Hp.
Qed.

(** A client moves and the service keeps the key. *)
Lemma inv_goto w es c p p' s :
  inv w es → same (svc w) s → clients w !! c = Some p → pc_ok (svc w) es c p' →
  inv (goto c p' s w) es.
Proof.
  intros [Hcur Hver Hord Hids Hatt Hperf Hpc] Hs Hc Hp'. pose proof Hs as (Hsc & Hsa & Hsp).
  assert (Hdom : ∀ d, is_Some (clients w !! d) → is_Some (<[c := p']> (clients w) !! d)).
  { intros d ?. rewrite lookup_insert_is_Some'. by right. }
  constructor; simpl; rewrite ?Hsc, ?Hsa, ?Hsp; auto.
  - intros id val ver Hid. destruct (Hatt id val ver Hid) as [? Hl]. split; [done|].
    intros Heq. destruct (Hl Heq) as (d & k & ? & ? & ?). exists d, k. auto.
  - intros d q. rewrite lookup_insert_Some.
    intros [[<- <-]|[_ Hd]]; apply (pc_ok_same (svc w)); auto.
Qed.

Lemma entry_inj (es : list EntryN) c k c' k' :
  es ++ [MkEntry c k] = es ++ [MkEntry c' k'] → c = c' ∧ k = k'.
Proof. intros [= <- <-]%app_inv_head. done. Qed.

Lemma below_next l i : ascending l → below l i → 0 ≤ i → next_of l ≤ i.
Proof.
  intros Hl Hb Hi. unfold next_of. destruct (list.last l) as [n|] eqn:Hn; [|done].
  specialize (Hb n (last_Some_elem_of _ _ Hn)). lia.
Qed.

(** ** The steps *)

Lemma inv_put w es c i nok nmay es' ver val s id :
  inv w es → clients w !! c = Some (Got i nok nmay es' ver) → PutJson es' = Ret val →
  svc_send (svc w) s val ver id →
  inv (goto c (Wait i nok nmay id) s w) es.
Proof.
  intros Hinv Hc Hput Hsend. pose proof Hinv as [Hcur Hver Hord Hids Hatt Hperf Hpc].
  apply send_law in Hsend as (Hnew & Hsc & Hsp & Hsa).
  destruct (Hpc c _ Hc) as ((Hsum & Hbel & Hlen & Hlive) & Hle & Hgot).
  pose proof (PutJson_unmarshal _ _ Hput) as Hm.
  assert (Hnp : id ∉ performed (svc w)).
  { intros (? & ? & ? & _)%Hperf. congruence. }
  constructor; simpl; rewrite ?Hsc, ?Hsp, ?Hsa; try done.
  - intros e He. rewrite lookup_insert_is_Some'. right. auto.
  - intros id' val' ver'. rewrite lookup_insert_Some. intros [[<- [= <- <-]]|[_ Hid']].
    + split; [done|]. intros Heq. exists c, i. rewrite lookup_insert_eq.
      split; [by eexists|]. rewrite Hm, (Hgot Heq). split; [done|].
      apply below_next; [done|done|]. unfold tally in Hsum. lia.
    + destruct (Hatt _ _ _ Hid') as [? Hl]. split; [done|]. intros Heq.
      destruct (Hl Heq) as (d & k & ? & ? & ?). exists d, k.
      rewrite lookup_insert_is_Some'. auto.
  - intros id' Hid'. destruct (Hperf id' Hid') as (val' & ver' & ? & ?). exists val', ver'.
    rewrite lookup_insert_ne; [done|]. congruence.
  - intros d q. rewrite lookup_insert_Some. intros [[<- <-]|[Hne Hd]].
    + simpl. rewrite Hsa, Hsc, Hsp, decide_False by done.
      split; [done|]. split; [|split; [|done]].
      * intros id' val' k Hskip. rewrite Hsa, Hsc, lookup_insert_ne by congruence.
        by apply Hlive.
      * exists val, ver. rewrite lookup_insert_eq. split; [done|]. intros Heq.
        by rewrite Hm, (Hgot Heq).
    + apply Hpc in Hd. revert Hd.
      assert (Hl : ∀ skip j, live_below (svc w) es d skip j → live_below s es d skip j).
      { intros skip j Hl id' val' k Hskip. rewrite Hsa, Hsc, lookup_insert_Some.
        intros [[<- [= <- ->]]|[_ Hid']] Hun; [|by eapply Hl].
        rewrite Hm, (Hgot eq_refl) in Hun. injection Hun as Hun.
        by apply entry_inj in Hun as [? _]. }
      unfold pc_ok, idle. rewrite Hsc, Hsp, Hsa. destruct q; try tauto.
      * intros (? & ? & ? & ?). auto.
      * intros (? & ? & ? & ?). auto.
      * intros ((? & ? & ? & ?) & ? & ?). auto 6.
      * intros (? & ? & (val' & ver' & Hid' & ?) & ?). split_and!; auto.
        exists val', ver'. rewrite lookup_insert_ne by congruence. done.
      * intros (? & ? & ? & ?). auto.
Qed.

(** The numbers of a client when an entry is appended. *)
Lemma below_snoc c es d k i :
  below (numbers d es) i → (d = c → k < i) → below (numbers d (es ++ [MkEntry c k])) i.
Proof.
  intros Hb Hk j. rewrite numbers_snoc, elem_of_app. intros [?|Hj]; [auto|]. simpl in Hj.
  case_decide as Hd; [|set_solver]. apply list_elem_of_singleton in Hj as ->. auto.
Qed.

Lemma length_numbers_snoc c es d k :
  Z.of_nat (length (numbers d (es ++ [MkEntry c k]))) =
  Z.of_nat (length (numbers d es)) + if decide (c = d) then 1 else 0.
Proof. rewrite numbers_snoc, length_app. simpl. case_decide; simpl; lia. Qed.

Lemma idle_perform s s' es d i nok nmay id val c k :
  idle s es d i nok nmay → attempts s !! id = Some (val, (cur s).2) →
  unmarshal val = Some (es ++ [MkEntry c k]) →
  (∀ skip j, live_below s' (es ++ [MkEntry c k]) d skip j) →
  idle s' (es ++ [MkEntry c k]) d i nok nmay.
Proof.
  intros (Ht & Hb & Hn & Hl) Hid Hval Hl'. split; [done|]. split; [|split; [|done]].
  - apply below_snoc; [done|]. intros ->. by apply (Hl id val).
  - rewrite length_numbers_snoc. case_decide; lia.
Qed.

Lemma pc_ok_perform s s' es d q id val c k :
  pc_ok s es d q → attempts s !! id = Some (val, (cur s).2) →
  unmarshal val = Some (es ++ [MkEntry c k]) →
  (∀ id' val' ver', attempts s' !! id' = Some (val', ver') → ver' < (cur s').2) →
  (∀ d skip j, live_below s' (es ++ [MkEntry c k]) d skip j) →
  (∀ id, id ∈ performed s → ∃ val ver, attempts s !! id = Some (val, ver) ∧ ver < (cur s).2) →
  attempts s' = attempts s → cur s' = (val, (cur s).2 + 1) → performed s' = {[id]} ∪ performed s →
  pc_ok s' (es ++ [MkEntry c k]) d q.
Proof.
  intros Hq Hid Hval Hdead Hl' Hperf Hsa Hsc Hsp. destruct q as [i nok nmay|i nok nmay|i nok nmay es' ver|i nok nmay id'|r|];
    simpl in Hq |- *; [by eapply idle_perform..| | |by eapply idle_perform|done].
  - destruct Hq as (Hi & Hle & _). split; [by eapply idle_perform|].
    rewrite Hsc. simpl. split; [lia|]. lia.
  - destruct Hq as (Ht & Hl & (val' & ver' & Hid' & Hent) & Hnum).
    split; [done|]. split; [done|]. split.
    { exists val', ver'. rewrite Hsa. split; [done|]. intros Heq.
      rewrite <-Hsa in Hid'. specialize (Hdead _ _ _ Hid'). lia. }
    rewrite length_numbers_snoc. destruct (decide (id' = id)) as [->|Hne].
    + rewrite Hid in Hid'. injection Hid' as <- <-. rewrite (Hent eq_refl) in Hval.
      injection Hval as Hval. apply entry_inj in Hval as [-> ->].
      rewrite decide_False in Hnum.
      2:{ intros (? & ? & ? & ?)%Hperf. simplify_eq. lia. }
      destruct Hnum as [Hb Hn]. rewrite Hsp, decide_True, decide_True by set_solver.
      split; [|lia]. apply below_snoc; [|lia]. intros j Hj. specialize (Hb j Hj). lia.
    + assert (Hk : d = c → k < i).
      { intros ->. apply (Hl id val); [congruence|done|done]. }
      assert (Hiff : id' ∈ performed s' ↔ id' ∈ performed s) by (rewrite Hsp; set_solver).
      destruct (decide (id' ∈ performed s)) as [Hp|Hp].
      * rewrite decide_True by tauto. destruct Hnum as [Hb Hn].
        split; [apply below_snoc; [done|]; naive_solver lia|]. case_decide; lia.
      * rewrite decide_False by tauto. destruct Hnum as [Hb Hn].
        split; [by apply below_snoc|]. case_decide; lia.
Qed.

(** An attempt is performed: its entry is the last one now, and nothing that was
    sent before can be performed any more. *)
Lemma inv_perform w es s id val :
  inv w es → attempts (svc w) !! id = Some (val, (cur (svc w)).2) →
  attempts s = attempts (svc w) → cur s = (val, (cur (svc w)).2 + 1) →
  performed s = {[id]} ∪ performed (svc w) →
  ∃ e, inv (MkWorld s (clients w)) (es ++ [e]).
Proof.
  intros [Hcur Hver Hord Hids Hatt Hperf Hpc] Hid Hsa Hsc Hsp.
  destruct (Hatt _ _ _ Hid) as (_ & Hl). destruct (Hl eq_refl) as (c & k & Hc & Hval & Hk).
  exists (MkEntry c k).
  assert (Hdead : ∀ id' val' ver', attempts s !! id' = Some (val', ver') → ver' < (cur s).2).
  { intros id' val' ver'. rewrite Hsa, Hsc. intros Hid'.
    destruct (Hatt _ _ _ Hid') as [? _]. simpl. lia. }
  assert (Hlb : ∀ d skip i, live_below s (es ++ [MkEntry c k]) d skip i).
  { intros d skip i id' val' k' _ Hid' _. specialize (Hdead _ _ _ Hid'). lia. }
  constructor; simpl.
  - by rewrite Hsc.
  - rewrite Hsc, length_app. simpl. lia.
  - by apply in_order_snoc.
  - intros e. rewrite elem_of_app, list_elem_of_singleton. intros [He| ->]; auto.
  - intros id' val' ver' Hid'. specialize (Hdead _ _ _ Hid'). split; [lia|]. lia.
  - intros id'. rewrite Hsp, Hsa, Hsc, elem_of_union, elem_of_singleton. simpl. intros [->|Hp].
    + exists val, (cur (svc w)).2. split; [done|lia].
    + destruct (Hperf id' Hp) as (val' & ver' & ? & ?). exists val', ver'. split; [done|lia].
  - intros d q Hq. apply Hpc in Hq. by eapply pc_ok_perform.
Qed.

Lemma inv_run w es s : inv w es → svc_run (svc w) s → ∃ es', inv (MkWorld s (clients w)) es'.
Proof.
  intros Hinv [(Hc & Ha & Hp)|(id & val & Hid & Ha & Hc & Hp)]%run_law.
  - exists es. destruct Hinv as [Hcur Hver Hord Hids Hatt Hperf Hpc].
    constructor; simpl; rewrite ?Hc, ?Ha, ?Hp; try done.
    intros c p Hcp. by apply (pc_ok_same (svc w)); [|apply Hpc].
  - destruct (inv_perform w es s id val) as [e ?]; [done..|]. by exists (es ++ [e]).
Qed.

Lemma live_below_mono s es c id i j :
  live_below s es c (Some id) i → i ≤ j →
  (∀ val k, attempts s !! id = Some (val, (cur s).2) →
    unmarshal val = Some (es ++ [MkEntry c k]) → k < j) →
  live_below s es c None j.
Proof.
  intros Hl Hij Hid id' val k _ Ha Hu. destruct (decide (id' = id)) as [->|Hne]; [by eapply Hid|].
  specialize (Hl id' val k ltac:(congruence) Ha Hu). lia.
Qed.

(** The put returns: whatever the error, the client is where it should be. *)
Lemma pc_ok_after_put w es c i nok nmay id err s :
  inv w es → clients w !! c = Some (Wait i nok nmay id) → svc_reply (svc w) s id err →
  pc_ok (svc w) es c (after_put i nok nmay err).
Proof.
  intros Hinv Hc Hr. destruct (v_pc _ _ Hinv c _ Hc) as ((? & ? & ?) & Hl & (val & ver & Hid & Hent) & Hnum).
  apply reply_law in Hr as (_ & HOK & Hother).
  assert (Hown : ∀ val k, attempts (svc w) !! id = Some (val, (cur (svc w)).2) →
    unmarshal val = Some (es ++ [MkEntry c k]) → k = i).
  { intros val' k Hid' Hu. rewrite Hid in Hid'. injection Hid' as -> ->.
    rewrite (Hent eq_refl) in Hu. injection Hu as Hu. by apply entry_inj in Hu as [_ ?]. }
  unfold after_put. destruct (decide (err = OK)) as [He|He]; [|destruct (decide (err = ErrMaybe)) as [Hm|Hm]]; unfold pc_ok, idle.
  - destruct (decide (id ∈ performed (svc w))) as [Hp|Hp]; [|naive_solver].
    destruct Hnum as [Hb Hn]. split; [unfold tally; lia|]. split; [done|]. split; [lia|].
    eapply live_below_mono; [done|lia|]. intros val' k Ha Hu. rewrite (Hown val' k Ha Hu). lia.
  - split; [unfold tally; lia|]. split; [|split].
    + destruct (decide (id ∈ performed (svc w))); destruct Hnum as [Hb _]; [done|].
      intros j Hj. specialize (Hb j Hj). lia.
    + destruct (decide (id ∈ performed (svc w))); lia.
    + eapply live_below_mono; [done|lia|]. intros val' k Ha Hu. rewrite (Hown val' k Ha Hu). lia.
  - destruct (Hother He Hm) as (Hp & val' & ver' & Hid' & Hlt). rewrite decide_False in Hnum by done.
    destruct Hnum as [Hb Hn]. split; [done|]. split; [done|]. split; [done|].
    eapply live_below_mono; [done|lia|]. intros ? ? Ha _. rewrite Hid' in Ha. injection Ha as _ ->. lia.
Qed.

Lemma step_inv w w' es : step w w' → inv w es → ∃ es', inv w' es'.
Proof.
  intros Hstep Hinv.
  destruct Hstep as [c i nok nmay Hc|c i nok nmay Hc|c w' [i nok nmay s r Hc Hg
    |i nok nmay es' ver f Hc Hf|i nok nmay es' ver val s id Hc Hval Hs
    |i nok nmay id err s Hc Hr]|s Hs].
  - exists es. eapply inv_goto; [done..|]. pose proof (v_pc _ _ Hinv c _ Hc) as Hp.
    simpl in Hp |- *. destruct Hp as ((? & ? & Heq) & ?). by rewrite Heq.
  - exists es. eapply inv_goto; [done..|]. apply (v_pc _ _ Hinv c _ Hc).
  - destruct r as [[val ver] err]. apply get_law in Hg as (Hsame & Hg & _).
    destruct Hg as [-> Hcur]; [rewrite (v_ver _ _ Hinv); lia|].
    exists es. eapply inv_goto; [done..|]. pose proof (v_cur _ _ Hinv) as Hu.
    rewrite <-Hcur in Hu. simpl in Hu. unfold GetJson. rewrite decide_True, Hu by done. simpl.
    rewrite <-Hcur. split; [apply (v_pc _ _ Hinv c _ Hc)|]. simpl. split; [lia|done].
  - by apply PutJson_total in Hf.
  - exists es. by eapply inv_put.
  - exists es. eapply inv_goto; [done|by apply reply_law in Hr as [? _]|done|].
    by eapply pc_ok_after_put.
  - by eapply inv_run.
Qed.

Lemma start_inv nclnt w : start nclnt w → inv w [].
Proof.
  intros (Hcl & Ha & Hp & Hver & Hcur). constructor; simpl; rewrite ?Ha, ?Hp; try done.
  - intros c. repeat constructor.
  - intros e He. set_solver.
  - intros c p. rewrite Hcl. case_decide; [|done]. intros [= <-]. simpl.
    split; [unfold tally; lia|]. split; [intros k Hk; unfold numbers in Hk; set_solver|].
    split; [simpl; lia|]. intros id val k _. by rewrite Ha.
Qed.

(** Clients come and go nowhere. *)
Lemma step_clients w w' c : step w w' → is_Some (clients w' !! c) ↔ is_Some (clients w !! c).
Proof.
  intros Hstep. destruct Hstep as [| |? ? []|]; try done; simpl; rewrite lookup_insert_is_Some';
    split; try tauto; intros [->|?]; try done; by eexists.
Qed.

Lemma reach_inv nclnt w0 w : start nclnt w0 → rtc step w0 w →
  (∃ es, inv w es) ∧ ∀ c, is_Some (clients w !! c) ↔ 0 ≤ c < Z.of_nat nclnt.
Proof.
  intros Hs Hr. revert w Hr. apply rtc_ind_r.
  - split; [exists []; by eapply start_inv|]. destruct Hs as [Hcl _]. intros c. rewrite Hcl.
    case_decide; by split.
  - intros w w' _ Hst [[es Hes] Hc]. split; [by eapply step_inv|].
    intros c. by rewrite (step_clients w w' c Hst).
Qed.

Lemma ascending_next l : ascending l → 0 ≤ next_of l.
Proof.
  unfold ascending, next_of. intros [_ Hl]%StronglySorted_inv.
  destruct (list.last l) as [n|] eqn:Hn; [|done]. apply last_Some_elem_of in Hn.
  rewrite list.Forall_forall in Hl. specialize (Hl n Hn). lia.
Qed.
End clients.
End KvAppend.
