(* ===== verification/KvPut.v ===== *)
(** * Concurrent putters of the test library (kvtest1/kvtest.go)

    [OneClientPut] keeps calling [OnePut], which puts to a key at the version it
    knows until a put is answered with OK or ErrMaybe, reading the key after every
    put.  Several clients do so at once on one key: a step relation interleaves
    them with the service of KvService.v.  CheckPutConcurrent compares the final
    version with what the clients counted. *)

From S2P Require Import Prelude Models KvTest KvService.
Import KvTest KvService.

Module KvPut.

Record EntryV := MkEntryV { VId : Z; V : Z }.
Global Instance EntryV_eq_dec : EqDecision EntryV.
Proof. solve_decision. Defined.
Global Instance EntryV_countable : Countable EntryV :=
  inj_countable' (λ e, (VId e, V e)) (λ x, MkEntryV x.1 x.2)
    (λ e, match e with MkEntryV _ _ => eq_refl end).

(** Where a client is: [ver] is verm[k], later the variable of OnePut, and [nok],
    [nmay] are the counters of OneClientPut. *)
Inductive pc :=
| Select (ver nok nmay : Z)                    (** the select of OneClientPut *)
| Try (ver nok nmay : Z)                       (** the head of the loop of OnePut *)
| Wait (ver nok nmay : Z) (id : nat)           (** in ck.Put *)
| Read (ver : Z) (err : string) (nok nmay : Z) (** the put returned; before GetJson *)
| Done (r : ClntRes)
| Fatal.                                       (** ts.Fatalf *)

(** OnePut after PutJson, and after GetJson. *)
Definition after_put (ver : Z) (err : string) (nok nmay : Z) : pc :=
  if decide (err = OK ∨ err = ErrVersion ∨ err = ErrMaybe) then Read ver err nok nmay else Fatal.
Definition after_get (me ver : Z) (err : string) (nok nmay : Z) (r : res (EntryV * Z)) : pc :=
  match r with
  | Ret (e, ver0) =>
      if decide (err = OK ∧ ver0 = u64 (ver + 1) ∧ VId e ≠ me ∧ V e ≠ ver) then Fatal
      else if decide (err = OK) then Select ver0 (nok + 1) nmay
      else if decide (err = ErrMaybe) then Select ver0 nok (nmay + 1)
      else Try ver0 nok nmay
  | Stop _ => Fatal
  end.

Section clients.
Context {W : Type} `{ServiceLaws W} `{!ResendLaws W} `{JsonLaws EntryV}.

(** The service, and the clients by number. *)
Record world := MkWorld { svc : W; clients : list pc }.
Implicit Types w : world.
Definition goto (c : nat) (p : pc) (s : W) w : world := MkWorld s (<[c := p]> (clients w)).

(** Client [c] in OnePut, between two selects. *)
Inductive work (c : nat) w : world → Prop :=
| s_marshal ver nok nmay f : clients w !! c = Some (Try ver nok nmay) →
    PutJson (MkEntryV (Z.of_nat c) ver) = Stop f → work c w (goto c Fatal (svc w) w)
| s_put ver nok nmay val s id : clients w !! c = Some (Try ver nok nmay) →
    PutJson (MkEntryV (Z.of_nat c) ver) = Ret val → svc_send (svc w) s val ver id →
    work c w (goto c (Wait ver nok nmay id) s w)
| s_reply ver nok nmay id err s : clients w !! c = Some (Wait ver nok nmay id) →
    svc_reply (svc w) s id err →
    work c w (goto c (after_put ver err nok nmay) s w)
| s_get ver err nok nmay s r : clients w !! c = Some (Read ver err nok nmay) →
    svc_get (svc w) s r →
    work c w (goto c (after_get (Z.of_nat c) ver err nok nmay (GetJson r)) s w).

(** OneClientPut of every client, and the service. *)
Inductive step w : world → Prop :=
| s_done c ver nok nmay : clients w !! c = Some (Select ver nok nmay) →
    step w (goto c (Done (MkRes nok nmay)) (svc w) w)
| s_default c ver nok nmay : clients w !! c = Some (Select ver nok nmay) →
    step w (goto c (Try ver nok nmay) (svc w) w)
| s_work c w' : work c w w' → step w w'
| s_run s : svc_run (svc w) s → step w (MkWorld s (clients w)).

(** [nclnt] clients, and a key that does not exist yet. *)
Definition start (nclnt : nat) w : Prop :=
  clients w = replicate nclnt (Select 0 0 0) ∧
  attempts (svc w) = ∅ ∧ performed (svc w) = ∅ ∧ (cur (svc w)).2 = 0.

(** ** The invariant *)

(** What a client accounts for of the puts that were performed: at least the
    [sure] ones, and at most those and the [perhaps] ones. *)
Definition credit (perf : gset nat) (p : pc) : Z * Z :=
  match p with
  | Select _ nok nmay | Try _ nok nmay => (nok, nmay)
  | Wait _ nok nmay id => (nok + (if decide (id ∈ perf) then 1 else 0), nmay)
  | Read _ err nok nmay =>
      if decide (err = OK) then (nok + 1, nmay)
      else if decide (err = ErrMaybe) then (nok, nmay + 1) else (nok, nmay)
  | Done r => (Nok r, Nmaybe r)
  | Fatal => (0, 0)
  end.
Definition sure (perf : gset nat) (ps : list pc) : Z := sumf (λ p, (credit perf p).1) ps.
Definition perhaps (perf : gset nat) (ps : list pc) : Z := sumf (λ p, (credit perf p).2) ps.

(** An attempt of client [c] at version [ver]. *)
Definition mine (s : W) (c : nat) (ver : Z) (id : nat) : Prop :=
  ∃ val, attempts s !! id = Some (val, ver) ∧ unmarshal val = Some (MkEntryV (Z.of_nat c) ver).

Definition pc_ok (s : W) (c : nat) (p : pc) : Prop :=
  match p with
  | Select ver nok nmay | Try ver nok nmay => 0 ≤ ver ≤ (cur s).2 ∧ 0 ≤ nok ∧ 0 ≤ nmay
  | Wait ver nok nmay id => 0 ≤ ver ≤ (cur s).2 ∧ 0 ≤ nok ∧ 0 ≤ nmay ∧ mine s c ver id
  | Read ver err nok nmay =>
      0 ≤ ver < (cur s).2 ∧ 0 ≤ nok ∧ 0 ≤ nmay ∧
      (err = OK → ∃ id, id ∈ performed s ∧ mine s c ver id)
  | Done r => 0 ≤ Nok r ∧ 0 ≤ Nmaybe r
  | Fatal => False
  end.

(** A put that can still be performed is one that a client waits for. *)
Definition awaited (id : nat) (p : pc) : Prop := match p with Wait _ _ _ id' => id' = id | _ => False end.

Record inv w : Prop := {
  v_nonneg : 0 ≤ (cur (svc w)).2;
  v_value : (cur (svc w)).2 ≠ 0 → ∃ e : EntryV, unmarshal (cur (svc w)).1 = Some e;
  v_att id val ver : attempts (svc w) !! id = Some (val, ver) →
    0 ≤ ver ≤ (cur (svc w)).2 ∧ (∃ e : EntryV, unmarshal val = Some e) ∧
    (ver = (cur (svc w)).2 → ∃ c p, clients w !! c = Some p ∧ awaited id p);
  v_perf id : id ∈ performed (svc w) →
    ∃ val ver, attempts (svc w) !! id = Some (val, ver) ∧ ver < (cur (svc w)).2 ∧
      ((cur (svc w)).2 = ver + 1 → (cur (svc w)).1 = val);
  v_pc c p : clients w !! c = Some p → pc_ok (svc w) c p;
  v_inj c d p q id : clients w !! c = Some p → clients w !! d = Some q →
    awaited id p → awaited id q → c = d;
  v_sure : sure (performed (svc w)) (clients w) ≤ (cur (svc w)).2;
  v_perhaps : (cur (svc w)).2 ≤ sure (performed (svc w)) (clients w) + perhaps (performed (svc w)) (clients w)
}.

Lemma put_pc_ok_same s s' c p : same s s' → pc_ok s c p → pc_ok s' c p.
Proof. intros (Hc & Ha & Hp). unfold pc_ok, mine. by rewrite Hc, Ha, Hp. Qed.

Lemma inv_same w s : same (svc w) s → inv w → inv (MkWorld s (clients w)).
Proof.
  intros Hs [I1 I2 I3 I4 I5 I6 I7 I8]. pose proof Hs as (Hc & Ha & Hp).
  constructor; simpl; rewrite ?Hc, ?Ha, ?Hp; try done.
  intros c p Hcp. apply (put_pc_ok_same (svc w)); auto.
Qed.

(** A client moves on, away from an attempt that is over if it waited for one. *)
Lemma put_inv_goto w c p p' :
  inv w → clients w !! c = Some p → pc_ok (svc w) c p' → (∀ id, ¬ awaited id p') →
  (∀ id, awaited id p → ∃ val ver, attempts (svc w) !! id = Some (val, ver) ∧ ver < (cur (svc w)).2) →
  (credit (performed (svc w)) p').1 ≤ (credit (performed (svc w)) p).1 →
  (credit (performed (svc w)) p).1 + (credit (performed (svc w)) p).2
    ≤ (credit (performed (svc w)) p').1 + (credit (performed (svc w)) p').2 →
  inv (goto c p' (svc w) w).
Proof.
  intros [I1 I2 I3 I4 I5 I6 I7 I8] Hc Hp' Hna Hover Hlo Hhi.
  constructor; simpl; try done.
  - intros id val ver Hid. destruct (I3 id val ver Hid) as (? & ? & Hl). split; [done|].
    split; [done|]. intros Heq. destruct (Hl Heq) as (d & q & Hd & Hq).
    exists d, q. split; [|done]. rewrite list_lookup_insert_ne; [done|]. intros <-.
    simplify_eq. destruct (Hover id Hq) as (? & ? & ? & ?). simplify_eq. lia.
  - intros d q. rewrite list_lookup_insert_Some. intros [(<- & <- & _)|[_ ?]]; auto.
  - intros d1 d2 q1 q2 id. rewrite !list_lookup_insert_Some.
    intros [(_ & <- & _)|[_ ?]] [(_ & <- & _)|[_ ?]] Hq1 Hq2;
      try (by destruct (Hna id)). by eapply I6.
  - unfold sure in *. rewrite (sumf_insert _ _ _ p) by done. lia.
  - unfold sure, perhaps in *. rewrite !(sumf_insert _ _ _ p) by done. lia.
Qed.

(** A put is sent; the client waits for it. *)
Lemma put_inv_put w c ver nok nmay val s id :
  inv w → clients w !! c = Some (Try ver nok nmay) →
  PutJson (MkEntryV (Z.of_nat c) ver) = Ret val → svc_send (svc w) s val ver id →
  inv (goto c (Wait ver nok nmay id) s w).
Proof.
  intros [I1 I2 I3 I4 I5 I6 I7 I8] Hc Hput (Hnew & Hsc & Hsp & Hsa)%send_law.
  pose proof (PutJson_unmarshal _ _ Hput) as Hval.
  destruct (I5 c _ Hc) as (Hver & Hnok & Hnmay).
  assert (Hnp : id ∉ performed (svc w)) by (intros (? & ? & ? & _)%I4; congruence).
  assert (Hmine : ∀ d v i, mine (svc w) d v i → i ≠ id ∧ mine s d v i).
  { intros d v i (x & Hx & ?). split; [congruence|]. exists x. rewrite Hsa.
    rewrite lookup_insert_ne by congruence. done. }
  assert (Hfree : ∀ d q, clients w !! d = Some q → ¬ awaited id q).
  { intros d q Hd Hq. destruct q; try done. simpl in Hq. subst.
    destruct (I5 d _ Hd) as (_ & _ & _ & [? _]%Hmine). done. }
  constructor; simpl; rewrite ?Hsc, ?Hsp, ?Hsa; try done.
  - intros id' val' ver'. rewrite lookup_insert_Some. intros [[<- [= <- <-]]|[Hne Hid']].
    + split; [done|]. split; [by eexists|]. intros _. exists c, (Wait ver nok nmay id).
      split; [|done]. by apply list_lookup_insert_eq, lookup_lt_Some with (Try ver nok nmay).
    + destruct (I3 _ _ _ Hid') as (? & ? & Hl). split; [done|]. split; [done|].
      intros Heq. destruct (Hl Heq) as (d & q & Hd & Hq). exists d, q. split; [|done].
      rewrite list_lookup_insert_ne; [done|]. intros <-. by simplify_eq.
  - intros id' Hid'. destruct (I4 id' Hid') as (val' & ver' & ? & ?). exists val', ver'.
    rewrite lookup_insert_ne by congruence. done.
  - intros d q. rewrite list_lookup_insert_Some. intros [(<- & <- & _)|[Hne Hd]].
    + simpl. rewrite Hsc. split_and!; try done; [lia..|]. exists val. by rewrite Hsa, lookup_insert_eq.
    + apply I5 in Hd. destruct q as [| |v n m i|v err n m| |]; simpl in Hd |- *; rewrite ?Hsc, ?Hsp; try done.
      * destruct Hd as (? & ? & ? & Hm). apply Hmine in Hm as [_ ?]. done.
      * destruct Hd as (? & ? & ? & Hm). split_and!; try done; try lia.
        intros Heq. destruct (Hm Heq) as (i & ? & [_ ?]%Hmine). by exists i.
  - intros d1 d2 q1 q2 i. rewrite !list_lookup_insert_Some.
    intros [(<- & <- & _)|[_ Hd1]] [(<- & <- & _)|[_ Hd2]] Hq1 Hq2; try done.
    + simpl in Hq1. subst i. by apply Hfree in Hd2.
    + simpl in Hq2. subst i. by apply Hfree in Hd1.
    + by eapply I6.
  - unfold sure in *. rewrite (sumf_insert _ _ _ (Try ver nok nmay)) by done. simpl.
    rewrite decide_False by done. lia.
  - unfold sure, perhaps in *. rewrite !(sumf_insert _ _ _ (Try ver nok nmay)) by done. simpl.
    rewrite decide_False by done. lia.
Qed.

Lemma put_inv_perform w s id val :
  inv w → attempts (svc w) !! id = Some (val, (cur (svc w)).2) →
  attempts s = attempts (svc w) → cur s = (val, (cur (svc w)).2 + 1) →
  performed s = {[id]} ∪ performed (svc w) → inv (MkWorld s (clients w)).
Proof.
  intros [I1 I2 I3 I4 I5 I6 I7 I8] Hid Hsa Hsc Hsp.
  destruct (I3 _ _ _ Hid) as (Hcur & Hval & Hl). destruct (Hl eq_refl) as (c & p & Hc & Hp).
  destruct p as [| |ver nok nmay i| | |]; try done. simpl in Hp. subst i.
  assert (Hnp : id ∉ performed (svc w)) by (intros (? & ? & ? & ? & _)%I4; simplify_eq; lia).
  assert (Hsure : sure (performed s) (clients w) = sure (performed (svc w)) (clients w) + 1).
  { unfold sure. rewrite (sumf_change (λ p, (credit (performed (svc w)) p).1) _ _ _ _ Hc); simpl.
    - rewrite Hsp, decide_False, decide_True by set_solver. lia.
    - intros d q Hne Hd. destruct q as [| |v n m i| | |]; try done. simpl.
      assert (i ≠ id) by (intros ->; by apply Hne, (I6 _ _ _ _ id Hd Hc)).
      assert (i ∈ performed s ↔ i ∈ performed (svc w)) by (rewrite Hsp; set_solver).
      repeat case_decide; tauto. }
  assert (Hperhaps : perhaps (performed s) (clients w) = perhaps (performed (svc w)) (clients w)).
  { unfold perhaps. generalize (clients w). induction l as [|q l IH]; [done|].
    rewrite !sumf_cons, IH. by destruct q. }
  constructor; simpl; rewrite ?Hsure, ?Hperhaps, ?Hsa, ?Hsc; simpl; try lia.
  - by intros _.
  - intros id' val' ver' Hid'. destruct (I3 _ _ _ Hid') as (? & ? & _). split; [lia|].
    split; [done|lia].
  - intros id'. rewrite Hsp, elem_of_union, elem_of_singleton. intros [->|Hp'].
    + exists val, (cur (svc w)).2. split; [done|]. split; [lia|done].
    + destruct (I4 id' Hp') as (val' & ver' & ? & ? & _). exists val', ver'.
      split; [done|]. split; lia.
  - intros d q Hd. apply I5 in Hd. destruct q as [| |v n m i|v err n m| |]; simpl in Hd |- *;
      rewrite ?Hsc; simpl; try lia.
    + destruct Hd as (? & ? & ? & ?). unfold mine in *. rewrite Hsa. split_and!; try done; lia.
    + destruct Hd as (? & ? & ? & Hm). split_and!; try lia. intros Heq.
      destruct (Hm Heq) as (i & ? & ?). exists i. unfold mine in *. rewrite Hsa, Hsp. set_solver.
  - done.
Qed.

(** The reply of the put: whatever it is, the version of the put is over. *)
Lemma inv_reply w c ver nok nmay id err s :
  inv w → clients w !! c = Some (Wait ver nok nmay id) → svc_reply (svc w) s id err →
  inv (goto c (after_put ver err nok nmay) (svc w) w).
Proof.
  intros Hinv Hc Hr. pose proof (v_pc _ Hinv c _ Hc) as (Hver & Hnok & Hnmay & Hmine).
  destruct Hmine as (val & Hid & Hval).
  pose proof (errors_law _ _ _ _ Hr) as Herr. pose proof (reply_law _ _ _ _ Hr) as (_ & HOK & Hother).
  assert (Hlt : ver < (cur (svc w)).2).
  { destruct (decide (err = OK)) as [He|He]; [|destruct (decide (err = ErrMaybe)) as [->|Hm]].
    - destruct (v_perf _ Hinv id (HOK He)) as (? & ? & ? & ? & _). simplify_eq. lia.
    - destruct (maybe_law _ _ _ Hr) as (? & ? & ? & ?). simplify_eq. lia.
    - destruct (Hother He Hm) as (_ & ? & ? & ? & ?). simplify_eq. lia. }
  unfold after_put. rewrite decide_True by (destruct Herr as [?|[?|[?|[_ ?]]]]; auto; lia).
  apply (put_inv_goto _ _ _ _ Hinv Hc); simpl.
  - split_and!; try lia. intros He. exists id. split; [auto|]. by exists val.
  - auto.
  - intros i ->. by exists val, ver.
  - destruct (decide (err = OK)) as [He|He]; simpl; [rewrite decide_True by auto; lia|].
    destruct (decide (err = ErrMaybe)); simpl; case_decide; lia.
  - destruct (decide (err = OK)) as [He|He]; simpl; [rewrite decide_True by auto; lia|].
    destruct (decide (err = ErrMaybe)) as [Hm|Hm]; simpl; [case_decide; lia|].
    destruct (Hother He Hm) as [? _]. rewrite decide_False by done. lia.
Qed.

Lemma u64_le z : 0 ≤ z → u64 z ≤ z.
Proof. intros ?. unfold u64, two64. apply Z.mod_le; lia. Qed.

(** OnePut reads the key: after an OK, version one up, it finds its own entry. *)
Lemma inv_get w c ver err nok nmay s r :
  inv w → clients w !! c = Some (Read ver err nok nmay) → svc_get (svc w) s r →
  inv (goto c (after_get (Z.of_nat c) ver err nok nmay (GetJson r)) (svc w) w).
Proof.
  intros Hinv Hc Hg. destruct r as [[val ver0] e]. apply get_law in Hg as (_ & Hg & _).
  pose proof (v_pc _ Hinv c _ Hc) as (Hver & Hnok & Hnmay & Hok).
  destruct Hg as [-> Hcur]; [lia|]. destruct (v_value _ Hinv) as [e He]; [lia|].
  assert (val = (cur (svc w)).1 ∧ ver0 = (cur (svc w)).2) as [-> ->] by by rewrite <-Hcur.
  unfold GetJson, after_get. rewrite decide_True, He by done. rewrite decide_False.
  2:{ intros (Heq & Hv & Hid & _). destruct (Hok Heq) as (id & Hp & val & Hatt & Hval).
      destruct (v_perf _ Hinv id Hp) as (val' & ver' & Hatt' & _ & Hown). simplify_eq.
      pose proof (u64_le (ver + 1) ltac:(lia)). rewrite Hown in He by lia.
      rewrite Hval in He. by injection He as <-. }
  apply (put_inv_goto _ _ _ _ Hinv Hc); simpl; try (by intros ?);
    repeat (case_decide; simpl); try lia; try done; by intros ?.
Qed.

Lemma put_step_inv w w' : step w w' → inv w → inv w'.
Proof.
  intros Hstep Hinv. destruct Hstep as [c ver nok nmay Hc|c ver nok nmay Hc|c w' [ver nok nmay f Hc Hf
    |ver nok nmay val s id Hc Hval Hs|ver nok nmay id err s Hc Hr|ver err nok nmay s r Hc Hg]|s Hs].
  - pose proof (v_pc _ Hinv c _ Hc) as (? & ? & ?).
    apply (put_inv_goto _ _ _ _ Hinv Hc); simpl; try done; lia.
  - apply (put_inv_goto _ _ _ _ Hinv Hc); simpl; try done; try lia. apply (v_pc _ Hinv c _ Hc).
  - by apply PutJson_total in Hf.
  - by eapply put_inv_put.
  - apply (inv_same (goto c _ (svc w) w)); [by apply reply_law in Hr as [? _]|].
    by eapply inv_reply.
  - apply (inv_same (goto c _ (svc w) w)); [|by eapply inv_get].
    destruct r as [[??]?]. by apply get_law in Hg as [? _].
  - apply run_law in Hs as [?|(id & val & ? & ? & ? & ?)]; [by apply inv_same|].
    by eapply put_inv_perform.
Qed.

Lemma put_start_inv nclnt w : start nclnt w → inv w.
Proof.
  intros (Hcl & Ha & Hp & Hver).
  assert (Hsum : ∀ f : pc → Z, f (Select 0 0 0) = 0 → sumf f (replicate nclnt (Select 0 0 0)) = 0).
  { intros f Hf. induction nclnt as [|n IH]; [done|]. simpl in *. rewrite Hf.
    clear -Hf. induction n as [|n IH]; [done|]. simpl. lia. }
  assert (Hsel : ∀ c p, clients w !! c = Some p → p = Select 0 0 0).
  { intros c p. rewrite Hcl. by intros [-> _]%lookup_replicate. }
  constructor; rewrite ?Ha, ?Hp, ?Hver; try done.
  - intros c p ->%Hsel. simpl. lia.
  - intros c d p q id ->%Hsel. done.
  - unfold sure. by rewrite Hcl, Hsum.
  - unfold sure, perhaps. by rewrite Hcl, !Hsum.
Qed.

Lemma put_reach_inv nclnt w0 w : start nclnt w0 → rtc step w0 w →
  inv w ∧ length (clients w) = nclnt.
Proof.
  intros Hs Hr. revert w Hr. apply rtc_ind_r.
  - split; [by eapply put_start_inv|]. destruct Hs as [-> _]. apply length_replicate.
  - intros w w' _ Hst [? <-]. split; [by eapply put_step_inv|].
    destruct Hst as [| |c w' []|]; simpl; by rewrite ?length_insert.
Qed.
End clients.
End KvPut.
