(* ===== verification/KvPutSpec.v ===== *)
(** * The put test raises no false alarm

    Clients that run OneClientPut (KvPut.v) against the check of their results. *)

From S2P Require Import Prelude Models KvTest KvService KvPut.
Import KvTest KvService KvPut.

(** The sums that CheckPutConcurrent computes. *)
Lemma add_res_fold rs r0 :
  fold_left add_res rs r0 = MkRes (Nok r0 + sumf Nok rs) (Nmaybe r0 + sumf Nmaybe rs).
Proof.
  revert r0. induction rs as [|r rs IH]; intros r0; simpl.
  - destruct r0. simpl. f_equal; lia.
  - rewrite IH. simpl. f_equal; lia.
Qed.

Lemma sumf_nonneg {A} (f : A → Z) l : (∀ x, x ∈ l → 0 ≤ f x) → 0 ≤ sumf f l.
Proof.
  induction l as [|x l IH]; intros Hf; simpl; [done|].
  assert (0 ≤ sumf f l) by (apply IH; intros y Hy; apply Hf; by right).
  specialize (Hf x ltac:(by left)). lia.
Qed.

(** The credits of clients that are done. *)
Lemma done_credit perf rs :
  sure perf (Done <$> rs) = sumf Nok rs ∧ perhaps perf (Done <$> rs) = sumf Nmaybe rs.
Proof.
  unfold sure, perhaps. induction rs as [|r rs [IH1 IH2]]; [done|].
  rewrite fmap_cons, !sumf_cons, IH1, IH2. done.
Qed.

(** However the clients are interleaved with each other and the service, no client ends
    in Fatalf, and CheckPutConcurrent accepts their results once they are done. *)
Theorem puts_accepted {W} `{ServiceLaws W} `{!ResendLaws W} `{JsonLaws EntryV}
    nclnt (w0 w : world) :
  start nclnt w0 → rtc step w0 w →
  (∀ c, clients w !! c ≠ Some Fatal) ∧
  ∀ rs s r (e : EntryV) ver0 reliable,
    clients w = Done <$> rs → svc_get (svc w) s r → GetJson r = Ret (e, ver0) →
    sumf Nok rs + sumf Nmaybe rs < two64 → (reliable = true → sumf Nmaybe rs = 0) →
    CheckPutConcurrent ver0 rs (MkRes 0 0) reliable = Ret (MkRes (sumf Nok rs) (sumf Nmaybe rs)) ∧
    sumf Nok rs ≤ ver0 ≤ sumf Nok rs + sumf Nmaybe rs.
Proof.
  intros Hs Hr. destruct (put_reach_inv nclnt w0 w Hs Hr) as [Hinv _]. split.
  { intros c Hc. by apply (v_pc _ Hinv) in Hc. }
  intros rs s [[val ver] err] e ver0 reliable Hdone Hget Hjson Hbound Hrel.
  assert (Hver : ver0 = (cur (svc w)).2).
  { apply get_law in Hget as (_ & Hg & Hno). unfold GetJson in Hjson.
    destruct (decide ((cur (svc w)).2 = 0)) as [Hz|Hz]; [by rewrite Hno in Hjson|].
    destruct (Hg Hz) as [-> Hcur]. rewrite decide_True in Hjson by done.
    rewrite <-Hcur. by destruct (unmarshal val); simplify_eq/=. }
  pose proof (v_sure _ Hinv) as Hlo. pose proof (v_perhaps _ Hinv) as Hhi.
  destruct (done_credit (performed (svc w)) rs) as [H1' H2'].
  rewrite Hdone, H1', <-Hver in Hlo. rewrite Hdone, H1', H2', <-Hver in Hhi.
  assert (Hnn : ∀ r, r ∈ rs → 0 ≤ Nok r ∧ 0 ≤ Nmaybe r).
  { intros r (i & Hi)%list_elem_of_lookup. apply (v_pc _ Hinv i (Done r)).
    by rewrite Hdone, list_lookup_fmap, Hi. }
  assert (0 ≤ sumf Nok rs) by (apply sumf_nonneg; naive_solver).
  assert (0 ≤ sumf Nmaybe rs) by (apply sumf_nonneg; naive_solver).
  split; [|lia]. unfold CheckPutConcurrent. rewrite add_res_fold. simpl.
  assert (∀ z, 0 ≤ z < two64 → u64 z = z) as Hu by (intros; by apply Z.mod_small).
  destruct reliable; rewrite Hu by lia; rewrite decide_False; done || lia.
Qed.
