(* ===== verification/KvSpawn.v ===== *)
(** * Spawning the clients of a test and waiting for them (kvtest1/kvtest.go)

    [SpawnClientsAndWait] starts a goroutine per client ([runClient]: make a clerk,
    run the client function, send its result, delete the clerk), sleeps, tells every
    client to end over the one unbuffered channel [done], and collects the results
    over one channel per client.  The client functions look at [done] in a [select]
    with a [default] branch: such a select takes a message whenever the tester waits in
    its send, and the default branch otherwise.

    The step relation has the tester and the goroutines of the clients; what the client
    functions do to the world they share is the class [Fclnt]. *)

From S2P Require Import Prelude Models KvTest.
Import KvTest.

Module KvSpawn.

(** A client function, run by client [c] in a world [W]. *)
Class Fclnt (W : Type) := {
  fn_return : nat → W → W → ClntRes → Prop;  (** at the select: case <-done *)
  fn_default : nat → W → W → Prop;           (** at the select: default *)
  fn_work : nat → W → W → Prop;              (** anywhere else *)
  fn_env : W → W → Prop;                     (** what else happens in the world *)
  returned : nat → W → ClntRes → Prop        (** client [c] has returned *)
}.

(** A step of client [c], or of the world. *)
Definition fn_step `{Fclnt W} (c : nat) (w w' : W) : Prop :=
  (∃ r, fn_return c w w' r) ∨ fn_default c w w' ∨ fn_work c w w'.

(** A client that has returned has done so for good; the only way to return is [done],
    and no step is taken for another client. *)
Class FclntLaws (W : Type) `{Fclnt W} := {
  return_law c w w' r : fn_return c w w' r → returned c w' r;
  default_law c w w' r : fn_default c w w' → ¬ returned c w' r;
  work_law c w w' r : fn_work c w w' → ¬ returned c w' r;
  frame_law c d w w' r : c ≠ d → fn_step d w w' → returned c w r ↔ returned c w' r;
  env_law c w w' r : fn_env w w' → returned c w r ↔ returned c w' r
}.

(** The goroutine of a client. *)
Inductive cpc :=
| Making            (** before mkc.MakeClerk *)
| Running           (** in fn *)
| SendRes (v : ClntRes) (** at ca <- v *)
| Deleting          (** before mkc.DeleteClerk *)
| Ended.

(** The tester. *)
Inductive tpc :=
| Spawning (cli : nat)
| Sleeping
| Telling (i : nat) (parked : bool)           (** at done <- struct{}{}; waiting in it? *)
| Collecting (cli : nat) (rs : list ClntRes)  (** at <-ca[cli] *)
| Returned (rs : list ClntRes).

Section spawn.
Context {W : Type} `{Fclnt W} (nclnt : nat).

Record spawn := MkSpawn {
  world : W;
  tester : tpc;
  procs : list cpc;      (** the goroutines started so far *)
  clerks : gset nat      (** the clerks made and not yet deleted *)
}.
Implicit Types st : spawn.

Definition set_world w st := MkSpawn w (tester st) (procs st) (clerks st).
Definition set_tester t st := MkSpawn (world st) t (procs st) (clerks st).
Definition set_proc c p st := MkSpawn (world st) (tester st) (<[c := p]> (procs st)) (clerks st).
Definition set_clerks k st := MkSpawn (world st) (tester st) (procs st) k.

(** The tester waits for a client to take a message of [done]. *)
Definition telling (t : tpc) : Prop := match t with Telling _ parked => parked = true | _ => False end.

Inductive runClient (c : nat) st : spawn → Prop :=
| r_make : procs st !! c = Some Making →
    runClient c st (set_proc c Running (set_clerks ({[c]} ∪ clerks st) st))
| r_default w : procs st !! c = Some Running → ¬ telling (tester st) →
    fn_default c (world st) w → runClient c st (set_world w st)
| r_work w : procs st !! c = Some Running → fn_work c (world st) w → runClient c st (set_world w st)
| r_delete : procs st !! c = Some Deleting →
    runClient c st (set_proc c Ended (set_clerks (clerks st ∖ {[c]}) st)).

Inductive SpawnClientsAndWait st : spawn → Prop :=
| t_spawn cli : tester st = Spawning cli → (cli < nclnt)%nat →
    SpawnClientsAndWait st
      (MkSpawn (world st) (Spawning (S cli)) (procs st ++ [Making]) (clerks st))
| t_spawned : tester st = Spawning nclnt → SpawnClientsAndWait st (set_tester Sleeping st)
| t_sleep : tester st = Sleeping → SpawnClientsAndWait st (set_tester (Telling 0 false) st)
| t_park i : tester st = Telling i false → (i < nclnt)%nat →
    SpawnClientsAndWait st (set_tester (Telling i true) st)
| t_tell i c w r : tester st = Telling i true → procs st !! c = Some Running →
    fn_return c (world st) w r →
    SpawnClientsAndWait st (set_tester (Telling (S i) false) (set_proc c (SendRes r) (set_world w st)))
| t_told : tester st = Telling nclnt false → SpawnClientsAndWait st (set_tester (Collecting 0 []) st)
| t_collect cli rs v : tester st = Collecting cli rs → (cli < nclnt)%nat →
    procs st !! cli = Some (SendRes v) →
    SpawnClientsAndWait st (set_tester (Collecting (S cli) (rs ++ [v])) (set_proc cli Deleting st))
| t_collected rs : tester st = Collecting nclnt rs → SpawnClientsAndWait st (set_tester (Returned rs) st).

Inductive step st st' : Prop :=
| s_tester : SpawnClientsAndWait st st' → step st st'
| s_client c : runClient c st st' → step st st'
| s_env w : fn_env (world st) w → st' = set_world w st → step st st'.

Definition begin (w : W) : spawn := MkSpawn w (Spawning 0) [] ∅.

(** ** The invariant *)

(** Where the tester is: goroutines started, messages taken, results received. *)
Definition spawned (t : tpc) : nat := match t with Spawning i => i | _ => nclnt end.
Definition told (t : tpc) : nat :=
  match t with Spawning _ | Sleeping => O | Telling i _ => i | _ => nclnt end.
Definition results (t : tpc) : list ClntRes :=
  match t with Collecting _ rs | Returned rs => rs | _ => [] end.
Definition collected (t : tpc) : nat :=
  match t with Collecting cli _ => cli | Returned _ => nclnt | _ => O end.

(** Has the client taken its message? *)
Definition took (p : cpc) : Z := match p with Making | Running => 0 | _ => 1 end.

Definition pc_ok (w : W) (rs : list ClntRes) (c : nat) (p : cpc) : Prop :=
  match p with
  | Making | Running => (∀ r, ¬ returned c w r) ∧ rs !! c = None
  | SendRes v => returned c w v ∧ rs !! c = None
  | Deleting | Ended => ∃ v, rs !! c = Some v ∧ returned c w v
  end.

Record inv st : Prop := {
  i_len : length (procs st) = spawned (tester st);
  i_max : (spawned (tester st) ≤ nclnt ∧ told (tester st) ≤ nclnt ∧ collected (tester st) ≤ nclnt)%nat;
  i_park : telling (tester st) → (told (tester st) < nclnt)%nat;
  i_rs : length (results (tester st)) = collected (tester st);
  i_told : sumf took (procs st) = Z.of_nat (told (tester st));
  i_new c r : (length (procs st) ≤ c)%nat → ¬ returned c (world st) r;
  i_pc c p : procs st !! c = Some p → pc_ok (world st) (results (tester st)) c p;
  i_clerks c : c ∈ clerks st ↔ ∃ p, procs st !! c = Some p ∧ p ≠ Making ∧ p ≠ Ended
}.

Lemma spawn_begin w : (∀ c r, ¬ returned c w r) → inv (begin w).
Proof.
  intros Hw. constructor; simpl; try done; try lia; [by auto..|].
  intros c. split; [set_solver|]. by intros (p & ? & _).
Qed.

Context `{!FclntLaws W}.

Lemma spawn_pc_ok_mono w w' rs c p :
  (∀ r, returned c w r ↔ returned c w' r) → pc_ok w rs c p → pc_ok w' rs c p.
Proof. intros Hr. destruct p; simpl; setoid_rewrite Hr; done. Qed.

(** The world changes under the clients, but nobody returns. *)
Lemma inv_world w st :
  (∀ c r, returned c (world st) r ↔ returned c w r) → inv st → inv (set_world w st).
Proof.
  intros Hr [H1 H2 H3 H4 H5 H6 H7 H8]. constructor; simpl; try done.
  - intros c r Hc Hret. by apply (H6 c r Hc), Hr.
  - intros c p Hp. eapply spawn_pc_ok_mono; [intros r; apply Hr|auto].
Qed.

Lemma running_same (d c : nat) w w' r :
  (∀ r', ¬ returned d w r') → (∀ r', ¬ returned d w' r') → fn_step d w w' →
  returned c w r ↔ returned c w' r.
Proof.
  intros H1 H2 Hs. destruct (decide (c = d)) as [->|Hne].
  - split; intros Hx; [by apply H1 in Hx|by apply H2 in Hx].
  - by apply (frame_law c d).
Qed.

Lemma client_inv c st st' : inv st → runClient c st st' → inv st'.
Proof.
  intros Hinv Hst. pose proof Hinv as [H1 H2 H3 H4 H5 H6 H7 H8].
  destruct Hst as [Hp|w Hp _ Hd|w Hp Hd|Hp]; pose proof (H7 _ _ Hp) as Hok; simpl in Hok.
  - constructor; simpl; try done; rewrite ?length_insert; try done.
    + rewrite (sumf_insert _ _ _ Making) by done. simpl. lia.
    + intros d p. rewrite list_lookup_insert_Some. intros [(<- & <- & _)|[_ ?]]; auto.
    + intros d. rewrite elem_of_union, elem_of_singleton, H8. setoid_rewrite list_lookup_insert_Some.
      pose proof (lookup_lt_Some _ _ _ Hp). split.
      * intros [->|(p & ? & ? & ?)]; [by exists Running; auto|].
        destruct (decide (d = c)) as [->|]; [by exists Running; auto|]. exists p. auto.
      * intros (p & [(-> & <- & _)|[? ?]] & ? & ?); [by left|right; by exists p].
  - apply inv_world; [|done]. intros d r. apply (running_same c); [by apply Hok| |by right; left].
    intros r'. by eapply default_law.
  - apply inv_world; [|done]. intros d r. apply (running_same c); [by apply Hok| |by right; right].
    intros r'. by eapply work_law.
  - constructor; simpl; try done; rewrite ?length_insert; try done.
    + rewrite (sumf_insert _ _ _ Deleting) by done. simpl. lia.
    + intros d p. rewrite list_lookup_insert_Some. intros [(<- & <- & _)|[_ ?]]; auto.
    + intros d. rewrite elem_of_difference, elem_of_singleton, H8. setoid_rewrite list_lookup_insert_Some.
      split.
      * intros [(p & ? & ? & ?) ?]. exists p. auto.
      * intros (p & [(_ & <- & _)|[? ?]] & ? & ?); [done|]. split; [by exists p|congruence].
Qed.

(** The tester moves on, without a client. *)
Lemma inv_tester t st :
  inv st → spawned t = spawned (tester st) → told t = told (tester st) →
  results t = results (tester st) → collected t = collected (tester st) →
  (telling t → (told t < nclnt)%nat) → inv (set_tester t st).
Proof.
  intros [H1 H2 H3 H4 H5 H6 H7 H8] E1 E2 E3 E4 E5. constructor; simpl; rewrite ?E1, ?E2, ?E3, ?E4; try done. by rewrite <-E2.
Qed.

Lemma lookup_snoc_None {A} (l : list A) x i : length l ≠ i → l !! i = None → (l ++ [x]) !! i = None.
Proof. rewrite !lookup_ge_None, length_app. simpl. lia. Qed.

Lemma tester_inv st st' : inv st → SpawnClientsAndWait st st' → inv st'.
Proof.
  intros Hinv Hst. pose proof Hinv as [H1 H2 H3 H4 H5 H6 H7 H8].
  destruct Hst as [cli Ht Hlt|Ht|Ht|i Ht Hlt|i c w r Ht Hp Hret|Ht|cli rs v Ht Hlt Hp|rs Ht];
    try (apply inv_tester; rewrite ?Ht; simpl; try done; lia).
  - rewrite Ht in *. simpl in *. constructor; simpl; rewrite ?length_app; simpl; try done; try lia.
    + rewrite sumf_app. simpl. lia.
    + intros c r Hc. apply H6. lia.
    + intros c p. rewrite lookup_app_Some. intros [?|[Hc Hp]]; [by apply H7|].
      apply list_lookup_singleton_Some in Hp as [_ <-]. split; [|by apply lookup_nil].
      intros r. by apply H6.
    + intros c. rewrite H8. setoid_rewrite lookup_app_Some. split.
      * intros (p & ? & ?). exists p. auto.
      * intros (p & [?|[_ [_ <-]%list_lookup_singleton_Some]] & ?); [by exists p|naive_solver].
  - pose proof (H7 _ _ Hp) as [Hno Hrs]. pose proof (lookup_lt_Some _ _ _ Hp) as Hclt.
    rewrite Ht in *. simpl in *. specialize (H3 eq_refl).
    assert (Hothers : ∀ d x, d ≠ c → returned d (world st) x ↔ returned d w x).
    { intros d x Hd. apply (frame_law d c); [done|]. left. by exists r. }
    constructor; simpl; rewrite ?length_insert; try done; try lia.
    + rewrite (sumf_insert _ _ _ Running) by done. simpl. lia.
    + intros d x Hd. rewrite <-Hothers by lia. by apply H6.
    + intros d p. rewrite list_lookup_insert_Some. intros [(<- & <- & _)|[Hne Hd]].
      * split; [by eapply return_law|done].
      * eapply spawn_pc_ok_mono; [|by apply H7]. intros x. by apply Hothers.
    + intros d. rewrite H8. setoid_rewrite list_lookup_insert_Some. split.
      * intros (p & ? & ?). destruct (decide (d = c)) as [->|]; [by exists (SendRes r); auto|exists p; auto].
      * intros (p & [(-> & <- & _)|[? ?]] & ?); [by exists Running|by exists p].
  - pose proof (H7 _ _ Hp) as [Hv Hrs]. pose proof (lookup_lt_Some _ _ _ Hp) as Hclt.
    rewrite Ht in *. simpl in *. rewrite <-H4 in Hlt, Hp, Hrs, Hv.
    constructor; simpl; rewrite ?length_insert, ?length_app; simpl; try done; try lia.
    + rewrite <-H4. rewrite (sumf_insert _ _ _ (SendRes v)) by done. simpl. lia.
    + rewrite <-H4. intros d p. rewrite list_lookup_insert_Some. intros [(<- & <- & _)|[Hne Hd]].
      * exists v. by rewrite lookup_app_r, Nat.sub_diag by lia.
      * specialize (H7 _ _ Hd). destruct p; simpl in *.
        1-3: by destruct H7 as [? Hn]; split; [done|]; apply lookup_snoc_None.
        1-2: destruct H7 as (x & Hx & ?); exists x; split; [by apply lookup_app_l_Some|done].
    + rewrite <-H4. intros d. rewrite H8. setoid_rewrite list_lookup_insert_Some. split.
      * intros (p & ? & ?). destruct (decide (d = length rs)) as [->|]; [|exists p; auto].
        exists Deleting. split_and!; [left; split_and!; [done..|congruence]|done|done].
      * intros (p & [(<- & <- & _)|[? ?]] & ?); [by exists (SendRes v)|by exists p].
Qed.

Lemma spawn_step_inv st st' : inv st → step st st' → inv st'.
Proof.
  intros Hinv [Hs|c Hs|w' Hs ->].
  - by eapply tester_inv.
  - by eapply client_inv.
  - apply inv_world; [|done]. intros c r. by apply env_law.
Qed.

Lemma spawn_steps_inv st st' : inv st → rtc step st st' → inv st'.
Proof. intros Hinv Hr. induction Hr as [|? ? ? Hs _ IH]; [done|]. by apply IH, (spawn_step_inv _ _ Hinv). Qed.

Lemma spawn_inv w st : (∀ c r, ¬ returned c w r) → rtc step (begin w) st → inv st.
Proof. intros Hw. by apply spawn_steps_inv, spawn_begin. Qed.

(** ** What happens to the world *)

Definition fn_any (w w' : W) : Prop := (∃ c, fn_step c w w') ∨ fn_env w w'.

Lemma step_world st st' : step st st' → rtc fn_any (world st) (world st').
Proof.
  intros [Hs|c Hs|w' Hs ->]; [| |by apply rtc_once; right].
  - destruct Hs; try apply rtc_refl. apply rtc_once. left. eexists. left. by eexists.
  - destruct Hs; try apply rtc_refl; apply rtc_once; left; exists c; right; auto.
Qed.

Lemma spawn_world st st' : rtc step st st' → rtc fn_any (world st) (world st').
Proof. induction 1 as [|? ? ? Hs _ IH]; [apply rtc_refl|]. etrans; [by apply step_world|done]. Qed.

(** The results are those that the clients returned. *)
Lemma spawn_results st rs c v :
  inv st → tester st = Returned rs → rs !! c = Some v → returned c (world st) v.
Proof.
  intros Hinv Ht Hv. pose proof (i_len _ Hinv) as Hl. pose proof (i_rs _ Hinv) as Hr. rewrite Ht in Hl, Hr.
  simpl in Hl, Hr. pose proof (lookup_lt_Some _ _ _ Hv). destruct (lookup_lt_is_Some_2 (procs st) c) as [p Hp]; [lia|].
  pose proof (i_pc _ Hinv _ _ Hp) as Hok. rewrite Ht in Hok. destruct p; simpl in Hok; naive_solver congruence.
Qed.

(** ** It returns *)

Definition rank (t : tpc) : nat :=
  match t with
  | Returned _ => 0
  | Collecting cli _ => 1 + (nclnt - cli)
  | Telling i parked => 2 + nclnt + 2 * (nclnt - i) + (if parked then 0 else 1)
  | Sleeping => 4 + 3 * nclnt
  | Spawning i => 5 + 3 * nclnt + (nclnt - i)
  end%nat.

Lemma took_zero l : sumf took l < Z.of_nat (length l) → ∃ c p, l !! c = Some p ∧ took p = 0.
Proof.
  induction l as [|p l IH]; simpl; [lia|]. destruct (decide (took p = 0)) as [Hz|Hz].
  - intros _. by exists 0%nat, p.
  - intros Hs. destruct IH as (c & q & Hc & Hq); [destruct p; simpl in *; lia|]. by exists (S c), q.
Qed.

(** When the results are collected, every client has taken its message. *)
Lemma took_all l c p :
  sumf took l = Z.of_nat (length l) → l !! c = Some p → took p = 1.
Proof.
  intros Hs Hc. destruct (decide (took p = 1)) as [|Hne]; [done|].
  assert (∀ l', sumf took l' ≤ Z.of_nat (length l')) as Hle.
  { induction l' as [|q l' IH]; simpl; [lia|]. destruct q; simpl; lia. }
  apply list_elem_of_split_length in Hc as (l1 & l2 & -> & _). rewrite sumf_app, length_app in Hs.
  simpl in Hs. pose proof (Hle l1). pose proof (Hle l2). destruct p; simpl in *; lia.
Qed.

(** After it has returned, the goroutines can delete their clerks. *)
Lemma can_delete st rs :
  inv st → tester st = Returned rs →
  ∃ st', rtc step st st' ∧ tester st' = Returned rs ∧ clerks st' = ∅.
Proof.
  remember (size (clerks st)) as k eqn:Hk. revert st Hk.
  induction k as [k IH] using lt_wf_ind; intros st -> Hinv Ht.
  destruct (set_choose_or_empty (clerks st)) as [[c Hc]|Hempty].
  - destruct (proj1 (i_clerks _ Hinv c) Hc) as (p & Hp & Hne & Hne').
    assert (p = Deleting) as ->.
    { pose proof (i_pc _ Hinv _ _ Hp) as Hok. pose proof (i_rs _ Hinv) as Hl. pose proof (i_len _ Hinv) as Hl'.
      rewrite Ht in Hok, Hl, Hl'. simpl in *. pose proof (lookup_lt_Some _ _ _ Hp).
      destruct (lookup_lt_is_Some_2 rs c) as [v Hv]; [lia|]. destruct p; simpl in Hok; naive_solver congruence. }
    pose proof (r_delete c st Hp) as Hd. pose proof (spawn_step_inv _ _ Hinv (s_client _ _ c Hd)) as Hinv'.
    destruct (IH (size (clerks st ∖ {[c]}))) with (st := set_proc c Ended (set_clerks (clerks st ∖ {[c]}) st))
      as (st' & Hr & Ht' & He); try done.
    { apply subset_size. set_solver. }
    exists st'. split; [|done]. eapply rtc_l; [by eapply s_client|done].
  - exists st. split; [apply rtc_refl|]. split; [done|]. by apply leibniz_equiv.
Qed.

(** A client that is running can come to the select, while the others and the tester
    wait; the world stays good. *)
Class Progress (good : W → Prop) : Prop := {
  good_step w w' : good w → fn_any w w' → good w';
  progress c w : (c < nclnt)%nat → good w → (∀ r, ¬ returned c w r) →
    ∃ w1 w2 r, rtc (λ a b, fn_work c a b ∨ fn_env a b) w w1 ∧ fn_return c w1 w2 r
}.

Context (good : W → Prop) `{!Progress good}.

Lemma good_steps st st' : good (world st) → rtc step st st' → good (world st').
Proof.
  intros Hg Hr%spawn_world. induction Hr as [|? ? ? Hs _ IH]; [done|]. by apply IH, (good_step _ _ Hg).
Qed.

Lemma run_alone c st w1 :
  procs st !! c = Some Running → rtc (λ a b, fn_work c a b ∨ fn_env a b) (world st) w1 →
  rtc step st (set_world w1 st).
Proof.
  intros Hp Hr. remember (world st) as w eqn:Hw. revert st Hp Hw.
  induction Hr as [w|w w' w1 Hs _ IH]; intros st Hp ->; [destruct st; apply rtc_refl|].
  eapply rtc_l; [|by apply (IH (set_world w' st))].
  destruct Hs; [by eapply s_client, r_work|by eapply s_env].
Qed.

(** The client [c] takes a message. *)
Lemma take st c i :
  inv st → good (world st) → tester st = Telling i true → procs st !! c = Some Running →
  ∃ st', rtc step st st' ∧ tester st' = Telling (S i) false.
Proof.
  intros Hinv Hg Ht Hp. destruct (i_pc _ Hinv _ _ Hp) as [Hno _].
  pose proof (lookup_lt_Some _ _ _ Hp). pose proof (i_len _ Hinv). pose proof (i_max _ Hinv).
  destruct (progress c (world st) ltac:(lia) Hg Hno) as (w1 & w2 & r & Hr & Hret).
  eexists. split.
  - eapply rtc_r; [by eapply run_alone|]. eapply s_tester, t_tell; done.
  - done.
Qed.

Lemma by_tester st st' k : SpawnClientsAndWait st st' → (rank (tester st') < k)%nat →
  ∃ st', rtc step st st' ∧ (rank (tester st') < k)%nat.
Proof. intros Hs Hr. exists st'. split; [by apply rtc_once, s_tester|done]. Qed.

Lemma advance st :
  inv st → good (world st) → (∀ rs, tester st ≠ Returned rs) →
  ∃ st', rtc step st st' ∧ (rank (tester st') < rank (tester st))%nat.
Proof.
  intros Hinv Hg Hnr. pose proof Hinv as [H1 H2 H3 H4 H5 H6 H7 H8].
  destruct (tester st) as [cli| |i parked|cli rs|rs] eqn:Ht; simpl in *.
  - destruct (decide (cli < nclnt)%nat) as [Hlt|Hge].
    + eapply by_tester; [by apply (t_spawn _ cli)|]. simpl. lia.
    + assert (cli = nclnt) as -> by lia. eapply by_tester; [by apply t_spawned|]. simpl. lia.
  - eapply by_tester; [by apply t_sleep|]. simpl. lia.
  - destruct parked.
    + specialize (H3 eq_refl). destruct (took_zero (procs st)) as (c & p & Hc & Hz); [lia|].
      assert (∃ st1, rtc step st st1 ∧ tester st1 = Telling i true ∧ procs st1 !! c = Some Running) as
        (st1 & Hr1 & Ht1 & Hp1).
      { destruct p; try done; [|by exists st; auto using rtc_refl].
        eexists. split; [by eapply rtc_once, s_client, r_make|]. split; [done|]. simpl.
        by apply list_lookup_insert_eq, lookup_lt_Some with Making. }
      destruct (take st1 c i) as (st2 & Hr2 & Ht2); [by eapply spawn_steps_inv|by eapply good_steps|done..|].
      exists st2. split; [by etrans|]. rewrite Ht2. simpl. lia.
    + destruct (decide (i < nclnt)%nat) as [Hlt|Hge].
      * eapply by_tester; [by apply (t_park _ i)|]. simpl. lia.
      * assert (i = nclnt) as -> by lia. eapply by_tester; [by apply t_told|]. simpl. lia.
  - destruct (decide (cli < nclnt)%nat) as [Hlt|Hge].
    + destruct (lookup_lt_is_Some_2 (procs st) cli) as [p Hp]; [lia|].
      assert (took p = 1) as Htk by (eapply took_all; [|done]; lia).
      assert (rs !! cli = None) as Hrs by (apply lookup_ge_None; lia).
      pose proof (H7 _ _ Hp) as Hok. destruct p as [| |v| |]; simpl in *; try done;
        try (destruct Hok as (? & ? & _); congruence).
      eapply by_tester; [by apply (t_collect _ cli rs v)|]. simpl. lia.
    + assert (cli = nclnt) as -> by lia. eapply by_tester; [by apply t_collected|]. simpl. lia.
  - by destruct (Hnr rs).
Qed.

Lemma can_return st :
  inv st → good (world st) → ∃ st' rs, rtc step st st' ∧ tester st' = Returned rs.
Proof.
  remember (rank (tester st)) as k eqn:Hk. revert st Hk.
  induction k as [k IH] using lt_wf_ind; intros st -> Hinv Hg.
  assert ((∃ rs, tester st = Returned rs) ∨ ∀ rs, tester st ≠ Returned rs) as [[rs Hrs]|Hno]
    by (destruct (tester st); eauto).
  { exists st, rs. split; [apply rtc_refl|done]. }
  destruct (advance st Hinv Hg) as (st1 & Hr1 & Hlt); [done|].
  destruct (IH _ Hlt st1) as (st' & rs & Hr' & Ht'); [done|by eapply spawn_steps_inv|by eapply good_steps|].
  exists st', rs. split; [by etrans|done].
Qed.
End spawn.
End KvSpawn.
