(* ===== verification/KvSpec.v ===== *)
(** * Properties of the key/value model and test helpers

    Splitting a history by key loses nothing; CheckAppends accepts exactly the
    values that appending clients can leave; PutAtLeastOnce leaves the value with
    the version it returns. *)

From Stdlib Require Import Strings.Ascii.
From stdpp Require Import pretty.
From S2P Require Import Prelude MapReduce Models KvTest KvService KvAppend.
Import Models KvTest KvService KvAppend.

(** C33. Partitioning a history by key is sound and complete: a sequence of
    operations is legal on the whole store exactly when each part that Partition
    returns is legal for a single key; every operation is in the part of its key,
    and the parts are in the order of the history. *)
Theorem Partition_sound history :
  (legal_store ∅ history = true ↔ ∀ p, p ∈ Partition history → legal Init p = true) ∧
  (∀ o, o ∈ history ↔ ∃ p, p ∈ Partition history ∧ o ∈ p) ∧
  (∀ p, p ∈ Partition history → ∃ k, p = on_key k history).
Proof.
  split_and!.
  - rewrite legal_store_keys. split.
    + intros Hk p (k & -> & _)%elem_of_Partition. specialize (Hk k). by rewrite mget_empty in Hk.
    + intros Hp k. rewrite mget_empty. destruct (on_key k history) as [|o l] eqn:Hk; [done|].
      apply Hp. apply elem_of_Partition. exists k. by rewrite Hk.
  - intros o. split.
    + intros Ho. assert (o ∈ on_key (Models.Key (Input o)) history) as Hin
        by (unfold on_key; by apply list_elem_of_filter).
      exists (on_key (Models.Key (Input o)) history). split; [|done].
      apply elem_of_Partition. eexists. split; [done|]. intros Heq. rewrite Heq in Hin. set_solver.
    + intros (p & (k & -> & _)%elem_of_Partition & Hin). unfold on_key in Hin.
      by apply list_elem_of_filter in Hin as [_ ?].
  - intros p (k & -> & _)%elem_of_Partition. by exists k.
Qed.

(** CheckAppends accepts a value exactly when it can be the result of appends:
    the numbers of each client are strictly increasing from zero, the version is
    one more than the number of entries, and for every client that took part or
    has an entry, there are results, its numbers skip at most as many appends as
    were answered with ErrMaybe, and stay below the number of appends it made. *)
Theorem CheckAppends_accepts es nclnt rs ver order :
  (∀ m, range_order m (order m)) →
  CheckAppends es nclnt rs ver order = Ret tt ↔
    in_order es ∧ Z.of_nat (length es) + 1 = i64 ver ∧
    ∀ c, 0 ≤ c < Z.of_nat nclnt ∨ c ∈ Id <$> es →
      0 ≤ c ∧ ∃ r, rs !! Z.to_nat c = Some r ∧
        next_of (numbers c es) - Z.of_nat (length (numbers c es)) ≤ Nmaybe r ∧
        next_of (numbers c es) ≤ Nok r + Nmaybe r.
Proof. apply CheckAppends_Ret. Qed.

Lemma CheckAppends_accepts_witness :
  CheckAppends [MkEntry 0 0; MkEntry 1 0; MkEntry 0 2] 2 [MkRes 2 1; MkRes 1 0] 4 map_keys = Ret tt.
Proof.
  apply (CheckAppends_accepts [MkEntry 0 0; MkEntry 1 0; MkEntry 0 2] 2 [MkRes 2 1; MkRes 1 0] 4
    map_keys (λ m, range_order_refl m)).
  split; [|split].
  - assert (∀ c, c ≠ 0 → c ≠ 1 → numbers c [MkEntry 0 0; MkEntry 1 0; MkEntry 0 2] = []) as Hno.
    { intros c ? ?. unfold numbers. rewrite filter_none; [done|].
      intros x. rewrite !elem_of_cons. intros [-> |[-> |[-> |?]]]; simpl; [congruence|congruence|congruence|set_solver]. }
    intros c. destruct (decide (c = 0)) as [->|?]; [|destruct (decide (c = 1)) as [->|?]].
    + apply (bool_decide_unpack _). vm_compute. exact I.
    + apply (bool_decide_unpack _). vm_compute. exact I.
    + rewrite Hno by done. repeat constructor.
  - vm_compute. reflexivity.
  - intros c Hc. assert (c = 0 ∨ c = 1) as [-> | ->].
    { destruct Hc as [?|Hc]; [lia|]. clear -Hc. set_solver. }
    + split; [lia|]. eexists. split; [reflexivity|]. vm_compute. split; discriminate.
    + split; [lia|]. eexists. split; [reflexivity|]. vm_compute. split; discriminate.
Defined.

(** ** Concurrent appends *)

(** However the clients are interleaved with each other and the service, no client ends
    in Fatalf, and CheckAppends accepts the value and their results once they are done. *)
Theorem appends_accepted {W} `{ServiceLaws W} `{JsonLaws (list EntryN)} nclnt (w0 w : world) :
  start nclnt w0 → rtc KvAppend.step w0 w →
  (∀ c, clients w !! c ≠ Some Fatal) ∧
  ∀ rs s r order,
    (∀ c, 0 ≤ c < Z.of_nat nclnt →
      ∃ res, rs !! Z.to_nat c = Some res ∧ clients w !! c = Some (Done res)) →
    svc_get (svc w) s r → (∀ m, range_order m (order m)) →
    ∃ es ver, GetJson r = Ret (es, ver) ∧
      (Z.of_nat (length es) + 1 < two63 → CheckAppends es nclnt rs ver order = Ret tt).
Proof.
  intros Hs Hr. destruct (reach_inv nclnt w0 w Hs Hr) as [[es Hinv] Hdom]. split.
  { intros c Hc. by apply (v_pc _ _ Hinv) in Hc. }
  intros rs s [[val ver] err] order Hdone Hget Hord.
  pose proof (v_cur _ _ Hinv) as Hu. pose proof (v_ver _ _ Hinv) as Hver.
  apply get_law in Hget as (_ & Hg & _). destruct Hg as [-> Hcur]; [lia|]. rewrite <-Hcur in Hu, Hver. simpl in Hu, Hver.
  exists es, ver. unfold GetJson. rewrite decide_True, Hu by done. split; [done|].
  intros Hlen. apply CheckAppends_Ret; [done|]. split; [apply (v_order _ _ Hinv)|].
  split; [rewrite Hver, i64_id; [done|unfold two63 in *; lia]|].
  intros c Hc. assert (0 ≤ c < Z.of_nat nclnt) as Hn.
  { destruct Hc as [?|(e & -> & He)%list_elem_of_fmap]; [done|].
    apply Hdom. by apply (v_ids _ _ Hinv). }
  split; [lia|]. destruct (Hdone c Hn) as (res & Hres & Hcl). exists res. split; [done|].
  destruct (v_pc _ _ Hinv c _ Hcl) as ((? & ? & _) & Hb & Hnok & _).
  pose proof (below_next _ _ (v_order _ _ Hinv c) Hb ltac:(lia)). lia.
Qed.

(** ** At-least-once puts *)

(** The operations that a client logged: puts of [value], each at the version the
    server had, the last one answered with OK. *)
Definition put_logged (key value : string) (me : Z) (o : Operation) : Prop :=
  ClientId o = me ∧ Op (Input o) = 1 ∧ Models.Key (Input o) = key ∧ InValue (Input o) = value ∧
  (Err (Output o) = OK ∨ Err (Output o) = ErrMaybe).

(** PutAtLeastOnce, for a clerk that alone writes the key and starts at the
    server's version: it returns within one more round than the clerk can lose
    replies, the server then has the value with exactly the version returned, the
    number of puts performed is at least one and equals the growth of the version,
    and each of them is in the operation log. *)
Theorem PutAtLeastOnce_stores {W} `{IKVClerk W} stored patience `{!SingleWriter stored patience}
    clock fuel key value me (ts : test W) l0 :
  (patience (ck ts) < fuel)%nat → oplog ts = Some l0 →
  ∃ ver' ts' l, PutAtLeastOnce clock fuel key value (stored (ck ts) key).2 me ts = Ret (ver', ts') ∧
    stored (ck ts') key = (value, ver') ∧
    oplog ts' = Some (l0 ++ l) ∧ Forall (put_logged key value me) l ∧ l ≠ [] ∧
    ver' = Nat.iter (length l) (λ v, u64 (v + 1)) (stored (ck ts) key).2.
Proof.
  revert ts l0. induction fuel as [|fuel IH]; intros ts l0 Hf Hl; [lia|].
  cbn [PutAtLeastOnce]. unfold ts_Put. cbn [now ck oplog ops ticks].
  destruct (ck_Put (ck ts) key value (stored (ck ts) key).2) as [w err] eqn:Hput.
  destruct (put_current _ _ _ _ _ Hput) as [Herr Hst].
  set (ts1 := log_append _ _). set (o := MkOp me _ _ _ _) in ts1.
  assert (oplog ts1 = Some (l0 ++ [o])) as Hl1 by (simpl; by rewrite Hl).
  destruct Herr as [->|[-> Hp]].
  - rewrite decide_True by done. exists (u64 ((stored (ck ts) key).2 + 1)), ts1, [o].
    split_and!; [done|done|done| |done|done].
    apply Forall_singleton. split_and!; try done. by left.
  - rewrite decide_False, decide_True by (done || by left).
    replace (u64 ((stored (ck ts) key).2 + 1)) with (stored (ck ts1) key).2 by (simpl; by rewrite Hst).
    destruct (IH ts1 (l0 ++ [o])) as (ver' & ts' & l & Heq & Hst' & Hl' & Hall & Hne & Hver);
      [simpl; lia|done|].
    exists ver', ts', (o :: l). split_and!; [done|done| | |done|].
    + rewrite Hl'. by rewrite <-(assoc_L (++)).
    + constructor; [|done]. split_and!; try done. by right.
    + rewrite Hver. simpl. rewrite Hst. simpl.
      apply (Nat.iter_swap _ _ (λ v, u64 (v + 1))).
Qed.

(** A server and a clerk whose next two replies are lost. *)
Record toy := MkToy { toy_val : string; toy_ver : Z; toy_lost : nat }.
#[local] Instance toy_clerk : IKVClerk toy := {|
  ck_Get w _ := (w, (toy_val w, toy_ver w, OK));
  ck_Put w _ v ver :=
    if decide (ver = toy_ver w) then
      match toy_lost w with
      | O => (MkToy v (u64 (ver + 1)) 0, OK)
      | S n => (MkToy v (u64 (ver + 1)) n, ErrMaybe)
      end
    else (w, ErrVersion) |}.
#[local] Instance toy_single : SingleWriter (λ w _, (toy_val w, toy_ver w)) toy_lost.
Proof.
  split. intros [v ver n] key value w' err. simpl. rewrite decide_True by done.
  destruct n; intros [= <- <-]; split; auto.
Qed.

Definition toy_test : test toy := MkTest (MkToy "" 0 2) (Some []) 0 0.

Lemma PutAtLeastOnce_stores_witness :
  ∃ ver' ts', PutAtLeastOnce Z.of_nat 3 "k" "v" 0 7 toy_test = Ret (ver', ts') ∧
    toy_ver (ck ts') = ver' ∧ toy_val (ck ts') = "v".
Proof.
  destruct (PutAtLeastOnce_stores (λ w _, (toy_val w, toy_ver w)) toy_lost Z.of_nat 3 "k" "v" 7
    toy_test []) as (ver' & ts' & l & H1 & H2 & _); [simpl; lia|reflexivity|].
  exists ver', ts'. split; [exact H1|]. injection H2 as -> ->. split; reflexivity.
Defined.
