(* ===== verification/KvSpawnSpec.v ===== *)
(** * Whole concurrent tests: spawned clients and the checks of their results

    The clients of KvPut.v and KvAppend.v as client functions of SpawnClientsAndWait
    (KvSpawn.v): what they do when they are spawned, told to end and collected is a run
    of the clients, so the checks accept what SpawnClientsAndWait returns. *)

From S2P Require Import Prelude Models KvTest KvService KvAppend KvPut KvPutSpec KvSpec KvSpawn.
Import KvTest KvService KvSpawn.

(** ** OneClientPut *)

Section put.
Context {W : Type} `{ServiceLaws W} `{!ResendLaws W} `{JsonLaws KvPut.EntryV}.
Import KvPut.
Local Abbreviation world := (KvPut.world (W:=W)).
Implicit Types w : world.

#[export] Instance put_fclnt : Fclnt world := {|
  fn_return c w w' r := ∃ ver, clients w !! c = Some (Select ver (Nok r) (Nmaybe r)) ∧
    w' = goto c (Done r) (svc w) w;
  fn_default c w w' := ∃ ver nok nmay, clients w !! c = Some (Select ver nok nmay) ∧
    w' = goto c (Try ver nok nmay) (svc w) w;
  fn_work := work;
  fn_env w w' := ∃ s, svc_run (svc w) s ∧ w' = MkWorld s (clients w);
  returned c w r := clients w !! c = Some (Done r)
|}.

Lemma goto_self c p q s w : clients w !! c = Some q → clients (goto c p s w) !! c = Some p.
Proof. intros Hc. by apply list_lookup_insert_eq, lookup_lt_Some with q. Qed.

Lemma goto_done c p q s w r :
  clients w !! c = Some q → clients (goto c p s w) !! c = Some (Done r) → p = Done r.
Proof. intros Hc. rewrite (goto_self c p q) by done. by intros [= ?]. Qed.

#[export] Instance put_fclnt_laws : FclntLaws world.
Proof.
  split.
  - intros c w w' r (ver & Hc & ->). by eapply goto_self.
  - by intros c w w' r (ver & nok & nmay & Hc & ->) ?%(goto_done _ _ _ _ _ _ Hc).
  - intros c w w' r [????  Hc|?????? Hc|?????? Hc|???? ? x Hc] Hd%(goto_done _ _ _ _ _ _ Hc); try done; revert Hd.
    + unfold after_put. by case_decide.
    + unfold after_get. destruct (GetJson x) as [[]|]; by repeat case_decide.
  - intros c d w w' r Hne [(r' & ver & _ & ->)|[(ver & nok & nmay & _ & ->)|Hw]];
      [by unfold returned; simpl; rewrite list_lookup_insert_ne..|].
    by destruct Hw; unfold returned; simpl; rewrite list_lookup_insert_ne.
  - intros c w w' r (s & _ & ->). done.
Qed.

Lemma put_project w w' : rtc fn_any w w' → rtc KvPut.step w w'.
Proof.
  apply rtc_subrel. intros a b [(c & [([nok nmay] & ver & Hc & ->)|[(ver & nok & nmay & Hc & ->)|Hw]])|(s & Hs & ->)].
  - by eapply KvPut.s_done.
  - by eapply KvPut.s_default.
  - by eapply KvPut.s_work.
  - by apply KvPut.s_run.
Qed.

Lemma put_start_running nclnt w c r : KvPut.start nclnt w → ¬ returned c w r.
Proof. intros [Hc _]. simpl. rewrite Hc. by intros [? _]%lookup_replicate. Qed.

(** The clients of a test that has ended. *)
Lemma put_collected nclnt w0 st rs :
  KvPut.start nclnt w0 → rtc (KvSpawn.step nclnt) (begin w0) st → tester st = Returned rs →
  clients (KvSpawn.world st) = Done <$> rs.
Proof.
  intros Hs Hr Ht. assert (KvSpawn.inv nclnt st) as Hinv by (apply (spawn_inv nclnt w0); [intros c r; by apply (put_start_running nclnt)|done]).
  destruct (put_reach_inv nclnt w0 (KvSpawn.world st) Hs) as [_ Hlen].
  { apply put_project. by apply (spawn_world nclnt) in Hr. }
  pose proof (i_rs _ _ Hinv) as Hrs. rewrite Ht in Hrs. simpl in Hrs.
  apply list_eq_same_length with nclnt; [by rewrite length_fmap|done|].
  intros c p q _ Hp. rewrite list_lookup_fmap. intros (v & Hv & ->)%fmap_Some.
  pose proof (spawn_results nclnt _ _ _ _ Hinv Ht Hv) as Hx. simpl in Hx. congruence.
Qed.
End put.

(** ** OneClientAppend *)

Section append.
Context {W : Type} `{ServiceLaws W} `{JsonLaws (list EntryN)}.
Import KvAppend.
Local Abbreviation world := (KvAppend.world (W:=W)).
Implicit Types w : world.

#[export] Instance append_fclnt : Fclnt world := {|
  fn_return c w w' r := ∃ i, clients w !! Z.of_nat c = Some (Select i (Nok r) (Nmaybe r)) ∧
    w' = goto (Z.of_nat c) (Done r) (svc w) w;
  fn_default c w w' := ∃ i nok nmay, clients w !! Z.of_nat c = Some (Select i nok nmay) ∧
    w' = goto (Z.of_nat c) (Try i nok nmay) (svc w) w;
  fn_work c := work (Z.of_nat c);
  fn_env w w' := ∃ s, svc_run (svc w) s ∧ w' = MkWorld s (clients w);
  returned c w r := clients w !! Z.of_nat c = Some (Done r)
|}.

Lemma append_goto_done c p s w r : clients (goto c p s w) !! c = Some (Done r) → p = Done r.
Proof. unfold goto. simpl. rewrite lookup_insert_eq. by intros [= ?]. Qed.

#[export] Instance append_fclnt_laws : FclntLaws world.
Proof.
  split.
  - intros c w w' r (i & Hc & ->). apply lookup_insert_eq.
  - by intros c w w' r (i & nok & nmay & Hc & ->) ?%append_goto_done.
  - intros c w w' r [??? ? x|?????? |????????|??????] Hd%append_goto_done; try done; revert Hd.
    + unfold after_get. by destruct (GetJson x) as [[]|].
    + unfold after_put. by repeat case_decide.
  - intros c d w w' r Hne [(r' & i & _ & ->)|[(i & nok & nmay & _ & ->)|Hw]];
      [by unfold returned; simpl; rewrite lookup_insert_ne by lia..|].
    by destruct Hw; unfold returned; simpl; rewrite lookup_insert_ne by lia.
  - intros c w w' r (s & _ & ->). done.
Qed.

Lemma append_project w w' : rtc fn_any w w' → rtc KvAppend.step w w'.
Proof.
  apply rtc_subrel. intros a b [(c & [([nok nmay] & i & Hc & ->)|[(i & nok & nmay & Hc & ->)|Hw]])|(s & Hs & ->)].
  - by eapply KvAppend.s_done.
  - by eapply KvAppend.s_default.
  - exact (KvAppend.s_work _ (Z.of_nat c) _ Hw).
  - by apply KvAppend.s_run.
Qed.

Lemma append_start_running nclnt w c r : KvAppend.start nclnt w → ¬ returned c w r.
Proof. intros [Hc _]. simpl. rewrite Hc. by case_decide. Qed.

Lemma append_collected nclnt w0 st rs c :
  KvAppend.start nclnt w0 → rtc (KvSpawn.step nclnt) (begin w0) st → tester st = Returned rs →
  0 ≤ c < Z.of_nat nclnt →
  ∃ r, rs !! Z.to_nat c = Some r ∧ clients (KvSpawn.world st) !! c = Some (Done r).
Proof.
  intros Hs Hr Ht Hc. assert (KvSpawn.inv nclnt st) as Hinv
    by (apply (spawn_inv nclnt w0); [intros d r; by apply (append_start_running nclnt)|done]).
  pose proof (i_rs _ _ Hinv) as Hrs. rewrite Ht in Hrs. simpl in Hrs.
  destruct (lookup_lt_is_Some_2 rs (Z.to_nat c)) as [r Hv]; [lia|]. exists r. split; [done|].
  pose proof (spawn_results nclnt _ _ _ _ Hinv Ht Hv) as Hx. simpl in Hx. by rewrite Z2Nat.id in Hx by lia.
Qed.
End append.

(** ** The tests *)

(** C29. The put test raises no false alarm.  Let SpawnClientsAndWait run OneClientPut
    in any number of clients, on one key that does not exist at first, interleaved in
    any way with each other and with a service as documented: a put is performed only
    at the version it names, and a clerk answers ErrMaybe when a copy that it had to
    send again was refused.  Then no client ends in Fatalf, neither in OnePut's check
    of its own entry nor in GetJson; and when SpawnClientsAndWait has returned [rs] and
    a version is read, CheckPutConcurrent accepts it with [rs], in the unreliable case
    always and in the reliable case if no put was answered with ErrMaybe: the version
    is between the number of OKs and that of OKs and maybes. *)
Theorem put_test_accepted {W} `{ServiceLaws W} `{!ResendLaws W} `{JsonLaws KvPut.EntryV}
    nclnt (w0 : KvPut.world (W:=W)) st :
  KvPut.start nclnt w0 → rtc (step nclnt) (begin w0) st →
  (∀ c, KvPut.clients (world st) !! c ≠ Some KvPut.Fatal) ∧
  ∀ rs s r (e : KvPut.EntryV) ver0 reliable,
    tester st = Returned rs → svc_get (KvPut.svc (world st)) s r → GetJson r = Ret (e, ver0) →
    sumf Nok rs + sumf Nmaybe rs < two64 → (reliable = true → sumf Nmaybe rs = 0) →
    CheckPutConcurrent ver0 rs (MkRes 0 0) reliable = Ret (MkRes (sumf Nok rs) (sumf Nmaybe rs)) ∧
    sumf Nok rs ≤ ver0 ≤ sumf Nok rs + sumf Nmaybe rs.
Proof.
  intros Hs Hr. pose proof (put_project _ _ (spawn_world nclnt _ _ Hr)) as Hrun.
  destruct (puts_accepted nclnt w0 (world st) Hs Hrun) as [Hf Hacc]. split; [done|].
  intros rs s r e ver0 reliable Ht. apply Hacc. by eapply put_collected.
Qed.

(** C10. The append test raises no false alarm.  Let SpawnClientsAndWait run
    OneClientAppend in any number of clients, on one key, interleaved in any way with
    each other and with a service that performs a put only at the version it names, at
    any time after it was sent, and may answer any put with ErrMaybe.  Then no client
    ends in Fatalf, and when SpawnClientsAndWait has returned [rs], the value read by
    GetJson is accepted by CheckAppends with [rs]. *)
Theorem append_test_accepted {W} `{ServiceLaws W} `{JsonLaws (list EntryN)}
    nclnt (w0 : KvAppend.world (W:=W)) st :
  KvAppend.start nclnt w0 → rtc (step nclnt) (begin w0) st →
  (∀ c, KvAppend.clients (world st) !! c ≠ Some KvAppend.Fatal) ∧
  ∀ rs s r order,
    tester st = Returned rs →
    svc_get (KvAppend.svc (world st)) s r → (∀ m, range_order m (order m)) →
    ∃ es ver, GetJson r = Ret (es, ver) ∧
      (Z.of_nat (length es) + 1 < two63 → CheckAppends es nclnt rs ver order = Ret tt).
Proof.
  intros Hs Hr. pose proof (append_project _ _ (spawn_world nclnt _ _ Hr)) as Hrun.
  destruct (appends_accepted nclnt w0 (world st) Hs Hrun) as [Hf Hacc]. split; [done|].
  intros rs s r order Ht. apply Hacc. intros c Hc. by eapply append_collected.
Qed.

(** C4. SpawnClientsAndWait works whatever the clients do, as long as a client that is
    running can come back to its select.  From every reachable state it can still
    return, and all clerks can be deleted: no message of [done] goes to nobody and no
    client waits in vain to send its result.  When it has returned, it has one result
    per client, and each is the one that this client returned.  A goroutine that has
    ended has deleted its clerk. *)
Theorem SpawnClientsAndWait_returns {W} `{FclntLaws W} nclnt good `{!Progress nclnt good} (w0 : W) st :
  good w0 → (∀ c r, ¬ returned c w0 r) → rtc (step nclnt) (begin w0) st →
  (∃ st' rs, rtc (step nclnt) st st' ∧ tester st' = Returned rs ∧ clerks st' = ∅) ∧
  (∀ rs, tester st = Returned rs →
    length rs = nclnt ∧ ∀ c v, rs !! c = Some v → returned c (world st) v) ∧
  (∀ c, procs st !! c = Some Ended → c ∉ clerks st).
Proof.
  intros Hg Hw Hr. pose proof (spawn_inv nclnt w0 st Hw Hr) as Hinv. split_and!.
  - destruct (can_return nclnt good st Hinv) as (st1 & rs & Hr1 & Ht1).
    { by apply (good_steps nclnt good (begin w0)). }
    destruct (can_delete nclnt st1 rs) as (st2 & Hr2 & Ht2 & Hc2); [by eapply spawn_steps_inv|done|].
    exists st2, rs. split; [by etrans|done].
  - intros rs Ht. split; [|intros c v; by apply (spawn_results nclnt)].
    pose proof (i_rs _ _ Hinv) as Hrs. by rewrite Ht in Hrs.
  - intros c Hp (p & Hp' & _ & Hne)%(i_clerks _ _ Hinv). congruence.
Qed.

(** *** Witnesses: one client, which does one operation *)

Definition single_end {W} (w : W) (r : ClntRes) : spawn := MkSpawn w (Returned [r]) [Deleting] ({[0%nat]} ∪ ∅).

Lemma single_run {W} `{FclntLaws W} (w0 w1 w2 w3 : W) r :
  fn_default 0 w0 w1 → rtc (λ a b, fn_work 0 a b ∨ fn_env a b) w1 w2 → fn_return 0 w2 w3 r →
  rtc (step 1) (begin w0) (single_end w3 r).
Proof.
  intros Hd Hw Hret.
  eapply rtc_l; [eapply s_tester, (t_spawn _ _ 0); [done|lia]|].
  eapply rtc_l; [by eapply s_tester, t_spawned|].
  eapply rtc_l; [by eapply s_client, (r_make 0)|].
  eapply rtc_l; [by eapply s_client, (r_default 0); [done|simpl; tauto|]|].
  etrans; [by eapply (run_alone 1 0)|].
  eapply rtc_l; [by eapply s_tester, t_sleep|].
  eapply rtc_l; [eapply s_tester, (t_park _ _ 0); [done|lia]|].
  eapply rtc_l; [by eapply s_tester, (t_tell _ _ 0 0)|].
  eapply rtc_l; [by eapply s_tester, t_told|].
  eapply rtc_l; [eapply s_tester, (t_collect _ _ 0 [] r); [done|lia|done]|].
  eapply rtc_l; [by eapply s_tester, t_collected|]. apply rtc_refl.
Qed.

#[local] Instance entry_json : Json KvPut.EntryV := bits_json.
#[local] Instance entry_laws : JsonLaws KvPut.EntryV := bits_json_laws.
Definition entry0 : string := bits (encode (KvPut.MkEntryV 0 0)).
Definition put_start : KvPut.world := KvPut.MkWorld (MkMem ("", 0) ∅ ∅) [KvPut.Select 0 0 0].
Definition put_mem : memory := MkMem (entry0, 1) {[0%nat := (entry0, 0)]} {[0%nat]}.
Definition put_end : KvPut.world := KvPut.MkWorld put_mem [KvPut.Done (MkRes 1 0)].

Lemma put_run : rtc (step 1) (begin put_start) (single_end put_end (MkRes 1 0)).
Proof.
  eapply (single_run put_start).
  - by eexists _, _, _.
  - eapply rtc_l; [left; eapply (KvPut.s_put 0 _ 0 0 0 entry0 _ 0); [reflexivity|by vm_compute|by split]|].
    eapply rtc_l; [right; eexists; split; [exists 0%nat, entry0; by split|reflexivity]|].
    eapply rtc_l; [left; eapply (KvPut.s_reply 0 _ 0 0 0 0 OK); [reflexivity|]|].
    { split; [reflexivity|]. left. split; [|done]. simpl. set_solver. }
    eapply rtc_once. left. eapply (KvPut.s_get 0 _ 0 OK 0 0 _ (entry0, 1, OK)); [reflexivity|by split].
  - exists 1. split; [by vm_compute|]. unfold put_end, KvPut.goto. f_equal.
Qed.

Lemma put_test_accepted_witness :
  CheckPutConcurrent 1 [MkRes 1 0] (MkRes 0 0) true = Ret (MkRes 1 0) ∧ 1 ≤ 1 ≤ 1 + 0.
Proof.
  assert (KvPut.start 1 put_start) as Hs by by split_and!.
  destruct (put_test_accepted 1 put_start _ Hs put_run) as [_ Hp].
  apply (Hp [MkRes 1 0] put_mem (entry0, 1, OK) (KvPut.MkEntryV 0 0) 1 true);
    [done|by split|by vm_compute|by vm_compute|done].
Defined.

#[local] Instance entries_json : Json (list EntryN) := bits_json.
#[local] Instance entries_laws : JsonLaws (list EntryN) := bits_json_laws.
Definition json_of (es : list EntryN) : string := bits (encode es).
Definition append_start : KvAppend.world (W:=memory) :=
  KvAppend.MkWorld (MkMem (json_of [], 1) ∅ ∅) {[0 := KvAppend.Select 0 0 0]}.
Definition append_mem : memory :=
  MkMem (json_of [MkEntry 0 0], 2) {[0%nat := (json_of [MkEntry 0 0], 1)]} {[0%nat]}.
Definition append_end : KvAppend.world (W:=memory) :=
  KvAppend.MkWorld append_mem {[0 := KvAppend.Done (MkRes 1 0)]}.

Lemma append_run : rtc (step 1) (begin append_start) (single_end append_end (MkRes 1 0)).
Proof.
  assert (unmarshal (json_of []) = Some []) as He by by apply unmarshal_marshal.
  eapply (single_run append_start).
  - eexists _, _, _. split; [apply lookup_singleton_eq|reflexivity].
  - eapply rtc_l; [left; eapply (KvAppend.s_get 0 _ 0 0 0 _ (json_of [], 1, OK)); by vm_compute|].
    unfold GetJson. rewrite decide_True, He by done. simpl KvAppend.after_get.
    eapply rtc_l; [left; eapply (KvAppend.s_put 0 _ 0 0 0 [MkEntry 0 0] 1 (json_of [MkEntry 0 0]) _ 0)|].
    + by vm_compute.
    + done.
    + split; [|reflexivity]. done.
    + eapply rtc_l; [right; eexists; split; [exists 0%nat, (json_of [MkEntry 0 0]); split; [|reflexivity]|reflexivity]|].
      { reflexivity. }
      eapply rtc_once. left. eapply (KvAppend.s_reply 0 _ 0 0 0 0 OK); [by vm_compute|].
      split; [reflexivity|]. left. split; [|done]. simpl. set_solver.
  - exists 1. split; [by vm_compute|]. unfold append_end, KvAppend.goto. f_equal.
Qed.

Lemma append_test_accepted_witness :
  ∃ es ver, GetJson (json_of [MkEntry 0 0], 2, OK) = Ret (es, ver) ∧
    (Z.of_nat (length es) + 1 < two63 → CheckAppends es 1 [MkRes 1 0] ver map_keys = Ret tt).
Proof.
  apply (append_test_accepted 1 append_start (single_end append_end (MkRes 1 0))) with (s := append_mem).
  - split; [|by vm_compute]. intros c. case_decide as Hc.
    + assert (c = 0) as -> by lia. reflexivity.
    + apply lookup_singleton_ne. lia.
  - apply append_run.
  - done.
  - by split.
  - intros m. apply range_order_refl.
Defined.

(** Two clients that count the turns of their loops. *)
Abbreviation counters := (list (Z + ClntRes)).
#[local] Instance counters_fclnt : Fclnt counters := {|
  fn_return c w w' r := ∃ n, w !! c = Some (inl n) ∧ r = MkRes n 0 ∧ w' = <[c := inr r]> w;
  fn_default c w w' := ∃ n, w !! c = Some (inl n) ∧ w' = <[c := inl (n + 1)]> w;
  fn_work c w w' := False;
  fn_env w w' := False;
  returned c w r := w !! c = Some (inr r)
|}.
#[local] Instance counters_laws : FclntLaws counters.
Proof.
  split; try done.
  - intros c w w' r (n & Hc & -> & ->). by apply list_lookup_insert_eq, lookup_lt_Some with (inl n).
  - intros c w w' r (n & Hc & ->). simpl. rewrite list_lookup_insert_eq; [done|]. by eapply lookup_lt_Some.
  - intros c d w w' r Hne [(r' & n & _ & _ & ->)|[(n & _ & ->)|[]]]; simpl; by rewrite list_lookup_insert_ne.
Qed.
#[local] Instance counters_progress : Progress 2 (λ w : counters, length w = 2%nat).
Proof.
  split.
  - intros w w' Hw [(c & [(r' & n & _ & _ & ->)|[(n & _ & ->)|[]]])|[]]; by rewrite length_insert.
  - intros c w Hc Hw Hno. destruct (lookup_lt_is_Some_2 w c) as [[n|r] Hn]; [lia| |by apply Hno in Hn].
    exists w. eexists _, _. split; [apply rtc_refl|]. by exists n.
Qed.

Lemma SpawnClientsAndWait_returns_witness :
  ∃ st' rs, rtc (step 2) (begin ([inl 0; inl 0] : counters)) st' ∧ tester st' = Returned rs ∧ clerks st' = ∅.
Proof.
  apply (SpawnClientsAndWait_returns 2 (λ w : counters, length w = 2%nat) [inl 0; inl 0]).
  - done.
  - intros [|[|c]] r; simpl; discriminate.
  - apply rtc_refl.
Defined.
