(* ===== verification/LockTest.v ===== *)
(** * The lock test (kvsrv1/lock/lock_test.go)

    The clients of the lock test acquire a lock, check that the key l0 is empty, write
    their number there, empty it again and release the lock.  The lock is a lab
    skeleton and a class here, [LockService]: its calls, and its own steps in between;
    [LockLaws] is what a lock promises.  The key/value service is that of KvService.v.

    [sent] and [sections] record what happened: which client sent which put in which
    iteration, and the iterations that got to the answer to their second put. *)

From stdpp Require Import pretty.
From S2P Require Import Prelude Models KvTest KvService KvSpawn.
Import KvTest KvService.

Module LockTest.

Class LockService (L : Type) := {
  lk_acquire : nat → L → L → Prop;   (** Acquire of client [c] returns *)
  lk_release : nat → L → L → Prop;   (** Release of client [c] takes effect *)
  lk_run : L → L → Prop              (** the lock's own steps *)
}.

(** Mutual exclusion. *)
Class LockLaws {L} `{LockService L} (holder : L → option nat) := {
  acquire_law c l l' : lk_acquire c l l' → holder l = None ∧ holder l' = Some c;
  release_law c l l' : lk_release c l l' → holder l = Some c → holder l' = None;
  lk_run_law l l' : lk_run l l' → holder l' = holder l
}.

(** Where a client is in oneClient, before the call that the constructor is named
    after; [i] is the loop variable, [ver] the version read, [err] the answer to the
    first put. *)
Inductive pc :=
| Acquire1 | Acquire2 | Release1 | Release2
| PutInit | WaitInit (id : nat)
| Select (i : Z)
| Acquire (i : Z)
| Get (i : Z)
| Put1 (i ver : Z) | Wait1 (i ver : Z) (id : nat)
| Put2 (i ver : Z) (err : string) | Wait2 (i ver : Z) (err : string) (id : nat)
| Release (i : Z)
| Done (r : ClntRes)
| Fatal.                        (** t.Fatalf *)

Definition after_get (i : Z) (r : string * Z * string) : pc :=
  let '(val, ver, err) := r in
  if decide (err = OK) then if decide (val ≠ "") then Fatal else Put1 i ver else Fatal.
Definition after_put1 (i ver : Z) (err : string) : pc :=
  if decide (err = OK ∨ err = ErrMaybe) then Put2 i ver err else Fatal.
Definition after_put2 (i : Z) (err : string) : pc :=
  if decide (err = OK ∨ err = ErrMaybe) then Release i else Fatal.

(** strconv.Itoa(me) *)
Definition itoa (c : nat) : string := pretty (Z.of_nat c).

(** An iteration: its client, its number, the version read, and the answers to its puts. *)
Record section := MkSection { k_clnt : nat; k_iter : Z; k_ver : Z; k_put1 : string; k_put2 : string }.

Section clients.
Context {W L : Type} `{ClerkService W} `{LockService L}.

Record world := MkWorld {
  svc : W; lk1 : L; lk2 : L;
  clients : list pc;
  sent : gmap nat (nat * Z * bool);
  sections : list section
}.
Implicit Types w : world.

Definition goto (c : nat) (p : pc) w : world :=
  MkWorld (svc w) (lk1 w) (lk2 w) (<[c := p]> (clients w)) (sent w) (sections w).
Definition set_svc (s : W) w : world := MkWorld s (lk1 w) (lk2 w) (clients w) (sent w) (sections w).
Definition set_lk1 (l : L) w : world := MkWorld (svc w) l (lk2 w) (clients w) (sent w) (sections w).
Definition set_lk2 (l : L) w : world := MkWorld (svc w) (lk1 w) l (clients w) (sent w) (sections w).
Definition add_sent (id : nat) (x : nat * Z * bool) w : world :=
  MkWorld (svc w) (lk1 w) (lk2 w) (clients w) (<[id := x]> (sent w)) (sections w).
Definition add_section (x : section) w : world :=
  MkWorld (svc w) (lk1 w) (lk2 w) (clients w) (sent w) (sections w ++ [x]).

(** oneClient of client [c], between two selects. *)
Inductive work (c : nat) w : world → Prop :=
| s_acquire1 l : clients w !! c = Some Acquire1 → lk_acquire c (lk1 w) l →
    work c w (goto c Acquire2 (set_lk1 l w))
| s_acquire2 l : clients w !! c = Some Acquire2 → lk_acquire c (lk2 w) l →
    work c w (goto c Release1 (set_lk2 l w))
| s_release1 l : clients w !! c = Some Release1 → lk_release c (lk1 w) l →
    work c w (goto c Release2 (set_lk1 l w))
| s_release2 l : clients w !! c = Some Release2 → lk_release c (lk2 w) l →
    work c w (goto c PutInit (set_lk2 l w))
| s_init s id : clients w !! c = Some PutInit → svc_send (svc w) s "" 0 id →
    work c w (goto c (WaitInit id) (add_sent id (c, 0, false) (set_svc s w)))
| s_inited id s err : clients w !! c = Some (WaitInit id) → svc_reply (svc w) s id err →
    work c w (goto c (Select 1) (set_svc s w))
| s_acquire i l : clients w !! c = Some (Acquire i) → lk_acquire c (lk1 w) l →
    work c w (goto c (Get i) (set_lk1 l w))
| s_get i s r : clients w !! c = Some (Get i) → svc_get (svc w) s r →
    work c w (goto c (after_get i r) (set_svc s w))
| s_put1 i ver s id : clients w !! c = Some (Put1 i ver) → svc_send (svc w) s (itoa c) ver id →
    work c w (goto c (Wait1 i ver id) (add_sent id (c, i, false) (set_svc s w)))
| s_reply1 i ver id s err : clients w !! c = Some (Wait1 i ver id) → svc_reply (svc w) s id err →
    work c w (goto c (after_put1 i ver err) (set_svc s w))
| s_put2 i ver err s id : clients w !! c = Some (Put2 i ver err) →
    svc_send (svc w) s "" (u64 (ver + 1)) id →
    work c w (goto c (Wait2 i ver err id) (add_sent id (c, i, true) (set_svc s w)))
| s_reply2 i ver err id s err2 : clients w !! c = Some (Wait2 i ver err id) →
    svc_reply (svc w) s id err2 →
    work c w (goto c (after_put2 i err2) (add_section (MkSection c i ver err err2) (set_svc s w)))
| s_release i l : clients w !! c = Some (Release i) → lk_release c (lk1 w) l →
    work c w (goto c (Select (i + 1)) (set_lk1 l w)).

(** The service and the locks on their own. *)
Inductive env w : world → Prop :=
| e_svc s : svc_run (svc w) s → env w (set_svc s w)
| e_lk1 l : lk_run (lk1 w) l → env w (set_lk1 l w)
| e_lk2 l : lk_run (lk2 w) l → env w (set_lk2 l w).

(** oneClient as a client function of SpawnClientsAndWait. *)
#[global] Instance lock_fclnt : KvSpawn.Fclnt world := {|
  KvSpawn.fn_return c w w' r := ∃ i, clients w !! c = Some (Select i) ∧ r = MkRes i 0 ∧ w' = goto c (Done r) w;
  KvSpawn.fn_default c w w' := ∃ i, clients w !! c = Some (Select i) ∧ w' = goto c (Acquire i) w;
  KvSpawn.fn_work := work;
  KvSpawn.fn_env := env;
  KvSpawn.returned c w r := clients w !! c = Some (Done r)
|}.

(** runClients: [nclnt] clients at their beginning; the key l0 does not exist. *)
Definition runClients (nclnt : nat) w : Prop :=
  clients w = replicate nclnt Acquire1 ∧ sent w = ∅ ∧ sections w = [] ∧
  attempts (svc w) = ∅ ∧ performed (svc w) = ∅ ∧ (cur (svc w)).2 = 0.
End clients.
Arguments world : clear implicits.
End LockTest.
