(* ===== verification/LockTestSpec.v ===== *)
(** * The lock test: properties (kvsrv1/lock/lock_test.go)

    The test accepts every lock that excludes, and what it accepts without an ErrMaybe
    did exclude. *)

From stdpp Require Import pretty.
From S2P Require Import Prelude Models KvTest KvService KvSpawn LockTest.
Import KvTest KvService LockTest.

(** ** The version of the key *)

(** What a step does to the service. *)
Inductive svc_moved {W} `{ClerkService W} (s s' : W) : Prop :=
| m_same : same s s' → svc_moved s s'
| m_send val ver id : svc_send s s' val ver id → svc_moved s s'
| m_perform id val : attempts s !! id = Some (val, (cur s).2) → attempts s' = attempts s →
    cur s' = (val, (cur s).2 + 1) → performed s' = {[id]} ∪ performed s → svc_moved s s'.

Lemma moved_mono {W} `{ServiceLaws W} (s s' : W) : svc_moved s s' → (cur s).2 ≤ (cur s').2.
Proof.
  intros [(-> & _)|??? (_ & -> & _)%send_law|?? _ _ -> _]; simpl; lia.
Qed.

Lemma run_moved {W} `{ServiceLaws W} (s s' : W) : svc_run s s' → svc_moved s s'.
Proof. intros [?|(id & val & ? & ? & ? & ?)]%run_law; [by apply m_same|by eapply m_perform]. Qed.

Lemma any_moved {W L} `{ServiceLaws W} `{LockService L} (w w' : world W L) :
  KvSpawn.fn_any w w' → svc_moved (svc w) (svc w').
Proof.
  intros [(c & [(r & i & Hc & -> & ->)|[(i & Hc & ->)|Hw]])|[s Hs|l Hl|l Hl]];
    try (by apply m_same); [|by apply run_moved].
  destruct Hw as [| | | |? ? ? Hs|????  Hr| |? ? [[]] ? Hg|????? Hs|?????? Hr|?????? Hs|??????? Hr|]; simpl;
    try (by apply m_same); try (by eapply m_send).
  - apply m_same. by apply reply_law in Hr as [? _].
  - apply m_same. by apply get_law in Hg as [? _].
  - apply m_same. by apply reply_law in Hr as [? _].
  - apply m_same. by apply reply_law in Hr as [? _].
Qed.

(** A property of the steps that needs versions below 2^64 - 1. *)
Lemma bounded_inv {W L} `{ServiceLaws W} `{LockService L} (P : world W L → Prop) w0 w :
  (∀ w w', KvSpawn.fn_any w w' → (cur (svc w)).2 + 1 < two64 → P w → P w') →
  P w0 → rtc KvSpawn.fn_any w0 w → (cur (svc w)).2 + 1 < two64 → P w.
Proof.
  intros Hstep Hw0 Hr. revert w Hr. apply (rtc_ind_r (λ w, (cur (svc w)).2 + 1 < two64 → P w)); [done|].
  intros w w' _ Hs IH Hb. pose proof (moved_mono _ _ (any_moved _ _ Hs)).
  apply (Hstep w); [done|lia|apply IH; lia].
Qed.

(** ** No false alarm *)

(** In the section between Acquire and Release of the loop; holding the first lock. *)
Definition in_section (p : pc) : bool :=
  match p with
  | Get _ | Put1 _ _ | Wait1 _ _ _ | Put2 _ _ _ | Wait2 _ _ _ _ | Release _ => true
  | _ => false
  end.
Definition holds (p : pc) : bool :=
  match p with Acquire2 | Release1 => true | _ => in_section p end.
Definition awaits (id : nat) (p : pc) : Prop :=
  match p with Wait1 _ _ id' | Wait2 _ _ _ id' => id' = id | _ => False end.

Section accepted.
Context {W L : Type} `{ServiceLaws W} `{!ResendLaws W} `{LockService L}.
Context (holder : L → option nat) `{!LockLaws holder}.
Implicit Types (s : W) (l : L) (cl : list pc).

Definition pc_ok s (c : nat) (p : pc) : Prop :=
  match p with
  | WaitInit id => attempts s !! id = Some ("", 0)
  | Select _ | Acquire _ => (cur s).2 ≠ 0
  | Get _ | Release _ => (cur s).2 ≠ 0 ∧ (cur s).1 = ""
  | Put1 _ ver => 0 < ver ∧ cur s = ("", ver)
  | Wait1 _ ver id => 0 < ver ∧ attempts s !! id = Some (itoa c, ver) ∧
      (cur s = ("", ver) ∨ cur s = (itoa c, ver + 1) ∧ id ∈ performed s)
  | Put2 _ ver _ => 0 < ver ∧ cur s = (itoa c, ver + 1)
  | Wait2 _ ver _ id => 0 < ver ∧ attempts s !! id = Some ("", ver + 1) ∧
      (cur s = (itoa c, ver + 1) ∨ cur s = ("", ver + 2) ∧ id ∈ performed s)
  | Fatal => False
  | _ => True
  end.

Record inv s l cl : Prop := {
  a_nonneg : 0 ≤ (cur s).2;
  a_hold c : holder l = Some c ↔ ∃ p, cl !! c = Some p ∧ holds p = true;
  a_perf id : id ∈ performed s → ∃ val ver, attempts s !! id = Some (val, ver) ∧ ver < (cur s).2;
  a_att id val ver : attempts s !! id = Some (val, ver) →
    ver < (cur s).2 ∨ ver = (cur s).2 ∧ (ver = 0 ∧ val = "" ∨ ∃ c p, cl !! c = Some p ∧ awaits id p);
  a_pc c p : cl !! c = Some p → pc_ok s c p;
  a_free : (∀ c p, cl !! c = Some p → in_section p = false) → (cur s).2 ≠ 0 → (cur s).1 = ""
}.

Lemma section_holds p : in_section p = true → holds p = true.
Proof. by destruct p. Qed.

(** One client at a time is in the section. *)
Lemma alone s l cl c d p q :
  inv s l cl → cl !! c = Some p → cl !! d = Some q → holds p = true → holds q = true → c = d.
Proof.
  intros Hinv Hc Hd Hp Hq. assert (holder l = Some c) as Hc1 by (apply (a_hold _ _ _ Hinv); by eexists).
  assert (holder l = Some d) as Hd1 by (apply (a_hold _ _ _ Hinv); by eexists). congruence.
Qed.

(** The key exists when a client is in the section. *)
Lemma section_exists s c p : pc_ok s c p → in_section p = true → (cur s).2 ≠ 0.
Proof.
  destruct p; simpl; try done; [by intros [? _]|..|by intros [? _]].
  - intros [? ->] _. simpl. lia.
  - intros (? & _ & [->|[-> _]]) _; simpl; lia.
  - intros [? ->] _. simpl. lia.
  - intros (? & _ & [->|[-> _]]) _; simpl; lia.
Qed.

(** What does not depend on the value. *)
Lemma pc_ok_outside s s' c p :
  in_section p = false → ((cur s).2 ≠ 0 → (cur s').2 ≠ 0) →
  (∀ id x, attempts s !! id = Some x → attempts s' !! id = Some x) → pc_ok s c p → pc_ok s' c p.
Proof. intros Hp Hv Ha. destruct p; simpl; auto; done. Qed.

Lemma lock_pc_same s s' c p :
  cur s' = cur s → performed s' = performed s → (∀ id x, attempts s !! id = Some x → attempts s' !! id = Some x) → pc_ok s c p → pc_ok s' c p.
Proof. intros Hc Hp Ha. destruct p; simpl; rewrite ?Hc, ?Hp; intuition auto. Qed.

Lemma lock_inv_same s s' l l' cl : same s s' → holder l' = holder l → inv s l cl → inv s' l' cl.
Proof.
  intros (Hc & Ha & Hp) Hl [I1 I2 I3 I4 I5 I6]. split; rewrite ?Hc, ?Ha, ?Hp, ?Hl; try done.
  intros c p Hcp. apply (lock_pc_same s); rewrite ?Ha, ?Hp; auto.
Qed.

(** The holder after client [c] went from [p] to [p']. *)
Definition lock_moved (c : nat) (p p' : pc) l l' : Prop :=
  if holds p' then (holds p = false → holder l = None) ∧ holder l' = Some c
  else holder l' = if holds p then None else holder l.

Lemma hold_moved s l l' cl c p p' d :
  inv s l cl → cl !! c = Some p → lock_moved c p p' l l' →
  holder l' = Some d ↔ ∃ q, <[c := p']> cl !! d = Some q ∧ holds q = true.
Proof.
  intros Hinv Hc Hm. unfold lock_moved in Hm. pose proof (lookup_lt_Some _ _ _ Hc) as Hlt.
  assert (holds p = true → holder l = Some c) as Hmine by (intros ?; apply (a_hold _ _ _ Hinv); by eexists).
  pose proof (a_hold _ _ _ Hinv d) as Hd.
  destruct (decide (d = c)) as [->|Hne].
  - rewrite list_lookup_insert_eq by done. destruct (holds p') eqn:Hp'.
    + destruct Hm as [_ ->]. split; [|done]. intros _. by exists p'.
    + rewrite Hm. split; [|by intros (q & [= <-] & ?); congruence].
      destruct (holds p) eqn:Hp; [done|]. rewrite Hd, Hc. intros (q & [= <-] & ?). congruence.
  - rewrite list_lookup_insert_ne by done. rewrite <-Hd. destruct (holds p') eqn:Hp'.
    + destruct Hm as [Hfree ->]. split; [congruence|]. intros Hh.
      destruct (holds p); [rewrite Hmine in Hh by done|rewrite Hfree in Hh by done]; congruence.
    + rewrite Hm. destruct (holds p); [|done]. rewrite Hmine by done. split; congruence.
Qed.

(** A client moves on, away from a put whose version is over if it waited for one. *)
Lemma inv_move s l l' cl c p p' :
  inv s l cl → cl !! c = Some p → lock_moved c p p' l l' → pc_ok s c p' →
  (∀ id, awaits id p → ∃ val ver, attempts s !! id = Some (val, ver) ∧ ver < (cur s).2) →
  (in_section p' = false → in_section p = true → (cur s).1 = "") →
  inv s l' (<[c := p']> cl).
Proof.
  intros Hinv Hc Hm Hok Hover Hout. pose proof Hinv as [I1 I2 I3 I4 I5 I6]. split; try done.
  - intros d. by apply (hold_moved s l _ _ _ p).
  - intros id val ver Hid. destruct (I4 _ _ _ Hid) as [|[Hv [?|(d & q & Hd & Hq)]]]; [by left|by right; split; [|left]|].
    destruct (decide (d = c)) as [->|Hne].
    + simplify_eq. left. destruct (Hover id Hq) as (? & ? & ? & ?). by simplify_eq.
    + right. split; [done|]. right. exists d, q. by rewrite list_lookup_insert_ne.
  - intros d q. rewrite list_lookup_insert_Some. intros [(<- & <- & _)|[_ ?]]; auto.
  - intros Hall. assert (in_section p' = false) as Hp'
      by (apply (Hall c), list_lookup_insert_eq; by eapply lookup_lt_Some).
    destruct (in_section p) eqn:Hp; [intros; by apply Hout|]. apply I6. intros d q Hd.
    destruct (decide (d = c)) as [->|Hne]; [congruence|]. apply (Hall d). by rewrite list_lookup_insert_ne.
Qed.

(** A client sends a put and waits for it. *)
Lemma inv_send s s' l cl c p p' val ver id :
  inv s l cl → cl !! c = Some p → svc_send s s' val ver id → pc_ok s' c p' →
  (∀ id, ¬ awaits id p) → holds p' = holds p → in_section p' = in_section p →
  ver < (cur s).2 ∨ ver = (cur s).2 ∧ (ver = 0 ∧ val = "" ∨ awaits id p') →
  inv s' l (<[c := p']> cl).
Proof.
  intros Hinv Hc (Hnew & Hsc & Hsp & Hsa)%send_law Hok Hnaw Hh Hin Hver.
  assert (∀ id' x, attempts s !! id' = Some x → attempts s' !! id' = Some x) as Hmono.
  { intros id' x Hid'. rewrite Hsa, lookup_insert_ne; [done|]. congruence. }
  pose proof Hinv as [I1 I2 I3 I4 I5 I6]. split; rewrite ?Hsc, ?Hsp; try done.
  - intros d. apply (hold_moved s l _ _ _ p); [done|done|]. unfold lock_moved. rewrite Hh.
    destruct (holds p) eqn:Hp; [|done]. split; [done|]. apply I2. by exists p.
  - intros id' (v & n & ? & ?)%I3. exists v, n. auto.
  - intros id' v n. rewrite Hsa, lookup_insert_Some. intros [[<- [= <- <-]]|[_ Hid']].
    + destruct Hver as [?|[? [?|?]]]; [by left|by right; split; [|left]|]. right. split; [done|]. right.
      exists c, p'. split; [|done]. apply list_lookup_insert_eq. by eapply lookup_lt_Some.
    + destruct (I4 _ _ _ Hid') as [|[? [?|(d & q & Hd & Hq)]]]; [by left|by right; split; [|left]|].
      right. split; [done|]. right. exists d, q. split; [|done]. rewrite list_lookup_insert_ne; [done|].
      intros <-. simplify_eq. by apply Hnaw in Hq.
  - intros d q. rewrite list_lookup_insert_Some. intros [(<- & <- & _)|[_ ?]]; [done|].
    apply (lock_pc_same s); auto.
  - intros Hall. apply I6. intros d q Hd. destruct (decide (d = c)) as [->|Hne].
    + simplify_eq. rewrite <-Hin. apply (Hall c), list_lookup_insert_eq. by eapply lookup_lt_Some.
    + apply (Hall d). by rewrite list_lookup_insert_ne.
Qed.

(** The service performs a put. *)
Lemma lock_inv_perform s s' l cl id val :
  inv s l cl → attempts s !! id = Some (val, (cur s).2) → attempts s' = attempts s →
  cur s' = (val, (cur s).2 + 1) → performed s' = {[id]} ∪ performed s → inv s' l cl.
Proof.
  intros Hinv Hid Hsa Hsc Hsp. pose proof Hinv as [I1 I2 I3 I4 I5 I6].
  assert ((cur s).2 = 0 ∧ val = "" ∧ (∀ c p, cl !! c = Some p → in_section p = false) ∨
    ∃ c p, cl !! c = Some p ∧ awaits id p ∧ pc_ok s' c p) as Hwho.
  { destruct (I4 _ _ _ Hid) as [?|[_ [[Hz ->]|(c & p & Hc & Hp)]]]; [lia| |].
    - left. split_and!; [done..|]. intros c p Hc%I5. destruct (in_section p) eqn:Hp; [|done]. by apply section_exists in Hc.
    - right. exists c, p. split_and!; [done..|]. pose proof (I5 _ _ Hc) as Hok.
      destruct p; try done; simpl in Hp, Hok |- *; subst; rewrite Hsa, Hsc;
        destruct Hok as (? & Hat & [Hcur|[Hcur _]]); rewrite Hcur in *; simpl in *; simplify_eq; try lia;
        (split_and!; [done|done|]); right; (split; [f_equal; lia|set_solver]). }
  split; rewrite ?Hsc; simpl; try done; try lia.
  - intros id'. rewrite Hsp, elem_of_union, elem_of_singleton, Hsa. intros [->|Hp'].
    + eexists _, _. split; [done|lia].
    + destruct (I3 _ Hp') as (v & n & ? & ?). exists v, n. split; [done|lia].
  - intros id' v n. rewrite Hsa. intros Hid'. left. destruct (I4 _ _ _ Hid') as [|[? _]]; lia.
  - intros d q Hd. pose proof (I5 _ _ Hd) as Hok. destruct (in_section q) eqn:Hq.
    + destruct Hwho as [(_ & _ & Hno)|(c & p & Hc & Hp & Hok')]; [by rewrite (Hno _ _ Hd) in Hq|].
      assert (d = c) as -> by (apply (alone s l cl d c q p); auto using section_holds; by destruct p).
      by simplify_eq.
    + apply (pc_ok_outside s); rewrite ?Hsa, ?Hsc; simpl; auto; lia.
  - intros Hall _. destruct Hwho as [(_ & -> & _)|(c & p & Hc & Hp & _)]; [done|].
    apply Hall in Hc. by destruct p.
Qed.

(** After the reply to a put, its version is over; it is OK or ErrMaybe if the version
    was that of the key. *)
Lemma reply_over s s' l cl id err val ver :
  inv s l cl → attempts s !! id = Some (val, ver) → svc_reply s s' id err → ver < (cur s).2.
Proof.
  intros Hinv Hid Hr. pose proof (reply_law _ _ _ _ Hr) as (Hsame & HOK & Hother).
  destruct (decide (err = OK)) as [He|He]; [|destruct (decide (err = ErrMaybe)) as [->|Hm]].
  - destruct (a_perf _ _ _ Hinv id (HOK He)) as (? & ? & ? & ?). by simplify_eq.
  - destruct (maybe_law _ _ _ Hr) as (? & ? & ? & ?). by simplify_eq.
  - destruct (Hother He Hm) as (_ & ? & ? & ? & ?). by simplify_eq.
Qed.

Lemma reply_good s s' id err :
  svc_reply s s' id err → id ∈ performed s → (cur s).2 ≠ 0 → err = OK ∨ err = ErrMaybe.
Proof.
  intros Hr Hp Hv. pose proof (reply_law _ _ _ _ Hr) as (_ & _ & Hother).
  destruct (errors_law _ _ _ _ Hr) as [?|[->|[?|[_ ?]]]]; [by left| |by right|done].
  by destruct (Hother ltac:(done) ltac:(done)) as [? _].
Qed.

Implicit Types w : world W L.
Definition winv w : Prop := inv (svc w) (lk1 w) (clients w).

Lemma lock_stays c p p' l : holds p' = holds p → (holds p = true → holder l = Some c) → lock_moved c p p' l l.
Proof. unfold lock_moved. intros ->. destruct (holds p); naive_solver. Qed.

(** The lock stays with whom it is. *)
Lemma inv_stay s l cl c p p' :
  inv s l cl → cl !! c = Some p → holds p' = holds p → pc_ok s c p' →
  (∀ id, awaits id p → ∃ val ver, attempts s !! id = Some (val, ver) ∧ ver < (cur s).2) →
  (in_section p' = false → in_section p = true → (cur s).1 = "") →
  inv s l (<[c := p']> cl).
Proof.
  intros Hinv Hc Hh Hok Hover Hout. apply (inv_move s l _ _ _ p); try done.
  apply lock_stays; [done|]. intros Hp. apply (a_hold _ _ _ Hinv). by exists p.
Qed.

Lemma work_inv c w w' :
  work c w w' → (cur (svc w)).2 + 1 < two64 → winv w → winv w'.
Proof.
  unfold winv. intros Hw Hb Hinv.
  destruct Hw as [l Hc Hl|l Hc Hl|l Hc Hl|l Hc Hl|s id Hc Hs|id s err Hc Hr|i l Hc Hl|i s r Hc Hg
    |i ver s id Hc Hs|i ver id s err Hc Hr|i ver err s id Hc Hs|i ver err id s err2 Hc Hr|i l Hc Hl]; simpl;
    pose proof (a_pc _ _ _ Hinv c _ Hc) as Hok.
  - apply acquire_law in Hl as [? ?]. apply (inv_move _ (lk1 w) _ _ _ Acquire1); (done || by intros ? []).
  - apply (inv_stay _ _ _ _ Acquire2); (done || by intros ? []).
  - apply release_law in Hl; [|apply (a_hold _ _ _ Hinv); by exists Release1].
    apply (inv_move _ (lk1 w) _ _ _ Release1); (done || by intros ? []).
  - apply (inv_stay _ _ _ _ Release2); (done || by intros ? []).
  - apply (inv_send (svc w) _ _ _ _ PutInit _ "" 0 id); try done; try by intros ? [].
    + simpl. apply send_law in Hs as (_ & _ & _ & ->). apply lookup_insert_eq.
    + pose proof (a_nonneg _ _ _ Hinv). destruct (decide ((cur (svc w)).2 = 0)) as [->|]; [right; auto|left; lia].
  - pose proof (reply_over _ _ _ _ _ _ _ _ Hinv Hok Hr) as Hlt. apply reply_law in Hr as [Hsame _].
    apply (lock_inv_same (svc w) _ (lk1 w)); [done..|]. apply (inv_stay _ _ _ _ (WaitInit id)); try done; try by intros ? []. simpl. lia.
  - apply acquire_law in Hl as [Hn Hl]. apply (inv_move _ (lk1 w) _ _ _ (Acquire i)); try done; try by intros ? [].
    split; [done|]. apply (a_free _ _ _ Hinv); [|done]. intros d q Hd. destruct (in_section q) eqn:Hq; [|done].
    assert (holder (lk1 w) = Some d) as Hx; [|congruence]. apply (a_hold _ _ _ Hinv). exists q.
    auto using section_holds.
  - destruct r as [[val ver] err]. apply get_law in Hg as (Hsame & Hget & _). destruct Hok as [Hv Hemp].
    apply (lock_inv_same (svc w) _ (lk1 w)); [done..|]. destruct (Hget Hv) as [-> Hval].
    unfold after_get. rewrite decide_True by done. rewrite <-Hval in Hemp, Hv. simpl in Hemp, Hv. subst val.
    rewrite decide_False by (intros Hx; done). apply (inv_stay _ _ _ _ (Get i)); try done; try by intros ? []. simpl.
    pose proof (a_nonneg _ _ _ Hinv) as Hnn. rewrite <-Hval in Hnn |- *. simpl in Hnn. split; [lia|done].
  - destruct Hok as [Hv Hcur]. apply (inv_send (svc w) _ _ _ _ (Put1 i ver) _ (itoa c) ver id); try done; try by intros ? [].
    + simpl. apply send_law in Hs as (_ & -> & _ & ->). rewrite lookup_insert_eq. split_and!; auto.
    + right. rewrite Hcur. split; [done|]. by right.
  - destruct Hok as (Hv & Hid & Hcur). pose proof (reply_over _ _ _ _ _ _ _ _ Hinv Hid Hr) as Hlt.
    destruct Hcur as [Hcur|[Hcur Hp]]; [rewrite Hcur in Hlt; simpl in Hlt; lia|].
    pose proof (reply_good _ _ _ _ Hr Hp) as Herr. apply reply_law in Hr as [Hsame _].
    apply (lock_inv_same (svc w) _ (lk1 w)); [done..|]. unfold after_put1.
    rewrite decide_True by (apply Herr; rewrite Hcur; simpl; lia).
    apply (inv_stay _ _ _ _ (Wait1 i ver id)); try done; try by intros ? []. intros ? <-. by eexists _, _.
  - destruct Hok as [Hv Hcur]. rewrite Hcur in Hb. simpl in Hb.
    assert (u64 (ver + 1) = ver + 1) as Hu by (apply Z.mod_small; unfold two64 in *; lia). rewrite Hu in Hs.
    apply (inv_send (svc w) _ _ _ _ (Put2 i ver err) _ "" (ver + 1) id); try done; try by intros ? [].
    + simpl. apply send_law in Hs as (_ & -> & _ & ->). rewrite lookup_insert_eq. split_and!; auto.
    + right. rewrite Hcur. split; [done|]. by right.
  - destruct Hok as (Hv & Hid & Hcur). pose proof (reply_over _ _ _ _ _ _ _ _ Hinv Hid Hr) as Hlt.
    destruct Hcur as [Hcur|[Hcur Hp]]; [rewrite Hcur in Hlt; simpl in Hlt; lia|].
    pose proof (reply_good _ _ _ _ Hr Hp) as Herr. apply reply_law in Hr as [Hsame _].
    assert (inv s (lk1 w) (<[c := after_put2 i err2]> (clients w))) as Hdone.
    { apply (lock_inv_same (svc w) _ (lk1 w)); [done..|]. unfold after_put2.
      rewrite decide_True by (apply Herr; rewrite Hcur; simpl; lia).
      apply (inv_stay _ _ _ _ (Wait2 i ver err id)); try done; try by intros ? [].
      - simpl. rewrite Hcur. simpl. split; [lia|done].
      - intros ? <-. by eexists _, _. }
    exact Hdone.
  - destruct Hok as [Hv Hemp]. apply release_law in Hl; [|apply (a_hold _ _ _ Hinv); by exists (Release i)].
    apply (inv_move _ (lk1 w) _ _ _ (Release i)); (done || by intros ? []).
Qed.

Lemma any_inv w w' :
  KvSpawn.fn_any w w' → (cur (svc w)).2 + 1 < two64 → winv w → winv w'.
Proof.
  intros [(c & [(r & i & Hc & -> & ->)|[(i & Hc & ->)|Hw]])|He] Hb Hinv.
  - apply (inv_stay _ _ _ _ (Select i)); (done || by intros ? []).
  - pose proof (a_pc _ _ _ Hinv _ _ Hc). apply (inv_stay _ _ _ _ (Select i)); (done || by intros ? []).
  - by eapply work_inv.
  - destruct He as [s Hs|l Hl|l Hl]; unfold winv in *; simpl.
    + apply run_law in Hs as [?|(id & val & ? & ? & ? & ?)]; [by apply (lock_inv_same (svc w) _ (lk1 w))|].
      by eapply lock_inv_perform.
    + apply lk_run_law in Hl. by apply (lock_inv_same (svc w) _ (lk1 w)).
    + done.
Qed.

Lemma lock_start_inv nclnt w : runClients nclnt w → holder (lk1 w) = None → winv w.
Proof.
  intros (Hcl & _ & _ & Ha & Hp & Hv) Hl.
  assert (∀ c p, clients w !! c = Some p → p = Acquire1) as Hall.
  { intros c p. rewrite Hcl. by intros [-> _]%lookup_replicate. }
  split; rewrite ?Ha, ?Hp, ?Hv, ?Hl; try done.
  - intros c. split; [done|]. by intros (p & ->%Hall & ?).
  - by intros c p ->%Hall.
Qed.
End accepted.

(** ** What the test proves of a lock *)

Section sound.
Context {W L : Type} `{ServiceLaws W} `{LockService L}.
Implicit Types (s : W) (w : world W L).

(** Client [c] sent put [id] in its iteration [i]; the put was performed. *)
Definition wrote w (c : nat) (i : Z) (second : bool) (val : string) (ver : Z) : Prop :=
  ∃ id, id ∈ performed (svc w) ∧ attempts (svc w) !! id = Some (val, ver) ∧ sent w !! id = Some (c, i, second).

(** The puts performed below version [n] and what they made of the key. *)
Definition value_at w (n : Z) (val : string) : Prop :=
  ∀ id val' ver, id ∈ performed (svc w) → attempts (svc w) !! id = Some (val', ver) → ver + 1 = n → val' = val.

(** Iteration [i] is over; it is over and was completed. *)
Definition past (p : pc) (i : Z) : Prop :=
  match p with
  | Select j | Acquire j | Get j | Put1 j _ | Wait1 j _ _ | Put2 j _ _ | Wait2 j _ _ _ => i < j
  | Release j => i ≤ j
  | Done _ | Fatal => True
  | _ => False
  end.
Definition completed (p : pc) (i : Z) : Prop :=
  match p with Done r => i < Nok r | Fatal => False | _ => past p i end.

Definition good (err : string) : Prop := err = OK ∨ err = ErrMaybe.

(** The key was empty when it was read, at [ver]. *)
Definition read_empty w (ver : Z) : Prop := 0 < ver ≤ (cur (svc w)).2 ∧ value_at w ver "".

Definition pc_sound w (c : nat) (p : pc) : Prop :=
  match p with
  | Put1 _ ver => read_empty w ver
  | Wait1 i ver id => read_empty w ver ∧
      attempts (svc w) !! id = Some (itoa c, ver) ∧ sent w !! id = Some (c, i, false)
  | Put2 i ver err => read_empty w ver ∧ good err ∧ (err = OK → wrote w c i false (itoa c) ver)
  | Wait2 i ver err id => read_empty w ver ∧ good err ∧
      attempts (svc w) !! id = Some ("", ver + 1) ∧ sent w !! id = Some (c, i, true) ∧
      (err = OK → wrote w c i false (itoa c) ver)
  | _ => True
  end.

Definition section_sound w (x : section) : Prop :=
  read_empty w (k_ver x) ∧ good (k_put1 x) ∧
  (k_put1 x = OK → wrote w (k_clnt x) (k_iter x) false (itoa (k_clnt x)) (k_ver x)) ∧
  (k_put2 x = OK → wrote w (k_clnt x) (k_iter x) true "" (k_ver x + 1)) ∧
  ∃ p, clients w !! k_clnt x = Some p ∧ past p (k_iter x) ∧ (good (k_put2 x) ∨ p = Fatal).

Definition which (x : section) : nat * Z := (k_clnt x, k_iter x).

Record sinv w : Prop := {
  b_nonneg : 0 ≤ (cur (svc w)).2;
  b_perf id : id ∈ performed (svc w) →
    ∃ val ver, attempts (svc w) !! id = Some (val, ver) ∧ ver < (cur (svc w)).2;
  b_once id id' val val' ver : id ∈ performed (svc w) → id' ∈ performed (svc w) →
    attempts (svc w) !! id = Some (val, ver) → attempts (svc w) !! id' = Some (val', ver) → id = id';
  b_cur : value_at w (cur (svc w)).2 (cur (svc w)).1;
  b_sent id : is_Some (sent w !! id) → is_Some (attempts (svc w) !! id);
  b_pc c p : clients w !! c = Some p → pc_sound w c p;
  b_sections x : x ∈ sections w → section_sound w x;
  b_nodup : NoDup (which <$> sections w);
  b_all c p i : clients w !! c = Some p → 1 ≤ i → completed p i → (c, i) ∈ which <$> sections w
}.

(** The service has moved, the clients have not. *)
Definition grown w w' : Prop :=
  (cur (svc w)).2 ≤ (cur (svc w')).2 ∧
  (∀ id, id ∈ performed (svc w) → id ∈ performed (svc w')) ∧
  (∀ id x, attempts (svc w) !! id = Some x → attempts (svc w') !! id = Some x) ∧
  (∀ id x, sent w !! id = Some x → sent w' !! id = Some x) ∧
  (∀ id val ver, id ∈ performed (svc w') → attempts (svc w') !! id = Some (val, ver) →
    ver < (cur (svc w)).2 → id ∈ performed (svc w) ∧ attempts (svc w) !! id = Some (val, ver)).

Lemma wrote_grown w w' c i b val ver : grown w w' → wrote w c i b val ver → wrote w' c i b val ver.
Proof. intros (_ & Hp & Ha & Hs & _) (id & ? & ? & ?). exists id. auto. Qed.

Lemma read_empty_grown w w' ver : grown w w' → read_empty w ver → read_empty w' ver.
Proof.
  intros (Hc & _ & _ & _ & Hold) [? Hv]. split; [lia|]. intros id val n Hp Ha Hn.
  destruct (Hold id val n Hp Ha) as [? ?]; [lia|]. by eapply Hv.
Qed.

Lemma pc_grown w w' c p : grown w w' → pc_sound w c p → pc_sound w' c p.
Proof.
  intros Hg. pose proof Hg as (_ & _ & Ha & Hs & _).
  pose proof (wrote_grown w w'). pose proof (read_empty_grown w w').
  destruct p; simpl; try done; intuition auto.
Qed.

(** The iterations on record, when client [c] has moved. *)
Lemma section_moved w w' c p p' x :
  clients w !! c = Some p → grown w w' → clients w' = <[c := p']> (clients w) →
  (∀ i, past p i → past p' i) → p ≠ Fatal → section_sound w x → section_sound w' x.
Proof.
  intros Hc Hg Hcl Hpast Hnf (Hr & Hg1 & Hw1 & Hw2 & q & Hq & Hi & Hg2).
  split_and!; [by eapply read_empty_grown|done|intros; eapply wrote_grown; eauto..|].
  rewrite Hcl. destruct (decide (c = k_clnt x)) as [->|Hne].
  - simplify_eq. exists p'. rewrite list_lookup_insert_eq by (by eapply lookup_lt_Some).
    split_and!; [done|auto|]. left. by destruct Hg2.
  - exists q. by rewrite list_lookup_insert_ne.
Qed.

(** A client moves, and what the service knows may grow. *)
Lemma sinv_move w w' c p p' :
  sinv w → clients w !! c = Some p → grown w w' → cur (svc w') = cur (svc w) →
  performed (svc w') = performed (svc w) →
  (∀ id, is_Some (sent w' !! id) → is_Some (attempts (svc w') !! id)) →
  clients w' = <[c := p']> (clients w) → pc_sound w' c p' → (∀ i, past p i → past p' i) → p ≠ Fatal →
  (∀ i, 1 ≤ i → completed p' i → completed p i) → sections w' = sections w → sinv w'.
Proof.
  intros [I1 I2 I3 I4 I5 I6 I7 I8 I9] Hc Hg Hcur Hp Hsent Hcl Hok Hpast Hnf Hcomp Hsec.
  pose proof Hg as (Hv & _ & Ha & Hs & Hold).
  split; rewrite ?Hsec; try done.
  - lia.
  - rewrite Hp. intros id (val & ver & ? & ?)%I2. exists val, ver. split; [auto|lia].
  - rewrite Hp. intros id id' val val' ver Hid Hid' Hat Hat'.
    destruct (I2 _ Hid) as (v & n & Hx & _), (I2 _ Hid') as (v' & n' & Hx' & _).
    pose proof (Ha _ _ Hx). pose proof (Ha _ _ Hx'). simplify_eq. by eapply I3.
  - rewrite Hcur. intros id val ver Hid Hat Hn. destruct (Hold _ _ _ Hid Hat) as [? ?]; [lia|]. by eapply I4.
  - intros d q. rewrite Hcl, list_lookup_insert_Some. intros [(<- & <- & _)|[_ Hd]]; [done|].
    apply (pc_grown w); auto.
  - intros x Hx%I7. by eapply section_moved.
  - intros d q i. rewrite Hcl, list_lookup_insert_Some. intros [(<- & <- & _)|[_ Hd]] Hi Hq; eauto.
Qed.

(** Everything but the service stays. *)
Lemma sinv_svc w s : sinv w → svc_moved (svc w) s → sinv (set_svc s w).
Proof.
  intros Hinv Hm. pose proof (moved_mono _ _ Hm) as Hmono. destruct Hinv as [I1 I2 I3 I4 I5 I6 I7 I8 I9].
  assert (∀ id x, attempts (svc w) !! id = Some x → attempts s !! id = Some x) as Ha.
  { destruct Hm as [(_ & -> & _)|??? (Hn & _ & _ & ->)%send_law|?? _ -> _ _]; try done.
    intros id' x Hx. rewrite lookup_insert_ne; [done|]. congruence. }
  assert (∀ id, id ∈ performed (svc w) → id ∈ performed s) as Hp.
  { destruct Hm as [(_ & _ & ->)|??? (_ & _ & -> & _)%send_law|?? _ _ _ ->]; set_solver. }
  assert (∀ id, id ∈ performed s → ∃ val ver, attempts s !! id = Some (val, ver) ∧ ver < (cur s).2 ∧
    (id ∈ performed (svc w) ∧ ver < (cur (svc w)).2 ∨
     ver = (cur (svc w)).2 ∧ performed s = {[id]} ∪ performed (svc w) ∧ cur s = (val, ver + 1)))
    as Hperf.
  { intros id Hid. assert (id ∈ performed (svc w) ∨ ∃ val, attempts s !! id = Some (val, (cur (svc w)).2) ∧
      cur s = (val, (cur (svc w)).2 + 1) ∧ performed s = {[id]} ∪ performed (svc w)) as [Hold|(val & Hx & Hc & Hs)].
    { destruct Hm as [(_ & _ & Hx)|??? (_ & _ & Hx & _)%send_law|id' val Hx Hat Hc Hs]; [left; congruence..|].
      rewrite Hs in Hid. apply elem_of_union in Hid as [->%elem_of_singleton|?]; [right|by left].
      exists val. rewrite Hat, Hc. done. }
    - destruct (I2 _ Hold) as (val & ver & Hx & Hlt). exists val, ver. split_and!; [auto|lia|]. left. auto.
    - exists val, (cur (svc w)).2. rewrite Hc. split_and!; [done|simpl; lia|]. right. auto. }
  assert (grown w (set_svc s w)) as Hg.
  { split_and!; try done. simpl. intros id val ver (val' & ver' & Hx & _ & Hor)%Hperf Hat Hlt. simplify_eq.
    destruct Hor as [[Ho _]|[-> _]]; [|lia]. split; [done|].
    destruct (I2 _ Ho) as (? & ? & Hy & _). pose proof (Ha _ _ Hy). by simplify_eq. }
  split; simpl; try done.
  - lia.
  - intros id (val & ver & ? & ? & _)%Hperf. by exists val, ver.
  - intros id id' val val' ver (v & n & Hx & _ & Hor)%Hperf (v' & n' & Hx' & _ & Hor')%Hperf Hat Hat'. simplify_eq.
    destruct Hor as [[Ho Hlt]|(-> & Hs & _)], Hor' as [[Ho' Hlt']|(Heq & Hs' & _)]; try lia.
    + destruct (I2 _ Ho) as (? & ? & Hy & _), (I2 _ Ho') as (? & ? & Hy' & _).
      pose proof (Ha _ _ Hy). pose proof (Ha _ _ Hy'). simplify_eq. by eapply I3.
    + destruct (decide (id = id')) as [|Hne]; [done|]. exfalso.
      assert (id ∈ performed (svc w)) as Ho by set_solver. destruct (I2 _ Ho) as (? & ? & Hy & ?).
      pose proof (Ha _ _ Hy). simplify_eq. lia.
  - intros id val ver Hid Hat Hn. destruct (Hperf _ Hid) as (v & n & Hx & _ & Hor). simpl in *. simplify_eq.
    destruct Hor as [[Ho Hlt]|(_ & _ & ->)]; [|done].
    destruct (I2 _ Ho) as (? & ? & Hy & _). pose proof (Ha _ _ Hy). simplify_eq.
    assert ((cur s).2 = (cur (svc w)).2) as Heq by lia.
    assert (cur s = cur (svc w)) as ->; [|apply (I4 _ _ _ Ho Hy); lia].
    destruct Hm as [(-> & _)|??? (_ & -> & _)%send_law|?? _ _ Hc _]; [done..|]. rewrite Hc in Heq. simpl in Heq. lia.
  - intros id [x Hx]. destruct (I5 id) as [y Hy]; [by exists x|]. exists y. auto.
  - intros c p Hc. apply (pc_grown w); auto.
  - intros x (Hr & Hg1 & Hw1 & Hw2 & Hx)%I7.
    split_and!; [by eapply read_empty_grown|done|intros; eapply wrote_grown; eauto..|done].
Qed.

Lemma grown_refl w w' : svc w' = svc w → sent w' = sent w → grown w w'.
Proof. intros Hs Ht. unfold grown. rewrite Hs, Ht. split_and!; done. Qed.

(** A client moves and nothing is sent. *)
Lemma sinv_goto w w' c p p' :
  sinv w → clients w !! c = Some p → svc w' = svc w → sent w' = sent w → sections w' = sections w →
  clients w' = <[c := p']> (clients w) → pc_sound w' c p' → (∀ i, past p i → past p' i) → p ≠ Fatal →
  (∀ i, 1 ≤ i → completed p' i → completed p i) → sinv w'.
Proof.
  intros Hinv Hc Hs Ht Hsec Hcl Hok Hpast Hnf Hcomp.
  apply (sinv_move w _ c p p'); try done; [by apply grown_refl|by rewrite Hs..|].
  intros id. rewrite Hs, Ht. apply (b_sent _ Hinv).
Qed.

(** A client sends a put. *)
Lemma sinv_sent w c p p' s val ver id x :
  sinv w → clients w !! c = Some p → svc_send (svc w) s val ver id → (∀ i, past p i → past p' i) →
  p ≠ Fatal → (∀ i, 1 ≤ i → completed p' i → completed p i) →
  pc_sound (goto c p' (add_sent id x (set_svc s w))) c p' →
  sinv (goto c p' (add_sent id x (set_svc s w))).
Proof.
  intros Hinv Hc Hs Hpast Hnf Hcomp Hok.
  assert (sinv (set_svc s w)) as Hinv1 by (apply sinv_svc; [done|by eapply m_send]).
  apply send_law in Hs as (Hnew & _ & _ & Hat). apply (sinv_move (set_svc s w) _ c p p'); try done.
  - split_and!; try done. intros id' y Hy. simpl in Hy |- *. rewrite lookup_insert_ne; [done|]. intros <-.
    destruct (b_sent _ Hinv id) as [z Hz]; [by exists y|]. congruence.
  - intros id'. simpl. rewrite lookup_insert_is_Some'. intros [<-|Hx].
    + rewrite Hat, lookup_insert_eq. by eexists.
    + apply (b_sent _ Hinv1), Hx.
Qed.

(** An iteration has got the answer to its second put. *)
Lemma sinv_section w c i ver err id err2 :
  sinv w → clients w !! c = Some (Wait2 i ver err id) → (err2 = OK → wrote w c i true "" (ver + 1)) →
  sinv (goto c (after_put2 i err2) (add_section (MkSection c i ver err err2) w)).
Proof.
  intros Hinv Hc Hw2. pose proof (b_pc _ Hinv _ _ Hc) as (Hr & Hg1 & Hat & Hst & Hw1).
  set (x := MkSection c i ver err err2). set (p' := after_put2 i err2).
  set (w' := goto c p' (add_section x w)).
  pose proof (lookup_lt_Some _ _ _ Hc) as Hlt.
  assert (grown w w') as Hg by by apply grown_refl.
  assert (good err2 ∧ p' = Release i ∨ p' = Fatal) as Hp'.
  { unfold p', after_put2, good. case_decide; auto. }
  clearbody p'.
  assert (∀ j, past (Wait2 i ver err id) j → past p' j) as Hpast.
  { intros j. destruct Hp' as [[_ Hx]|Hx]; rewrite Hx; simpl; [lia|done]. }
  destruct Hinv as [I1 I2 I3 I4 I5 I6 I7 I8 I9]. split; simpl; try done.
  - intros d q. rewrite list_lookup_insert_Some. intros [(<- & <- & _)|[_ Hd]].
    + destruct Hp' as [[_ Hx]|Hx]; by rewrite Hx.
    + apply (pc_grown w); auto.
  - intros y; rewrite elem_of_app, list_elem_of_singleton; intros [Hy|Hy]; [|subst y].
    + by apply (section_moved w w' c (Wait2 i ver err id) p'); auto.
    + split_and!; try done. exists p'. simpl. rewrite list_lookup_insert_eq by done.
      split_and!; [done| |naive_solver]. destruct Hp' as [[_ Hx]|Hx]; rewrite Hx; simpl; [lia|done].
  - rewrite fmap_app, list.NoDup_app. split_and!; [done| |apply list.NoDup_singleton].
    intros z Hz ->%list_elem_of_singleton. apply list_elem_of_fmap in Hz as (y & Hyz & Hy).
    destruct (I7 _ Hy) as (_ & _ & _ & _ & q & Hq & Hpq & _). injection Hyz as Hy1 Hy2.
    simpl in Hy1, Hy2. rewrite <-Hy1, Hc in Hq. injection Hq as <-. simpl in Hpq. lia.
  - intros d q j. rewrite list_lookup_insert_Some, fmap_app, elem_of_app.
    intros [(<- & <- & _)|[_ Hd]] Hj Hq; [|left; by eapply I9].
    destruct Hp' as [[_ Hp']|Hp']; rewrite Hp' in Hq; [|done]. simpl in Hq.
    destruct (decide (j = i)) as [->|]; [right; by apply list_elem_of_singleton|left].
    apply (I9 c _ j Hc Hj). simpl. lia.
Qed.

Lemma sound_work c w w' : work c w w' → (cur (svc w)).2 + 1 < two64 → sinv w → sinv w'.
Proof.
  intros Hw Hb Hinv.
  destruct Hw as [l Hc Hl|l Hc Hl|l Hc Hl|l Hc Hl|s id Hc Hs|id s err Hc Hr|i l Hc Hl|i s r Hc Hg
    |i ver s id Hc Hs|i ver id s err Hc Hr|i ver err s id Hc Hs|i ver err id s err2 Hc Hr|i l Hc Hl];
    pose proof (b_pc _ Hinv c _ Hc) as Hok; try (by eapply sinv_goto; eauto).
  - by eapply sinv_sent.
  - assert (sinv (set_svc s w)) as Hinv1.
    { apply sinv_svc; [done|]. apply m_same. by apply reply_law in Hr as [? _]. }
    eapply (sinv_goto (set_svc s w)); eauto; simpl; try done; lia.
  - destruct r as [[val ver] err]. apply get_law in Hg as (Hsame & Hget & Hno).
    assert (sinv (set_svc s w)) as Hinv1 by (apply sinv_svc; [done|by apply m_same]).
    eapply (sinv_goto (set_svc s w)); eauto; unfold after_get; repeat case_decide; try done. simpl.
    destruct Hsame as (Hcs & _). pose proof (b_nonneg _ Hinv). assert ((cur (svc w)).2 ≠ 0) as Hv by naive_solver.
    destruct (Hget Hv) as [_ Heq]. pose proof (b_cur _ Hinv1) as Hval. simpl in Hval. rewrite Hcs, <-Heq in Hval.
    simpl in Hval. split; [simpl; rewrite Hcs, <-Heq; simpl; rewrite <-Heq in *; simpl in *; lia|].
    subst val. exact Hval.
  - eapply sinv_sent; eauto; try done. simpl. pose proof (send_law _ _ _ _ _ Hs) as (_ & _ & _ & Ha).
    rewrite Ha, !lookup_insert_eq. split_and!; try done.
    assert (sinv (set_svc s w)) as Hinv1 by (apply sinv_svc; [done|by eapply m_send]).
    pose proof (b_pc _ Hinv1 c _ Hc) as Hx. exact Hx.
  - pose proof (reply_law _ _ _ _ Hr) as (Hsame & HOK & _).
    assert (sinv (set_svc s w)) as Hinv1 by (apply sinv_svc; [done|by apply m_same]).
    pose proof (b_pc _ Hinv1 c _ Hc) as (Hre & Hat & Hst).
    eapply (sinv_goto (set_svc s w)); eauto; unfold after_put1; case_decide as He; try done. simpl.
    split_and!; [exact Hre|exact He|]. intros HeOK. exists id. simpl in *.
    destruct Hsame as (_ & _ & ->). auto.
  - simpl in Hok. destruct Hok as ([Hv _] & _).
    assert (u64 (ver + 1) = ver + 1) as Hu by (apply Z.mod_small; unfold two64 in *; lia).
    rewrite Hu in Hs. assert (sinv (set_svc s w)) as Hinv1 by (apply sinv_svc; [done|by eapply m_send]).
    pose proof (b_pc _ Hinv1 c _ Hc) as (Hre & Hgood & Hw1).
    eapply sinv_sent; eauto; try done. pose proof (send_law _ _ _ _ _ Hs) as (Hnew & _ & _ & Ha).
    split_and!; simpl; [exact Hre|exact Hgood|by rewrite Ha, lookup_insert_eq|by rewrite lookup_insert_eq|].
    intros (id1 & Hp1 & Ha1 & Hs1)%Hw1. exists id1. simpl in *. split_and!; [done..|].
    rewrite lookup_insert_ne; [done|]. intros <-. destruct (b_sent _ Hinv id) as [z Hz]; [by eexists|]. congruence.
  - pose proof (reply_law _ _ _ _ Hr) as (Hsame & HOK & _).
    assert (sinv (set_svc s w)) as Hinv1 by (apply sinv_svc; [done|by apply m_same]).
    pose proof (b_pc _ Hinv1 c _ Hc) as (_ & _ & Hat & Hst & _).
    apply (sinv_section (set_svc s w) c i ver err id err2 Hinv1 Hc). intros He.
    exists id. simpl in *. destruct Hsame as (_ & _ & ->). auto.
  - eapply sinv_goto; eauto; try done; simpl; lia.
Qed.

Lemma sound_any w w' : KvSpawn.fn_any w w' → (cur (svc w)).2 + 1 < two64 → sinv w → sinv w'.
Proof.
  intros [(c & [(r & i & Hc & -> & ->)|[(i & Hc & ->)|Hw]])|He] Hb Hinv.
  - by eapply sinv_goto.
  - by eapply sinv_goto.
  - by eapply sound_work.
  - destruct He as [s Hs|l Hl|l Hl]; [apply sinv_svc; [done|by apply run_moved]|destruct Hinv; by split..].
Qed.

Lemma sound_start nclnt w : runClients nclnt w → sinv w.
Proof.
  intros (Hcl & Hs & Hsec & Ha & Hp & Hv).
  split; unfold value_at; rewrite ?Ha, ?Hp, ?Hs, ?Hsec, ?Hv; try done.
  - by intros id [? ?].
  - intros c p. rewrite Hcl. by intros [-> _]%lookup_replicate.
  - intros x. by rewrite elem_of_nil.
  - constructor.
  - intros c p i. rewrite Hcl. by intros [-> _]%lookup_replicate.
Qed.

(** Two performed puts of one version are the same put. *)
Lemma wrote_once w c i b val d j b' val' ver :
  sinv w → wrote w c i b val ver → wrote w d j b' val' ver → c = d ∧ i = j ∧ b = b'.
Proof.
  intros Hinv (id & Hp & Ha & Hs) (id' & Hp' & Ha' & Hs').
  assert (id = id') as <- by by eapply (b_once _ Hinv). by simplify_eq.
Qed.

Lemma digits_nonempty x (acc : string) : (0 < x)%N ∨ acc ≠ "" → pretty_N_go x acc ≠ "".
Proof.
  revert acc. induction (N.lt_wf_0 x) as [x _ IH]; intros acc Hx.
  destruct (decide (x = 0)%N) as [->|Hne]; [rewrite pretty_N_go_0; destruct Hx; [lia|done]|].
  rewrite pretty_N_go_step by lia. apply IH; [apply N.div_lt; lia|by right].
Qed.

Lemma itoa_nonempty c : itoa c ≠ "".
Proof.
  unfold itoa, pretty, pretty_Z. destruct (Z.of_nat c) as [|p|p] eqn:Hc; [done| |done].
  change (pretty_N_go (N.pos p) "" ≠ ""). apply digits_nonempty. left. lia.
Qed.

(** While an iteration that got OK twice lasted, the key held nobody else's number. *)
Lemma section_alone w x d j ver :
  sinv w → x ∈ sections w → k_put1 x = OK → k_put2 x = OK → wrote w d j false (itoa d) ver →
  k_ver x ≤ ver + 1 ≤ k_ver x + 2 → d = k_clnt x ∧ j = k_iter x.
Proof.
  intros Hinv Hx Ho1 Ho2 Hw Hver. destruct (b_sections _ Hinv x Hx) as ([_ Hre] & _ & Hw1 & Hw2 & _).
  specialize (Hw1 Ho1). specialize (Hw2 Ho2).
  destruct (decide (ver + 1 = k_ver x)) as [He|].
  { destruct Hw as (id & Hp & Ha & _). by destruct (itoa_nonempty d (Hre id _ _ Hp Ha He)). }
  destruct (decide (ver = k_ver x)) as [->|].
  { by destruct (wrote_once _ _ _ _ _ _ _ _ _ _ Hinv Hw Hw1) as (? & ? & _). }
  assert (ver = k_ver x + 1) as -> by lia.
  by destruct (wrote_once _ _ _ _ _ _ _ _ _ _ Hinv Hw Hw2) as (_ & _ & ?).
Qed.

Lemma sections_apart w a b x y :
  sinv w → sections w !! a = Some x → sections w !! b = Some y → a ≠ b →
  k_put1 x = OK → k_put2 x = OK → k_put1 y = OK → k_put2 y = OK →
  k_ver x + 2 ≤ k_ver y ∨ k_ver y + 2 ≤ k_ver x.
Proof.
  intros Hinv Ha Hb Hne Hx1 Hx2 Hy1 Hy2.
  pose proof (list_elem_of_lookup_2 _ _ _ Ha) as Hx. pose proof (list_elem_of_lookup_2 _ _ _ Hb) as Hy.
  destruct (decide (k_ver x + 2 ≤ k_ver y ∨ k_ver y + 2 ≤ k_ver x)) as [|Hno]; [done|]. exfalso.
  assert (which x = which y) as Hw.
  { destruct (b_sections _ Hinv x Hx) as (_ & _ & Hw1 & _), (b_sections _ Hinv y Hy) as (_ & _ & Hw1' & _).
    unfold which. destruct (decide (k_ver x ≤ k_ver y)).
    - destruct (section_alone w x _ _ _ Hinv Hx Hx1 Hx2 (Hw1' Hy1)) as [-> ->]; [lia|done].
    - destruct (section_alone w y _ _ _ Hinv Hy Hy1 Hy2 (Hw1 Hx1)) as [-> ->]; [lia|done]. }
  apply Hne, (list.NoDup_lookup _ _ _ (which x) (b_nodup _ Hinv)); rewrite list_lookup_fmap;
    [by rewrite Ha|by rewrite Hb, Hw].
Qed.
End sound.

(** C28. The lock test raises no false alarm.  Let SpawnClientsAndWait run the clients of
    the lock test, any number of them, interleaved in any way with each other, with a
    lock that excludes and with a service as documented, where clerks may have to send a
    put again and answer ErrMaybe.  Then no client ends in Fatalf: every Get finds the
    key empty and every Put is answered with OK or ErrMaybe; and no two clients are
    between Acquire and Release at the same time. *)
Theorem lock_test_accepted {W L} `{ServiceLaws W} `{!ResendLaws W} `{LockService L}
    (holder : L → option nat) `{!LockLaws holder} nclnt (w0 : world W L) st :
  runClients nclnt w0 → holder (lk1 w0) = None →
  rtc (KvSpawn.step nclnt) (KvSpawn.begin w0) st → (cur (svc (KvSpawn.world st))).2 + 1 < two64 →
  ∀ c p, clients (KvSpawn.world st) !! c = Some p → p ≠ Fatal ∧
    ∀ d q, clients (KvSpawn.world st) !! d = Some q → in_section p = true → in_section q = true → c = d.
Proof.
  intros Hs Hl Hr%(KvSpawn.spawn_world nclnt) Hb c p Hc.
  assert (winv holder (KvSpawn.world st)) as Hinv.
  { eapply (bounded_inv (winv holder)); [by apply any_inv|by eapply lock_start_inv|exact Hr|exact Hb]. }
  split; [intros ->; exact (a_pc _ _ _ _ Hinv _ _ Hc)|].
  intros d q Hd Hp Hq. apply (alone holder _ _ _ c d p q Hinv Hc Hd); by apply section_holds.
Qed.

(** C15. What the lock test accepts did exclude.  For any lock whatsoever, in any run of
    the lock test in which no client has ended in Fatalf: every iteration that a client has
    completed had its two puts answered with OK or ErrMaybe; and while an iteration lasted that
    got OK twice, from the version that it read to the version at which it had emptied the
    key, nobody else's number was in the key.  So, of two such iterations, one read the key
    only after the other one had emptied it. *)
Theorem lock_test_excludes {W L} `{ServiceLaws W} `{LockService L} nclnt (w0 : world W L) st :
  runClients nclnt w0 → rtc (KvSpawn.step nclnt) (KvSpawn.begin w0) st →
  (cur (svc (KvSpawn.world st))).2 + 1 < two64 →
  (∀ c, clients (KvSpawn.world st) !! c ≠ Some Fatal) →
  let w := KvSpawn.world st in
  (∀ c p i, clients w !! c = Some p → 1 ≤ i → completed p i →
     ∃ x, x ∈ sections w ∧ k_clnt x = c ∧ k_iter x = i) ∧
  ∀ a x, sections w !! a = Some x →
    (k_put1 x = OK ∨ k_put1 x = ErrMaybe) ∧ (k_put2 x = OK ∨ k_put2 x = ErrMaybe) ∧
    (k_put1 x = OK → k_put2 x = OK →
       (∀ d j ver, wrote w d j false (itoa d) ver → k_ver x ≤ ver + 1 ≤ k_ver x + 2 →
          d = k_clnt x ∧ j = k_iter x) ∧
       ∀ b y, sections w !! b = Some y → a ≠ b → k_put1 y = OK → k_put2 y = OK →
         k_ver x + 2 ≤ k_ver y ∨ k_ver y + 2 ≤ k_ver x).
Proof.
  intros Hs Hr%(KvSpawn.spawn_world nclnt) Hb Hnf w.
  assert (sinv w) as Hinv by (eapply bounded_inv; [by apply sound_any|by eapply sound_start|exact Hr|exact Hb]).
  split.
  - intros c p i Hc Hi Hp. pose proof (b_all _ Hinv c p i Hc Hi Hp) as Hx.
    apply list_elem_of_fmap in Hx as (x & [= -> ->] & Hx). by exists x.
  - intros a x Ha. pose proof (list_elem_of_lookup_2 _ _ _ Ha) as Hx.
    destruct (b_sections _ Hinv x Hx) as (_ & Hg1 & _ & _ & p & Hp & _ & Hg2). split_and!; [done| |].
    + destruct Hg2 as [?| ->]; [done|]. by apply Hnf in Hp.
    + intros Ho1 Ho2. split; [intros d j ver; by apply section_alone|].
      intros b y Hy Hne Hy1 Hy2. by apply (sections_apart w a b).
Qed.

(** *** Witnesses *)

(** A mutex, and the lock of the skeleton, whose Acquire and Release do nothing. *)
Definition mutex := option nat.
#[local] Instance mutex_lock : LockService mutex := {|
  lk_acquire c l l' := l = None ∧ l' = Some c; lk_release c l l' := l' = None; lk_run l l' := l' = l |}.
#[local] Instance mutex_laws : LockLaws (L:=mutex) (λ l, l).
Proof. split; naive_solver. Qed.

Definition lock_start {L} (l : L) (n : nat) : world memory L :=
  MkWorld (MkMem ("", 0) ∅ ∅) l l (replicate n Acquire1) ∅ [].

(** One client of a test with one client, between two selects. *)
Abbreviation alone_step := (λ a b : world memory mutex, KvSpawn.fn_work 0 a b ∨ KvSpawn.fn_env a b).
Ltac norm := cbn [goto set_svc set_lk1 set_lk2 add_sent svc lk1 lk2 clients sent sections m_cur m_att m_perf fst snd].
Tactic Notation "lock_call" uconstr(k) := eapply rtc_l; [left; eapply k; [reflexivity|cbn; tauto]|]; norm.
Tactic Notation "put_sent" uconstr(k) := eapply rtc_l; [left; eapply k; [reflexivity|split; reflexivity]|]; norm.
Tactic Notation "put_performed" constr(id) :=
  eapply rtc_l; [right; apply e_svc; exists id; eexists; split; reflexivity|]; norm.
Tactic Notation "put_answered" uconstr(k) :=
  eapply rtc_l; [left; eapply k; [reflexivity|split; [reflexivity|left; split; [cbn; set_solver|reflexivity]]]|]; norm.

(** Up to the first select. *)
Lemma first_part : ∃ w, rtc alone_step (lock_start None 1) w ∧ clients w = [Select 1] ∧
  svc w = MkMem ("", 1) {[0%nat := ("", 0)]} ({[0%nat]} ∪ ∅) ∧ lk1 w = None ∧ sections w = [].
Proof.
  eexists. split.
  - lock_call s_acquire1. lock_call s_acquire2. lock_call s_release1. lock_call s_release2.
    put_sent (s_init 0%nat _ _ 0%nat). put_performed 0%nat. put_answered s_inited. apply rtc_refl.
  - by split_and!.
Qed.

(** An iteration. *)
Lemma one_part (w : world memory mutex) i v att perf n :
  clients w = [Acquire i] → svc w = MkMem ("", v) att perf → lk1 w = None → 0 < v → v + 1 < two64 →
  att !! n = None → att !! S n = None →
  ∃ w', rtc alone_step w w' ∧ clients w' = [Select (i + 1)] ∧ lk1 w' = None ∧
    sections w' = sections w ++ [MkSection 0 i v OK OK] ∧
    ∃ perf', svc w' = MkMem ("", v + 2) (<[S n := ("", v + 1)]> (<[n := (itoa 0, v)]> att)) perf'.
Proof.
  destruct w as [s l l2 cl st sec]. simpl. intros -> -> -> Hv Hb Hn Hn'.
  assert (u64 (v + 1) = v + 1) as Hu by (apply Z.mod_small; unfold two64 in *; lia).
  eexists. split.
  - lock_call s_acquire.
    eapply rtc_l; [left; eapply (s_get 0%nat _ i _ ("", v, OK)); [reflexivity|split; [reflexivity|]]|].
    { simpl. by rewrite decide_False by lia. }
    unfold after_get. rewrite decide_True, decide_False by (done || by intros Hx). norm.
    eapply rtc_l; [left; eapply (s_put1 0%nat _ i v _ n); [reflexivity|split; [exact Hn|reflexivity]]|]; norm.
    eapply rtc_l; [right; apply e_svc; exists n, (itoa 0); split; [apply lookup_insert_eq|reflexivity]|]; norm.
    put_answered (s_reply1 0%nat _ i v n). unfold after_put1. rewrite decide_True by auto.
    eapply rtc_l; [left; eapply (s_put2 0%nat _ i v OK _ (S n)); [reflexivity|split; [|reflexivity]]|].
    { simpl. rewrite lookup_insert_ne by lia. exact Hn'. }
    norm. rewrite Hu.
    eapply rtc_l; [right; apply e_svc; exists (S n), ""; split; [apply lookup_insert_eq|reflexivity]|]; norm.
    put_answered (s_reply2 0%nat _ i v OK (S n)). unfold after_put2, add_section.
    rewrite decide_True by auto. lock_call s_release. apply rtc_refl.
  - split_and!; try reflexivity. eexists. simpl. f_equal. f_equal. lia.
Qed.

(** A client alone, from its start on, and with two iterations. *)
Lemma started {L} `{LockService L} (w0 : world memory L) :
  rtc (KvSpawn.step 1) (KvSpawn.begin w0) (KvSpawn.MkSpawn w0 KvSpawn.Sleeping [KvSpawn.Running] ({[0%nat]} ∪ ∅)).
Proof.
  eapply rtc_l; [eapply KvSpawn.s_tester, (KvSpawn.t_spawn _ _ 0); [done|lia]|].
  eapply rtc_l; [by eapply KvSpawn.s_tester, KvSpawn.t_spawned|].
  eapply rtc_l; [by eapply KvSpawn.s_client, (KvSpawn.r_make 0)|]. apply rtc_refl.
Qed.

Lemma select_default (st : KvSpawn.spawn (W:=world memory mutex)) i :
  KvSpawn.procs st !! 0%nat = Some KvSpawn.Running → KvSpawn.tester st = KvSpawn.Sleeping →
  clients (KvSpawn.world st) !! 0%nat = Some (Select i) →
  KvSpawn.step 1 st (KvSpawn.set_world (goto 0%nat (Acquire i) (KvSpawn.world st)) st).
Proof.
  intros Hp Ht Hc. apply (KvSpawn.s_client _ _ _ 0%nat), KvSpawn.r_default; [done|rewrite Ht; by intros []|]. by exists i.
Qed.

Lemma two_parts : ∃ st, rtc (KvSpawn.step 1) (KvSpawn.begin (lock_start (None : mutex) 1)) st ∧
  clients (KvSpawn.world st) = [Select 3] ∧ (cur (svc (KvSpawn.world st))).2 = 5 ∧
  sections (KvSpawn.world st) = [MkSection 0 1 1 OK OK; MkSection 0 2 3 OK OK].
Proof.
  destruct first_part as (w1 & Hr1 & Hc1 & Hs1 & Hl1 & Hsec1).
  destruct (one_part (goto 0%nat (Acquire 1) w1) 1 1 {[0%nat := ("", 0)]} ({[0%nat]} ∪ ∅) 1)
    as (w2 & Hr2 & Hc2 & Hl2 & Hsec2 & perf2 & Hs2); [by simpl; rewrite Hc1|done..|].
  destruct (one_part (goto 0%nat (Acquire 2) w2) 2 3
    (<[2%nat := ("", 1 + 1)]> (<[1%nat := (itoa 0, 1)]> {[0%nat := ("", 0)]})) perf2 3)
    as (w3 & Hr3 & Hc3 & Hl3 & Hsec3 & perf3 & Hs3); [by simpl; rewrite Hc2|by simpl; rewrite Hs2|done..|].
  exists (KvSpawn.MkSpawn w3 KvSpawn.Sleeping [KvSpawn.Running] ({[0%nat]} ∪ ∅)).
  split; [|split; [exact Hc3|split]].
  - etrans; [apply started|]. etrans; [by apply (KvSpawn.run_alone 1 0)|].
    eapply rtc_l; [apply (select_default _ 1); simpl; by rewrite ?Hc1|].
    etrans; [by apply (KvSpawn.run_alone 1 0)|].
    eapply rtc_l; [apply (select_default _ 2); simpl; by rewrite ?Hc2|].
    eapply (KvSpawn.run_alone 1 0); [reflexivity|exact Hr3].
  - simpl. by rewrite Hs3.
  - simpl in *. by rewrite Hsec3, Hsec2, Hsec1.
Qed.

Lemma lock_start_ok {L} (l : L) n : runClients n (lock_start l n).
Proof. by split_and!. Qed.

Lemma lock_test_accepted_witness :
  ∃ st : KvSpawn.spawn (W:=world memory mutex), rtc (KvSpawn.step 1) (KvSpawn.begin (lock_start None 1)) st ∧
    clients (KvSpawn.world st) = [Select 3] ∧ clients (KvSpawn.world st) !! 0%nat ≠ Some Fatal.
Proof.
  destruct two_parts as (st & Hr & Hc & Hv & _). exists st. split; [exact Hr|]. split; [exact Hc|].
  intros Hf. refine (proj1 (lock_test_accepted (λ l : mutex, l) 1 (lock_start None 1) st
    (lock_start_ok None 1) eq_refl Hr _ 0%nat Fatal Hf) eq_refl).
  rewrite Hv. reflexivity.
Defined.

Lemma lock_test_excludes_witness :
  ∃ st : KvSpawn.spawn (W:=world memory mutex), rtc (KvSpawn.step 1) (KvSpawn.begin (lock_start None 1)) st ∧
    sections (KvSpawn.world st) = [MkSection 0 1 1 OK OK; MkSection 0 2 3 OK OK] ∧ (1 + 2 ≤ 3 ∨ 3 + 2 ≤ 1).
Proof.
  destruct two_parts as (st & Hr & Hc & Hv & Hsec). exists st. split; [exact Hr|]. split; [exact Hsec|].
  assert ((cur (svc (KvSpawn.world st))).2 + 1 < two64) as Hb by (rewrite Hv; reflexivity).
  destruct (lock_test_excludes 1 (lock_start None 1) st (lock_start_ok None 1) Hr Hb) as [_ Hx].
  - intros c Hf. pose proof (eq_trans (eq_sym (f_equal (.!! c) Hc)) Hf) as Hx. by destruct c as [|[]].
  - destruct (Hx 0%nat (MkSection 0 1 1 OK OK)) as (_ & _ & Hy); [exact (f_equal (.!! 0%nat) Hsec)|].
    destruct (Hy eq_refl eq_refl) as [_ Hz].
    apply (Hz 1%nat (MkSection 0 2 3 OK OK)); [exact (f_equal (.!! 1%nat) Hsec)|discriminate|reflexivity..].
Defined.
