(* ===== verification/RaftTest.v ===== *)
(** * The Raft tester (raft1/test.go, raft1/server.go)

    Each server under test runs an [applier]: it reads what its Raft commits and
    reports every command to the tester, which keeps a copy of every server's log
    and compares ([CheckLogs]).  With snapshots, the server also keeps the log
    itself ([rfsrv]), makes a snapshot every [SnapShotInterval] commands, and
    ingests the snapshots it is sent.  Raft is the program under test: what it
    commits is the argument [m] of each step.  A command is any value, [None] is
    nil; an error text is the value it is printed from, [None] is the empty text.
    Calls to the annotation package do not influence these functions. *)

From S2P Require Import Prelude LabRpc Wire.
Import LabRpc.

Module RaftTest.

Section raft.
Context {C : Type} `{EqDecision C}.
Abbreviation cmd := (option C).

Record ApplyMsg := MkMsg {
  CommandValid : bool; Command : cmd; CommandIndex : Z;
  SnapshotValid : bool; Snapshot : option bytes; SnapshotTerm : Z; SnapshotIndex : Z
}.

Inductive apperr :=
| ECommit (index i j : Z) (v old : cmd)       (** "commit index=..." *)
| EOutOfOrder (me index : Z)                  (** "apply out of order" *)
| EExpected (me expected got : Z)             (** "..., expected index" *)
| ENilSnapshot | EDecode | ESnapIndex (me : Z)
| EErrRPC.                                    (** the tester could not be reached *)

Global Instance apperr_eq_dec : EqDecision apperr.
Proof. solve_decision. Defined.

(** The tester's view of a server, and the tester. *)
Record raftServer := MkRS { applyErr : option apperr; logs : gmap Z cmd }.
Record Test := MkTest { srvs : list raftServer; maxIndex : Z }.
Implicit Types ts : Test.

Definition entry (rs : raftServer) (i : Z) : option cmd := logs rs !! i.
Definition newRaftServer : raftServer := MkRS None ∅.
Definition makeTest (n : nat) : Test := MkTest (replicate n newRaftServer) 0.

(** The comparison with every server: the last difference is reported. *)
Fixpoint compare_logs (i j : Z) (m : ApplyMsg) (rss : list raftServer) (err : option apperr)
    : option apperr :=
  match rss with
  | [] => err
  | rs :: rss =>
      let err := match entry rs (CommandIndex m) with
        | Some old =>
            if decide (old ≠ Command m) then
              Some (ECommit (CommandIndex m) i j (Command m) old)
            else err
        | None => err
        end in
      compare_logs i (j + 1) m rss err
  end.

Definition set_srv (i : Z) (rs : raftServer) ts : Test :=
  MkTest (<[Z.to_nat i := rs]> (srvs ts)) (maxIndex ts).

Definition CheckLogs (i : Z) (m : ApplyMsg) ts : res (option apperr * bool * Test) :=
  let* me := slice_get (srvs ts) i in
  let err := compare_logs i 0 m (srvs ts) None in
  let prevok := bool_decide (is_Some (entry me (CommandIndex m - 1))) in
  let ts := set_srv i (MkRS (applyErr me) (<[CommandIndex m := Command m]> (logs me))) ts in
  Ret (err, prevok, MkTest (srvs ts) (Z.max (maxIndex ts) (CommandIndex m))).

Definition IngestLog (i : Z) (xlog : gmap Z cmd) ts : res Test :=
  let* me := slice_get (srvs ts) i in
  Ret (set_srv i (MkRS (applyErr me) xlog) ts).

Definition ApplyErr (i : Z) (err : apperr) ts : res Test :=
  let* me := slice_get (srvs ts) i in
  Ret (set_srv i (MkRS (Some err) (logs me)) ts).

(** One iteration of applier on server [me]. *)
Definition applier_one (me : Z) (m : ApplyMsg) ts : res Test :=
  if CommandValid m then
    let* '(err, prevok, ts) := CheckLogs me m ts in
    let err := if bool_decide (CommandIndex m > 1) && negb prevok
               then Some (EOutOfOrder me (CommandIndex m)) else err in
    match err with
    | Some e => ApplyErr me e ts
    | None => Ret ts
    end
  else Ret ts.

(** The appliers of all servers: an interleaving of their iterations. *)
Definition appliers (ms : list (Z * ApplyMsg)) ts : res Test :=
  res_fold (λ ts x, applier_one x.1 x.2 ts) ts ms.

(** nCommitted: the number of servers that have the entry, and the entry. *)
Definition count_step (index : Z) (s : Z * cmd) (rs : raftServer) : res (Z * cmd) :=
  let '(count, c) := s in
  match applyErr rs with
  | Some _ => Stop FailNow
  | None =>
      match entry rs index with
      | Some c1 => if decide (count > 0 ∧ c ≠ c1) then Stop FailNow else Ret (count + 1, c1)
      | None => Ret (count, c)
      end
  end.
Definition nCommitted (index : Z) ts : res (Z * cmd) :=
  res_fold (count_step index) (0, None) (srvs ts).

Definition checkNoAgreement (index : Z) ts : res () :=
  let* '(n, _) := nCommitted index ts in
  if decide (n > 0) then Stop FailNow else Ret tt.

(** ** Leaders: [states] is what GetState returns for the connected servers, with
    their numbers, in one round *)

Definition leaders_map (states : list (Z * (Z * bool))) : gmap Z (list Z) :=
  fold_left (λ ls '(i, (term, leader)),
    if (leader : bool) then <[term := mget [] ls term ++ [i]]> ls else ls) states ∅.

(** The loop over the map of leaders, in the order [terms] of the range. *)
Definition last_term (ls : gmap Z (list Z)) (terms : list Z) : res Z :=
  res_fold (λ last term,
    if decide (1 < length (mget [] ls term))%nat then Stop FailNow
    else Ret (if bool_decide (term > last) then term else last)) (-1) terms.

Fixpoint checkOneLeader (rounds : list (list (Z * (Z * bool)))) (order : gmap Z (list Z) → list Z)
    : res Z :=
  match rounds with
  | [] => Stop FailNow                               (* expected one leader, got none *)
  | states :: rounds =>
      let ls := leaders_map states in
      let* last := last_term ls (order ls) in
      if decide (size ls ≠ 0%nat) then slice_get (mget [] ls last) 0
      else checkOneLeader rounds order
  end.

(** checkTerms: the terms of the connected servers, in order; checkNoLeader. *)
Definition checkTerms (states : list (Z * (Z * bool))) : res Z :=
  res_fold (λ term '(_, (xterm, _)),
    if decide (term = -1) then Ret xterm
    else if decide (term ≠ xterm) then Stop FailNow else Ret term) (-1) states.
Definition checkNoLeader (states : list (Z * (Z * bool))) : res () :=
  res_fold (λ _ '(_, (_, leader)), if (leader : bool) then Stop FailNow else Ret tt) tt states.

(** ** server.go: a server with snapshots *)

Definition SnapShotInterval : Z := 10.

Record rfsrv := MkRf { me : Z; lastApplied : Z; rlog : gmap Z cmd }.

Context `{Wire.Codec (Z * list cmd)}.

(** The snapshot after applying [index]: the index and the log from 0 to it. *)
Definition make_snapshot (rs : rfsrv) (index : Z) : bytes :=
  let xlog := (λ j, mget None (rlog rs) (Z.of_nat j)) <$> seq 0 (Z.to_nat (index + 1)) in
  default [] (Wire.encode (index, xlog)).

(** The log of a decoded snapshot. *)
Definition log_of (xlog : list cmd) : gmap Z cmd :=
  list_to_map (zip (Z.of_nat <$> seq 0 (length xlog)) xlog).

Definition ingestSnap (snapshot : option bytes) (index : Z) (rs : rfsrv) : option apperr * rfsrv :=
  match snapshot with
  | None => (Some ENilSnapshot, rs)
  | Some b =>
      match Wire.decode b with
      | None => (Some EDecode, rs)
      | Some (lastIncludedIndex, xlog) =>
          if decide (index ≠ -1 ∧ index ≠ lastIncludedIndex) then (Some (ESnapIndex (me rs)), rs)
          else (None, MkRf (me rs) lastIncludedIndex (log_of xlog))
      end
  end.

(** One iteration of applierSnap: the server, the tester, and the snapshot handed
    to Raft, if any. *)
Definition applierSnap_one (m : ApplyMsg) (rs : rfsrv) ts : res (rfsrv * Test * option (Z * bytes)) :=
  let report (err : option apperr) ts :=
    match err with Some e => ApplyErr (me rs) e ts | None => Ret ts end in
  if SnapshotValid m then
    let (err, rs') := ingestSnap (Snapshot m) (SnapshotIndex m) rs in
    let* ts := IngestLog (me rs) (rlog rs') ts in
    let* ts := report err ts in
    Ret (rs', ts, None)
  else if CommandValid m then
    let* '(err, ts) :=
      (if decide (CommandIndex m ≠ lastApplied rs + 1) then
         Ret (Some (EExpected (me rs) (lastApplied rs + 1) (CommandIndex m)), ts)
       else
         let* '(err, prevok, ts) := CheckLogs (me rs) m ts in
         Ret (if bool_decide (err ≠ Some EErrRPC) && bool_decide (CommandIndex m > 1) && negb prevok
              then Some (EOutOfOrder (me rs) (CommandIndex m)) else err, ts)) in
    let rs := MkRf (me rs) (CommandIndex m) (<[CommandIndex m := Command m]> (rlog rs)) in
    let snap := if decide (Z.rem (CommandIndex m + 1) SnapShotInterval = 0)
                then Some (CommandIndex m, make_snapshot rs (CommandIndex m)) else None in
    let* ts := report err ts in
    Ret (rs, ts, snap)
  else Ret (rs, ts, None).
End raft.
Arguments ApplyMsg : clear implicits.
Arguments apperr : clear implicits.
Arguments Test : clear implicits.
Arguments raftServer : clear implicits.
Arguments rfsrv : clear implicits.

End RaftTest.
