(* ===== verification/RaftSpec.v ===== *)
(** * Properties of the Raft tester (raft1/test.go, raft1/server.go)

    The comparison of applied commands reports an error exactly when the servers
    violate state-machine safety or apply out of order; the count of committed
    servers and the leader check return what they claim; a snapshot restores the
    log it was made from. *)

From S2P Require Import Prelude LabRpc Wire RaftTest.
Import LabRpc RaftTest.

(** ** What the servers may apply *)

Section applied.
Context {C : Type} `{EqDecision C}.
Abbreviation cmd := (option C).
Implicit Types (ts : Test C) (done : list (Z * Z * cmd)).

(** Server, index and command of the messages that carry a command. *)
Definition applied (ms : list (Z * ApplyMsg C)) : list (Z * Z * cmd) :=
  omap (λ x, if CommandValid x.2 then Some (x.1, CommandIndex x.2, Command x.2) else None) ms.

(** The next application is in order: nobody applied another command at its index,
    and its server applied the index before. *)
Definition ok_next done (x : Z * Z * cmd) : Prop :=
  (∀ i v, (i, x.1.2, v) ∈ done → v = x.2) ∧
  (x.1.2 > 1 → ∃ v, (x.1.1, x.1.2 - 1, v) ∈ done).

Inductive consistent : list (Z * Z * cmd) → Prop :=
| co_nil : consistent []
| co_snoc done x : consistent done → ok_next done x → consistent (done ++ [x]).

Lemma consistent_snoc done x : consistent (done ++ [x]) ↔ consistent done ∧ ok_next done x.
Proof.
  split; [|by intros [??]; constructor]. intros Hc. inversion Hc as [Heq|done' x' ? ? Heq].
  - by destruct done.
  - by apply app_inj_tail in Heq as [-> ->].
Qed.

(** State-machine safety, as the Raft paper states it. *)
Lemma consistent_safety done i j idx v w :
  consistent done → (i, idx, v) ∈ done → (j, idx, w) ∈ done → v = w.
Proof.
  intros Hc. revert i j idx v w. induction Hc as [|done x Hc IH [Hs _]]; intros i j idx v w; [set_solver|].
  rewrite !elem_of_app, !list_elem_of_singleton.
  intros [H1|H1] [H2|H2].
  - by eapply IH.
  - subst x. by apply (Hs i).
  - subst x. symmetry. by apply (Hs j).
  - subst x. by simplify_eq.
Qed.

(** The tester's copies of the logs are what was applied. *)
Definition tracks done ts : Prop :=
  (∀ i rs, srvs ts !! i = Some rs → ∀ idx v, logs rs !! idx = Some v ↔ (Z.of_nat i, idx, v) ∈ done) ∧
  (∀ i idx v, (i, idx, v) ∈ done → 0 ≤ i ∧ is_Some (srvs ts !! Z.to_nat i)).
Definition no_err ts : Prop := ∀ rs, rs ∈ srvs ts → applyErr rs = None.

Lemma compare_logs_None i j m (rss : list (raftServer C)) err :
  compare_logs i j m rss err = None ↔
  err = None ∧ ∀ rs old, rs ∈ rss → entry rs (CommandIndex m) = Some old → old = Command m.
Proof.
  revert j err. induction rss as [|rs rss IH]; intros j err; simpl; [set_solver|].
  rewrite IH. setoid_rewrite elem_of_cons. destruct (entry rs (CommandIndex m)) as [old|] eqn:He.
  - case_decide as Hd; [|naive_solver].
    split; [by intros [? _]|]. intros [_ Hall]. destruct Hd. by apply (Hall rs); auto.
  - naive_solver.
Qed.

Lemma no_err_set_srv i rs ts (n : Z) :
  (Z.to_nat i < length (srvs ts))%nat →
  no_err (MkTest (<[Z.to_nat i := rs]> (srvs ts)) n) → applyErr rs = None.
Proof. intros Hi Hn. apply Hn. simpl. by apply list_elem_of_insert. Qed.

(** The entry that a server has, in terms of what was applied. *)
Lemma tracks_entry done ts i idx v :
  tracks done ts →
  (i, idx, v) ∈ done ↔ 0 ≤ i ∧ ∃ rs, srvs ts !! Z.to_nat i = Some rs ∧ entry rs idx = Some v.
Proof.
  intros [Ht Hr]. split.
  - intros Hin. destruct (Hr _ _ _ Hin) as [Hi [rs Hrs]]. split; [done|]. exists rs. split; [done|].
    apply (Ht _ _ Hrs). by rewrite Z2Nat.id.
  - intros (Hi & rs & Hrs & He). apply (Ht _ _ Hrs) in He. by rewrite Z2Nat.id in He.
Qed.

Lemma compare_logs_tracks done ts i j m :
  tracks done ts →
  compare_logs i j m (srvs ts) None = None ↔
    ∀ k v, (k, CommandIndex m, v) ∈ done → v = Command m.
Proof.
  intros Htr. rewrite compare_logs_None. split.
  - intros [_ Hall] k v (Hk & rs & Hrs & He)%(tracks_entry _ ts); [|done].
    eapply Hall; [|done]. by eapply list_elem_of_lookup_2.
  - intros Hall. split; [done|]. intros rs old [k Hk]%list_elem_of_lookup He.
    apply (Hall (Z.of_nat k)). apply (tracks_entry _ ts); [done|]. split; [lia|].
    exists rs. by rewrite Nat2Z.id.
Qed.

(** Recording the application that was just made. *)
Lemma tracks_record done me m ts rs n err :
  0 ≤ me → srvs ts !! Z.to_nat me = Some rs → tracks done ts →
  ok_next done (me, CommandIndex m, Command m) →
  tracks (done ++ [(me, CommandIndex m, Command m)])
    (MkTest (<[Z.to_nat me := MkRS err (<[CommandIndex m := Command m]> (logs rs))]> (srvs ts)) n).
Proof.
  intros Hme Hrs Htr [Hs _]. pose proof (lookup_lt_Some _ _ _ Hrs) as Hlt.
  destruct Htr as [Ht Hr]. split; simpl.
  - intros i rs' Hi idx v. rewrite elem_of_app, list_elem_of_singleton.
    apply list_lookup_insert_Some in Hi as [(<- & <- & _)|[Hne Hi]]; simpl.
    + rewrite lookup_insert_Some, (Ht _ _ Hrs), Z2Nat.id by done. simpl in Hs.
      destruct (decide (CommandIndex m = idx)) as [<-|Hd].
      * split; [naive_solver|]. intros [Hin|[= ->]]; [|by left].
        left. split; [done|]. symmetry. by apply (Hs me).
      * split; [naive_solver|]. intros [Hin|[= -> _]]; [by right|done].
    + rewrite (Ht _ _ Hi). split; [by left|]. intros [?|[= <- _ _]]; [done|].
      by rewrite Nat2Z.id in Hne.
  - intros i idx v. rewrite elem_of_app, list_elem_of_singleton.
    intros [Hin|[= -> -> ->]].
    + destruct (Hr _ _ _ Hin) as [? Hs']. split; [done|]. apply lookup_lt_is_Some.
      rewrite length_insert. by apply lookup_lt_is_Some.
    + split; [done|]. apply lookup_lt_is_Some. by rewrite length_insert.
Qed.

Lemma no_err_insert ts i rs n :
  (i < length (srvs ts))%nat → no_err ts →
  no_err (MkTest (<[i := rs]> (srvs ts)) n) ↔ applyErr rs = None.
Proof.
  intros Hi Hne. split.
  - intros Hn. apply Hn. simpl. by apply list_elem_of_insert.
  - intros He x [k Hk]%list_elem_of_lookup. simpl in Hk.
    apply list_lookup_insert_Some in Hk as [(_ & <- & _)|[_ Hk]]; [done|].
    by eapply Hne, list_elem_of_lookup_2.
Qed.

(** An iteration of an applier, as long as no error was reported. *)
Lemma applier_one_spec done me m ts rs :
  0 ≤ me → srvs ts !! Z.to_nat me = Some rs → CommandValid m = true → tracks done ts → no_err ts →
  let x := (me, CommandIndex m, Command m) in
  ∃ ts', applier_one me m ts = Ret ts' ∧ length (srvs ts') = length (srvs ts) ∧
    (no_err ts' ↔ ok_next done x) ∧ (ok_next done x → tracks (done ++ [x]) ts').
Proof.
  intros Hme Hrs Hv Htr Hne x. unfold applier_one, CheckLogs, slice_get.
  rewrite Hv, decide_True, Hrs by done. cbn [rbind].
  pose proof (lookup_lt_Some _ _ _ Hrs) as Hlt.
  assert (applyErr rs = None) as Hrs_err by (apply Hne; by eapply list_elem_of_lookup_2).
  pose proof (compare_logs_tracks done ts me 0 m Htr) as Hcmp.
  assert (is_Some (entry rs (CommandIndex m - 1)) ↔ ∃ v, (me, CommandIndex m - 1, v) ∈ done) as Hprev.
  { split.
    - intros [v He]. exists v. apply (tracks_entry _ ts); eauto.
    - intros [v (_ & rs' & Hrs' & He)%(tracks_entry _ ts)]; [|done]. simplify_eq. by eexists. }
  set (log' := <[CommandIndex m := Command m]> (logs rs)).
  assert (∀ err : option (apperr C), (err = None ↔ ok_next done x) → ∃ ts',
    match err with
    | Some e => ApplyErr me e (MkTest (<[Z.to_nat me := MkRS (applyErr rs) log']> (srvs ts))
                  (Z.max (maxIndex ts) (CommandIndex m)))
    | None => Ret (MkTest (<[Z.to_nat me := MkRS (applyErr rs) log']> (srvs ts))
                  (Z.max (maxIndex ts) (CommandIndex m)))
    end = Ret ts' ∧ length (srvs ts') = length (srvs ts) ∧
    (no_err ts' ↔ ok_next done x) ∧ (ok_next done x → tracks (done ++ [x]) ts')) as Hfin.
  { intros err Herr. destruct err as [e|].
    - unfold ApplyErr, slice_get. rewrite decide_True by done. simpl.
      rewrite list_lookup_insert_eq by done. simpl. unfold set_srv. simpl. rewrite list_insert_insert_eq.
      eexists. split; [done|]. simpl. rewrite length_insert. split; [done|].
      rewrite no_err_insert by done. simpl. split; [|by intros ?%Herr]. split; [done|by intros ?%Herr].
    - eexists. split; [done|]. simpl. rewrite length_insert. split; [done|].
      rewrite no_err_insert by done. split; [tauto|]. intros Hok. by apply tracks_record. }
  apply Hfin. unfold ok_next. simpl.
  destruct (bool_decide_reflect (CommandIndex m > 1)); destruct (bool_decide_reflect
    (is_Some (entry rs (CommandIndex m - 1)))); simpl; try tauto.
  split; [done|]. intros [_ H]. tauto.
Qed.

(** Once an error was reported it stays. *)
Lemma applier_one_err me m ts :
  0 ≤ me → is_Some (srvs ts !! Z.to_nat me) → ¬ no_err ts →
  ∃ ts', applier_one me m ts = Ret ts' ∧ length (srvs ts') = length (srvs ts) ∧ ¬ no_err ts'.
Proof.
  intros Hme [rs Hrs] Herr. unfold applier_one, CheckLogs, slice_get.
  destruct (CommandValid m); [|by eauto]. rewrite decide_True, Hrs by done. cbn [rbind].
  pose proof (lookup_lt_Some _ _ _ Hrs) as Hlt.
  assert (∀ rs' n, (applyErr rs' = None → applyErr rs = None) →
    ¬ no_err (MkTest (<[Z.to_nat me := rs']> (srvs ts)) n)) as Hstay.
  { intros rs' n Hrs' Hn. apply Herr. intros x [k Hk]%list_elem_of_lookup.
    destruct (decide (k = Z.to_nat me)) as [->|Hne].
    - simplify_eq. apply Hrs', Hn. simpl. by apply list_elem_of_insert.
    - apply Hn. simpl. eapply list_elem_of_lookup_2. by rewrite list_lookup_insert_ne. }
  match goal with |- context [match ?x with Some _ => _ | None => _ end] => destruct x as [err|] end.
  - unfold ApplyErr, slice_get. rewrite decide_True by done. simpl.
    rewrite list_lookup_insert_eq by done. simpl. unfold set_srv. simpl. rewrite list_insert_insert_eq.
    eexists. split; [done|]. simpl. rewrite length_insert. split; [done|]. by apply Hstay.
  - eexists. split; [done|]. simpl. rewrite length_insert. split; [done|]. by apply Hstay.
Qed.

Lemma applied_snoc ms x :
  applied (ms ++ [x]) = applied ms ++
    (if CommandValid x.2 then [(x.1, CommandIndex x.2, Command x.2)] else []).
Proof. unfold applied. rewrite omap_app. simpl. by destruct (CommandValid x.2). Qed.

Lemma res_fold_snoc {A S} (f : S → A → res S) s l x :
  res_fold f s (l ++ [x]) = rbind (res_fold f s l) (λ s, f s x).
Proof.
  revert s. induction l as [|y l IH]; intros s; simpl; [by destruct (f s x)|].
  destruct (f s y); simpl; [apply IH|done].
Qed.

(** The appliers of [n] servers, from empty logs. *)
Lemma appliers_spec n ms :
  Forall (λ x, 0 ≤ x.1 < Z.of_nat n) ms →
  ∃ ts, appliers ms (makeTest n) = Ret ts ∧ length (srvs ts) = n ∧
    (no_err ts ↔ consistent (applied ms)) ∧ (consistent (applied ms) → tracks (applied ms) ts).
Proof.
  intros Hms. induction ms as [|x ms IH] using rev_ind.
  { exists (makeTest n). split; [done|]. simpl. rewrite length_replicate. split_and!; [done| |].
    - split; [by constructor|]. intros _ rs Hrs. simpl in Hrs.
      apply elem_of_replicate in Hrs as [-> _]. done.
    - intros _. split; [|set_solver]. intros i rs [-> _]%lookup_replicate idx v. simpl.
      rewrite lookup_empty. set_solver. }
  apply list.Forall_app in Hms as [Hms Hx]. rewrite Forall_singleton in Hx.
  destruct IH as (ts & Heq & Hlen & Hiff & Htr); [done|].
  unfold appliers in *. rewrite res_fold_snoc, Heq. cbn [rbind]. rewrite applied_snoc.
  destruct x as [me m]. simpl in *.
  assert (is_Some (srvs ts !! Z.to_nat me)) as [rs Hrs] by (apply lookup_lt_is_Some; lia).
  destruct (CommandValid m) eqn:Hv.
  2:{ exists ts. unfold applier_one. rewrite Hv, app_nil_r. done. }
  destruct (decide (Forall (λ rs, applyErr rs = None) (srvs ts))) as [Hne|Hne];
    rewrite list.Forall_forall in Hne; fold (no_err ts) in Hne.
  - destruct (applier_one_spec (applied ms) me m ts rs) as (ts' & Heq' & Hlen' & Hiff' & Htr');
      [lia|done|done|by apply Htr, Hiff|done|].
    exists ts'. rewrite consistent_snoc. split_and!; [done|lia| |].
    + rewrite Hiff'. tauto.
    + intros [_ ?]. by apply Htr'.
  - destruct (applier_one_err me m ts) as (ts' & Heq' & Hlen' & Hne'); [lia|by eexists|done|].
    exists ts'. rewrite consistent_snoc. split_and!; [done|lia|tauto|tauto].
Qed.

(** C36. The tester reports an apply error exactly when the servers misbehave: for
    any interleaving of the appliers of [n] servers, starting from empty logs, the
    run ends, and no server has an apply error if and only if every command was
    applied in order, after the one before it on the same server, and no two
    servers applied different commands at one index; the tester's copy of a log
    then holds exactly what that server applied. *)
Theorem applier_detects n ms :
  Forall (λ x, 0 ≤ x.1 < Z.of_nat n) ms →
  ∃ ts, appliers ms (makeTest n) = Ret ts ∧
    (no_err ts ↔ consistent (applied ms)) ∧
    (no_err ts → ∀ i rs, srvs ts !! i = Some rs →
       ∀ idx v, entry rs idx = Some v ↔ (Z.of_nat i, idx, v) ∈ applied ms) ∧
    (no_err ts → ∀ i j idx v w, (i, idx, v) ∈ applied ms → (j, idx, w) ∈ applied ms → v = w).
Proof.
  intros Hms. destruct (appliers_spec n ms Hms) as (ts & Heq & _ & Hiff & Htr).
  exists ts. split_and!; [done|done| |].
  - intros Hne%Hiff i rs Hrs. by apply (proj1 (Htr Hne)).
  - intros Hne%Hiff. intros. by eapply consistent_safety.
Qed.
End applied.

(** Two servers that apply the same first command. *)
Definition cmd_msg (idx : Z) (c : nat) : ApplyMsg nat := MkMsg true (Some c) idx false None 0 0.

Lemma applier_detects_witness :
  ∃ ts, appliers [(0, cmd_msg 1 7); (1, cmd_msg 1 7); (0, cmd_msg 2 8)] (makeTest 2) = Ret ts ∧
    (no_err ts ↔ consistent (applied [(0, cmd_msg 1 7); (1, cmd_msg 1 7); (0, cmd_msg 2 8)])).
Proof.
  destruct (applier_detects 2 [(0, cmd_msg 1 7); (1, cmd_msg 1 7); (0, cmd_msg 2 8)])
    as (ts & H1 & H2 & _); [|exists ts; split; [exact H1|exact H2]].
  apply (bool_decide_unpack _). exact I.
Defined.

(** ** Counting commits *)

Section committed.
Context {C : Type} `{EqDecision C}.

Definition has_entry (index : Z) (rs : raftServer C) : Prop := is_Some (entry rs index).
#[local] Instance has_entry_dec index rs : Decision (has_entry index rs).
Proof. unfold has_entry. apply _. Defined.
Definition committed_on (index : Z) (l : list (raftServer C)) : Z :=
  Z.of_nat (length (filter (has_entry index) l)).

Lemma committed_on_cons index rs l :
  committed_on index (rs :: l) =
    match entry rs index with Some _ => 1 | None => 0 end + committed_on index l.
Proof.
  unfold committed_on. rewrite filter_cons. unfold has_entry at 1.
  case_decide as Hd; destruct (entry rs index) eqn:He; simpl; try lia; exfalso.
  - destruct Hd as [? ?]. congruence.
  - apply Hd. by eexists.
Qed.

Lemma committed_on_pos index l : 0 < committed_on index l → ∃ rs v, rs ∈ l ∧ entry rs index = Some v.
Proof.
  induction l as [|rs l IH]; [done|]. rewrite committed_on_cons.
  destruct (entry rs index) as [v|] eqn:He; intros Hp.
  - exists rs, v. split; [by left|done].
  - destruct IH as (x & v & ? & ?); [lia|]. exists x, v. split; [by right|done].
Qed.

(** The loop of nCommitted from a count and a command. *)
Lemma count_fold index l count c :
  0 ≤ count →
  match res_fold (count_step index) (count, c) l with
  | Ret (n, c') => n = count + committed_on index l ∧ (∀ rs, rs ∈ l → applyErr rs = None) ∧
      (∀ rs v, rs ∈ l → entry rs index = Some v → v = c') ∧ (count > 0 → c' = c)
  | Stop _ => (∃ rs, rs ∈ l ∧ applyErr rs ≠ None) ∨
      (∃ rs v, rs ∈ l ∧ entry rs index = Some v ∧ count > 0 ∧ v ≠ c) ∨
      (∃ rs rs' v v', rs ∈ l ∧ rs' ∈ l ∧ entry rs index = Some v ∧ entry rs' index = Some v' ∧ v ≠ v')
  end.
Proof.
  revert count c. induction l as [|rs l IH]; intros count c Hc; simpl.
  { unfold committed_on. rewrite filter_nil. simpl. split_and!; [lia|set_solver|set_solver|done]. }
  rewrite committed_on_cons.
  destruct (applyErr rs) as [e|] eqn:He; simpl; [left; exists rs; split; [by left|by rewrite He]|].
  destruct (entry rs index) as [c1|] eqn:Hn; simpl.
  - case_decide as Hd; simpl.
    { right; left. exists rs, c1. split_and!; [by left|done|lia|]. destruct Hd; congruence. }
    specialize (IH (count + 1) c1 ltac:(lia)).
    destruct (res_fold (count_step index) (count + 1, c1) l) as [[n c']|f].
    + destruct IH as (-> & Herr & Hall & Heq). specialize (Heq ltac:(lia)). subst c'.
      split_and!; [lia|..].
      * intros x [->|?]%elem_of_cons; auto.
      * intros x v [->|?]%elem_of_cons; [congruence|eauto].
      * intros ?. destruct (decide (c = c1)); [done|]. destruct Hd. split; [lia|done].
    + destruct IH as [(x & ? & ?)|[(x & v & ? & ? & _ & ?)|(x & y & v & w & ? & ? & ? & ? & ?)]].
      * left. exists x. split; [by right|done].
      * right; right. exists x, rs, v, c1. split_and!; [by right|by left|done|done|done].
      * right; right. exists x, y, v, w. split_and!; [by right|by right|done..].
  - specialize (IH count c Hc). destruct (res_fold (count_step index) (count, c) l) as [[n c']|f].
    + destruct IH as (-> & Herr & Hall & Heq). split_and!; [lia|..].
      * intros x [->|?]%elem_of_cons; auto.
      * intros x v [->|?]%elem_of_cons; [congruence|eauto].
      * done.
    + destruct IH as [(x & ? & ?)|[(x & v & ? & ? & ?)|(x & y & v & w & ? & ? & ? & ? & ?)]].
      * left. exists x. split; [by right|done].
      * right; left. exists x, v. split_and!; [by right|done|naive_solver..].
      * right; right. exists x, y, v, w. split_and!; [by right|by right|done..].
Qed.

(** nCommitted counts the servers that committed an index: it returns exactly
    when no server has an apply error and all the servers that have an entry at
    the index have the same one, and then returns how many have it and, if there
    is one, the entry. *)
Theorem nCommitted_counts index (ts : Test C) :
  ((∃ r, nCommitted index ts = Ret r) ↔
     no_err ts ∧ ∀ rs rs' v v', rs ∈ srvs ts → rs' ∈ srvs ts →
       entry rs index = Some v → entry rs' index = Some v' → v = v') ∧
  (∀ n c, nCommitted index ts = Ret (n, c) →
     n = committed_on index (srvs ts) ∧
     ∀ rs v, rs ∈ srvs ts → entry rs index = Some v → v = c).
Proof.
  pose proof (count_fold index (srvs ts) 0 None ltac:(lia)) as Hf.
  unfold nCommitted.
  destruct (res_fold (count_step index) (0, None) (srvs ts)) as [[n c]|f].
  - destruct Hf as (-> & Herr & Hall & _). split; [|intros n' c' [= <- <-]; split; [lia|done]].
    split; [|by eauto]. intros _. split; [done|]. intros rs rs' v v' H1 H2 H3 H4.
    rewrite (Hall rs v), (Hall rs' v') by done. done.
  - split; [|done]. split; [by intros [? ?]|]. intros [Hne Hag]. exfalso.
    destruct Hf as [(x & ? & H)|[(x & v & ? & ? & ? & ?)|(x & y & v & w & ? & ? & ? & ? & H)]].
    + by apply H, Hne.
    + lia.
    + apply H. by apply (Hag x y).
Qed.
End committed.

(** ** Leaders *)

Definition leaders_in (t : Z) (states : list (Z * (Z * bool))) : list Z :=
  (filter (λ x, x.2 = (t, true)) states).*1.

Lemma elem_of_leaders_in t states i : i ∈ leaders_in t states ↔ (i, (t, true)) ∈ states.
Proof.
  unfold leaders_in. rewrite list_elem_of_fmap. setoid_rewrite list_elem_of_filter. split.
  - intros ([i' x] & -> & Hx & Hin). simpl in *. by subst.
  - intros Hin. by exists (i, (t, true)).
Qed.

Lemma leaders_map_lookup states t :
  leaders_map states !! t = match leaders_in t states with [] => None | l => Some l end.
Proof.
  unfold leaders_map, leaders_in. rewrite <-(rev_involutive states).
  induction (rev states) as [|[i [t' b]] l IH]; [done|]. simpl.
  rewrite fold_left_app, list.filter_app, fmap_app. simpl.
  set (m := fold_left _ (rev l) ∅) in *. destruct b.
  - destruct (decide (t' = t)) as [->|Hne].
    + rewrite lookup_insert_eq. unfold mget. rewrite IH. rewrite filter_cons_True, filter_nil by done.
      by destruct ((filter _ (rev l)).*1).
    + rewrite lookup_insert_ne, IH by done. rewrite filter_cons_False, filter_nil by (simpl; congruence).
      by rewrite app_nil_r.
  - rewrite IH, filter_cons_False, filter_nil by (simpl; congruence). by rewrite app_nil_r.
Qed.

Lemma mget_leaders_map states t : mget [] (leaders_map states) t = leaders_in t states.
Proof. unfold mget. rewrite leaders_map_lookup. by destruct (leaders_in t states). Qed.

Lemma last_term_fold (ls : gmap Z (list Z)) terms last0 r :
  res_fold (λ last term,
    if decide (1 < length (mget [] ls term))%nat then Stop FailNow
    else Ret (if bool_decide (term > last) then term else last)) last0 terms = Ret r →
  (∀ t, t ∈ terms → (length (mget [] ls t) ≤ 1)%nat ∧ t ≤ r) ∧ last0 ≤ r ∧ (r = last0 ∨ r ∈ terms).
Proof.
  revert last0. induction terms as [|t terms IH]; intros last0; simpl.
  { intros [= <-]. split_and!; [set_solver|lia|by left]. }
  case_decide; simpl; [done|]. intros Hr%IH. destruct Hr as (Hall & Hle & Hin).
  assert (t ≤ r ∧ last0 ≤ r) as [? ?] by (case_bool_decide; lia). split_and!; [|lia|].
  - intros u [->|?]%elem_of_cons; [split; lia|auto].
  - destruct Hin as [Hin|Hin]; [|right; by right]. case_bool_decide; [right; subst; by left|by left].
Qed.

(** checkOneLeader returns a leader of the first round in which somebody leads:
    when it returns, with terms that are not negative, either some server led in
    the first round, and the result is the only leader of the largest term that
    had one, and no term had two; or nobody led, and the result is that of the
    remaining rounds. *)
Theorem checkOneLeader_leads states rounds order l :
  (∀ m, range_order m (order m)) → (∀ i t b, (i, (t, b)) ∈ states → 0 ≤ t) →
  checkOneLeader (states :: rounds) order = Ret l →
  (∃ t, (l, (t, true)) ∈ states ∧
     (∀ i j t', (i, (t', true)) ∈ states → (j, (t', true)) ∈ states → i = j) ∧
     ∀ i t', (i, (t', true)) ∈ states → t' ≤ t) ∨
  ((∀ i t, (i, (t, true)) ∉ states) ∧ checkOneLeader rounds order = Ret l).
Proof.
  intros Hord Hpos. cbn [checkOneLeader]. rewrite rbind_Ret_inv. intros (last & Hlast & Hl).
  unfold last_term in Hlast. apply last_term_fold in Hlast as (Hall & Hge & Hin).
  assert (∀ t, t ∈ order (leaders_map states) ↔ leaders_in t states ≠ []) as Hterms.
  { intros t. rewrite (range_order_elem _ _ _ (Hord _)), leaders_map_lookup.
    destruct (leaders_in t states); split; done. }
  setoid_rewrite mget_leaders_map in Hall. rewrite mget_leaders_map in Hl.
  case_decide as Hsz.
  - left. assert (∀ i t, (i, (t, true)) ∈ states → t ∈ order (leaders_map states)) as Hlead.
    { intros i t Hi%elem_of_leaders_in. apply Hterms. intros Hn. rewrite Hn in Hi. set_solver. }
    assert (last ∈ order (leaders_map states)) as Hlin.
    { destruct Hin as [->|?]; [exfalso|done].
      apply Hsz, map_size_empty_iff. apply map_eq. intros t. rewrite lookup_empty, leaders_map_lookup.
      destruct (leaders_in t states) as [|i ls] eqn:Ht; [done|].
      assert (i ∈ leaders_in t states) as Hi by (rewrite Ht; by left).
      apply elem_of_leaders_in in Hi. pose proof (Hpos _ _ _ Hi).
      destruct (Hall t (Hlead _ _ Hi)). lia. }
    assert (l ∈ leaders_in last states) as Hlast.
    { unfold slice_get in Hl. rewrite decide_True in Hl by lia.
      destruct (leaders_in last states) as [|x ls]; simpl in Hl; [done|]. injection Hl as <-. by left. }
    exists last. rewrite <-elem_of_leaders_in. split_and!; [done| |].
    + intros i j t' Hi Hj. destruct (Hall t' (Hlead _ _ Hi)) as [Hone _].
      apply elem_of_leaders_in in Hi, Hj. destruct (leaders_in t' states) as [|x [|y ls]]; simpl in Hone.
      * set_solver. * set_solver. * lia.
    + intros i t' Hi. by apply Hall, (Hlead i).
  - right. split; [|done]. intros i t Hi%elem_of_leaders_in.
    apply map_size_empty_iff in Hsz.
    assert (leaders_map states !! t = None) as Hno by (by rewrite Hsz).
    rewrite leaders_map_lookup in Hno. destruct (leaders_in t states); [set_solver|done].
Qed.

Lemma checkOneLeader_leads_witness :
  (∃ t, (2, (t, true)) ∈ [(0, (3, false)); (2, (3, true)); (1, (1, true))] ∧
     (∀ i j t', (i, (t', true)) ∈ [(0, (3, false)); (2, (3, true)); (1, (1, true))] →
        (j, (t', true)) ∈ [(0, (3, false)); (2, (3, true)); (1, (1, true))] → i = j) ∧
     ∀ i t', (i, (t', true)) ∈ [(0, (3, false)); (2, (3, true)); (1, (1, true))] → t' ≤ t) ∨
  ((∀ i t, (i, (t, true)) ∉ [(0, (3, false)); (2, (3, true)); (1, (1, true))]) ∧
   checkOneLeader [] map_keys = Ret 2).
Proof.
  apply (checkOneLeader_leads [(0, (3, false)); (2, (3, true)); (1, (1, true))] [] map_keys 2).
  - intros m. apply range_order_refl.
  - intros i t b. rewrite !elem_of_cons. intros [[= -> -> ->]|[[= -> -> ->]|[[= -> -> ->]|?]]];
      [lia|lia|lia|set_solver].
  - vm_compute. reflexivity.
Defined.

(** ** Snapshots *)

Section snapshots.
Context {C : Type} `{EqDecision C} `{Wire.CodecLaws (Z * list (option C))}.

Lemma log_of_lookup (xlog : list (option C)) j :
  log_of xlog !! j = if decide (0 ≤ j) then xlog !! Z.to_nat j else None.
Proof.
  unfold log_of. set (keys := Z.of_nat <$> seq 0 (length xlog)).
  assert (length keys = length xlog) as Hlen by (unfold keys; by rewrite length_fmap, length_seq).
  assert (NoDup keys) as Hnd by (apply (NoDup_fmap_2 Z.of_nat), NoDup_seq).
  assert (∀ k v, keys !! k = Some v ↔ v = Z.of_nat k ∧ (k < length xlog)%nat) as Hkeys.
  { intros k v. unfold keys. rewrite list_lookup_fmap_Some. setoid_rewrite lookup_seq. naive_solver. }
  apply option_eq. intros v. rewrite <-elem_of_list_to_map.
  2:{ rewrite fst_zip by lia. done. }
  rewrite list_elem_of_lookup. setoid_rewrite lookup_zip_Some. setoid_rewrite Hkeys. split.
  - intros (k & [-> Hk] & Hv). rewrite decide_True by lia. by rewrite Nat2Z.id.
  - case_decide; [|done]. intros Hv. exists (Z.to_nat j). pose proof (lookup_lt_Some _ _ _ Hv).
    split; [split; [lia|done]|done].
Qed.

(** A snapshot restores what it was made from: if a server that applied up to
    an index makes a snapshot there and gob can encode it, any server that ingests
    it, announced with that index or at start-up with -1, has no error, stands at
    that index, and has for every index from 0 to it the command of the first
    server's log, and nothing else. *)
Theorem snapshot_roundtrip (rs rs' : rfsrv C) index announced :
  0 ≤ index → (∃ b, Wire.encode (index, (λ j, mget None (rlog rs) (Z.of_nat j)) <$>
     seq 0 (Z.to_nat (index + 1))) = Some b) →
  announced = index ∨ announced = -1 →
  let '(err, rs2) := ingestSnap (Some (make_snapshot rs index)) announced rs' in
  err = None ∧ lastApplied rs2 = index ∧ me rs2 = me rs' ∧
  ∀ j, rlog rs2 !! j = if decide (0 ≤ j ≤ index) then Some (mget None (rlog rs) j) else None.
Proof.
  intros Hi [b Hb] Ha. unfold ingestSnap, make_snapshot. rewrite Hb. simpl.
  rewrite (Wire.decode_encode _ _ Hb). rewrite decide_False by naive_solver. simpl.
  split_and!; [done..|]. intros j. rewrite log_of_lookup. case_decide as Hj.
  - rewrite list_lookup_fmap. case_decide as Hj2.
    + rewrite lookup_seq_lt by lia. simpl. by rewrite Z2Nat.id by lia.
    + by rewrite lookup_seq_ge by lia.
  - rewrite decide_False by lia. done.
Qed.
End snapshots.

(** A codec for snapshots of short logs of small numbers: two bytes, the index and
    one byte per entry. *)
Definition byte_of_cmd (c : option nat) : byte :=
  match c with None => "000"%byte | Some n => Wire.byte_of (Z.of_nat n + 1) end.
Definition cmd_of_byte (b : byte) : option nat :=
  let z := Wire.of_byte b in if decide (z = 0) then None else Some (Z.to_nat (z - 1)).
#[local] Instance snap_codec : Wire.Codec (Z * list (option nat)) := {|
  Wire.encode x :=
    if decide (0 ≤ x.1 < 256 ∧ Forall (λ c, default 0%nat c < 255)%nat x.2)
    then Some (Wire.byte_of x.1 :: (byte_of_cmd <$> x.2)) else None;
  Wire.decode b :=
    match b with [] => None | i :: l => Some (Wire.of_byte i, cmd_of_byte <$> l) end |}.
#[local] Instance snap_laws : Wire.CodecLaws (Z * list (option nat)).
Proof.
  intros [i l] b. simpl. case_decide as Hd; [|done]. destruct Hd as [Hi Hl]. intros [= <-].
  rewrite Wire.of_byte_of, Z.mod_small by done. do 2 f_equal.
  induction Hl as [|c l Hc Hl IH]; [done|]. rewrite !fmap_cons, IH. f_equal.
  unfold cmd_of_byte, byte_of_cmd. destruct c as [n|]; [|done]. simpl in Hc.
  rewrite Wire.of_byte_of, Z.mod_small by lia. rewrite decide_False by lia. f_equal. lia.
Qed.

Definition nine : rfsrv nat :=
  MkRf 0 9 (list_to_map ((λ n, (Z.of_nat n, Some (10 + n)%nat)) <$> seq 1 9)).

Lemma snapshot_roundtrip_witness :
  let '(err, rs2) := ingestSnap (Some (make_snapshot nine 9)) 9 (MkRf 1 0 ∅) in
  err = None ∧ lastApplied rs2 = 9.
Proof.
  pose proof (snapshot_roundtrip nine (MkRf 1 0 ∅) 9 9 ltac:(lia)) as H.
  destruct (ingestSnap (Some (make_snapshot nine 9)) 9 (MkRf 1 0 ∅)) as [err rs2].
  destruct H as (H1 & H2 & _); [eexists; vm_compute; reflexivity|by left|].
  split; [exact H1|exact H2].
Defined.
