(* ===== verification/RaftOne.v ===== *)
(** * Agreement on a command: one and wait (raft1/test.go)

    [one] submits a command to whoever claims to be the leader and waits until
    enough servers have committed it; [wait] waits for an index to be committed.
    Both look at a world that changes while they run: the clock, the flag that ends
    the test, the servers' answers to Start and GetState, and the logs that the
    appliers report.  The world is the class [World], its clock obeys [WorldLaws];
    times are milliseconds.

    The loops have fuel; the theorem below shows that it is enough, because the time
    limits of the code bound the number of rounds (2 s in steps of at least 20 ms, and
    10 s in steps of at least 50 ms). *)

From S2P Require Import Prelude LabRpc Wire RaftTest RaftSpec.
Import RaftTest.

Local Open Scope Z_scope.

Module RaftOne.

(** [w_start i c] is Start at server [i], [None] if it is not connected or has no
    proxy; [w_test] is the tester's view of the servers, [w_state i] is GetState. *)
Class World (C W : Type) := {
  w_now : W → W * Z;
  w_sleep : Z → W → W;
  w_finished : W → W * bool;
  w_start : Z → option C → W → W * option (Z * Z * bool);
  w_test : W → W * Test C;
  w_state : Z → W → W * (Z * bool)
}.

(** A sleep takes its time, and nothing turns the clock back. *)
Class WorldLaws {C W} `{World C W} (time : W → Z) := {
  now_time w : (w_now w).2 = time w;
  now_mono w : time w ≤ time (w_now w).1;
  sleep_time d w : time w + d ≤ time (w_sleep d w);
  finished_mono w : time w ≤ time (w_finished w).1;
  start_mono i c w : time w ≤ time (w_start i c w).1;
  test_mono w : time w ≤ time (w_test w).1;
  state_mono i w : time w ≤ time (w_state i w).1
}.

Section one.
Context {C W : Type} `{EqDecision C} `{World C W}.
(** The number of servers. *)
Context (n : nat).
Implicit Types w : W.

(** What has happened so far: the indexes that a server accepted the command at. *)
Abbreviation accepted := (list Z).

(** for range ts.srvs: the index, and the last server asked *)
Fixpoint try_servers (k : nat) (starts : Z) (cmd : option C) (acc : accepted) w : W * accepted * Z * Z :=
  match k with
  | O => (w, acc, -1, starts)
  | S k =>
      let starts := (starts + 1) `rem` Z.of_nat n in
      let (w, r) := w_start starts cmd w in
      match r with
      | Some (index1, _, true) => (w, acc ++ [index1], index1, starts)
      | _ => try_servers k starts cmd acc w
      end
  end.

(** The loop that waits for agreement: did enough servers commit the command? *)
Fixpoint wait_agreement (fuel : nat) (t1 index expected : Z) (cmd : option C) w : W * res bool :=
  match fuel with
  | O => (w, Stop OutOfFuel)
  | S fuel =>
      let (w, now) := w_now (C:=C) w in
      if decide (now - t1 < 2000) then
        let (w, ts) := w_test (C:=C) w in
        match nCommitted index ts with
        | Stop e => (w, Stop e)
        | Ret (nd, cmd1) =>
            if decide (nd > 0 ∧ nd >= expected ∧ cmd1 = cmd) then (w, Ret true)
            else wait_agreement fuel t1 index expected cmd (w_sleep (C:=C) 20 w)
        end
      else (w, Ret false)
  end.

Definition inner_fuel : nat := 101.

(** The loop of one; [Ret None] when its condition fails. *)
Fixpoint one_loop (fuel : nat) (t0 starts expected : Z) (cmd : option C) (retry : bool)
    (acc : accepted) w : W * accepted * res (option Z) :=
  match fuel with
  | O => (w, acc, Stop OutOfFuel)
  | S fuel =>
      let (w, now) := w_now (C:=C) w in
      let (w, fin) := if decide (now - t0 < 10000) then w_finished (C:=C) w else (w, true) in
      if fin : bool then (w, acc, Ret None)
      else
        let '(w, acc, index, starts) := try_servers n starts cmd acc w in
        if decide (index ≠ -1) then
          let (w, t1) := w_now (C:=C) w in
          match wait_agreement inner_fuel t1 index expected cmd w with
          | (w, Stop e) => (w, acc, Stop e)
          | (w, Ret true) => (w, acc, Ret (Some index))
          | (w, Ret false) =>
              if retry then one_loop fuel t0 starts expected cmd retry acc w
              else (w, acc, Stop FailNow)
          end
        else one_loop fuel t0 starts expected cmd retry acc (w_sleep (C:=C) 50 w)
  end.

Definition outer_fuel : nat := 201.

Definition one (cmd : option C) (expectedServers : Z) (retry : bool) w : W * accepted * res Z :=
  let (w, t0) := w_now (C:=C) w in
  let '(w, acc, r) := one_loop outer_fuel t0 0 expectedServers cmd retry [] w in
  match r with
  | Stop e => (w, acc, Stop e)
  | Ret (Some index) => (w, acc, Ret index)
  | Ret None =>
      let (w, fin) := w_finished (C:=C) w in
      if fin : bool then (w, acc, Ret (-1)) else (w, acc, Stop FailNow)
  end.

(** ** wait *)

(** Has one of the servers a term after [startTerm]? *)
Fixpoint moved_on (k : nat) (i startTerm : Z) w : W * bool :=
  match k with
  | O => (w, false)
  | S k =>
      let (w, st) := w_state (C:=C) i w in
      if decide (st.1 > startTerm) then (w, true) else moved_on k (i + 1) startTerm w
  end.

(** The 30 rounds: [Ret true] when someone moved on, [Ret false] otherwise. *)
Fixpoint wait_loop (iters : nat) (to index nwant startTerm : Z) w : W * res bool :=
  match iters with
  | O => (w, Ret false)
  | S iters =>
      let (w, ts) := w_test (C:=C) w in
      match nCommitted index ts with
      | Stop e => (w, Stop e)
      | Ret (nd, _) =>
          if decide (nd >= nwant) then (w, Ret false)
          else
            let w := w_sleep (C:=C) to w in
            let to := if decide (to < 1000) then to * 2 else to in
            let (w, m) := if decide (startTerm > -1) then moved_on n 0 startTerm w else (w, false) in
            if m : bool then (w, Ret true) else wait_loop iters to index nwant startTerm w
      end
  end.

(** wait returns -1 ([None]) or the command. *)
Definition wait (index nwant startTerm : Z) w : W * res (option (option C)) :=
  match wait_loop 30 10 index nwant startTerm w with
  | (w, Stop e) => (w, Stop e)
  | (w, Ret true) => (w, Ret None)
  | (w, Ret false) =>
      let (w, ts) := w_test (C:=C) w in
      match nCommitted index ts with
      | Stop e => (w, Stop e)
      | Ret (nd, cmd) => (w, if decide (nd < nwant) then Stop FailNow else Ret (Some cmd))
      end
  end.

(** ** Lemmas *)

(** One observation of the world. *)
Inductive wstep w : W → Prop :=
| ws_now : wstep w (w_now (C:=C) w).1
| ws_sleep d : 0 ≤ d → wstep w (w_sleep (C:=C) d w)
| ws_finished : wstep w (w_finished (C:=C) w).1
| ws_start i c : wstep w (w_start (C:=C) i c w).1
| ws_test : wstep w (w_test (C:=C) w).1
| ws_state i : wstep w (w_state (C:=C) i w).1.

Context (time : W → Z) `{!WorldLaws time}.

Lemma rtc_time w w' : rtc wstep w w' → time w ≤ time w'.
Proof.
  induction 1 as [|w w1 w2 Hs _ IH]; [lia|]. assert (time w ≤ time w1); [|lia]. destruct Hs.
  - apply now_mono.
  - pose proof (sleep_time d w). lia.
  - apply finished_mono.
  - apply start_mono.
  - apply test_mono.
  - apply state_mono.
Qed.

Lemma try_servers_spec k starts cmd acc w :
  let '(w', acc', index, _) := try_servers k starts cmd acc w in
  rtc wstep w w' ∧ (acc' = acc ∧ index = -1 ∨ acc' = acc ++ [index]).
Proof.
  revert starts w. induction k as [|k IH]; intros starts w; simpl; [split; [apply rtc_refl|by left]|].
  pose proof (ws_start w ((starts + 1) `rem` Z.of_nat n) cmd) as Hw.
  destruct (w_start _ cmd w) as [w1 [[[index1 term] [|]]|]]; simpl in Hw;
    [split; [by apply rtc_once|by right]| |];
    specialize (IH ((starts + 1) `rem` Z.of_nat n) w1);
    destruct (try_servers k _ cmd acc w1) as [[[w' acc'] index] ?]; destruct IH;
    (split; [by eapply rtc_l|done]).
Qed.

(** The last thing that happened on the way from [w] to [w'] is that the tester saw the
    command committed by enough servers. *)
Definition agreed (index expected : Z) (cmd : option C) w w' : Prop :=
  ∃ w0 ts nd, rtc wstep w w0 ∧ w_test w0 = (w', ts) ∧
    nCommitted index ts = Ret (nd, cmd) ∧ nd > 0 ∧ nd >= expected.

Lemma agreed_rtc index expected cmd w w1 w' :
  rtc wstep w w1 → agreed index expected cmd w1 w' → agreed index expected cmd w w'.
Proof. intros Hr (w0 & ts & nd & Hr' & Hrest). exists w0, ts, nd. split; [by etrans|done]. Qed.

Lemma nCommitted_Stop index (ts : Test C) e : nCommitted index ts = Stop e → e = FailNow.
Proof.
  unfold nCommitted. generalize (0, @None C). induction (srvs ts) as [|rs l IH]; intros s; simpl; [done|].
  destruct (count_step index s rs) as [s'|e'] eqn:Hs; simpl; [apply IH|]. intros [= <-].
  unfold count_step in Hs. destruct s as [count c]. destruct (applyErr rs); [congruence|].
  destruct (entry rs index); [|done]. case_decide; congruence.
Qed.

Lemma wait_agreement_spec fuel t1 index expected cmd w :
  (1 ≤ fuel)%nat → 2000 - (time w - t1) ≤ 20 * (Z.of_nat fuel - 1) →
  match wait_agreement fuel t1 index expected cmd w with
  | (w', Ret true) => agreed index expected cmd w w'
  | (w', Ret false) => rtc wstep w w' ∧ t1 + 2000 ≤ time w'
  | (w', Stop e) => e = FailNow
  end.
Proof.
  revert w. induction fuel as [|fuel IH]; intros w Hf Ht; [lia|]. cbn [wait_agreement].
  pose proof (now_time w) as Hn. pose proof (ws_now w) as Hw1. destruct (w_now w) as [w1 now]. simpl in Hn, Hw1.
  pose proof (rtc_time _ _ (rtc_once _ _ Hw1)) as Hm.
  destruct (decide (now - t1 < 2000)) as [Hlt|Hge]; [|split; [by apply rtc_once|lia]].
  pose proof (ws_test w1) as Hw2. destruct (w_test w1) as [w2 ts] eqn:Htest. simpl in Hw2.
  assert (rtc wstep w w2) as Hr2 by (eapply rtc_l; [done|]; by apply rtc_once).
  destruct (nCommitted index ts) as [[nd cmd1]|e] eqn:Hc; [|by eapply nCommitted_Stop].
  destruct (decide _) as [(H0 & H1 & ->)|_].
  { exists w1, ts, nd. split; [by apply rtc_once|done]. }
  pose proof (sleep_time 20 w2) as Hs. pose proof (rtc_time _ _ Hr2).
  assert (rtc wstep w (w_sleep 20 w2)) as Hr3 by (eapply rtc_r; [done|]; by apply ws_sleep).
  specialize (IH (w_sleep 20 w2) ltac:(lia) ltac:(lia)).
  destruct (wait_agreement fuel t1 index expected cmd (w_sleep 20 w2)) as [w' [[]|]]; [..|done].
  - by eapply agreed_rtc.
  - destruct IH as [? ?]. split; [by etrans|done].
Qed.

(** How many times a command was accepted at an index; -1 is none. *)
Definition indexed (acc : accepted) : nat := length (filter (λ i, i ≠ -1) acc).
Definition few (retry : bool) (acc : accepted) : Prop := retry = false → (indexed acc ≤ 1)%nat.

Lemma indexed_snoc acc i : indexed (acc ++ [i]) = (indexed acc + (if decide (i = -1)%Z then 0 else 1))%nat.
Proof.
  unfold indexed. rewrite list.filter_app, length_app, filter_cons. f_equal. repeat case_decide; done.
Qed.

Lemma one_loop_spec fuel t0 starts expected cmd retry acc w :
  (1 ≤ fuel)%nat → 10000 - (time w - t0) ≤ 50 * (Z.of_nat fuel - 1) → (retry = false → indexed acc = 0%nat) →
  let '(w', acc', r) := one_loop fuel t0 starts expected cmd retry acc w in
  few retry acc' ∧
  match r with
  | Ret (Some index) => index ≠ -1 ∧ index ∈ acc' ∧ agreed index expected cmd w w'
  | Ret None => rtc wstep w w'
  | Stop e => e = FailNow
  end.
Proof.
  revert starts acc w. induction fuel as [|fuel IH]; intros starts acc w Hf Ht Hacc; [lia|].
  cbn [one_loop]. pose proof (now_time w) as Hn. pose proof (ws_now w) as Hw1.
  destruct (w_now w) as [w1 now]. cbn [fst snd] in *.
  assert (few retry acc) as Hfew by (intros Hr; rewrite (Hacc Hr); lia).
  destruct (decide (now - t0 < 10000)) as [Hlt|Hge]; [|split; [done|by apply rtc_once]].
  pose proof (ws_finished w1) as Hw2. destruct (w_finished w1) as [w2 fin]. cbn [fst snd] in *.
  assert (rtc wstep w w2) as Hr2 by (eapply rtc_l; [done|]; by apply rtc_once).
  destruct fin; [done|].
  pose proof (try_servers_spec n starts cmd acc w2) as Hts.
  destruct (try_servers n starts cmd acc w2) as [[[w3 acc1] index] starts1]. destruct Hts as [Hr3 Hor].
  assert (rtc wstep w w3) as Hr03 by by etrans.
  destruct (decide (index ≠ -1)) as [Hne|Heq].
  - destruct Hor as [[_ ?]| ->]; [done|].
    assert (few retry (acc ++ [index])) as Hfew1
      by (intros Hr; rewrite indexed_snoc, (Hacc Hr); case_decide; lia).
    pose proof (now_time w3) as Hn3. pose proof (ws_now w3) as Hw4.
    destruct (w_now w3) as [w4 t1]. cbn [fst snd] in *.
    assert (rtc wstep w w4) as Hr04 by by eapply rtc_r.
    pose proof (rtc_time _ _ (rtc_once _ _ Hw4)). pose proof (rtc_time _ _ Hr04).
    pose proof (rtc_time _ _ Hr03).
    pose proof (wait_agreement_spec inner_fuel t1 index expected cmd w4) as Hwa.
    specialize (Hwa ltac:(unfold inner_fuel; lia) ltac:(unfold inner_fuel; lia)).
    destruct (wait_agreement inner_fuel t1 index expected cmd w4) as [w5 [[|]|e]].
    + split; [done|]. split_and!; [done| |by eapply agreed_rtc]. apply elem_of_app. right. by left.
    + destruct Hwa as [Hr5 Ht5]. destruct retry; [|done].
      specialize (IH starts1 (acc ++ [index]) w5 ltac:(lia) ltac:(lia) ltac:(done)).
      destruct (one_loop fuel t0 starts1 expected cmd true (acc ++ [index]) w5) as [[w6 acc6] [[i|]|e]].
      * destruct IH as (? & ? & ? & ?). split_and!; [done..|]. eapply agreed_rtc; [|done]. by etrans.
      * destruct IH as (? & ?). split; [done|]. by do 2 (etrans; [done|]).
      * done.
    + done.
  - assert (index = -1) as -> by lia. pose proof (sleep_time 50 w3) as Hs. pose proof (rtc_time _ _ Hr03).
    assert (rtc wstep w (w_sleep 50 w3)) as Hr5 by (eapply rtc_r; [done|]; by apply ws_sleep).
    assert (retry = false → indexed acc1 = 0%nat) as Hacc1.
    { intros Hr. destruct Hor as [[-> _]| ->]; [by apply Hacc|]. by rewrite indexed_snoc, (Hacc Hr). }
    specialize (IH starts1 acc1 (w_sleep 50 w3) ltac:(lia) ltac:(lia) Hacc1).
    destruct (one_loop fuel t0 starts1 expected cmd retry acc1 (w_sleep 50 w3)) as [[w6 acc6] [[i|]|e]].
    + destruct IH as (? & ? & ? & ?). split_and!; [done..|]. by eapply agreed_rtc.
    + destruct IH as (? & ?). split; [done|]. by etrans.
    + done.
Qed.
End one.
End RaftOne.

Import RaftOne.

(** C35. Agreement: one always ends, for any behaviour of the servers and of the network,
    within the rounds that its time limits allow.  If it returns an index,
    a server accepted the command at that index, and the last thing that one saw is the
    command, and not another one, committed there by at least the expected number of
    servers, or -1 is returned when the flag that ends the test was seen.  Without
    retries at most one Start was accepted at an index; a Start that is accepted at -1,
    as that of the skeleton in raft.go, counts as none, and one goes on. *)
Theorem one_agrees {C W} `{EqDecision C} `{World C W} (time : W → Z) `{!WorldLaws time}
    n (cmd : option C) expected retry (w : W) :
  let '(w', acc, r) := one n cmd expected retry w in
  (retry = false → (length (filter (λ i : Z, i ≠ (-1)%Z) acc) ≤ 1)%nat) ∧
  match r with
  | Ret index =>
      (index ≠ -1 ∧ index ∈ acc ∧ ∃ w0 ts nd, rtc (wstep (C:=C)) w w0 ∧ w_test w0 = (w', ts) ∧
         nCommitted index ts = Ret (nd, cmd) ∧ nd > 0 ∧ nd >= expected) ∨
      (index = -1 ∧ ∃ w0, rtc (wstep (C:=C)) w w0 ∧ w_finished (C:=C) w0 = (w', true))
  | Stop e => e = FailNow
  end.
Proof.
  unfold one. pose proof (now_time w) as Hn. pose proof (ws_now (C:=C) w) as Hw1.
  destruct (w_now w) as [w1 t0]. cbn [fst snd] in *. pose proof (rtc_time time _ _ (rtc_once _ _ Hw1)).
  pose proof (one_loop_spec n time outer_fuel t0 0 expected cmd retry [] w1) as Hl.
  specialize (Hl ltac:(unfold outer_fuel; lia) ltac:(unfold outer_fuel; lia) ltac:(done)).
  destruct (one_loop n outer_fuel t0 0 expected cmd retry [] w1) as [[w2 acc] [[index|]|e]].
  - destruct Hl as (Hfew & Hne & Hin & Hag). split; [done|]. left. split_and!; [done..|].
    apply (agreed_rtc _ _ _ w w1); [by apply rtc_once|done].
  - destruct Hl as [Hfew Hr]. destruct (w_finished w2) as [w3 [|]] eqn:Hf; (split; [done|]); [|done].
    right. split; [done|]. exists w2. split; [by eapply rtc_l|done].
  - done.
Qed.

(** *** A witness: three servers; the leader is server 2, and the command is committed by
    two servers at once. *)

Record toy := MkToy { toy_time : Z; toy_log : option nat }.
#[local] Instance toy_world : World nat toy := {|
  w_now w := (w, toy_time w);
  w_sleep d w := MkToy (toy_time w + Z.max 0 d) (toy_log w);
  w_finished w := (w, false);
  w_start i c w := if decide (i = 2) then (MkToy (toy_time w) c, Some (1, 1, true)) else (w, Some (0, 1, false));
  w_test w := (w, MkTest [MkRS None {[1 := toy_log w]}; MkRS None ∅; MkRS None {[1 := toy_log w]}] 1);
  w_state i w := (w, (1, bool_decide (i = 2)))
|}.
#[local] Instance toy_laws : WorldLaws (C:=nat) toy_time.
Proof.
  split; simpl; try done; try lia.
  intros i c w. by case_decide.
Qed.

Lemma one_agrees_witness :
  one 3 (Some 7%nat) 2 false (MkToy 0 None) = (MkToy 0 (Some 7%nat), [1], Ret 1) ∧
  ∃ w0 (ts : Test nat) nd, w_test w0 = (MkToy 0 (Some 7%nat), ts) ∧
    nCommitted 1 ts = Ret (nd, Some 7%nat) ∧ nd >= 2.
Proof.
  assert (one 3 (Some 7%nat) 2 false (MkToy 0 None) = (MkToy 0 (Some 7%nat), [1], Ret 1)) as Heq
    by (vm_compute; reflexivity).
  split; [exact Heq|].
  pose proof (one_agrees toy_time 3 (Some 7%nat) 2 false (MkToy 0 None)) as H1. rewrite Heq in H1.
  destruct H1 as [_ [(_ & _ & w0 & ts & nd & _ & Ht & Hn & _ & Hge)|[Hx _]]]; [by exists w0, ts, nd|discriminate].
Defined.
