(* ===== verification/RaftRestart.v ===== *)
(** * Raft servers with snapshots, crashes and restarts (raft1/server.go)

    [newRfsrv] starts a server: with snapshots, it ingests the snapshot that its
    persister holds and reports the log to the tester.  A cluster is the tester, the
    servers that are running, and the snapshots they have made; its events are what a
    correct Raft does to the servers ([EApply]: the next command of the agreed log,
    [EInstall]: a snapshot made by a server), and what the tester does to them
    ([EKill], [ERestart]). *)

From S2P Require Import Prelude LabRpc Wire RaftTest RaftSpec.
Import LabRpc RaftTest.

Module RaftRestart.

Section restart.
Context {C : Type} `{EqDecision C} `{Wire.CodecLaws (Z * list (option C))}.
Local Abbreviation cmd := (option C).
Implicit Types (ts : Test C).

(** newRfsrv; [sn] is what persister.ReadSnapshot returned.  The tester, and what
    becomes of the server: log.Fatalf ends its process after the tester was told. *)
Definition newRfsrv (srv : Z) (sn : bytes) (snapshot : bool) ts : res (Test C * res (rfsrv C)) :=
  let s := MkRf srv 0 ∅ in
  if snapshot && bool_decide (0 < length sn)%nat then
    let (err, s) := ingestSnap (Some sn) (-1) s in
    match err with
    | Some e => let* ts := ApplyErr srv e ts in Ret (ts, Stop LogFatal)
    | None => let* ts := IngestLog (me s) (rlog s) ts in Ret (ts, Ret s)
    end
  else Ret (ts, Ret s).

(** ** A cluster *)

Record cluster := MkCluster {
  tst : Test C;
  live : gmap Z (rfsrv C);
  snaps : list (Z * bytes)      (** given to Raft, with their index *)
}.

Inductive event :=
| EApply (i : Z)                    (** Raft delivers the next command *)
| EInstall (i : Z) (k : nat)        (** Raft delivers a snapshot *)
| EKill (i : Z)
| ERestart (i : Z) (k : option nat). (** with the snapshot that was persisted, if any *)

(** The agreed log, from index 1. *)
Context (L : Z → cmd).
Definition agreed (j : Z) : cmd := if decide (j = 0) then None else L j.

Definition command (j : Z) : ApplyMsg C := MkMsg true (agreed j) j false None 0 0.
Definition install (k : Z) (b : bytes) : ApplyMsg C := MkMsg false None 0 true (Some b) 0 k.

Definition apply (i : Z) (m : ApplyMsg C) (c : cluster) : res cluster :=
  match live c !! i with
  | None => Ret c
  | Some rs =>
      let* '(rs, ts, sn) := applierSnap_one m rs (tst c) in
      Ret (MkCluster ts (<[i := rs]> (live c)) (snaps c ++ option_list sn))
  end.

Definition run_event (c : cluster) (e : event) : res cluster :=
  match e with
  | EApply i =>
      match live c !! i with
      | None => Ret c
      | Some rs => apply i (command (lastApplied rs + 1)) c
      end
  | EInstall i k =>
      match snaps c !! k with
      | None => Ret c
      | Some (index, b) => apply i (install index b) c
      end
  | EKill i => Ret (MkCluster (tst c) (delete i (live c)) (snaps c))
  | ERestart i k =>
      if decide (0 ≤ i < Z.of_nat (length (srvs (tst c))) ∧ live c !! i = None) then
        let sn := match k with Some k => from_option snd [] (snaps c !! k) | None => [] end in
        let* '(ts, s) := newRfsrv i sn true (tst c) in
        let* s := s in
        Ret (MkCluster ts (<[i := s]> (live c)) (snaps c))
      else Ret c
  end.

Definition start (n : nat) : cluster := MkCluster (makeTest n) ∅ [].
Definition run (n : nat) (es : list event) : res cluster := res_fold run_event (start n) es.

(** ** The invariant *)

Definition prefix (k : Z) : list cmd := (λ j, agreed (Z.of_nat j)) <$> seq 0 (Z.to_nat (k + 1)).

Definition rf_ok (i : Z) (rs : rfsrv C) : Prop :=
  me rs = i ∧ 0 ≤ lastApplied rs ∧
  (∀ j, 1 ≤ j ≤ lastApplied rs → rlog rs !! j = Some (agreed j)) ∧
  (∀ j v, rlog rs !! j = Some v → v = agreed j ∧ 0 ≤ j ≤ lastApplied rs).

Definition snap_ok (x : Z * bytes) : Prop := 0 ≤ x.1 ∧ Wire.encode (x.1, prefix x.1) = Some x.2.

Record inv (c : cluster) : Prop := {
  v_err : no_err (tst c);
  v_logs rs j v : rs ∈ srvs (tst c) → logs rs !! j = Some v → v = agreed j;
  v_live i s : live c !! i = Some s →
    rf_ok i s ∧ ∃ rs, 0 ≤ i ∧ srvs (tst c) !! Z.to_nat i = Some rs ∧
      ∀ j, 1 ≤ j ≤ lastApplied s → logs rs !! j = Some (agreed j);
  v_snaps : Forall snap_ok (snaps c)
}.

(** Server [i] changes, and the tester's view of it. *)
Lemma inv_update i s rs rs' n sn c :
  inv c → 0 ≤ i → srvs (tst c) !! Z.to_nat i = Some rs → rf_ok i s → applyErr rs' = None →
  (∀ j v, logs rs' !! j = Some v → v = agreed j) →
  (∀ j, 1 ≤ j ≤ lastApplied s → logs rs' !! j = Some (agreed j)) → Forall snap_ok sn →
  inv (MkCluster (MkTest (<[Z.to_nat i := rs']> (srvs (tst c))) n) (<[i := s]> (live c)) (snaps c ++ sn)).
Proof.
  intros [V1 V2 V3 V4] Hi Hrs Hs He Hl Ha Hsn. pose proof (lookup_lt_Some _ _ _ Hrs) as Hlt.
  constructor; simpl.
  - by apply no_err_insert.
  - intros x j v [k Hk]%list_elem_of_lookup.
    apply list_lookup_insert_Some in Hk as [(_ & <- & _)|[_ Hk]]; [by apply Hl|].
    apply V2. by eapply list_elem_of_lookup_2.
  - intros k s'. rewrite lookup_insert_Some. intros [[<- <-]|[Hne Hk]].
    + split; [done|]. exists rs'. by rewrite list_lookup_insert_eq.
    + destruct (V3 k s' Hk) as (Hok & x & Hk0 & Hx & Hj). split; [done|]. exists x.
      rewrite list_lookup_insert_ne by lia. done.
  - by apply list.Forall_app.
Qed.

Lemma log_of_prefix k j : 0 ≤ k →
  log_of (prefix k) !! j = if decide (0 ≤ j ≤ k) then Some (agreed j) else None.
Proof.
  intros Hk. rewrite log_of_lookup. unfold prefix. rewrite list_lookup_fmap. repeat case_decide; try lia; try done.
  - rewrite lookup_seq_lt by lia. simpl. by rewrite Z2Nat.id by lia.
  - by rewrite lookup_seq_ge by lia.
Qed.

(** A server that has just ingested a snapshot. *)
Lemma ingest_ok i s k b announced :
  snap_ok (k, b) → announced = k ∨ announced = -1 → me s = i →
  ingestSnap (Some b) announced s = (None, MkRf i k (log_of (prefix k))) ∧ rf_ok i (MkRf i k (log_of (prefix k))).
Proof.
  intros [Hk Henc] Ha <-. simpl in Hk, Henc. unfold ingestSnap. rewrite (Wire.decode_encode _ _ Henc).
  rewrite decide_False by naive_solver. split; [done|]. split; [done|]. split; [done|]. simpl. split.
  - intros j Hj. rewrite log_of_prefix by done. by rewrite decide_True by lia.
  - intros j v. rewrite log_of_prefix by done. case_decide; [|done]. by intros [= <-].
Qed.

Lemma ingest_inv i k b s rs c :
  inv c → 0 ≤ i → srvs (tst c) !! Z.to_nat i = Some rs → snap_ok (k, b) →
  s = MkRf i k (log_of (prefix k)) → rf_ok i s →
  ∃ ts, IngestLog i (rlog s) (tst c) = Ret ts ∧ inv (MkCluster ts (<[i := s]> (live c)) (snaps c)).
Proof.
  intros Hinv Hi Hrs [Hk _] -> Hok. simpl in Hk. unfold IngestLog, slice_get. rewrite decide_True by done.
  rewrite Hrs. cbn [rbind]. eexists. split; [done|].
  rewrite <-(app_nil_r (snaps c)). eapply inv_update; try done; simpl.
  - by apply (v_err _ Hinv), list_elem_of_lookup_2 with (Z.to_nat i).
  - intros j v. rewrite log_of_prefix by done. case_decide; [|done]. by intros [= <-].
  - intros j Hj. rewrite log_of_prefix by done. by rewrite decide_True by lia.
Qed.

(** gob can encode what the servers snapshot. *)
Context (encodable : ∀ k, 0 ≤ k → is_Some (Wire.encode (k, prefix k))).

Lemma make_snapshot_ok i s k : rf_ok i s → lastApplied s = k → snap_ok (k, make_snapshot s k).
Proof.
  intros (_ & Hk & Hall & Hin) <-. split; [done|]. simpl. unfold make_snapshot.
  replace ((λ j, mget None (rlog s) (Z.of_nat j)) <$> seq 0 (Z.to_nat (lastApplied s + 1))) with (prefix (lastApplied s)).
  - by destruct (encodable (lastApplied s) Hk) as [b ->].
  - apply list_fmap_ext. intros k j [-> Hj]%lookup_seq. simpl. unfold mget.
    destruct (decide (k = 0%nat)) as [->|Hne]; [|by rewrite Hall by lia].
    destruct (rlog s !! Z.of_nat 0) as [v|] eqn:Hv; [|done]. by destruct (Hin _ _ Hv) as [-> _].
Qed.

(** The next command is checked and recorded. *)
Lemma CheckLogs_ok i rs j c :
  inv c → 0 ≤ i → srvs (tst c) !! Z.to_nat i = Some rs → (1 < j → is_Some (logs rs !! (j - 1))) →
  ∃ prevok n, CheckLogs i (command j) (tst c) = Ret (None, prevok,
    MkTest (<[Z.to_nat i := MkRS None (<[j := agreed j]> (logs rs))]> (srvs (tst c))) n) ∧
    (1 < j → prevok = true).
Proof.
  intros Hinv Hi Hrs Hprev. unfold CheckLogs, slice_get. rewrite decide_True, Hrs by done. cbn [rbind].
  rewrite (v_err _ Hinv rs) by (by eapply list_elem_of_lookup_2).
  replace (compare_logs i 0 (command j) (srvs (tst c)) None) with (@None (apperr C)).
  - eexists _, _. split; [done|]. intros Hj. by apply bool_decide_eq_true_2, Hprev.
  - symmetry. apply compare_logs_None. split; [done|]. intros x old Hx Ho. by apply (v_logs _ Hinv x).
Qed.

Lemma apply_command i s c :
  inv c → live c !! i = Some s →
  ∃ c', apply i (command (lastApplied s + 1)) c = Ret c' ∧ inv c'.
Proof.
  intros Hinv Hs. destruct (v_live _ Hinv i s Hs) as (Hok & rs & Hi & Hrs & Hlog).
  pose proof Hok as (Hme & Hk & Hall & Hin). set (j := lastApplied s + 1).
  unfold apply. rewrite Hs. unfold applierSnap_one. cbn [SnapshotValid CommandValid CommandIndex Command command].
  rewrite decide_False by (intros Hx; by apply Hx). rewrite Hme.
  destruct (CheckLogs_ok i rs j c) as (prevok & n & -> & Hp); [done..| |].
  { intros Hj. rewrite Hlog by lia. by eexists. }
  cbn [rbind]. replace (_ && _ && negb prevok) with false.
  2:{ destruct (decide (1 < j)) as [Hj|Hj]; [rewrite Hp by done; by rewrite !andb_false_r|].
      rewrite (bool_decide_eq_false_2 (j > 1)) by lia. by rewrite andb_false_r. }
  cbn [rbind]. eexists. split; [done|].
  assert (rf_ok i (MkRf i j (<[j := agreed j]> (rlog s)))) as Hok'.
  { split; [done|]. simpl. split; [lia|]. split.
    - intros x Hx. destruct (decide (x = j)) as [->|]; [apply lookup_insert_eq|].
      rewrite lookup_insert_ne by done. apply Hall. lia.
    - intros x v. rewrite lookup_insert_Some. intros [[<- <-]|[? Hv]]; [split; [done|lia]|].
      destruct (Hin x v Hv). split; [done|lia]. }
  eapply inv_update; try done; simpl.
  - intros x v. rewrite lookup_insert_Some. intros [[<- <-]|[? Hv]]; [done|].
    eapply (v_logs _ Hinv); [|done]. by eapply list_elem_of_lookup_2.
  - intros x Hx. destruct (decide (x = j)) as [->|]; [apply lookup_insert_eq|].
    rewrite lookup_insert_ne by done. apply Hlog. lia.
  - case_decide; [|by constructor]. apply list.Forall_singleton. by eapply make_snapshot_ok.
Qed.

Lemma apply_install i s k b c :
  inv c → live c !! i = Some s → snap_ok (k, b) → ∃ c', apply i (install k b) c = Ret c' ∧ inv c'.
Proof.
  intros Hinv Hs Hsn. destruct (v_live _ Hinv i s Hs) as ((Hme & _) & rs & Hi & Hrs & _).
  unfold apply. rewrite Hs. unfold applierSnap_one. cbn [SnapshotValid Snapshot SnapshotIndex install].
  destruct (ingest_ok i s k b k Hsn) as [-> Hok]; [by left|done|]. rewrite Hme. cbn [rlog].
  destruct (ingest_inv i k b _ rs c Hinv Hi Hrs Hsn eq_refl Hok) as (ts & Heq & Hinv').
  cbn [rlog] in Heq. rewrite Heq. cbn [rbind]. eexists. split; [done|]. simpl. by rewrite app_nil_r.
Qed.

Lemma restart_ok i sn c :
  inv c → 0 ≤ i < Z.of_nat (length (srvs (tst c))) → sn = [] ∨ (∃ k, snap_ok (k, sn)) →
  ∃ ts s, newRfsrv i sn true (tst c) = Ret (ts, Ret s) ∧ inv (MkCluster ts (<[i := s]> (live c)) (snaps c)).
Proof.
  intros Hinv Hi Hsn. destruct (lookup_lt_is_Some_2 (srvs (tst c)) (Z.to_nat i)) as [rs Hrs]; [lia|].
  unfold newRfsrv. cbn [andb]. case_bool_decide as Hlen.
  - destruct Hsn as [->|[k Hsn]]; [simpl in Hlen; lia|].
    destruct (ingest_ok i (MkRf i 0 ∅) k sn (-1) Hsn) as [-> Hok]; [by right|done|]. cbn [me rlog].
    destruct (ingest_inv i k sn _ rs c Hinv (proj1 Hi) Hrs Hsn eq_refl Hok) as (ts & Heq & Hinv').
    cbn [rlog] in Heq. rewrite Heq. cbn [rbind]. eauto.
  - eexists _, _. split; [done|]. rewrite <-(app_nil_r (snaps c)).
    destruct (tst c) as [l n] eqn:Ht. cbn [srvs] in Hrs.
    rewrite <-(list_insert_id l (Z.to_nat i) rs Hrs) at 1.
    replace l with (srvs (tst c)) by by rewrite Ht.
    eapply inv_update; rewrite ?Ht; try done; simpl; try lia.
    + split; [done|]. simpl. split; [lia|]. split; [lia|done].
    + apply (v_err _ Hinv). rewrite Ht. by eapply list_elem_of_lookup_2.
    + intros j v. apply (v_logs _ Hinv). rewrite Ht. by eapply list_elem_of_lookup_2.
Qed.

Lemma event_inv c e : inv c → ∃ c', run_event c e = Ret c' ∧ inv c'.
Proof.
  intros Hinv. destruct e as [i|i k|i|i k]; simpl.
  - destruct (live c !! i) as [s|] eqn:Hs; [by apply apply_command|by exists c].
  - destruct (snaps c !! k) as [[index b]|] eqn:Hk; [|by exists c].
    destruct (live c !! i) as [s|] eqn:Hs; [|unfold apply; rewrite Hs; by exists c].
    apply (apply_install i s); [done..|]. by apply (list.Forall_lookup_1 _ _ _ _ (v_snaps _ Hinv) Hk).
  - eexists. split; [done|]. destruct Hinv as [V1 V2 V3 V4]. constructor; simpl; try done.
    intros j s. rewrite lookup_delete_Some. intros [_ ?]. by apply V3.
  - case_decide as Hd; [|by exists c]. destruct Hd as [Hi Hn].
    destruct (restart_ok i (match k with Some k => from_option snd [] (snaps c !! k) | None => [] end) c)
      as (ts & s & -> & Hinv'); [done..| |].
    + destruct k as [k|]; [|by left]. destruct (snaps c !! k) as [[index b]|] eqn:Hk; [|by left].
      right. exists index. by apply (list.Forall_lookup_1 _ _ _ _ (v_snaps _ Hinv) Hk).
    + cbn [rbind]. eauto.
Qed.

Lemma run_inv n es : ∃ c, run n es = Ret c ∧ inv c.
Proof.
  unfold run. assert (inv (start n)) as Hinv.
  { constructor; simpl; try done.
    - by intros rs [-> _]%elem_of_replicate.
    - by intros rs j v [-> _]%elem_of_replicate. }
  revert Hinv. generalize (start n). induction es as [|e es IH]; intros c Hinv; [by exists c|].
  cbn [res_fold]. destruct (event_inv c e Hinv) as (c' & -> & Hinv'). cbn [rbind]. by apply IH.
Qed.
End restart.
End RaftRestart.

Import RaftRestart.

(** C39. With snapshots, crashes and restarts the tester raises no false alarm.  Let the
    servers of a cluster apply the commands of one agreed log in order, install
    snapshots that any of them made, die, and start again with a snapshot that was
    made or with none, in any order.  Then every step returns (newRfsrv can decode the
    snapshot it finds), no apply error is reported, a server that is running has in its
    own log, and the tester has in its copy, the agreed commands up to the last one it
    applied, and nCommitted never fails: at every index it finds the agreed command. *)
Theorem restarts_accepted {C} `{EqDecision C} `{Wire.CodecLaws (Z * list (option C))} (L : Z → option C) n es :
  (∀ k, 0 ≤ k → is_Some (Wire.encode (k, prefix L k))) →
  ∃ c, run L n es = Ret c ∧ no_err (tst c) ∧
    (∀ i s, live c !! i = Some s → ∃ rs, srvs (tst c) !! Z.to_nat i = Some rs ∧
      ∀ j, 1 ≤ j ≤ lastApplied s → rlog s !! j = Some (L j) ∧ logs rs !! j = Some (L j)) ∧
    (∀ index, 1 ≤ index → ∃ count cmd, nCommitted index (tst c) = Ret (count, cmd) ∧
      (0 < count → cmd = L index)).
Proof.
  intros Henc. destruct (run_inv L Henc n es) as (c & Hrun & Hinv). exists c. split; [done|].
  assert (∀ j, 1 ≤ j → agreed L j = L j) as HL by (intros j Hj; unfold agreed; rewrite decide_False by lia; done).
  split_and!; [apply (v_err _ _ Hinv)| |].
  - intros i s Hs. destruct (v_live _ _ Hinv i s Hs) as ((_ & _ & Hall & _) & rs & _ & Hrs & Hlog).
    exists rs. split; [done|]. intros j Hj. rewrite <-HL by lia. auto.
  - intros index Hidx. destruct (nCommitted_counts index (tst c)) as [[_ Hret] Hn].
    destruct Hret as [[count cmd] Hc].
    { split; [apply (v_err _ _ Hinv)|]. intros x y v w Hx Hy Hv Hw.
      by rewrite (v_logs _ _ Hinv x index v Hx Hv), (v_logs _ _ Hinv y index w Hy Hw). }
    exists count, cmd. split; [done|]. intros Hpos. destruct (Hn count cmd Hc) as [-> Hall].
    destruct (committed_on_pos index (srvs (tst c)) Hpos) as (rs & v & Hrs & Hv).
    rewrite <-(Hall rs v Hrs Hv), <-HL by done. by apply (v_logs _ _ Hinv rs).
Qed.

(** *** A witness: server 0 applies nine commands and makes a snapshot, and server 1
    starts again with it *)

Fixpoint pos_bytes (p : positive) : bytes :=
  match p with
  | xH => []
  | xO p => "000"%byte :: pos_bytes p
  | xI p => "001"%byte :: pos_bytes p
  end.
Fixpoint of_bytes (b : bytes) : positive :=
  match b with
  | [] => xH
  | x :: b => if decide (x = "000"%byte) then xO (of_bytes b) else xI (of_bytes b)
  end.
Lemma of_bytes_pos p : of_bytes (pos_bytes p) = p.
Proof. induction p; simpl; congruence. Qed.
#[local] Instance pos_codec : Wire.Codec (Z * list (option nat)) := {|
  Wire.encode x := Some (pos_bytes (encode x)); Wire.decode b := decode (of_bytes b) |}.
#[local] Instance pos_codec_laws : Wire.CodecLaws (Z * list (option nat)).
Proof. intros x b [= <-]. simpl. by rewrite of_bytes_pos, decode_encode. Qed.

Definition sevens (j : Z) : option nat := Some 7%nat.
Definition nine_commands : list event :=
  [ERestart 0 None; ERestart 1 None; EApply 1] ++ replicate 9 (EApply 0) ++ [EKill 1; ERestart 1 (Some 0%nat)].

Lemma restarts_accepted_witness :
  ∃ c s rs, run sevens 2 nine_commands = Ret c ∧ live c !! 1 = Some s ∧ lastApplied s = 9 ∧
    srvs (tst c) !! 1%nat = Some rs ∧ logs rs !! 9 = Some (Some 7%nat).
Proof.
  destruct (restarts_accepted sevens 2 nine_commands) as (c & Hrun & _ & Hlive & _).
  - intros k _. by eexists.
  - assert (∃ s, live c !! 1 = Some s ∧ lastApplied s = 9) as (s & Hs & H9).
    { assert ((λ c, lastApplied <$> live c !! 1) <$> (match run sevens 2 nine_commands with Ret c => Some c | _ => None end)
        = Some (Some 9)) as Hv by (vm_compute; reflexivity).
      rewrite Hrun in Hv. simpl in Hv. injection Hv as Hv.
      destruct (live c !! 1) as [s|]; [|discriminate]. injection Hv as Hv. exists s. split; [reflexivity|exact Hv]. }
    destruct (Hlive 1 s Hs) as (rs & Hrs & Hj). exists c, s, rs. split_and!; try assumption.
    apply (Hj 9). rewrite H9. lia.
Defined.
