(* ===== verification/Annotation.v ===== *)
(** * The annotations of a test run (tester1/annotation.go)

    The tester records what it does to the servers as annotations of the
    porcupine visualisation: points, intervals, and continuous annotations, one
    per tag, that last until the next one of the tag.  The track [TAG_PARTITION]
    shows the faults in force: which servers are disconnected or crashed.

    The two globals [annotation] and [finfo] are the fields of [vis]; every
    function that calls [timestamp] takes the time it reads.  The mutexes make
    each operation one step. *)

From S2P Require Import Prelude.
From stdpp Require Import pretty.
Local Open Scope Z_scope.

Module Annotation.

(** porcupine.Annotation, the fields this package sets. *)
Record PAnn := MkAnn {
  Tag : string; Start : Z; End_ : Z; Description : string; Details : string; Color : string
}.
Global Instance PAnn_eq_dec : EqDecision PAnn.
Proof. solve_decision. Defined.

Record Continuous := MkCont { start : Z; desp : string; details : string; bgcolor : string }.
(** The zero value, which a map lookup gives for an absent key. *)
Definition zero_cont : Continuous := MkCont 0 "" "" "".

Record Annotation := MkAnnotation {
  annotations : list PAnn; continuous : gmap string Continuous; finalized : bool
}.

Record CheckerBegin := MkCk { ts : Z; ck_details : string }.

Record FrameworkInfo := MkInfo {
  nservers : Z; connected : list bool; crashed : list bool; ckbegin : CheckerBegin
}.

(** The globals; [finfo] is nil before the first AnnotateTest. *)
Record vis := MkVis { an : Annotation; finfo : option FrameworkInfo }.

Definition COLOR_INFO : string := "#FAFAFA".
Definition COLOR_NEUTRAL : string := "#FFECB3".
Definition COLOR_SUCCESS : string := "#C8E6C9".
Definition COLOR_FAILURE : string := "#FFCDD2".
Definition COLOR_FAULT : string := "#B3E5FC".
Definition COLOR_USER : string := "#FFF176".
Definition TAG_CHECKER : string := "$ Checker".
Definition TAG_PARTITION : string := "$ Failure".
Definition TAG_INFO : string := "$ Test Info".

Definition mkAnnotation : Annotation := MkAnnotation [] ∅ false.

Definition mkFrameworkInfo (n : Z) : res FrameworkInfo :=
  if decide (0 ≤ n) then
    Ret (MkInfo n (replicate (Z.to_nat n) true) (replicate (Z.to_nat n) false) (MkCk 0 ""))
  else Stop Panic.

(** ** The Annotation object *)

Definition add (a : PAnn) (x : Annotation) : Annotation :=
  MkAnnotation (annotations x ++ [a]) (continuous x) (finalized x).
Definition set_continuous (m : gmap string Continuous) (x : Annotation) : Annotation :=
  MkAnnotation (annotations x) m (finalized x).

(** A continuous annotation, concretised at [t]. *)
Definition concrete (tag : string) (c : Continuous) (t : Z) : PAnn :=
  MkAnn tag (start c) t (desp c) (details c) (bgcolor c).

Definition clear (x : Annotation) : Annotation := MkAnnotation [] ∅ false.

Definition annotatePointColor (t : Z) (tag dsp det col : string) (x : Annotation) : Annotation :=
  add (MkAnn tag t 0 dsp det col) x.

Definition annotateIntervalColor (t : Z) (tag : string) (st : Z) (dsp det col : string)
    (x : Annotation) : Annotation :=
  add (MkAnn tag st t dsp det col) x.

Definition annotateContinuousColor (t : Z) (tag dsp det col : string) (x : Annotation) : Annotation :=
  let c' := MkCont t dsp det col in
  match continuous x !! tag with
  | None => set_continuous (<[tag := c']> (continuous x)) x
  | Some c => set_continuous (<[tag := c']> (continuous x)) (add (concrete tag c t) x)
  end.

(** The code has no return in the branch for an absent tag: it goes on with
    the zero value. *)
Definition annotateContinuousEnd (t : Z) (tag : string) (x : Annotation) : Annotation :=
  let c := mget zero_cont (continuous x) tag in
  set_continuous (delete tag (continuous x)) (add (concrete tag c t) x).

(** [order] is the order in which the range over an.continuous runs. *)
Definition finalize (t : Z) (order : list string) (x : Annotation) : list PAnn * Annotation :=
  (annotations x ++ ((λ tag, concrete tag (mget zero_cont (continuous x) tag) t) <$> order),
   MkAnnotation (annotations x) (continuous x) true).

Definition info_end (t : Z) (end_ : string) : PAnn := MkAnn TAG_INFO t 0 end_ end_ COLOR_INFO.

(** [visEnable] is the environment variable VIS_ENABLE and [opened] whether the
    file of the visualisation could be opened; the second component of the result
    is the list that is written to it. *)
Definition cleanup (visEnable : string) (opened : bool) (failed : bool) (end_ : string)
    (t t' : Z) (order : list string) (x : Annotation) : Annotation * option (list PAnn) :=
  if bool_decide (visEnable = "never") || (negb failed && negb (bool_decide (visEnable = "always")))
     || finalized x
  then (clear x, None)
  else
    let '(l, x) := finalize t order x in
    match l with
    | [] => (x, None)
    | _ => (x, if opened then Some (l ++ [info_end t' end_]) else None)
    end.

(** The goroutine of captureSignal on an interrupt: what is written, and the exit status. *)
Definition captureSignal (visEnable : string) (opened : bool) (t t' : Z) (order : list string) (x : Annotation) :
    option (list PAnn) * Z :=
  let (_, out) := cleanup visEnable opened true "interrupted" t t' order x in (out, 1).

(** ** The public functions *)

Definition on_an (f : Annotation → Annotation) (v : vis) : vis := MkVis (f (an v)) (finfo v).

Definition FinalizeAnnotations (end_ : string) (t t' : Z) (order : list string) (v : vis) :
    list PAnn * vis :=
  let '(l, x) := finalize t order (an v) in
  (l ++ [info_end t' end_], MkVis x (finfo v)).

Definition AnnotatePointColor t tag dsp det col : vis → vis :=
  on_an (annotatePointColor t tag dsp det col).
Definition AnnotateIntervalColor t tag st dsp det col : vis → vis :=
  on_an (annotateIntervalColor t tag st dsp det col).
Definition AnnotateContinuousColor t tag dsp det col : vis → vis :=
  on_an (annotateContinuousColor t tag dsp det col).
Definition AnnotateContinuousEnd t tag : vis → vis := on_an (annotateContinuousEnd t tag).

Definition AnnotatePoint t tag dsp det : vis → vis := AnnotatePointColor t tag dsp det COLOR_USER.
Definition AnnotateInterval t tag st dsp det : vis → vis :=
  AnnotateIntervalColor t tag st dsp det COLOR_USER.
Definition AnnotateContinuous t tag dsp det : vis → vis :=
  AnnotateContinuousColor t tag dsp det COLOR_USER.
Definition AnnotateInfo t dsp det : vis → vis := AnnotatePointColor t TAG_INFO dsp det COLOR_INFO.
Definition AnnotateInfoInterval t st dsp det : vis → vis :=
  AnnotateIntervalColor t TAG_INFO st dsp det COLOR_INFO.

Definition AnnotateTest (t : Z) (dsp : string) (n : Z) (v : vis) : res vis :=
  let det := dsp +:+ " (" +:+ pretty n +:+ " servers)" in
  let* fi := mkFrameworkInfo n in
  Ret (AnnotateInfo t det det (MkVis (clear (an v)) (Some fi))).

(** Every use of finfo dereferences it. *)
Definition with_finfo {A} (v : vis) (k : FrameworkInfo → res A) : res A :=
  match finfo v with Some fi => k fi | None => Stop Panic end.

Definition set_connected (l : list bool) (fi : FrameworkInfo) : FrameworkInfo :=
  MkInfo (nservers fi) l (crashed fi) (ckbegin fi).
Definition set_crashed (l : list bool) (fi : FrameworkInfo) : FrameworkInfo :=
  MkInfo (nservers fi) (connected fi) l (ckbegin fi).

Definition AnnotateCheckerBegin (t : Z) (det : string) (v : vis) : res vis :=
  with_finfo v (λ fi,
    Ret (MkVis (an v) (Some (MkInfo (nservers fi) (connected fi) (crashed fi) (MkCk t det))))).

(** [ckbegin.ts = 0] at the end assigns to the local copy: finfo keeps its value. *)
Definition AnnotateCheckerEnd (t : Z) (dsp det col : string) (v : vis) : res vis :=
  with_finfo v (λ fi,
    let ck := ckbegin fi in
    if bool_decide (ts ck = 0) then Ret (AnnotatePointColor t TAG_CHECKER dsp det col v)
    else Ret (AnnotateIntervalColor t TAG_CHECKER (ts ck) dsp (ck_details ck +:+ ": " +:+ det) col v)).
Definition AnnotateCheckerSuccess t dsp det := AnnotateCheckerEnd t dsp det COLOR_SUCCESS.
Definition AnnotateCheckerFailure t dsp det := AnnotateCheckerEnd t dsp det COLOR_FAILURE.
Definition AnnotateCheckerNeutral t dsp det := AnnotateCheckerEnd t dsp det COLOR_NEUTRAL.

Definition SetAnnotationFinalized (v : vis) : vis :=
  on_an (λ x, MkAnnotation (annotations x) (continuous x) true) v.
Definition GetAnnotationFinalized (v : vis) : bool := finalized (an v).

Definition AnnotateCheckerFailureBeforeExit (t : Z) (dsp det : string) (visEnable : string)
    (opened : bool) (t1 t2 : Z) (order : list string) (v : vis) : res (vis * option (list PAnn)) :=
  let* v := AnnotateCheckerFailure t dsp det v in
  let '(x, out) := cleanup visEnable opened true "test failed" t1 t2 order (an v) in
  Ret (MkVis x (finfo v), out).

(** ** Faults *)

(** [fmt.Sprintf("%v", l)] of a slice of integers. *)
Fixpoint sep_ints (l : list Z) : string :=
  match l with
  | [] => ""
  | [i] => pretty i
  | i :: l => pretty i +:+ " " +:+ sep_ints l
  end.
Definition show_ints (l : list Z) : string := "[" +:+ sep_ints l +:+ "]".

(** The loop over finfo.connected: connected servers, crashed ones, and the
    text of the servers that are alone in their partition. *)
Fixpoint fault_scan (id : Z) (conns : list bool) (fi : FrameworkInfo)
    (conn crashes : list Z) (text : string) : res (list Z * list Z * string) :=
  match conns with
  | [] => Ret (conn, crashes, text)
  | c :: conns =>
      let* cr := slice_get (crashed fi) id in
      if cr then fault_scan (id + 1) conns fi conn (crashes ++ [id]) text
      else if c then fault_scan (id + 1) conns fi (conn ++ [id]) crashes text
      else fault_scan (id + 1) conns fi conn crashes (text +:+ ("[" +:+ pretty id +:+ "] "))
  end.

Definition fault_text (fi : FrameworkInfo) : res string :=
  let* '(conn, crashes, text) := fault_scan 0 (connected fi) fi [] [] "partition = " in
  let text := if bool_decide (conn = []) then text else text +:+ show_ints conn in
  Ret (if bool_decide (crashes = []) then text else text +:+ " / crash = " +:+ show_ints crashes).

(** No partitions and no crashes. *)
Definition no_fault (fi : FrameworkInfo) : bool :=
  bool_decide (replicate (Z.to_nat (nservers fi)) true = connected fi)
  && bool_decide (replicate (Z.to_nat (nservers fi)) false = crashed fi).

Definition annotateFault (t : Z) (fi : FrameworkInfo) (v : vis) : res vis :=
  let v := MkVis (an v) (Some fi) in
  if no_fault fi then Ret (AnnotateContinuousEnd t TAG_PARTITION v)
  else
    let* text := fault_text fi in
    Ret (AnnotateContinuousColor t TAG_PARTITION text text COLOR_FAULT v).

(** [copy(dst, src)]. *)
Definition go_copy {A} (dst src : list A) : list A :=
  take (length dst) src ++ drop (length src) dst.

Definition AnnotateConnection (t : Z) (connection : list bool) (v : vis) : res vis :=
  with_finfo v (λ fi,
    if bool_decide (connected fi = connection) then Ret v
    else annotateFault t (set_connected (go_copy (connected fi) connection) fi) v).

Definition AnnotateTwoPartitions (t : Z) (p1 p2 : list Z) (v : vis) : vis :=
  let text := "partition = " +:+ show_ints p1 +:+ " " +:+ show_ints p2 in
  AnnotateContinuousColor t TAG_PARTITION text text COLOR_FAULT v.

Definition AnnotateClearFailure (t : Z) (v : vis) : res vis :=
  with_finfo v (λ fi,
    Ret (AnnotateContinuousEnd t TAG_PARTITION
      (MkVis (an v) (Some (MkInfo (nservers fi) (replicate (length (connected fi)) true)
         (replicate (length (crashed fi)) false) (ckbegin fi)))))).

(** The loop of AnnotateShutdown ([b] is true) and AnnotateRestart ([b] is false). *)
Definition mark_one (b : bool) (s : bool * list bool) (id : Z) : res (bool * list bool) :=
  let '(changed, cr) := s in
  let* c := slice_get cr id in
  let* cr' := slice_set cr id b in
  Ret (changed || negb (Bool.eqb c b), cr').
Definition mark_all (b : bool) (servers : list Z) (fi : FrameworkInfo) : res (bool * list bool) :=
  res_fold (mark_one b) (false, crashed fi) servers.

Definition mark (b : bool) (t : Z) (servers : list Z) (v : vis) : res vis :=
  with_finfo v (λ fi,
    let* '(changed, cr) := mark_all b servers fi in
    let fi := set_crashed cr fi in
    if changed then annotateFault t fi v else Ret (MkVis (an v) (Some fi))).

Definition AnnotateShutdown (t : Z) (servers : list Z) : vis → res vis := mark true t servers.
Definition AnnotateRestart (t : Z) (servers : list Z) : vis → res vis := mark false t servers.

Definition all_servers (fi : FrameworkInfo) : list Z := Z.of_nat <$> seq 0 (Z.to_nat (nservers fi)).
Definition AnnotateShutdownAll (t : Z) (v : vis) : res vis :=
  with_finfo v (λ fi, AnnotateShutdown t (all_servers fi) v).
Definition AnnotateRestartAll (t : Z) (v : vis) : res vis :=
  with_finfo v (λ fi, AnnotateRestart t (all_servers fi) v).

End Annotation.
