(* ===== verification/AnnotationSpec.v ===== *)
(** * The fault track of a visualisation shows the faults in force

    A run of the tester's annotation calls, each at the time it reads, against
    the track [TAG_PARTITION] of the annotations that finalize returns.  Which servers
    are cut off or crashed, and what is to be shown of it, is said here apart from the
    code: [faults] is the history of the calls, [to_show] the text for it. *)

From stdpp Require Import pretty.
From S2P Require Import Prelude Annotation.
Import Annotation.
Local Open Scope Z_scope.

(** The calls of a test, the framework's and the user's. *)
Inductive op :=
| OConnection (connection : list bool)
| OShutdown (servers : list Z)
| OShutdownAll
| ORestart (servers : list Z)
| ORestartAll
| OClearFailure
| OPoint (tag dsp det col : string)
| OInterval (tag : string) (st : Z) (dsp det col : string)
| OContinuous (tag dsp det col : string)
| OContinuousEnd (tag : string)
| OCheckerBegin (det : string)
| OCheckerEnd (dsp det col : string).

Definition do_op (t : Z) (o : op) (v : vis) : res vis :=
  match o with
  | OConnection c => AnnotateConnection t c v
  | OShutdown l => AnnotateShutdown t l v
  | OShutdownAll => AnnotateShutdownAll t v
  | ORestart l => AnnotateRestart t l v
  | ORestartAll => AnnotateRestartAll t v
  | OClearFailure => AnnotateClearFailure t v
  | OPoint tag dsp det col => Ret (AnnotatePointColor t tag dsp det col v)
  | OInterval tag st dsp det col => Ret (AnnotateIntervalColor t tag st dsp det col v)
  | OContinuous tag dsp det col => Ret (AnnotateContinuousColor t tag dsp det col v)
  | OContinuousEnd tag => Ret (AnnotateContinuousEnd t tag v)
  | OCheckerBegin det => AnnotateCheckerBegin t det v
  | OCheckerEnd dsp det col => AnnotateCheckerEnd t dsp det col v
  end.

(** The call writes to the fault track only through the fault functions. *)
Definition off_track (o : op) : Prop :=
  match o with
  | OPoint tag _ _ _ | OInterval tag _ _ _ _ | OContinuous tag _ _ _ | OContinuousEnd tag =>
      tag ≠ TAG_PARTITION
  | _ => True
  end.
Global Instance off_track_dec o : Decision (off_track o).
Proof. destruct o; apply _. Defined.

Definition run (v : vis) (tos : list (Z * op)) : res vis :=
  res_fold (λ v x, do_op x.1 x.2 v) v tos.

(** What the fault track has to say of a status of the servers. *)
Definition fault_shown (fi : FrameworkInfo) : list string :=
  if no_fault fi then []
  else match fault_text fi with Ret s => [s] | Stop _ => [] end.

(** What the annotations [l] show on the fault track at time [t]. *)
Definition on_track (t : Z) (a : PAnn) : Prop :=
  Tag a = TAG_PARTITION ∧ Start a ≤ t < End_ a ∧ Description a ≠ "".
Definition shown (l : list PAnn) (t : Z) : list string := Description <$> filter (on_track t) l.

(** The same with the continuous annotation that has not ended yet. *)
Definition ongoing (v : vis) : option Continuous := continuous (an v) !! TAG_PARTITION.
Definition track (v : vis) (t : Z) : list string :=
  shown (annotations (an v)) t
  ++ match ongoing v with Some c => if decide (start c ≤ t) then [desp c] else [] | None => [] end.

Definition info_wf (fi : FrameworkInfo) : Prop :=
  length (connected fi) = Z.to_nat (nservers fi) ∧ length (crashed fi) = Z.to_nat (nservers fi).

Record inv (now : Z) (v : vis) (fi : FrameworkInfo) : Prop := {
  i_finfo : finfo v = Some fi;
  i_wf : info_wf fi;
  i_status : option_list (desp <$> ongoing v) = fault_shown fi;
  i_cont c : ongoing v = Some c → start c ≤ now ∧ desp c ≠ "";
  i_ended a : a ∈ annotations (an v) → Tag a = TAG_PARTITION → Description a ≠ "" → End_ a ≤ now
}.

(** What a call does to the track: nothing before its time, the status after. *)
Definition advances (t : Z) (v v' : vis) (fi' : FrameworkInfo) : Prop :=
  inv t v' fi' ∧ ∀ u, u < t → track v' u = track v u.

(** ** Single annotations *)

Lemma shown_app l l' t : shown (l ++ l') t = shown l t ++ shown l' t.
Proof. unfold shown. by rewrite list.filter_app, fmap_app. Qed.

Lemma shown_off a t : ¬ on_track t a → shown [a] t = [].
Proof. intros ?. unfold shown. by rewrite filter_cons_False. Qed.

Lemma shown_on a t : on_track t a → shown [a] t = [Description a].
Proof. intros ?. unfold shown. by rewrite filter_cons_True. Qed.

Lemma shown_ended now v fi u : inv now v fi → now ≤ u → shown (annotations (an v)) u = [].
Proof.
  intros HI Hu. unfold shown. rewrite filter_none; [done|].
  intros a Ha (Htag & Ht & Hd). pose proof (i_ended _ _ _ HI a Ha Htag Hd). lia.
Qed.

(** From its last call on, the track shows the status. *)
Lemma track_now now v fi u : inv now v fi → now ≤ u → track v u = fault_shown fi.
Proof.
  intros HI Hu. unfold track. rewrite (shown_ended now v fi) by done.
  rewrite <-(i_status _ _ _ HI). pose proof (i_cont _ _ _ HI) as Hc.
  destruct (ongoing v) as [c|]; [|done]. destruct (Hc c eq_refl).
  simpl. by rewrite decide_True by lia.
Qed.

Lemma inv_mono now now' v fi : inv now v fi → now ≤ now' → inv now' v fi.
Proof.
  intros [? ? ? Hc He] ?. constructor; [done..| |].
  - intros c ?. destruct (Hc c); [done|]. split; [lia|done].
  - intros a ???. pose proof (He a). naive_solver lia.
Qed.

(** ** The calls that leave the fault track alone *)

Lemma advances_add now t v fi fi' a v' :
  inv now v fi → now ≤ t → Tag a ≠ TAG_PARTITION →
  annotations (an v') = annotations (an v) ++ [a] → ongoing v' = ongoing v →
  finfo v' = Some fi' → info_wf fi' → fault_shown fi' = fault_shown fi →
  advances t v v' fi'.
Proof.
  intros HI Ht Ha Hann Hon Hfi Hwf Hsh. apply (inv_mono now t) in HI as [? ? ? Hc He]; [|done].
  split.
  - constructor; rewrite ?Hon, ?Hann, ?Hsh; try done.
    intros b [Hb| ->%list_elem_of_singleton]%elem_of_app; [by apply He|done].
  - intros u Hu. unfold track. rewrite Hon, Hann, shown_app, (shown_off a), app_nil_r; [done|].
    by intros [? _].
Qed.

Lemma advances_same now t v fi fi' v' :
  inv now v fi → now ≤ t →
  annotations (an v') = annotations (an v) → ongoing v' = ongoing v →
  finfo v' = Some fi' → info_wf fi' → fault_shown fi' = fault_shown fi →
  advances t v v' fi'.
Proof.
  intros HI Ht Hann Hon Hfi Hwf Hsh. apply (inv_mono now t) in HI as [? ? ? Hc He]; [|done].
  split; [constructor; rewrite ?Hon, ?Hann, ?Hsh; done|].
  intros u Hu. unfold track. by rewrite Hon, Hann.
Qed.

(** ** The calls of the fault functions *)

(** The ongoing annotation is concretised at [t]. *)
Lemma shown_concrete now v fi t u c :
  inv now v fi → now ≤ t → ongoing v = Some c → u < t →
  shown [concrete TAG_PARTITION c t] u = if decide (start c ≤ u) then [desp c] else [].
Proof.
  intros HI Ht Hc Hu. destruct (i_cont _ _ _ HI c Hc) as [? ?]. case_decide.
  - rewrite shown_on; [done|]. repeat split; simpl; [lia..|done].
  - rewrite shown_off; [done|]. intros (_ & ? & _). simpl in *. lia.
Qed.

Lemma shown_zero t u tag : shown [concrete tag zero_cont t] u = [].
Proof. apply shown_off. by intros (_ & _ & ?). Qed.

Lemma ended_concrete now v fi t c a :
  inv now v fi → now ≤ t → a ∈ annotations (an v) ++ [concrete TAG_PARTITION c t] →
  Tag a = TAG_PARTITION → Description a ≠ "" → End_ a ≤ t.
Proof.
  intros HI Ht [Ha| ->%list_elem_of_singleton]%elem_of_app ??; [|simpl; lia].
  pose proof (i_ended _ _ _ HI a). naive_solver lia.
Qed.

Lemma advances_end now t v fi fi' :
  inv now v fi → now ≤ t → info_wf fi' → no_fault fi' = true →
  advances t v (AnnotateContinuousEnd t TAG_PARTITION (MkVis (an v) (Some fi'))) fi'.
Proof.
  intros HI Ht Hwf Hq. unfold AnnotateContinuousEnd, on_an, annotateContinuousEnd. simpl.
  assert (Hsh : fault_shown fi' = []) by (unfold fault_shown; by rewrite Hq).
  split.
  - constructor; simpl; [done|done| | |].
    + unfold ongoing. simpl. by rewrite lookup_delete_eq, Hsh.
    + unfold ongoing. simpl. intros c. by rewrite lookup_delete_eq.
    + intros a. by eapply ended_concrete.
  - intros u Hu. unfold track, ongoing at 1. simpl.
    rewrite lookup_delete_eq, app_nil_r, shown_app. f_equal.
    unfold mget. fold (ongoing v). destruct (ongoing v) as [c|] eqn:Hc; simpl.
    + by eapply shown_concrete.
    + apply shown_zero.
Qed.

Lemma advances_color now t v fi fi' text :
  inv now v fi → now ≤ t → info_wf fi' → no_fault fi' = false → fault_text fi' = Ret text →
  text ≠ "" →
  advances t v (AnnotateContinuousColor t TAG_PARTITION text text COLOR_FAULT
                  (MkVis (an v) (Some fi'))) fi'.
Proof.
  intros HI Ht Hwf Hq Htext Hne. unfold AnnotateContinuousColor, on_an, annotateContinuousColor.
  cbn [an finfo]. fold (ongoing v).
  assert (Hsh : fault_shown fi' = [text]) by (unfold fault_shown; by rewrite Hq, Htext).
  set (c' := MkCont t text text COLOR_FAULT).
  destruct (ongoing v) as [c|] eqn:Hc; (split; [constructor; simpl; [done|done|..]|]).
  - unfold ongoing. simpl. by rewrite lookup_insert_eq, Hsh.
  - unfold ongoing. simpl. intros ?. rewrite lookup_insert_eq. intros [= <-]. simpl. done.
  - intros a. by eapply ended_concrete.
  - intros u Hu. unfold track, ongoing at 1. simpl. rewrite lookup_insert_eq, shown_app. simpl.
    rewrite (decide_False (P := t ≤ u)), app_nil_r by lia. f_equal. rewrite Hc.
    by eapply shown_concrete.
  - unfold ongoing. simpl. by rewrite lookup_insert_eq, Hsh.
  - unfold ongoing. simpl. intros ?. rewrite lookup_insert_eq. intros [= <-]. simpl. done.
  - intros a Ha ??. pose proof (i_ended _ _ _ HI a). naive_solver lia.
  - intros u Hu. unfold track, ongoing at 1. simpl. rewrite lookup_insert_eq. simpl.
    rewrite (decide_False (P := t ≤ u)) by lia. by rewrite Hc.
Qed.

(** The text of a fault is never empty. *)
Lemma fault_scan_text id conns fi conn crashes text r :
  fault_scan id conns fi conn crashes text = Ret r → text ≠ "" → r.2 ≠ "".
Proof.
  revert id conn crashes text.
  induction conns as [|c conns IH]; intros id conn crashes text; simpl; [by intros [= <-]|].
  intros ([] & ? & Hr)%rbind_Ret_inv ?; [by eapply IH|].
  destruct c; eapply IH; eauto. by destruct text.
Qed.

Lemma fault_text_nonempty fi text : fault_text fi = Ret text → text ≠ "".
Proof.
  unfold fault_text. intros ([[conn crashes] s] & Hs & [= <-])%rbind_Ret_inv.
  apply fault_scan_text in Hs as Hne; [|done]. simpl in Hne.
  repeat case_bool_decide; destruct s; done.
Qed.

Lemma advances_fault now t v fi fi' v' :
  inv now v fi → now ≤ t → info_wf fi' → annotateFault t fi' v = Ret v' →
  advances t v v' fi'.
Proof.
  intros HI Ht Hwf. unfold annotateFault. destruct (no_fault fi') eqn:Hq.
  - intros [= <-]. by eapply advances_end.
  - intros (text & Htext & [= <-])%rbind_Ret_inv.
    eapply advances_color; eauto using fault_text_nonempty.
Qed.

(** ** Every call *)

Lemma go_copy_length {A} (dst src : list A) : length (go_copy dst src) = length dst.
Proof. unfold go_copy. rewrite length_app, length_take, length_drop. lia. Qed.

(** Marking servers keeps the length, and changes nothing when it says so. *)
Lemma mark_all_spec b servers l ch ch' l' :
  res_fold (mark_one b) (ch, l) servers = Ret (ch', l') →
  length l' = length l ∧ (ch' = false → l' = l ∧ ch = false).
Proof.
  revert ch l. induction servers as [|id servers IH]; intros ch l; simpl; [by intros [= <- <-]|].
  intros ([ch1 l1] & H1 & H2)%rbind_Ret_inv. apply IH in H2 as [Hl Hn].
  apply rbind_Ret_inv in H1 as (c & Hc & (cr & Hs & [= <- <-])%rbind_Ret_inv).
  unfold slice_get, slice_set in Hc, Hs. repeat case_decide; try done. simplify_eq/=.
  rewrite length_insert in Hl. split; [done|]. intros Hch. destruct (Hn Hch) as [-> Hch1].
  case_match; simplify_eq/=. apply orb_false_iff in Hch1 as [-> Hcb].
  apply negb_false_iff, Bool.eqb_prop in Hcb as ->. by rewrite list_insert_id.
Qed.

Lemma advances_mark b now t servers v v' fi :
  inv now v fi → now ≤ t → mark b t servers v = Ret v' → ∃ fi', advances t v v' fi'.
Proof.
  intros HI Ht. unfold mark, with_finfo, mark_all. rewrite (i_finfo _ _ _ HI).
  intros ([ch cr] & [Hlen Hsame]%mark_all_spec & Hv)%rbind_Ret_inv.
  pose proof (i_wf _ _ _ HI) as [Hw1 Hw2].
  assert (info_wf (set_crashed cr fi)) by (split; simpl; lia). destruct ch.
  - eexists. by eapply advances_fault.
  - injection Hv as <-. destruct (Hsame eq_refl) as [-> _]. exists (set_crashed (crashed fi) fi).
    apply (advances_same now _ _ fi); try done. by destruct fi.
Qed.

Lemma info_wf_reset fi : info_wf fi →
  let fi' := MkInfo (nservers fi) (replicate (length (connected fi)) true)
               (replicate (length (crashed fi)) false) (ckbegin fi) in
  info_wf fi' ∧ no_fault fi' = true.
Proof.
  intros [H1 H2]. split; [by split; simpl; rewrite length_replicate|].
  unfold no_fault. simpl. rewrite H1, H2. by rewrite !bool_decide_eq_true_2.
Qed.

(** The text reads the connected and crashed servers only. *)
Lemma fault_shown_ck fi ck :
  fault_shown (MkInfo (nservers fi) (connected fi) (crashed fi) ck) = fault_shown fi.
Proof.
  assert (Hs : ∀ conns id conn crashes text,
    fault_scan id conns (MkInfo (nservers fi) (connected fi) (crashed fi) ck) conn crashes text
    = fault_scan id conns fi conn crashes text).
  { induction conns as [|c conns IH]; intros; [done|]. simpl.
    destruct (slice_get (crashed fi) id) as [[]|]; simpl; rewrite ?IH; done. }
  unfold fault_shown, no_fault, fault_text. cbn [connected crashed nservers]. by rewrite Hs.
Qed.

(** An annotation of another track was added. *)
Local Ltac added :=
  eapply advances_add;
    [eassumption|eassumption| |reflexivity| |eassumption|eassumption|reflexivity];
    [try done|try reflexivity].

Lemma do_op_advances now t o v v' fi :
  inv now v fi → now ≤ t → off_track o → do_op t o v = Ret v' → ∃ fi', advances t v v' fi'.
Proof.
  intros HI Ht Ho. pose proof (i_finfo _ _ _ HI) as Hfi. pose proof (i_wf _ _ _ HI) as Hwf.
  destruct o; simpl in Ho |- *;
    unfold AnnotateConnection, AnnotateShutdownAll, AnnotateRestartAll, AnnotateClearFailure,
      AnnotateCheckerBegin, AnnotateCheckerEnd, with_finfo; rewrite ?Hfi.
  - case_bool_decide; [intros [= <-]; exists fi; by eapply advances_same|].
    intros Hv. eexists. eapply advances_fault; [done..| |done]. destruct Hwf.
    split; simpl; [by rewrite go_copy_length|done].
  - by apply (advances_mark true now _ _ _ _ fi).
  - by apply (advances_mark true now _ _ _ _ fi).
  - by apply (advances_mark false now _ _ _ _ fi).
  - by apply (advances_mark false now _ _ _ _ fi).
  - intros [= <-]. destruct (info_wf_reset fi Hwf). eexists. by eapply advances_end.
  - intros [= <-]. exists fi. by added.
  - intros [= <-]. exists fi. by added.
  - intros [= <-]. exists fi. unfold AnnotateContinuousColor, on_an, annotateContinuousColor.
    destruct (continuous (an v) !! tag).
    + added.
      unfold ongoing. simpl. by rewrite lookup_insert_ne.
    + eapply advances_same; try done. unfold ongoing. simpl. by rewrite lookup_insert_ne.
  - intros [= <-]. exists fi. added.
    unfold ongoing. simpl. by rewrite lookup_delete_ne.
  - intros [= <-]. eexists. eapply advances_same; try done. apply fault_shown_ck.
  - case_bool_decide; intros [= <-]; exists fi; by added.
Qed.

(** ** Runs *)

Definition times_from (now : Z) (tos : list (Z * op)) : Prop := StronglySorted Z.le (now :: tos.*1).
Definition until (t : Z) (tos : list (Z * op)) : list (Z * op) := filter (λ x, x.1 ≤ t) tos.

Lemma times_from_cons now t o tos :
  times_from now ((t, o) :: tos) → now ≤ t ∧ times_from t tos.
Proof.
  unfold times_from. simpl. intros [H1 H2]%StronglySorted_inv.
  split; [|done]. by apply Forall_inv in H2.
Qed.

Lemma until_none now t tos : times_from now tos → t < now → until t tos = [].
Proof.
  unfold times_from, until. intros [_ Hf]%StronglySorted_inv Ht. apply filter_none.
  intros x Hx ?. rewrite list.Forall_forall in Hf.
  assert (now ≤ x.1) by (apply Hf, list_elem_of_fmap; eauto). lia.
Qed.

Lemma run_track now v fi tos v' :
  inv now v fi → times_from now tos → Forall (λ x, off_track x.2) tos → run v tos = Ret v' →
  (∃ now' fi', inv now' v' fi' ∧ (tos = [] ∧ now' = now ∨ now' ∈ tos.*1)) ∧
  (∀ u, u < now → track v' u = track v u) ∧
  (∀ u, now ≤ u → ∃ w fi', run v (until u tos) = Ret w ∧ finfo w = Some fi' ∧
                           track v' u = fault_shown fi').
Proof.
  revert now v fi. induction tos as [|[t o] tos IH]; intros now v fi HI Hs Ho.
  - intros [= <-]. split; [naive_solver|]. split; [done|]. intros u Hu. exists v, fi.
    split; [done|]. split; [apply HI|by eapply track_now].
  - intros (v1 & Hv1 & Hrun)%rbind_Ret_inv. simpl in Hv1.
    apply times_from_cons in Hs as [Ht Hs]. apply list.Forall_cons in Ho as [Ho Hos].
    destruct (do_op_advances now t o v v1 fi) as (fi1 & HI1 & Hbefore); [done..|].
    destruct (IH t v1 fi1 HI1 Hs Hos Hrun) as ((now' & fi' & HI' & Hin) & Hlt & Hge).
    split; [|split].
    + exists now', fi'. split; [done|]. right. simpl. set_solver.
    + intros u Hu. rewrite Hlt, Hbefore by lia. done.
    + intros u Hu. destruct (decide (t ≤ u)) as [Htu|Htu].
      * destruct (Hge u Htu) as (w & fi'' & Hw & ? & ?). exists w, fi''.
        unfold until. rewrite filter_cons_True by done. unfold run. simpl. by rewrite Hv1.
      * exists v, fi. unfold until. rewrite filter_cons_False by done.
        fold (until u tos). rewrite (until_none t) by (done || lia).
        split; [done|]. split; [apply HI|]. rewrite Hlt, Hbefore by lia. by eapply track_now.
Qed.

(** The annotations of finalize show what the track shows. *)
Lemma finalize_track now v fi order T u :
  inv now v fi → range_order (continuous (an v)) order → u < T →
  shown (finalize T order (an v)).1 u = track v u.
Proof.
  intros HI Hord Hu. unfold finalize, track. simpl. rewrite shown_app. f_equal.
  set (f := λ tag : string, _). pose proof (range_order_NoDup _ _ Hord) as Hnd.
  assert (Hoff : ∀ tags, TAG_PARTITION ∉ tags → shown (f <$> tags) u = []).
  { intros tags Htags. unfold shown. rewrite filter_none; [done|].
    intros a (tag & -> & Htag)%list_elem_of_fmap (Heq & _). simpl in Heq. by subst tag. }
  destruct (ongoing v) as [c|] eqn:Hc.
  - assert (Hin : TAG_PARTITION ∈ order) by (rewrite range_order_elem by done; by exists c).
    apply list_elem_of_split in Hin as (l1 & l2 & ->).
    apply list.NoDup_app in Hnd as (_ & Hl1 & [Hl2 _]%list.NoDup_cons).
    rewrite fmap_app, fmap_cons, shown_app, (Hoff l1) by (intros ?; eapply Hl1; set_solver).
    change (f TAG_PARTITION :: (f <$> l2)) with ([f TAG_PARTITION] ++ (f <$> l2)).
    rewrite shown_app, (Hoff l2), app_nil_r by done. subst f. unfold mget. unfold ongoing in Hc.
    rewrite Hc. simpl. destruct (i_cont _ _ _ HI c Hc). case_decide.
    + by rewrite shown_on.
    + rewrite shown_off; [done|]. intros (_ & ? & _). simpl in *. lia.
  - apply Hoff. rewrite range_order_elem by done. unfold ongoing in Hc. rewrite Hc.
    by intros [? ?].
Qed.

Lemma AnnotateTest_inv t name n v0 v :
  AnnotateTest t name n v0 = Ret v →
  ∃ fi, inv t v fi ∧ fault_shown fi = [] ∧ ∀ u, track v u = [].
Proof.
  unfold AnnotateTest, mkFrameworkInfo. case_decide; [|done]. intros [= <-].
  set (fi := MkInfo _ _ _ _).
  assert (Hq : fault_shown fi = []).
  { unfold fault_shown, no_fault, fi. simpl. by rewrite !bool_decide_eq_true_2. }
  exists fi. split; [|split; [done|]].
  - constructor; simpl; [done| |by rewrite Hq|done|].
    + by split; simpl; rewrite length_replicate.
    + by intros a ->%list_elem_of_singleton.
  - intros u. unfold track. cbn. rewrite lookup_empty, app_nil_r.
    apply shown_off. by intros [? _].
Qed.

(** ** The faults that a test makes

    Which servers are cut off and which are down, read off the calls of the test alone;
    and what is to be shown of them, for [n] servers: nothing when all is well, and
    otherwise one text, with the servers that are cut off each in brackets of its own,
    then the servers that are connected, then those that have crashed. *)

Record faults := MkFaults { cut_off : nat → bool; down : nat → bool }.
Definition all_well : faults := MkFaults (λ _, false) (λ _, false).

Definition fault_step (o : op) (s : faults) : faults :=
  match o with
  | OConnection l => MkFaults (λ i, match l !! i with Some c => negb c | None => cut_off s i end) (down s)
  | OShutdown ids => MkFaults (cut_off s) (λ i, bool_decide (Z.of_nat i ∈ ids) || down s i)
  | OShutdownAll => MkFaults (cut_off s) (λ _, true)
  | ORestart ids => MkFaults (cut_off s) (λ i, negb (bool_decide (Z.of_nat i ∈ ids)) && down s i)
  | ORestartAll => MkFaults (cut_off s) (λ _, false)
  | OClearFailure => all_well
  | _ => s
  end.
Definition faults_of (tos : list (Z * op)) : faults := foldl (λ s x, fault_step x.2 s) all_well tos.

(** The servers among [ids] with a property, as Go prints them. *)
Definition those (P : nat → bool) (ids : list nat) : list Z := Z.of_nat <$> filter (λ i, P i = true) ids.
Definition faults_text (n : nat) (s : faults) : string :=
  let alone := those (λ i, negb (down s i) && cut_off s i) (seq 0 n) in
  let conn := those (λ i, negb (down s i) && negb (cut_off s i)) (seq 0 n) in
  let crashes := those (down s) (seq 0 n) in
  "partition = " +:+ foldr String.append "" ((λ i, "[" +:+ pretty i +:+ "] ") <$> alone)
  +:+ (if bool_decide (conn = []) then "" else show_ints conn)
  +:+ (if bool_decide (crashes = []) then "" else " / crash = " +:+ show_ints crashes).
Definition to_show (n : nat) (s : faults) : list string :=
  if existsb (λ i, cut_off s i || down s i) (seq 0 n) then [faults_text n s] else [].

(** The tester's own record of them. *)
Definition records (n : nat) (s : faults) (fi : FrameworkInfo) : Prop :=
  nservers fi = Z.of_nat n ∧ connected fi = (λ i, negb (cut_off s i)) <$> seq 0 n ∧
  crashed fi = down s <$> seq 0 n.

Lemma append_empty (a : string) : a +:+ "" = a.
Proof. induction a as [|c a IH]; [done|]. exact (f_equal (String.String c) IH). Qed.
Lemma append_append (a b c : string) : a +:+ (b +:+ c) = (a +:+ b) +:+ c.
Proof. induction a as [|x a IH]; [done|]. exact (f_equal (String.String x) IH). Qed.

Lemma fmap_seq_inj {A} (f g : nat → A) k m :
  (f <$> seq k m) = (g <$> seq k m) ↔ ∀ i, (k ≤ i < k + m)%nat → f i = g i.
Proof.
  split.
  - intros Heq i Hi. apply (f_equal (.!! (i - k)%nat)) in Heq. rewrite !list_lookup_fmap in Heq.
    rewrite lookup_seq_lt in Heq by lia. simpl in Heq. replace (k + (i - k))%nat with i in Heq by lia. congruence.
  - intros Hfg. apply list_fmap_ext. intros j i [-> ?]%lookup_seq. apply Hfg. lia.
Qed.

Lemma replicate_fmap_seq {A} (x : A) k m : replicate m x = (λ _, x) <$> seq k m.
Proof. revert k. induction m as [|m IH]; intros k; [done|]. simpl. by rewrite <-IH. Qed.

Lemma records_no_fault n s fi :
  records n s fi → no_fault fi = negb (existsb (λ i, cut_off s i || down s i) (seq 0 n)).
Proof.
  intros (Hn & Hc & Hd). unfold no_fault. rewrite Hn, Nat2Z.id, Hc, Hd.
  rewrite (replicate_fmap_seq true 0), (replicate_fmap_seq false 0).
  apply eq_bool_prop_intro. rewrite andb_True, !bool_decide_spec, !fmap_seq_inj, negb_True, Is_true_true, existsb_exists.
  split.
  - intros [H1 H2] (i & [_ Hi]%in_seq & Hx). rewrite <-(H2 i) in Hx by lia. specialize (H1 i ltac:(lia)).
    destruct (cut_off s i); done.
  - intros Hno. split; intros i Hi; destruct (cut_off s i) eqn:H1, (down s i) eqn:H2; try done; exfalso; apply Hno;
      exists i; (split; [apply in_seq; lia|by rewrite H1, H2]).
Qed.

Lemma those_cons P i ids : those P (i :: ids) = (if P i then [Z.of_nat i] else []) ++ those P ids.
Proof. unfold those. rewrite filter_cons. case_decide as Hi; destruct (P i); done. Qed.

Lemma fault_scan_spec n s fi k m conn crashes text :
  records n s fi → (k + m = n)%nat →
  fault_scan (Z.of_nat k) ((λ i, negb (cut_off s i)) <$> seq k m) fi conn crashes text =
  Ret (conn ++ those (λ i, negb (down s i) && negb (cut_off s i)) (seq k m),
       crashes ++ those (down s) (seq k m),
       text +:+ foldr String.append "" ((λ i, "[" +:+ pretty i +:+ "] ") <$>
         those (λ i, negb (down s i) && cut_off s i) (seq k m))).
Proof.
  intros Hr. revert k conn crashes text. induction m as [|m IH]; intros k conn crashes text Hk.
  { simpl. by rewrite !app_nil_r, append_empty. }
  cbn [seq fmap list_fmap fault_scan]. pose proof Hr as (_ & _ & ->).
  unfold slice_get. rewrite decide_True, Nat2Z.id, list_lookup_fmap, lookup_seq_lt by lia. simpl.
  replace (Z.of_nat k + 1) with (Z.of_nat (S k)) by lia. rewrite !those_cons, !IH by lia.
  destruct (down s k), (cut_off s k); simpl; rewrite <-?(assoc_L (++)); try done.
  by rewrite <-append_append.
Qed.

(** The track shows what there is to show. *)
Lemma records_shown n s fi : records n s fi → fault_shown fi = to_show n s.
Proof.
  intros Hr. unfold fault_shown, to_show. rewrite (records_no_fault n s fi Hr).
  destruct (existsb _ _); [|done]. simpl. unfold fault_text, faults_text.
  pose proof Hr as (_ & -> & _). pose proof (fault_scan_spec n s fi 0 n [] [] "partition = " Hr eq_refl) as Hx.
  change (Z.of_nat 0) with 0 in Hx. rewrite Hx. cbn [rbind app]. repeat case_bool_decide; by rewrite ?append_empty, <-?append_append.
Qed.

(** Every call keeps the record. *)
Lemma annotateFault_finfo t fi v v' : annotateFault t fi v = Ret v' → finfo v' = Some fi.
Proof.
  unfold annotateFault. destruct (no_fault fi); [by intros [= <-]|].
  by intros (text & _ & [= <-])%rbind_Ret_inv.
Qed.

Lemma mark_all_records b n (f : nat → bool) servers ch ch' l' :
  res_fold (mark_one b) (ch, f <$> seq 0 n) servers = Ret (ch', l') →
  l' = (λ i, if bool_decide (Z.of_nat i ∈ servers) then b else f i) <$> seq 0 n.
Proof.
  revert ch f. induction servers as [|id servers IH]; intros ch f; simpl.
  { intros [= _ <-]. done. }
  intros ([ch1 l1] & (c & Hc & (cr & Hs & [= <- <-])%rbind_Ret_inv)%rbind_Ret_inv & H2)%rbind_Ret_inv.
  unfold slice_set in Hs. case_decide as Hid; [|done]. injection Hs as <-.
  rewrite length_fmap, length_seq in Hid.
  assert (<[Z.to_nat id := b]> (f <$> seq 0 n) =
    (λ i, if decide (Z.of_nat i = id) then b else f i) <$> seq 0 n) as Heq.
  { apply list_eq. intros i. destruct (decide (i < n)%nat) as [Hi|Hi].
    - rewrite list_lookup_fmap, lookup_seq_lt by done. simpl. destruct (decide (Z.of_nat i = id)) as [<-|Hne].
      + rewrite Nat2Z.id. by rewrite list_lookup_insert_eq by (rewrite length_fmap, length_seq; lia).
      + rewrite list_lookup_insert_ne by lia. by rewrite list_lookup_fmap, lookup_seq_lt by done.
    - rewrite !lookup_ge_None_2; [done| |]; rewrite ?length_insert, length_fmap, length_seq; lia. }
  rewrite Heq in H2. apply IH in H2 as ->. apply list_fmap_ext. intros _ i _.
  destruct (decide (Z.of_nat i = id)) as [<-|Hne].
  - rewrite (bool_decide_eq_true_2 (Z.of_nat i ∈ Z.of_nat i :: servers)) by (by left). by destruct (bool_decide _).
  - rewrite (bool_decide_ext (Z.of_nat i ∈ id :: servers) (Z.of_nat i ∈ servers)); [done|].
    rewrite elem_of_cons. naive_solver.
Qed.

Lemma mark_records b t n s fi v v' servers :
  finfo v = Some fi → records n s fi → mark b t servers v = Ret v' →
  ∃ fi', finfo v' = Some fi' ∧
    records n (MkFaults (cut_off s) (λ i, if bool_decide (Z.of_nat i ∈ servers) then b else down s i)) fi'.
Proof.
  intros Hfi (Hn & Hc & Hd). unfold mark, with_finfo, mark_all. rewrite Hfi, Hd.
  intros ([ch cr] & Hm%mark_all_records & Hv)%rbind_Ret_inv. exists (set_crashed cr fi). split.
  - destruct ch; [by apply annotateFault_finfo in Hv|by injection Hv as <-].
  - by split_and!.
Qed.

Lemma all_servers_elem n s fi i : records n s fi → (i < n)%nat → Z.of_nat i ∈ all_servers fi.
Proof.
  intros (Hn & _) Hi. unfold all_servers. rewrite Hn, Nat2Z.id. apply list_elem_of_fmap_2, elem_of_seq. lia.
Qed.

(** Only what is said of the [n] servers counts. *)
Lemma records_ext n s s' fi :
  (∀ i, (i < n)%nat → cut_off s i = cut_off s' i ∧ down s i = down s' i) → records n s fi → records n s' fi.
Proof.
  unfold records. intros Hs (Hn & -> & ->). split_and!; [done|..]; apply fmap_seq_inj; intros i Hi;
    destruct (Hs i ltac:(lia)); congruence.
Qed.

Lemma do_op_records t o n s fi v v' :
  finfo v = Some fi → records n s fi → do_op t o v = Ret v' →
  ∃ fi', finfo v' = Some fi' ∧ records n (fault_step o s) fi'.
Proof.
  intros Hfi Hr. destruct o as [l|ids| |ids| | |tag dsp det col|tag st dsp det col|tag dsp det col|tag|det|dsp det col];
    cbn [do_op fault_step]; unfold AnnotateConnection, AnnotateShutdownAll, AnnotateRestartAll,
      AnnotateClearFailure, AnnotateCheckerBegin, AnnotateCheckerEnd, with_finfo; rewrite ?Hfi.
  - destruct Hr as (Hn & Hc & Hd).
    assert (go_copy (connected fi) l = (λ i, negb (match l !! i with Some c => negb c | None => cut_off s i end)) <$> seq 0 n) as Heq.
    { unfold go_copy. rewrite Hc, length_fmap, length_seq. apply list_eq. intros i.
      destruct (decide (i < n)%nat) as [Hi|Hi].
      - rewrite list_lookup_fmap, lookup_seq_lt by done. simpl. destruct (l !! i) as [c|] eqn:Hl.
        + rewrite lookup_app_l, lookup_take_lt by (done || rewrite length_take; apply lookup_lt_Some in Hl; lia).
          rewrite Hl. by destruct c.
        + apply lookup_ge_None in Hl. rewrite lookup_app_r by (rewrite length_take; lia).
          rewrite length_take, lookup_drop, list_lookup_fmap. rewrite lookup_seq_lt by lia. simpl. do 3 f_equal. lia.
      - rewrite !lookup_ge_None_2; [done|..];
          rewrite ?length_app, ?length_take, ?length_drop, ?length_fmap, ?length_seq; lia. }
    case_bool_decide as Hsame.
    + intros [= <-]. exists fi. split; [done|]. split_and!; [done| |done].
      etrans; [|exact Heq]. rewrite Hsame. unfold go_copy. rewrite take_ge, drop_ge by done. by rewrite app_nil_r.
    + intros Hv%annotateFault_finfo. exists (set_connected (go_copy (connected fi) l) fi).
      split; [done|]. split_and!; [done|exact Heq|done].
  - intros Hv. destruct (mark_records true t n s fi v v' ids Hfi Hr Hv) as (fi' & ? & Hr'). exists fi'.
    split; [done|]. eapply records_ext; [|exact Hr']. intros i _. simpl. by destruct (bool_decide _).
  - intros Hv. destruct (mark_records true t n s fi v v' _ Hfi Hr Hv) as (fi' & ? & Hr'). exists fi'.
    split; [done|]. eapply records_ext; [|exact Hr']. intros i Hi. simpl.
    rewrite bool_decide_eq_true_2 by (by eapply all_servers_elem). done.
  - intros Hv. destruct (mark_records false t n s fi v v' ids Hfi Hr Hv) as (fi' & ? & Hr'). exists fi'.
    split; [done|]. eapply records_ext; [|exact Hr']. intros i _. simpl. by destruct (bool_decide _).
  - intros Hv. destruct (mark_records false t n s fi v v' _ Hfi Hr Hv) as (fi' & ? & Hr'). exists fi'.
    split; [done|]. eapply records_ext; [|exact Hr']. intros i Hi. simpl.
    rewrite bool_decide_eq_true_2 by (by eapply all_servers_elem). done.
  - intros [= <-]. eexists. split; [done|]. destruct Hr as (Hn & -> & ->).
    split_and!; simpl; [done|..]; rewrite length_fmap, length_seq; apply replicate_fmap_seq.
  - intros [= <-]. by exists fi.
  - intros [= <-]. by exists fi.
  - intros [= <-]. by exists fi.
  - intros [= <-]. by exists fi.
  - intros [= <-]. eexists. by split.
  - case_bool_decide; intros [= <-]; by exists fi.
Qed.

Lemma run_records n tos s fi v v' :
  finfo v = Some fi → records n s fi → run v tos = Ret v' →
  ∃ fi', finfo v' = Some fi' ∧ records n (foldl (λ s x, fault_step x.2 s) s tos) fi'.
Proof.
  revert s fi v. induction tos as [|[t o] tos IH]; intros s fi v Hfi Hr; [intros [= <-]; by exists fi|].
  intros (v1 & Hv1 & Hrun)%rbind_Ret_inv. destruct (do_op_records t o n s fi v v1 Hfi Hr Hv1) as (fi1 & Hfi1 & Hr1).
  exact (IH _ fi1 v1 Hfi1 Hr1 Hrun).
Qed.

Lemma AnnotateTest_records t name n v0 v :
  AnnotateTest t name n v0 = Ret v → ∃ fi, finfo v = Some fi ∧ records (Z.to_nat n) all_well fi.
Proof.
  unfold AnnotateTest, mkFrameworkInfo. case_decide; [|done]. intros [= <-]. eexists. split; [done|].
  split_and!; simpl; [lia|apply replicate_fmap_seq..].
Qed.

(** ** The property *)

(** C40. The fault track of the visualisation is the history of the faults.
    After AnnotateTest, let the tester make any calls of the annotation API at
    non-decreasing times, writing to the track [TAG_PARTITION] through
    AnnotateConnection, AnnotateShutdown, AnnotateRestart (and their All variants)
    and AnnotateClearFailure only.  Whatever finalize returns in the end, at every
    time [u] before it the annotations of the track with a text that cover [u]
    are: none if the calls made up to [u] leave every server connected and
    running, and otherwise exactly one, whose text lists the servers that
    these calls have cut off, those that they have left connected, and those that they
    have crashed. *)
Theorem fault_track t0 name n v0 v tos v' order T u :
  AnnotateTest t0 name n v0 = Ret v →
  times_from t0 tos → Forall (λ x, off_track x.2) tos →
  run v tos = Ret v' →
  range_order (continuous (an v')) order → u < T →
  shown (finalize T order (an v')).1 u = to_show (Z.to_nat n) (faults_of (until u tos)).
Proof.
  intros Ht Hs Ho Hrun Hord Hu.
  destruct (AnnotateTest_records _ _ _ _ _ Ht) as (fi & Hfi & Hr).
  destruct (AnnotateTest_inv _ _ _ _ _ Ht) as (fi0 & HI & Hq & Htr).
  destruct (run_track t0 v fi0 tos v') as ((now' & fi' & HI' & _) & Hlt & Hge); [done..|].
  rewrite (finalize_track now' v' fi') by done. destruct (decide (t0 ≤ u)) as [Hle|Hle].
  - destruct (Hge u Hle) as (w & fi1 & Hw & Hfi1 & ->).
    destruct (run_records _ _ _ _ _ _ Hfi Hr Hw) as (fi2 & Hfi2 & Hr2). simplify_eq.
    by apply records_shown.
  - rewrite (until_none t0) by (done || lia). rewrite Hlt, Htr by lia.
    change (faults_of []) with all_well. rewrite <-(records_shown _ _ _ Hr). pose proof (i_finfo _ _ _ HI). by simplify_eq.
Qed.

(** A run on three servers: a crash, a disconnection, a restart, a repair; at
    time 35 server 1 is down and server 2 cut off. *)
Definition example_start : vis := on_an (λ _, MkAnnotation
  [MkAnn TAG_INFO 10 0 "x (3 servers)" "x (3 servers)" COLOR_INFO] ∅ false)
  (MkVis mkAnnotation (Some (MkInfo 3 [true; true; true] [false; false; false] (MkCk 0 "")))).
Definition example_ops : list (Z * op) :=
  [(20, OShutdown [1]); (25, OPoint "me" "p" "p" COLOR_USER);
   (30, OConnection [true; true; false]); (40, ORestartAll); (50, OClearFailure)].
Definition example_end : vis :=
  match run example_start example_ops with Ret v => v | Stop _ => example_start end.

Lemma fault_track_witness :
  shown (finalize 60 [] (an example_end)).1 35 = to_show 3 (faults_of (until 35 example_ops)) ∧
  shown (finalize 60 [] (an example_end)).1 35 = ["partition = [2] [0] / crash = [1]"].
Proof.
  split; [|by vm_compute].
  apply (fault_track 10 "x" 3 (MkVis mkAnnotation None) example_start example_ops example_end
    [] 60 35).
  - by vm_compute.
  - apply (bool_decide_unpack _). by vm_compute.
  - apply (bool_decide_unpack _). by vm_compute.
  - by vm_compute.
  - by vm_compute.
  - lia.
Defined.
