(* ===== verification/KvCheck.v ===== *)
(** * Helpers of the KV tests (kvtest1/kvtest.go, kvtest1/porcupine.go)

    Spreading puts over keys, repartitioning the servers while clients run, and the
    check of the operation log, whose verdict (of the porcupine package on the model
    of models1/kv.go) is an argument.  What [rand] draws is an argument too. *)

From stdpp Require Import pretty.
From S2P Require Import Prelude LabRpc Group GroupStart Models KvTest KvService Annotation.
Import Models KvTest.

Module KvCheck.

Section helpers.
Context {W : Type} `{IKVClerk W} (clock : nat → Z).

(** ** The operation log *)

Definition Len (log : list Operation) : Z := Z.of_nat (length log).
(** Read returns a copy. *)
Definition Read (log : list Operation) : list Operation := log.
(** The function Get of the package does what the method of Test does. *)
Definition kv_Get (key : string) (cli : Z) (ts : test W) : (string * Z * string) * test W :=
  ts_Get clock key cli ts.

(** A TestClerk counts the calls of the clerk it wraps; the second component is what it
    adds to the counter of the configuration. *)
Definition tck_Get (w : W * Z) (key : string) : (W * Z) * (string * Z * string) :=
  let n := i32 (w.2 + 1) in
  let (ck, r) := ck_Get w.1 key in ((ck, n), r).
Definition tck_Put (w : W * Z) (key value : string) (version : Z) : (W * Z) * string :=
  let n := i32 (w.2 + 1) in
  let (ck, err) := ck_Put w.1 key value version in ((ck, n), err).
Definition TestClerk : IKVClerk (W * Z) := {| ck_Get := tck_Get; ck_Put := tck_Put |}.

(** A new test, whose clerk is [w]. *)
Definition MakeTest (w : W) : test W := MkTest w (Some []) 0 0.

(** RandValue, from the draws of rand.Int63. *)
Definition letterBytes : string := "abcdefghijklmnopqrstuvwxyzABCDEFGHIJKLMNOPQRSTUVWXYZ".
Definition RandValue (draws : list Z) : string :=
  String.string_of_list_ascii
    (omap (λ d, String.get (Z.to_nat (d `mod` Z.of_nat (String.length letterBytes))) letterBytes) draws).

(** ** SpreadPutsSize *)

(** The values [va] are the random strings; the errors of ck.Put are ignored. *)
Definition put_all (kvs : list (string * string)) (w : W) : W :=
  foldl (λ w '(k, v), (ck_Put w k v 0).1) w kvs.
Definition SpreadPutsSize (n : nat) (rand : nat → string) (ts : test W) :
    res (list string * list string * test W) :=
  let ka := MakeKeys n in
  let va := rand <$> seq 0 n in
  let ts := MkTest (put_all (zip ka va) (ck ts)) (oplog ts) (ops ts) (ticks ts) in
  let* ts := res_fold (λ ts '(k, v), CheckGet clock k v 1 ts) ts (zip ka va) in
  Ret (ka, va, ts).

(** ** PutAtLeastOnceJson *)

(** The put always has version 0; [ver] only counts the rounds. *)
Fixpoint PutAtLeastOnceJson {A} `{KvService.Json A} (fuel : nat) (key : string) (value : A) (ver me : Z)
    (ts : test W) : res (Z * test W) :=
  match fuel with
  | O => Stop OutOfFuel
  | S fuel =>
      let* b := KvService.PutJson value in
      let (err, ts) := kv_Put clock key b 0 me ts in
      if decide (err ≠ ErrMaybe) then Ret (ver, ts)
      else PutAtLeastOnceJson fuel key value (u64 (ver + 1)) me ts
  end.

(** ** CheckPutConcurrent and SpreadPuts *)

(** The version is read with GetJson; the value, an EntryV, is not looked at. *)
Definition ts_CheckPutConcurrent {A} `{KvService.Json A} (key : string) (rs : list ClntRes) (res : ClntRes) (reliable : bool)
    (ts : test W) : Prelude.res (ClntRes * test W) :=
  let (r, ts) := kv_Get key (-1) ts in
  let* '(_, ver0) := KvService.GetJson (A:=A) r in
  let* res := CheckPutConcurrent ver0 rs res reliable in
  Ret (res, ts).

(** The values have 20 characters. *)
Definition SpreadPuts (n : nat) (Randstring20 : nat → string) (ts : test W) :
    res (list string * list string * test W) := SpreadPutsSize n Randstring20 ts.
End helpers.

(** ** Partitioner *)

(** One round: [a] has the draw of every server, 0 or 1; [now] is the clock. *)
Definition side (i : Z) (a : list Z) : list Z :=
  omap (λ '(j, x), if decide (x = i) then Some (Z.of_nat j) else None) (imap pair a).
Definition Partitioner_round (now : Z) (a : list Z)
    (s : Group.ServerGrp * Group.tester * Annotation.vis) :
    res (Group.ServerGrp * Group.tester * Annotation.vis) :=
  let '(sg, t, v) := s in
  let* '(sg, t) := Group.Partition (side 0 a) (side 1 a) sg t in
  Ret (sg, t, Annotation.AnnotateTwoPartitions now (side 0 a) (side 1 a) v).
(** The rounds until the tester signals the end. *)
Definition Partitioner (rounds : list (Z * list Z))
    (s : Group.ServerGrp * Group.tester * Annotation.vis) :
    res (Group.ServerGrp * Group.tester * Annotation.vis) :=
  res_fold (λ s '(now, a), Partitioner_round now a s) s rounds.

(** ** checkPorcupine *)

Inductive CheckResult := Legal | Illegal | Unknown.

(** Whether the test failed, what was written to the visualisation file, and the
    annotations after it. *)
Record report := MkReport {
  r_failed : bool; r_file : option (list Annotation.PAnn); r_vis : Annotation.vis }.

Section porcupine.
(** VIS_ENABLE, whether the file can be opened, whether it can be written, the clock
    twice, and the order of the range over the continuous annotations. *)
Context (enabled : string) (opened written : bool) (now now' : Z) (order : list string).

Definition visualize (end_ : string) (v : Annotation.vis) : option (list Annotation.PAnn) * Annotation.vis :=
  let (l, v) := Annotation.FinalizeAnnotations end_ now now' order v in
  (if written then Some l else None, v).

Definition checkPorcupine (check : list Operation → CheckResult) (opLog : list Operation)
    (v : Annotation.vis) : report :=
  match check (Read opLog) with
  | Illegal =>
      let '(file, v) :=
        if negb opened then (None, v)
        else if decide (enabled ≠ "never"%string) then visualize "test failed" v
        else (None, v) in
      MkReport true file v
  | Legal | Unknown =>
      if bool_decide (enabled = "always"%string) && Annotation.GetAnnotationFinalized v then
        if negb opened then MkReport false None v
        else let (file, v) := visualize "test passed" v in MkReport false file v
      else MkReport false None v
  end.

(** CheckPorcupineT, and CheckPorcupine with its time limit: without a log, a nil pointer. *)
Definition CheckPorcupineT {W} (check : list Operation → CheckResult) (v : Annotation.vis) (ts : test W) : res report :=
  match oplog ts with Some l => Ret (checkPorcupine check l v) | None => Stop Panic end.
Definition linearizabilityCheckTimeout : Z := 1000.
Definition CheckPorcupine {W} (check : Z → list Operation → CheckResult) (v : Annotation.vis) (ts : test W) : res report :=
  CheckPorcupineT (check linearizabilityCheckTimeout) v ts.
End porcupine.

End KvCheck.
