(* ===== verification/KvCheckSpec.v ===== *)
(** * Helpers of the KV tests: properties *)

From stdpp Require Import pretty.
From S2P Require Import Prelude LabRpc Group GroupStart GroupSpec Models KvTest KvService Annotation KvCheck.
Import Models KvTest KvCheck.

(** ** Repartitioning *)

Lemma elem_of_side i a j : j ∈ side i a ↔ 0 ≤ j ∧ a !! Z.to_nat j = Some i.
Proof.
  unfold side. rewrite list_elem_of_omap. split.
  - intros ([k x] & Hin & Heq). apply elem_of_lookup_imap in Hin as (k' & x' & [= -> ->] & Hx).
    case_decide; [|done]. simplify_eq. by rewrite Nat2Z.id; split; [lia|].
  - intros [Hj Hx]. exists (Z.to_nat j, i). split.
    + apply elem_of_lookup_imap. eauto.
    + rewrite decide_True by done. f_equal. lia.
Qed.

(** The draws of a round: 0 or 1 for every server. *)
Definition draws (sg : Group.ServerGrp) (a : list Z) : Prop :=
  Z.of_nat (length a) = Group.N sg ∧ Forall (λ x, x = 0 ∨ x = 1) a.

Lemma Partitioner_round_spec now a sg t v :
  Group.wf sg → draws sg a → ∃ sg' t' v', Partitioner_round now a (sg, t, v) = Ret (sg', t', v') ∧
    Group.wf sg' ∧ Group.N sg' = Group.N sg ∧
    ∀ i j, Group.member sg i → Group.member sg j →
      Group.linked sg' t' i j = true ↔ a !! Z.to_nat i = a !! Z.to_nat j.
Proof.
  intros Hwf [Hlen Hbits]. rewrite list.Forall_forall in Hbits.
  assert (∀ b, Forall (Group.member sg) (side b a)) as Hmem.
  { intros b. apply list.Forall_forall. intros j [Hj Hx%lookup_lt_Some]%elem_of_side. split; lia. }
  assert (∀ i, Group.member sg i → i ∈ side 0 a ∨ i ∈ side 1 a) as Hall.
  { intros i [Hi Hlt]. destruct (lookup_lt_is_Some_2 a (Z.to_nat i)) as [x Hx]; [lia|].
    destruct (Hbits x) as [->| ->]; [by eapply list_elem_of_lookup_2|left|right]; by apply elem_of_side. }
  destruct (Group.Partition_sided (side 0 a) (side 1 a) sg t) as
    (sg' & t' & Heq & Hs & _ & _ & Hwf' & _ & (_ & Hl1 & Hx1) & (_ & Hl2 & Hx2)); [done|done|done| |].
  { intros j [_ H0]%elem_of_side [_ H1]%elem_of_side. congruence. }
  unfold Partitioner_round. rewrite Heq. cbn [rbind]. eexists _, _, _. split; [done|].
  split; [done|]. split; [unfold Group.N; by rewrite Hs|]. simpl in *. intros i j Hi Hj.
  assert (∀ b k, k ∈ side b a → a !! Z.to_nat k = Some b) as Hd by (intros b k; by intros [_ ?]%elem_of_side).
  destruct (Hall i Hi) as [Hi0|Hi1], (Hall j Hj) as [Hj0|Hj1].
  - rewrite (Hd 0 i), (Hd 0 j) by done. specialize (Hl1 i j Hi0 Hj0). tauto.
  - rewrite (Hd 0 i), (Hd 1 j) by done. destruct (Hx1 i j Hi0 Hj1) as [? _]. naive_solver.
  - rewrite (Hd 1 i), (Hd 0 j) by done. destruct (Hx2 i j Hi1 Hj0) as [? _]. naive_solver.
  - rewrite (Hd 1 i), (Hd 1 j) by done. specialize (Hl2 i j Hi1 Hj1). tauto.
Qed.

(** While the Partitioner runs, every one of its rounds returns, and after each of them
    two servers reach each other exactly when they drew the same side. *)
Theorem Partitioner_separates rounds now a sg t v :
  Group.wf sg → Forall (λ x, draws sg x.2) rounds → draws sg a →
  ∃ sg' t' v', Partitioner (rounds ++ [(now, a)]) (sg, t, v) = Ret (sg', t', v') ∧
    ∀ i j, Group.member sg i → Group.member sg j →
      Group.linked sg' t' i j = true ↔ a !! Z.to_nat i = a !! Z.to_nat j.
Proof.
  unfold Partitioner. intros Hwf Hr Ha. revert sg t v Hwf Hr Ha.
  induction rounds as [|[now0 a0] rounds IH]; intros sg t v Hwf Hr Ha; cbn [app res_fold].
  - destruct (Partitioner_round_spec now a sg t v Hwf Ha) as (sg' & t' & v' & -> & _ & _ & Hl).
    cbn [rbind]. eauto.
  - apply list.Forall_cons in Hr as [Ha0 Hr].
    destruct (Partitioner_round_spec now0 a0 sg t v Hwf Ha0) as (sg1 & t1 & v1 & -> & Hwf1 & HN & _).
    cbn [rbind]. destruct (IH sg1 t1 v1 Hwf1) as (sg' & t' & v' & Heq & Hl).
    + eapply list.Forall_impl; [exact Hr|]. intros [? ?]. unfold draws. simpl. by rewrite HN.
    + unfold draws. by rewrite HN.
    + exists sg', t', v'. split; [done|]. unfold Group.member in *. by rewrite HN in Hl.
Qed.

(** ** Spreading puts *)

Lemma MakeKeys_NoDup n : NoDup (MakeKeys n).
Proof.
  unfold MakeKeys. apply NoDup_fmap_2; [|apply NoDup_seq]. intros i j Heq.
  apply (inj (String.append "k")) in Heq. apply (inj pretty) in Heq. lia.
Qed.

(** A clerk of a key/value server that nobody else writes: a put of version 0 to a key
    that does not exist is performed, whatever the clerk learns of it, and a get returns
    what is stored. *)
Class KvStore {W} `{IKVClerk W} (stored : W → string → string * Z) := {
  put_fresh w k v w' err : ck_Put w k v 0 = (w', err) → (stored w k).2 = 0 →
    stored w' k = (v, 1) ∧ ∀ k', k' ≠ k → stored w' k' = stored w k';
  get_stored w k w' r : ck_Get w k = (w', r) → (stored w k).2 ≠ 0 →
    r = (stored w k, OK) ∧ ∀ k', stored w' k' = stored w k'
}.

Section spread.
Context {W : Type} `{IKVClerk W} (stored : W → string → string * Z) `{!KvStore stored} (clock : nat → Z).

Lemma put_all_stores (kvs : list (string * string)) (w : W) :
  NoDup kvs.*1 → (∀ k, k ∈ kvs.*1 → (stored w k).2 = 0) →
  (∀ k v, (k, v) ∈ kvs → stored (put_all kvs w) k = (v, 1)) ∧
  (∀ k, k ∉ kvs.*1 → stored (put_all kvs w) k = stored w k).
Proof.
  revert w. induction kvs as [|[k v] kvs IH]; intros w Hnd H0.
  { split; [|done]. intros k v Hin. by apply not_elem_of_nil in Hin. }
  rewrite fmap_cons in Hnd, H0. apply list.NoDup_cons in Hnd as [Hk Hnd]. simpl in Hk.
  change (put_all ((k, v) :: kvs) w) with (put_all kvs (ck_Put w k v 0).1).
  destruct (ck_Put w k v 0) as [w1 err] eqn:Hput. simpl.
  destruct (put_fresh w k v w1 err Hput) as [Hst Hoth]; [apply H0; by left|].
  destruct (IH w1 Hnd) as [IH1 IH2].
  { intros k' Hk'. rewrite Hoth by congruence. apply H0. by right. }
  split.
  - intros k' v' [[= -> ->]|Hin]%elem_of_cons; [|by apply IH1]. by rewrite IH2.
  - intros k'. rewrite not_elem_of_cons. intros [Hne Hni]. rewrite IH2 by done. by apply Hoth.
Qed.

Lemma check_all kvs (ts : test W) :
  (∀ k v, (k, v) ∈ kvs → stored (ck ts) k = (v, 1)) →
  ∃ ts', res_fold (λ ts '(k, v), CheckGet clock k v 1 ts) ts kvs = Ret ts'.
Proof.
  revert ts. induction kvs as [|[k v] kvs IH]; intros ts Hst; [by exists ts|]. cbn [res_fold].
  pose proof (Hst k v ltac:(by left)) as Hk. unfold CheckGet, ts_Get. cbn [now ck oplog ops ticks].
  destruct (ck_Get (ck ts) k) as [w [[val ver] err]] eqn:Hg.
  destruct (get_stored _ _ _ _ Hg) as [Heq Hsame]; [by rewrite Hk|]. rewrite Hk in Heq. simplify_eq.
  rewrite !decide_False by naive_solver. cbn [rbind]. apply IH. intros k' v' Hin. simpl.
  rewrite Hsame. apply Hst. by right.
Qed.

(** SpreadPuts passes on a store without these keys: even when every reply to a put is
    lost, the checks that follow find every value with version 1. *)
Theorem SpreadPuts_passes n rand (ts : test W) :
  (∀ k, k ∈ MakeKeys n → (stored (ck ts) k).2 = 0) →
  ∃ ts', SpreadPutsSize clock n rand ts = Ret (MakeKeys n, rand <$> seq 0 n, ts').
Proof.
  intros H0. unfold SpreadPutsSize. set (kvs := zip (MakeKeys n) (rand <$> seq 0 n)).
  assert (kvs.*1 = MakeKeys n) as Hk.
  { unfold kvs. apply fst_zip. unfold MakeKeys. by rewrite !length_fmap. }
  destruct (put_all_stores kvs (ck ts)) as [Hst _]; [rewrite Hk; apply MakeKeys_NoDup|by rewrite Hk|].
  destruct (check_all kvs (MkTest (put_all kvs (ck ts)) (oplog ts) (ops ts) (ticks ts)) Hst) as [ts' ->].
  by exists ts'.
Qed.

(** PutAtLeastOnceJson does not put to a key that exists: it puts with version 0 in
    every round, and returns the version it was given. *)
Theorem PutAtLeastOnceJson_stale {A} `{KvService.Json A} fuel key (value : A) ver me (ts : test W) b :
  (∀ w v, (stored w key).2 ≠ 0 → ck_Put w key v 0 = (w, ErrVersion)) →
  (stored (ck ts) key).2 ≠ 0 → KvService.PutJson value = Ret b →
  ∃ ts', PutAtLeastOnceJson clock (S fuel) key value ver me ts = Ret (ver, ts') ∧ ck ts' = ck ts.
Proof.
  intros Hput Hv Hj. cbn [PutAtLeastOnceJson]. rewrite Hj. cbn [rbind]. unfold kv_Put.
  cbn [now ck oplog ops ticks]. rewrite Hput by done. rewrite decide_True by done. eexists. split; done.
Qed.
End spread.

(** ** The visualisation of a test's history *)

(** A history that is not linearizable is written once: checkPorcupine fails the test
    and writes the annotations, and the cleanup of the test that follows does not
    overwrite the file. *)
Theorem illegal_written_once enabled now now' order check opLog v t t' order' :
  check opLog = Illegal → enabled ≠ "never"%string →
  let r := checkPorcupine enabled true true now now' order check opLog v in
  r_failed r = true ∧ is_Some (r_file r) ∧
  (Annotation.cleanup enabled true true "test failed" t t' order' (Annotation.an (r_vis r))).2 = None.
Proof.
  intros Hc He. unfold checkPorcupine, Read. rewrite Hc. simpl. rewrite decide_True by done.
  unfold visualize. simpl. split_and!; [done|by eexists|]. unfold Annotation.cleanup. simpl.
  by rewrite orb_true_r.
Qed.

(** A history that is linearizable is never written with VIS_ENABLE=always: checkPorcupine
    writes only if the annotations have been finalized before, and otherwise the file
    that the cleanup writes has the annotations alone. *)
Theorem legal_not_written opened written now now' order check opLog v :
  check opLog ≠ Illegal → Annotation.GetAnnotationFinalized v = false →
  checkPorcupine "always" opened written now now' order check opLog v = MkReport false None v.
Proof.
  intros Hc Hf. unfold checkPorcupine, Read. rewrite Hf, andb_false_r. by destruct (check opLog).
Qed.

(** ** Counting operations *)

Lemma i32_add_r a b : i32 (a + i32 b) = i32 (a + b).
Proof.
  unfold i32. replace (a + ((b + two31) mod two32 - two31) + two31) with (a + (b + two31) mod two32) by lia.
  rewrite Zplus_mod_idemp_r. do 2 f_equal. lia.
Qed.
Lemma i32_add_l a b : i32 (i32 a + b) = i32 (a + b).
Proof. by rewrite Z.add_comm, i32_add_r, Z.add_comm. Qed.

(** The counter of the configuration counts a get twice, and a put once or twice: the
    clerks of the tests are TestClerks, which count, and so do Test.Get and the function
    Put, but Test.Put does not. *)
Theorem ops_counted {W} `{IKVClerk W} clock key value version cli (ts : test (W * Z)) :
  let total (ts : test (W * Z)) := i32 (ops ts + (ck ts).2) in
  let g := ts_Get (H:=TestClerk) clock key cli ts in
  let p := ts_Put (H:=TestClerk) clock key value version cli ts in
  let p' := kv_Put (H:=TestClerk) clock key value version cli ts in
  total g.2 = i32 (total ts + 2) ∧ total p.2 = i32 (total ts + 1) ∧ total p'.2 = i32 (total ts + 2).
Proof.
  destruct ts as [[w n] l o t]. unfold ts_Get, ts_Put, kv_Put. simpl. unfold tck_Get, tck_Put. simpl.
  destruct (ck_Get w key) as [w1 [[v ver] err]], (ck_Put w key value version) as [w2 err2]. simpl.
  split_and!; rewrite ?i32_add_r, ?i32_add_l; f_equal; lia.
Qed.

(** RandValue has one letter per draw. *)
Lemma RandValue_length draws : String.length (RandValue draws) = length draws.
Proof.
  unfold RandValue. induction draws as [|d draws IH]; [done|]. cbn [omap list_omap].
  assert (∀ k, (k < String.length letterBytes)%nat → is_Some (String.get k letterBytes)) as Hget.
  { intros k Hk. simpl in Hk. do 52 (destruct k as [|k]; [by eexists|]). lia. }
  destruct (Hget (Z.to_nat (d `mod` Z.of_nat (String.length letterBytes)))) as [c ->].
  { pose proof (Z.mod_pos_bound d (Z.of_nat (String.length letterBytes)) ltac:(done)). lia. }
  cbn [String.string_of_list_ascii String.length length]. f_equal. exact IH.
Qed.
