(* ===== verification/Config.v ===== *)
(** * The configuration of a test (tester1/config.go, tester1/group.go)

    A [Config] has the clients and the groups of servers of a test, on one
    simulated network: MakeConfig starts the first group, the test starts and stops
    servers, groups and clients, Begin and End count RPCs, and Cleanup stops
    everything; in between, daemons save what they like.  A group is found by its number in a map; a number without a group
    is a nil pointer, on which every method used here panics.

    Times are nanoseconds.  The range of Groups.cleanup over the map runs in an
    order that is an argument.  The operating system's answers are the [env] of
    Group.v, and names come from the sequence [rand]. *)

From S2P Require Import Prelude LabRpc Group GroupStart Clnts Annotation.
Import LabRpc Group GroupStart.

Module Config.

Definition GRP0 : Z := 0.

(** [failed] is what cfg.t.Failed() says; [trpc] is nil, or says whether the RPC
    server of the tester is open. *)
Record Config := MkConfig {
  clnts : Clnts.Clnts; grps : gmap Z ServerGrp; tst : tester; endName : string;
  trpc : option bool; failed : bool; start : Z; t0 : Z; rpcs0 : Z; ops : Z }.

Definition set_clnts (c : Clnts.Clnts) (cfg : Config) : Config :=
  MkConfig c (grps cfg) (tst cfg) (endName cfg) (trpc cfg) (failed cfg) (start cfg) (t0 cfg)
    (rpcs0 cfg) (ops cfg).
Definition set_grps (g : gmap Z ServerGrp) (cfg : Config) : Config :=
  MkConfig (clnts cfg) g (tst cfg) (endName cfg) (trpc cfg) (failed cfg) (start cfg) (t0 cfg)
    (rpcs0 cfg) (ops cfg).
Definition set_tst (t : tester) (cfg : Config) : Config :=
  MkConfig (clnts cfg) (grps cfg) t (endName cfg) (trpc cfg) (failed cfg) (start cfg) (t0 cfg)
    (rpcs0 cfg) (ops cfg).
Definition on_net (f : Network → Network) (cfg : Config) : Config :=
  set_tst (set_net (f (net (tst cfg))) (tst cfg)) cfg.

(** ** Groups *)

Definition newGroups : gmap Z ServerGrp := ∅.
Definition lookupGroup (gid : Z) (cfg : Config) : option ServerGrp := grps cfg !! gid.
Definition delete_group (gid : Z) (cfg : Config) : Config := set_grps (delete gid (grps cfg)) cfg.

(** A method call on [cfg.Group(gid)]. *)
Definition on_group (gid : Z) (f : ServerGrp → tester → res (ServerGrp * tester)) (cfg : Config) :
    res Config :=
  match lookupGroup gid cfg with
  | None => Stop Panic
  | Some sg =>
      let* '(sg, t) := f sg (tst cfg) in
      Ret (set_tst t (set_grps (<[gid := sg]> (grps cfg)) cfg))
  end.

Section config.
Context (rand : nat → string) (ev : env).

Definition MakeGroup (gid : Z) (nsrv : nat) (cfg : Config) : res Config :=
  let* '(sg, t) := makeSrvGrp rand gid nsrv (tst cfg) in
  Ret (set_tst t (set_grps (<[gid := sg]> (grps cfg)) cfg)).

Definition groups_cleanup (order : list Z) (cfg : Config) : res Config :=
  res_fold (λ cfg gid, on_group gid (Shutdown ev) cfg) cfg order.

(** ** Config *)

Definition SetReliable (reliable : bool) : Config → Config := on_net (Reliable reliable).
Definition cfg_IsReliable (cfg : Config) : bool := IsReliable (net (tst cfg)).
Definition SetLongReordering (longrel : bool) : Config → Config := on_net (LongReordering longrel).
Definition SetLongDelays (longdel : bool) : Config → Config := on_net (LongDelays longdel).

Definition MakeGroupStart (gid : Z) (nsrv : nat) (cfg : Config) : res Config :=
  let* cfg := MakeGroup gid nsrv cfg in on_group gid (StartServers rand ev) cfg.

Definition ExitGroup (gid : Z) (cfg : Config) : res Config :=
  let* cfg := on_group gid (Shutdown ev) cfg in Ret (delete_group gid cfg).

(** [k] names have been drawn before; [now] is the clock after the servers started. *)
Definition MakeConfig (k n : nat) (reliable : bool) (now : Z) : res Config :=
  let (endName, t) := Randstring rand (MkTester MakeNetwork k 0 []) in
  let* cfg := MakeGroupStart GRP0 n
    (MkConfig None newGroups t endName (Some true) false 0 0 0 0) in
  Ret (SetReliable reliable
    (MkConfig Clnts.makeClnts (grps cfg) (tst cfg) (Config.endName cfg) (trpc cfg) (failed cfg) now
       (t0 cfg) (rpcs0 cfg) (ops cfg))).

(** Cleanup, with what annotation.cleanup makes of the annotations [x] of the test:
    [vis] is the rest of its arguments (see Annotation.v). *)
Definition Cleanup (order : list Z)
    (vis : bool → string → Annotation.Annotation → Annotation.Annotation * option (list Annotation.PAnn))
    (x : Annotation.Annotation) (cfg : Config) :
    res (Config * (Annotation.Annotation * option (list Annotation.PAnn))) :=
  let* '(cs, t) := Clnts.cleanup (clnts cfg) (tst cfg) in
  let* cfg := groups_cleanup order (set_tst t (set_clnts cs cfg)) in
  let* n := LabRpc.Cleanup (net (tst cfg)) in
  let cfg := on_net (λ _, n) cfg in
  let cfg := match trpc cfg with
    | Some _ => MkConfig (clnts cfg) (grps cfg) (tst cfg) (endName cfg) (Some false) (failed cfg)
                  (start cfg) (t0 cfg) (rpcs0 cfg) (ops cfg)
    | None => cfg
    end in
  Ret (cfg, if failed cfg then vis true "test failed" x else vis false "test passed" x).
End config.

Definition RpcTotal (cfg : Config) : Z := GetTotalCount (net (tst cfg)).
Definition BytesTotal (cfg : Config) : Z := GetTotalBytes (net (tst cfg)).

(** Begin: the line that it prints, and the counters it resets. *)
Definition Begin (description : string) (now : Z) (cfg : Config) : string * Config :=
  let rel := if cfg_IsReliable cfg then "reliable" else "unreliable" in
  (description +:+ " (" +:+ rel +:+ " network)...",
   MkConfig (clnts cfg) (grps cfg) (tst cfg) (endName cfg) (trpc cfg) (failed cfg) (start cfg) now
     (RpcTotal cfg) 0).

Definition CheckTimeout (now : Z) (cfg : Config) : res () :=
  if negb (failed cfg) && bool_decide (now - start cfg > 120 * 10 ^ 9) then Stop FailNow else Ret tt.

(** End: the time, the number of peers, of RPCs and of operations that it prints if
    the test has not failed. *)
Definition End_ (now : Z) (cfg : Config) : res (option (Z * Z * Z * Z)) :=
  let* _ := CheckTimeout now cfg in
  if failed cfg then Ret None
  else match lookupGroup GRP0 cfg with
    | None => Stop Panic
    | Some sg => Ret (Some (now - t0 cfg, N sg, RpcTotal cfg - rpcs0 cfg, ops cfg))
    end.

(** random_handles; [intn i] is the draw of rand.Intn(i + 1). *)
Definition swap {A} (i j : Z) (sa : list A) : res (list A) :=
  let* x := slice_get sa j in
  let* y := slice_get sa i in
  let* sa := slice_set sa i x in
  slice_set sa j y.
Definition random_handles {A} (intn : Z → Z) (kvh : list A) : res (list A) :=
  res_fold (λ sa i, swap i (intn i) sa) kvh (Z.of_nat <$> seq 0 (length kvh)).

(** ** What a test does with a configuration, and what daemons save meanwhile *)

Definition on_clnt (p : nat) (f : Clnts.Clnt → tester → res (Clnts.Clnt * tester)) (cfg : Config) :
    res Config :=
  match clnts cfg ≫= (.!! p) with
  | None => Stop Panic
  | Some c =>
      let* '(c, t) := f c (tst cfg) in
      Ret (set_tst t (set_clnts (<[p := c]> <$> clnts cfg) cfg))
  end.

Inductive op :=
| OMakeGroup (gid : Z) (nsrv : nat)
| OExitGroup (gid : Z)
| OStart (gid i : Z)
| OShutdown (gid i : Z)
| OPersist (gid i : Z) (im : image)   (** the daemon of the server saves *)
| OConnect (gid i : Z) (to : list Z)
| ODisconnect (gid i : Z) (from : list Z)
| OPartition (gid : Z) (p1 p2 : list Z)
| OReliable (b : bool)
| OLongReordering (b : bool)
| OLongDelays (b : bool)
| OMakeClient (p : nat) (to : option (list string))
| ODeleteClient (p : nat)
| OMakeEnd (p : nat) (server : string)
| OClntConnectAll (p : nat)
| OClntConnectTo (p : nat) (to : option (list string))
| OClntDisconnect (p : nat) (srv : string)
| OClntDisconnectAll (p : nat).

Section run.
Context (rand : nat → string) (ev : env).

Definition run (o : op) (cfg : Config) : res Config :=
  match o with
  | OMakeGroup gid n => MakeGroupStart rand ev gid n cfg
  | OExitGroup gid => ExitGroup ev gid cfg
  | OStart gid i => on_group gid (λ sg t,
      let* '(sg, t, _) := StartServer rand ev i sg t in Ret (sg, t)) cfg
  | OShutdown gid i => on_group gid (ShutdownServer ev i) cfg
  | OPersist gid i im => on_group gid (λ sg t, Ret (persist i im sg, t)) cfg
  | OConnect gid i to => on_group gid (connect i to) cfg
  | ODisconnect gid i from => on_group gid (disconnect i from) cfg
  | OPartition gid p1 p2 => on_group gid (Partition p1 p2) cfg
  | OReliable b => Ret (SetReliable b cfg)
  | OLongReordering b => Ret (SetLongReordering b cfg)
  | OLongDelays b => Ret (SetLongDelays b cfg)
  | OMakeClient p to => let* cs := Clnts.MakeClientTo p to (clnts cfg) in Ret (set_clnts cs cfg)
  | ODeleteClient p =>
      let* '(cs, t) := Clnts.DeleteClient p (clnts cfg) (tst cfg) in
      Ret (set_tst t (set_clnts cs cfg))
  | OMakeEnd p s => on_clnt p (λ c t,
      let* '(_, c, t) := Clnts.makeEnd rand s c t in Ret (c, t)) cfg
  | OClntConnectAll p => on_clnt p (λ c t, Ret (Clnts.ConnectAll c t)) cfg
  | OClntConnectTo p to => on_clnt p (λ c t, Ret (Clnts.ConnectTo to c t)) cfg
  | OClntDisconnect p s => on_clnt p (λ c t, Ret (Clnts.Disconnect s c t)) cfg
  | OClntDisconnectAll p => on_clnt p (λ c t, Ret (Clnts.DisconnectAll c t)) cfg
  end.

(** The arguments make sense: the group or the client exists, or does not yet
    exist, and the servers are members of the group; a server is started when it has no
    daemon, since "If restart servers, first call ShutdownServer" (srv.go). *)
Definition members (gid : Z) (l : list Z) (cfg : Config) : Prop :=
  match lookupGroup gid cfg with Some sg => Forall (member sg) l | None => False end.
Definition idle_in (gid i : Z) (cfg : Config) : Prop :=
  match lookupGroup gid cfg with Some sg => (dc <$> srvs sg !! Z.to_nat i) = Some None | None => False end.
Definition valid (o : op) (cfg : Config) : Prop :=
  match o with
  | OMakeGroup gid _ => lookupGroup gid cfg = None
  | OExitGroup gid => members gid [] cfg
  | OStart gid i => members gid [i] cfg ∧ idle_in gid i cfg
  | OShutdown gid i | OPersist gid i _ => members gid [i] cfg
  | OConnect gid i l | ODisconnect gid i l => members gid (i :: l) cfg
  | OPartition gid p1 p2 => members gid (p1 ++ p2) cfg
  | OMakeClient p _ => clnts cfg ≫= (.!! p) = None
  | OMakeEnd p _ | OClntConnectAll p | OClntConnectTo p _ | OClntDisconnect p _
  | OClntDisconnectAll p => is_Some (clnts cfg ≫= (.!! p))
  | OReliable _ | OLongReordering _ | OLongDelays _ | ODeleteClient _ => True
  end.

#[global] Instance valid_dec o cfg : Decision (valid o cfg).
Proof.
  destruct o; simpl; unfold members, idle_in; try apply _;
    destruct (lookupGroup _ cfg); unfold member; apply _.
Defined.

(** A test: its operations in order. *)
Inductive runs : list op → Config → Config → Prop :=
| runs_nil cfg : runs [] cfg cfg
| runs_cons o os cfg cfg1 cfg2 :
    valid o cfg → run o cfg = Ret cfg1 → runs os cfg1 cfg2 → runs (o :: os) cfg cfg2.
End run.

End Config.
