(* ===== verification/ConfigInv.v ===== *)
(** * The invariant of a configuration

    Lemmas on Config.v: what every operation on a group keeps, what every operation
    of a test keeps, and what the start of a group and Cleanup reach.  The processes
    start and answer ([ev]); names are drawn without repetition. *)

From S2P Require Import Prelude LabRpc Group GroupStart Clnts Annotation Config.
Import LabRpc Group GroupStart Config.

Module ConfigInv.

Definition all_ok : env := MkEnv true true true true.

Section inv.
Context (rand : nat → string) `{!Inj (=) (=) rand}.
Abbreviation ev := all_ok.

(** ** Operations on a group *)

Implicit Types x y : ServerGrp * tester.

(** A member whose daemon runs. *)
Definition alive (sg : ServerGrp) (i : Z) : Prop := member sg i ∧ is_Some (srvs sg !! Z.to_nat i ≫= dc).

(** The processes of a group are the daemons that its servers have, one each. *)
Definition counted x : Prop :=
  NoDup (procs x.2) ∧ ∀ i, (gid x.1, i) ∈ procs x.2 ↔ alive x.1 i.

Record good x : Prop := {
  g_wf : wf x.1;
  g_names : names_ok rand x.1 x.2;
  g_tester : tester_ok rand x.2;
  g_daemons s : s ∈ srvs x.1 → dc s ≠ Some None;
  g_procs : counted x
}.

Definition registered (t : tester) (nm : string) : Prop :=
  ∃ p, servers (net t) !! nm = Some (Some p).

Record rel x y : Prop := {
  r_drawn : (drawn x.2 ≤ drawn y.2)%nat;
  r_ends e : e ∈ LabRpc.ends (net x.2) → e ∈ LabRpc.ends (net y.2);
  r_done : done (net y.2) = done (net x.2);
  r_N : N y.1 = N x.1;
  r_gid : gid y.1 = gid x.1;
  r_reg nm : registered y.2 nm →
    registered x.2 nm ∨ ∃ i, member x.1 i ∧ nm = ServerName (gid x.1) i;
  r_procs p : p.1 ≠ gid x.1 → p ∈ procs y.2 ↔ p ∈ procs x.2
}.

Definition safe (r : res (ServerGrp * tester)) x : Prop := ∃ y, r = Ret y ∧ good y ∧ rel x y.

#[global] Instance rel_preorder : PreOrder rel.
Proof.
  split.
  - intros x. split; auto.
  - intros x y z [Hd He Hdn HN Hg Hr Hp] [Hd' He' Hdn' HN' Hg' Hr' Hp'].
    split; [lia|auto|congruence|congruence|congruence| |].
    2:{ intros p Hne. rewrite Hp' by congruence. by apply Hp. }
    intros nm [?|(i & Hi & ->)]%Hr'; [auto|right]. exists i. rewrite Hg. split; [|done].
    unfold member in *. by rewrite <-HN.
Qed.

Lemma safe_bind r (k : ServerGrp * tester → res (ServerGrp * tester)) x :
  safe r x → (∀ y, good y → rel x y → safe (k y) y) → safe (rbind r k) x.
Proof.
  intros (y & -> & Hy & Hxy) Hk. destruct (Hk y Hy Hxy) as (z & Heq & Hz & Hyz).
  exists z. split_and!; [done|done|by etrans].
Qed.

Lemma safe_fold {A} (f : ServerGrp * tester → A → res (ServerGrp * tester)) l x :
  good x → (∀ y i, good y → rel x y → i ∈ l → safe (f y i) y) → safe (res_fold f x l) x.
Proof.
  intros Hx Hf. assert (∀ y, good y → rel x y → safe (res_fold f y l) y) as H0;
    [|by apply H0]. revert Hf. induction l as [|i l IH]; intros Hf y Hy Hxy.
  { exists y. done. }
  cbn [res_fold]. apply safe_bind; [apply Hf; [done|done|by left]|].
  intros z Hz Hyz. apply IH; [|done|by etrans]. intros. apply Hf; [done|done|by right].
Qed.

Lemma rel_member x y i : rel x y → member x.1 i → member y.1 i.
Proof. intros [_ _ _ HN _ _ _]. unfold member. by rewrite HN. Qed.

(** Switching ends. *)
Lemma switch_safe x (conn : list bool) v es :
  good x → length conn = length (connected x.1) →
  let sg' := MkGrp (srvs x.1) (servernames x.1) (gid x.1) conn in
  good (sg', enable_all v es x.2) ∧ rel x (sg', enable_all v es x.2).
Proof.
  intros [Hwf Hn Ht Hd Hp] Hl sg'. destruct (enable_all_same v es x.2) as (Hdr & Ho & Hnet). injection Ho as Ho Hpr.
  assert (wf sg') as Hwf'.
  { destruct Hwf as [Hc He Hi]. split; [simpl; congruence|exact He|exact Hi]. }
  split; split; simpl; try done.
  - intros a b e Ha Hb He. apply (drawn_name_mono rand x.2); [by rewrite Hdr|]. by apply (Hn a b).
  - intros e. rewrite Hnet. simpl. intros ?%Ht. apply (drawn_name_mono rand x.2); [by rewrite Hdr|done].
  - unfold counted. simpl. rewrite Hpr. exact Hp.
  - by rewrite Hdr.
  - by rewrite Hnet.
  - by rewrite Hnet.
  - intros nm. unfold registered. rewrite Hnet. auto.
  - intros p _. by rewrite Hpr.
Qed.

Lemma connect_safe i to x :
  good x → member x.1 i → Forall (member x.1) to → safe (connect i to x.1 x.2) x.
Proof.
  intros Hx Hi Hto. rewrite connect_eq by (done || apply Hx).
  destruct (switch_safe x (<[Z.to_nat i := true]> (connected x.1)) true
    (ends_to i (filter (is_conn (set_conn i true x.1)) to) x.1)) as [H1 H2]; [done|by rewrite length_insert|].
  eexists. split; [done|]. split; done.
Qed.

Lemma disconnect_safe i from x :
  good x → member x.1 i → Forall (member x.1) from → safe (disconnect i from x.1 x.2) x.
Proof.
  intros Hx Hi Hto. rewrite disconnect_eq by (done || apply Hx).
  destruct (switch_safe x (<[Z.to_nat i := false]> (connected x.1)) false (ends_to i from x.1))
    as [H1 H2]; [done|by rewrite length_insert|].
  eexists. split; [done|]. split; done.
Qed.

Lemma Forall_rel x y l : rel x y → Forall (member x.1) l → Forall (member y.1) l.
Proof. intros Hr Hl. eapply list.Forall_impl; [exact Hl|]. intros i. by apply rel_member. Qed.

Lemma side_safe me other x :
  good x → Forall (member x.1) me → Forall (member x.1) other →
  safe (res_fold (λ '(sg, t) i,
      let* '(sg, t) := disconnect i other sg t in connect i me sg t) x me) x.
Proof.
  intros Hx Hme Hot. apply safe_fold; [done|]. intros [sg t] i Hy Hxy Hi.
  pose proof (Forall_rel _ _ _ Hxy Hme) as Hme'. pose proof (Forall_rel _ _ _ Hxy Hot) as Hot'.
  assert (member sg i) by (rewrite list.Forall_forall in Hme'; auto).
  apply safe_bind; [by apply (disconnect_safe i other (sg, t))|].
  intros [sg1 t1] Hz Hyz. apply (connect_safe i me (sg1, t1)); [done|by eapply rel_member|by eapply Forall_rel].
Qed.

Lemma Partition_safe p1 p2 x :
  good x → Forall (member x.1) p1 → Forall (member x.1) p2 → safe (Partition p1 p2 x.1 x.2) x.
Proof.
  intros Hx H1 H2. destruct x as [sg t]. unfold Partition. apply safe_bind; [by apply side_safe|].
  intros y Hy Hxy. apply side_safe; [done|by eapply Forall_rel..].
Qed.

(** A server without a daemon. *)
Definition idle x (i : Z) : Prop := (dc <$> srvs x.1 !! Z.to_nat i) = Some None.

(** The processes when the server [i] gets, or loses, its daemon. *)
Lemma alive_with_srv i s sg j :
  member sg i → alive (with_srv i s sg) j ↔ (if decide (j = i) then is_Some (dc s) else alive sg j).
Proof.
  intros Hi. unfold alive. rewrite member_with_srv. simpl. unfold member, N in *. case_decide as Hj.
  - subst. rewrite list_lookup_insert_eq by lia. simpl. tauto.
  - split; intros [Hm Ha]; (split; [done|]); rewrite list_lookup_insert_ne in * by lia; done.
Qed.

Lemma idle_dead x i : idle x i → ¬ alive x.1 i.
Proof.
  unfold idle, alive. intros Hi [_ Ha]. destruct (srvs x.1 !! Z.to_nat i); simplify_eq/=.
  rewrite Hi in Ha. by apply is_Some_None in Ha.
Qed.

Lemma StartServer_safe i x :
  good x → member x.1 i → idle x i →
  safe (let* '(sg, t, _) := StartServer rand ev i x.1 x.2 in Ret (sg, t)) x.
Proof.
  intros [Hwf Hn Ht Hd [Hnd Hp]] Hi Hidle. destruct (wf_lookup x.1 i Hwf Hi) as (s & es & Hs & _).
  destruct (StartServer_spec rand ev i x.1 x.2 s Hwf Hn Ht Hi Hs) as
    (t' & Heq & Hwf' & Hn' & Ht' & [Ho Hpr] & Hsv & [Hkd Hkc _ Hke Hkn] & _ & _); [done..|].
  rewrite Heq. cbn [rbind]. eexists. split; [done|]. split; split; simpl; try done.
  - intros s' Hs'. apply list_elem_of_lookup in Hs' as [k Hk].
    apply list_lookup_insert_Some in Hk as [(_ & <- & _)|[_ Hk]]; [done|].
    by eapply Hd, list_elem_of_lookup_2.
  - unfold counted. simpl. rewrite Hpr. split.
    + apply list.NoDup_cons. split; [|done]. rewrite Hp. by apply idle_dead.
    + intros j. rewrite elem_of_cons, Hp, alive_with_srv by done. simpl. case_decide; naive_solver.
  - unfold N. simpl. by rewrite length_insert.
  - intros nm [p Hp']. rewrite Hsv in Hp'. apply lookup_insert_Some in Hp' as [[<- _]|[_ Hp']].
    + right. by exists i.
    + left. by exists p.
  - intros p Hne. rewrite Hpr, elem_of_cons. naive_solver.
Qed.

(** The other servers stay as they are. *)
Lemma StartServer_others i j x y :
  good x → member x.1 i → (let* '(sg, t, _) := StartServer rand ev i x.1 x.2 in Ret (sg, t)) = Ret y →
  j ≠ i → 0 ≤ j → srvs y.1 !! Z.to_nat j = srvs x.1 !! Z.to_nat j.
Proof.
  intros [Hwf Hn Ht _ _] Hi Heq Hne Hj. destruct (wf_lookup x.1 i Hwf Hi) as (s & es & Hs & _).
  destruct (StartServer_spec rand ev i x.1 x.2 s Hwf Hn Ht Hi Hs) as (t' & Heq' & _); [done..|].
  rewrite Heq' in Heq. injection Heq as <-. simpl. apply list_lookup_insert_ne. unfold member in Hi. lia.
Qed.

Lemma shutdownServer_ok s :
  dc s ≠ Some None → ∃ s', shutdownServer ev s = Ret s' ∧ endNames s' = endNames s ∧ dc s' = None.
Proof. unfold shutdownServer. destruct (dc s) as [[im|]|] eqn:Hdc; [by eexists|done|by exists s]. Qed.

(** Shutting a server down also unregisters its name. *)
Lemma ShutdownServer_safe i x :
  good x → member x.1 i → ∃ y, ShutdownServer ev i x.1 x.2 = Ret y ∧ good y ∧ rel x y ∧
    LabRpc.ends (net y.2) = LabRpc.ends (net x.2) ∧
    (∀ nm, registered y.2 nm → registered x.2 nm ∧ nm ≠ ServerName (gid x.1) i) ∧
    (dc <$> srvs y.1 !! Z.to_nat i) = Some None ∧
    ∀ j s, srvs x.1 !! j = Some s → dc s = None → (dc <$> srvs y.1 !! j) = Some None.
Proof.
  intros [Hwf Hn Ht Hd [Hnd Hp]] Hi. destruct (wf_lookup x.1 i Hwf Hi) as (s & es & Hs & _).
  destruct (shutdownServer_ok s) as (s' & Hsh & Hen & Hdc); [by eapply Hd, list_elem_of_lookup_2|].
  destruct (ShutdownServer_gen ev i x.1 x.2 s s' Hwf Hi Hs Hsh Hen) as
    (t' & Heq & Hwf' & Hdr & [Ho Hpr] & He & Hc & Hdn & Hsv & Hl).
  assert (NoDup (procs t') ∧ ∀ q, q ∈ procs t' ↔ q ≠ (gid x.1, i) ∧ q ∈ procs x.2) as [Hnd' Hp'].
  { rewrite Hpr. destruct (dc s) as [d|] eqn:Hds; [by apply drop_proc_spec|]. split; [done|]. intros q.
    split; [|by intros []]. intros Hq. split; [|done]. intros ->. apply Hp, idle_dead in Hq; [done|].
    unfold idle. rewrite Hs. simpl. by rewrite Hds. }
  assert (∀ nm, registered t' nm → registered x.2 nm ∧ nm ≠ ServerName (gid x.1) i) as Hreg.
  { intros nm [p Hr]. rewrite Hsv in Hr. apply lookup_insert_Some in Hr as [[_ [=]]|[Hne Hr]].
    split; [by exists p|congruence]. }
  assert (Z.to_nat i < length (srvs x.1))%nat as Hlt by by eapply lookup_lt_Some.
  eexists. split; [exact Heq|]. split_and!; [| |exact He|exact Hreg| |].
  - split; simpl; [done| | | |].
    + intros a b e. rewrite !member_with_srv. intros Ha Hb. destruct (Hl a b Ha Hb) as [-> _].
      intros ?%Hn; [|done..]. apply (drawn_name_mono rand x.2); [lia|done].
    + intros e. rewrite He. intros ?%Ht. apply (drawn_name_mono rand x.2); [lia|done].
    + intros s0 Hs0. apply list_elem_of_lookup in Hs0 as [k Hk].
      apply list_lookup_insert_Some in Hk as [(_ & <- & _)|[_ Hk]]; [congruence|].
      by eapply Hd, list_elem_of_lookup_2.
    + unfold counted. simpl. split; [done|]. intros j. rewrite Hp', Hp, alive_with_srv by done.
      rewrite Hdc. change (alive (set_conn i false x.1) j) with (alive x.1 j).
      assert ((gid x.1, j) = (gid x.1, i) ↔ j = i) as Heqj by naive_solver. rewrite Heqj.
      pose proof (is_Some_None (A:=daemon)). case_decide; tauto.
  - split; simpl; [lia|by rewrite He|done|unfold N; simpl; by rewrite length_insert|done| |].
    { intros nm [? _]%Hreg. auto. }
    intros p Hne. rewrite Hp'. naive_solver.
  - simpl. rewrite list_lookup_insert_eq by done. simpl. by rewrite Hdc.
  - intros j s0 Hj Hs0. simpl. destruct (decide (j = Z.to_nat i)) as [->|].
    + rewrite list_lookup_insert_eq by done. simpl. by rewrite Hdc.
    + rewrite list_lookup_insert_ne, Hj by done. simpl. by rewrite Hs0.
Qed.
Lemma Kill_safe l x :
  good x → Forall (member x.1) l → ∃ y, Kill ev l x.1 x.2 = Ret y ∧ good y ∧ rel x y ∧
    LabRpc.ends (net y.2) = LabRpc.ends (net x.2) ∧
    (∀ nm, registered y.2 nm →
       registered x.2 nm ∧ ∀ i, i ∈ l → nm ≠ ServerName (gid x.1) i) ∧
    (∀ i, i ∈ l ∨ idle x i → idle y i).
Proof.
  unfold Kill. revert x. induction l as [|i l IH]; intros x Hx Hl.
  { exists x. destruct x. split_and!; try done.
    - intros nm ?. split; [done|]. intros i Hi. by apply not_elem_of_nil in Hi.
    - intros i [Hi|?]; [by apply not_elem_of_nil in Hi|done]. }
  apply list.Forall_cons in Hl as [Hi Hl].
  destruct (ShutdownServer_safe i x Hx Hi) as (y & Heq & Hy & Hxy & He & Hreg & Hdn & Hold).
  destruct (IH y Hy) as (z & Heqz & Hz & Hyz & Hez & Hregz & Hdnz); [by eapply Forall_rel|].
  cbn [res_fold]. rewrite Heq. cbn [rbind]. destruct x as [sg t], y as [sg1 t1].
  exists z. split_and!; [exact Heqz|done|by etrans|by rewrite Hez| |].
  - intros nm (Hn & Hnl)%Hregz. apply Hreg in Hn as [Hn Hne]. split; [done|].
    intros j [->|Hj]%elem_of_cons; [done|]. pose proof (r_gid _ _ Hxy) as Hg. simpl in *.
    rewrite <-Hg. by apply Hnl.
  - intros j Hj. apply Hdnz. destruct Hj as [[->|Hj]%elem_of_cons|Hj]; [by right|by left|].
    right. unfold idle in *. destruct (srvs _ !! Z.to_nat j) as [s|] eqn:Hs; [|done].
    simpl in Hj. eapply Hold; [exact Hs|congruence].
Qed.

Lemma all_members sg : Forall (member sg) (all sg).
Proof. apply list.Forall_forall. intros a. by rewrite elem_of_all. Qed.

Lemma Shutdown_safe x :
  good x → ∃ y, Shutdown ev x.1 x.2 = Ret y ∧ good y ∧ rel x y ∧
    LabRpc.ends (net y.2) = LabRpc.ends (net x.2) ∧
    (∀ nm, registered y.2 nm →
       registered x.2 nm ∧ ∀ i, member x.1 i → nm ≠ ServerName (gid x.1) i) ∧
    (∀ s, s ∈ srvs y.1 → dc s = None).
Proof.
  intros Hx. destruct (Kill_safe (all x.1) x Hx (all_members _)) as (y & Heq & Hy & Hxy & He & Hreg & Hdn).
  exists y. split_and!; try done.
  - intros nm [? Hn]%Hreg. split; [done|]. intros i Hi. apply Hn. by apply elem_of_all.
  - intros s [k Hk]%list_elem_of_lookup. pose proof (lookup_lt_Some _ _ _ Hk) as Hlt.
    assert (idle y (Z.of_nat k)) as Hd.
    { apply Hdn. left. apply elem_of_all. pose proof (r_N _ _ Hxy). unfold member, N in *. lia. }
    unfold idle in Hd. rewrite Nat2Z.id, Hk in Hd. by simplify_eq/=.
Qed.

(** A server that saves keeps its ends. *)
Lemma persist_ends i im sg a b : end_name (persist i im sg) a b = end_name sg a b.
Proof.
  unfold persist. destruct (srvs sg !! Z.to_nat i) as [[sv es [[im0|]|]]|] eqn:Hs; try done.
  unfold end_name. simpl. destruct (decide (Z.to_nat a = Z.to_nat i)) as [->|].
  - by rewrite list_lookup_insert_eq, Hs by by eapply lookup_lt_Some.
  - by rewrite list_lookup_insert_ne.
Qed.

Lemma persist_safe i im x : good x → good (persist i im x.1, x.2) ∧ rel x (persist i im x.1, x.2).
Proof.
  intros Hx. pose proof (persist_ends i im x.1) as Hen. unfold persist in *. destruct (srvs x.1 !! Z.to_nat i) as [[sv es [[im0|]|]]|] eqn:Hs;
    try (destruct x as [sg t]; split; [exact Hx|done]).
  destruct Hx as [Hwf Hn Ht Hd [Hnd Hp]]. set (ss := <[Z.to_nat i := _]> (srvs x.1)) in *.
  assert (length ss = length (srvs x.1)) as Hl by apply length_insert.
  set (sg' := MkGrp ss _ _ _) in *.
  assert (∀ a, member sg' a ↔ member x.1 a) as Hm by (intros a; unfold member, N; simpl; by rewrite Hl).
  assert (∀ s, s ∈ ss → ∃ s0, s0 ∈ srvs x.1 ∧ endNames s = endNames s0 ∧ (dc s ≠ Some None ∨ s = s0)) as Hin.
  { intros s [k Hk]%list_elem_of_lookup. apply list_lookup_insert_Some in Hk as [(_ & <- & _)|[_ Hk]].
    - eexists. split; [by eapply list_elem_of_lookup_2|]. simpl. split; [done|by left].
    - exists s. split; [by eapply list_elem_of_lookup_2|auto]. }
  split; split; simpl; try done.
  - split; simpl; [by rewrite Hl; apply (wf_conn _ Hwf)| |].
    + intros s (s0 & Hs0 & -> & _)%Hin. rewrite Hl. by apply (wf_ends _ Hwf).
    + intros a b a' b' e. rewrite !Hm, !Hen. apply (wf_inj _ Hwf).
  - intros a b e. rewrite !Hm, Hen. apply Hn.
  - intros s (s0 & Hs0 & _ & [?| ->])%Hin; [done|by apply Hd].
  - split; [done|]. intros j. simpl. rewrite Hp. unfold alive. rewrite Hm. simpl. unfold ss.
    destruct (decide (Z.to_nat j = Z.to_nat i)) as [->|]; [|by rewrite list_lookup_insert_ne].
    rewrite list_lookup_insert_eq, Hs by by eapply lookup_lt_Some. simpl. split; (intros [? _]; by split).
  - unfold N. simpl. by rewrite Hl.
  - auto.
Qed.

(** ** Starting a group *)

(** The state that a server has, or that it will have when it is started. *)
Definition image_of (s : Server) : image :=
  match dc s with Some (Some im) => im | _ => default no_image (saved s) end.

(** A server that runs with the state [im i], is registered, and whose ends lead to
    the servers of the group. *)
Definition up (im : Z → image) x (i : Z) : Prop :=
  (dc <$> srvs x.1 !! Z.to_nat i) = Some (Some (Some (im i))) ∧
  registered x.2 (ServerName (gid x.1) i) ∧ row_routed x.1 x.2 i.

(** A server without a daemon, which will have the state [im i]. *)
Definition waits (im : Z → image) x (i : Z) : Prop :=
  ∃ s, srvs x.1 !! Z.to_nat i = Some s ∧ dc s = None ∧ default no_image (saved s) = im i.

Lemma waits_idle im x i : waits im x i → idle x i.
Proof. intros (s & Hs & Hdc & _). unfold idle. rewrite Hs. simpl. by rewrite Hdc. Qed.

Lemma StartServer_up im i x :
  good x → member x.1 i → waits im x i → ∃ y,
    (let* '(sg, t, _) := StartServer rand ev i x.1 x.2 in Ret (sg, t)) = Ret y ∧ good y ∧ rel x y ∧
    connected y.1 = connected x.1 ∧ up im y i ∧
    (∀ j, member x.1 j → up im x j → up im y j) ∧ (∀ j, 0 ≤ j → j ≠ i → waits im x j → waits im y j).
Proof.
  intros Hx Hi Hw. destruct (StartServer_safe i x Hx Hi (waits_idle im x i Hw)) as (y & Heq & Hy & Hxy).
  destruct Hw as (s & Hs & _ & Hsv0). destruct Hx as [Hwf Hn Ht Hd _].
  destruct (StartServer_spec rand ev i x.1 x.2 s Hwf Hn Ht Hi Hs) as
    (t' & Heq' & _ & _ & _ & _ & Hsv & Hk & Hrow & _); [done..|].
  rewrite Heq' in Heq. cbn [rbind] in Heq. injection Heq as <-. rewrite Heq'.
  assert (up im (with_srv i (started rand (default no_image (saved s)) x.2 (length (srvs x.1))) x.1, t') i) as Hup.
  { unfold up. simpl. split_and!; [|eexists; rewrite Hsv; by apply lookup_insert_eq|done].
    rewrite list_lookup_insert_eq by by eapply lookup_lt_Some. simpl. by rewrite Hsv0. }
  eexists. split; [done|]. split_and!; [done|done|done|done| |].
  - intros j Hj (Hdc & [p Hp] & Hr). destruct (decide (j = i)) as [->|Hne]; [done|]. unfold up. simpl. split_and!.
    + rewrite list_lookup_insert_ne; [done|]. unfold member in *. lia.
    + unfold registered. simpl. rewrite Hsv.
      destruct (decide (ServerName (gid x.1) j = ServerName (gid x.1) i)) as [->|].
      * rewrite lookup_insert_eq. eauto.
      * rewrite lookup_insert_ne by done. eauto.
    + intros b. rewrite member_with_srv. intros Hb. rewrite end_name_with_srv by done.
      rewrite decide_False by done. destruct (Hr b Hb) as (e & He & Hce). exists e. split; [done|].
      destruct Hk as [_ Hkc _ _ _]. simpl. rewrite Hkc; [done|]. by apply (Hn j b).
  - intros j Hj0 Hj (s' & Hs' & ? & ?). exists s'. simpl. rewrite list_lookup_insert_ne; [done|].
    unfold member in *. lia.
Qed.

Lemma StartSrvs_up im l x :
  good x → NoDup l → Forall (member x.1) l → (∀ i, i ∈ l → waits im x i) → ∃ y,
    StartSrvs rand ev l x.1 x.2 = Ret y ∧ good y ∧ rel x y ∧ connected y.1 = connected x.1 ∧
    ∀ i, member x.1 i → i ∈ l ∨ up im x i → up im y i.
Proof.
  unfold StartSrvs. revert x. induction l as [|i l IH]; intros x Hx Hnd Hl Hun.
  { exists x. destruct x. split_and!; try done. intros i _ [Hi|?]; [by apply not_elem_of_nil in Hi|done]. }
  apply list.NoDup_cons in Hnd as [Hil Hnd]. pose proof Hl as [Hi Hl']%list.Forall_cons.
  destruct (StartServer_up im i x Hx Hi) as (y & Heq & Hy & Hxy & Hc & Hu & Hup & Hkeep); [apply Hun; by left|].
  destruct (IH y Hy Hnd) as (z & Heqz & Hz & Hyz & Hcz & Huz); [by eapply Forall_rel| |].
  { intros j Hj. rewrite list.Forall_forall in Hl'. apply Hkeep; [by apply Hl'|congruence|].
    apply Hun. by right. }
  cbn [res_fold]. rewrite Heq. cbn [rbind]. destruct y as [sg1 t1].
  exists z. split_and!; [exact Heqz|done|by etrans|by rewrite Hcz|].
  intros j Hj Hor. apply Huz; [by eapply rel_member|].
  destruct Hor as [[->|Hjl]%elem_of_cons|Hj']; auto.
Qed.

(** Connecting: the links among the connected servers are on. *)
Definition complete x : Prop := ∀ a b, member x.1 a → member x.1 b →
  is_conn x.1 a → is_conn x.1 b → linked x.1 x.2 a b = true.

Lemma ConnectOne_complete i x :
  good x → member x.1 i → complete x → ∃ y, ConnectOne i x.1 x.2 = Ret y ∧ good y ∧ rel x y ∧
    srvs y.1 = srvs x.1 ∧ same_but_enabled x.2 y.2 ∧ complete y ∧
    ∀ a, member x.1 a → is_conn y.1 a ↔ a = i ∨ is_conn x.1 a.
Proof.
  intros Hx Hi Hc. pose proof (g_wf x Hx) as Hwf. pose proof (all_members x.1) as Hall.
  destruct (connect_safe i (all x.1) x Hx Hi Hall) as (y & Heq & Hy & Hxy).
  unfold ConnectOne. rewrite Heq. exists y. rewrite connect_eq in Heq by done.
  set (sg' := set_conn i true x.1) in *. injection Heq as <-.
  assert (∀ a, member x.1 a → is_conn sg' a ↔ a = i ∨ is_conn x.1 a) as Hconn.
  { intros a Ha. unfold sg'. rewrite is_conn_set_conn by done. case_decide; tauto. }
  split_and!; [done|done|done|done|apply enable_all_same| |exact Hconn].
  intros a b Ha Hb Hca Hcb. simpl in *. change (linked sg') with (linked x.1).
  rewrite linked_enable_all by (done || by apply Forall_filter).
  pose proof (Hconn a Ha). pose proof (Hconn b Hb).
  pose proof (list_elem_of_filter (is_conn sg') (all x.1)) as Hf.
  pose proof (Hf a). pose proof (Hf b). pose proof (elem_of_all x.1 a). pose proof (elem_of_all x.1 b).
  case_decide as Hd; [done|]. apply Hc; tauto.
Qed.

Lemma Connect_complete l x :
  good x → Forall (member x.1) l → complete x → ∃ y,
    res_fold (λ '(sg, t) i, ConnectOne i sg t) x l = Ret y ∧ good y ∧ rel x y ∧
    srvs y.1 = srvs x.1 ∧ same_but_enabled x.2 y.2 ∧ complete y ∧
    ∀ a, member x.1 a → is_conn y.1 a ↔ a ∈ l ∨ is_conn x.1 a.
Proof.
  revert x. induction l as [|i l IH]; intros x Hx Hl Hc.
  { exists x. split_and!; try done; [by destruct x as [sg [[]]]|].
    intros a _. split; [auto|]. intros [Ha|?]; [by apply not_elem_of_nil in Ha|done]. }
  apply list.Forall_cons in Hl as [Hi Hl].
  destruct (ConnectOne_complete i x Hx Hi Hc) as (y & Heq & Hy & Hxy & Hs & Hsm & Hcy & Hca).
  destruct (IH y Hy) as (z & Heqz & Hz & Hyz & Hsz & Hsmz & Hcz & Haz); [by eapply Forall_rel|done|].
  exists z. destruct x as [sg t]. cbn [res_fold]. simpl in Heq. rewrite Heq. cbn [rbind].
  split_and!; [done|done|by etrans|congruence| |done|].
  - destruct Hsm as (? & ? & H1), Hsmz as (? & ? & H2). split_and!; [congruence..|]. rewrite H2. by rewrite H1.
  - intros a Ha. rewrite Haz, Hca, elem_of_cons by (done || by eapply rel_member). tauto.
Qed.

Lemma same_up im x y i :
  srvs y.1 = srvs x.1 → gid y.1 = gid x.1 → same_but_enabled x.2 y.2 → up im x i → up im y i.
Proof.
  destruct x as [[ss nm g c] t], y as [[ss' nm' g' c'] t']. simpl. intros -> -> (_ & _ & Hnet).
  unfold up, registered, row_routed. simpl. rewrite Hnet. simpl. done.
Qed.

(** A group of servers that are not connected is ready when it is started: every server
    is up and connected, and every link is on. *)
Lemma StartServers_ready im x :
  good x → (∀ i, member x.1 i → waits im x i) → (∀ i, member x.1 i → ¬ is_conn x.1 i) →
  ∃ y, StartServers rand ev x.1 x.2 = Ret y ∧ good y ∧ rel x y ∧
    ∀ a, member x.1 a → up im y a ∧ is_conn y.1 a ∧
      ∀ b, member x.1 b → linked y.1 y.2 a b = true.
Proof.
  intros Hx Hun Hnc. unfold StartServers.
  destruct (StartSrvs_up im (all x.1) x Hx) as (y & Heq & Hy & Hxy & Hc & Hu).
  { unfold all. apply NoDup_fmap_2; [apply _|apply NoDup_seq]. }
  { apply all_members. }
  { intros i Hi%elem_of_all. by apply Hun. }
  rewrite Heq. cbn [rbind]. destruct y as [sg t]. unfold ConnectAll.
  assert (∀ a, member sg a ↔ member x.1 a) as Hm by (intros a; pose proof (r_N _ _ Hxy) as HN; simpl in HN; unfold member; by rewrite HN).
  destruct (Connect_complete (all sg) (sg, t) Hy) as (z & Heqz & Hz & Hyz & Hsz & Hsmz & Hcz & Haz).
  { apply all_members. }
  { intros a b Ha%Hm _ Hca. destruct (Hnc a Ha). unfold is_conn in *. simpl in *. by rewrite <-Hc. }
  exists z. split_and!; [done|done|by etrans|]. intros a Ha.
  assert (∀ b, member x.1 b → is_conn z.1 b) as Hall.
  { intros b Hb%Hm. apply Haz; [done|]. left. by apply elem_of_all. }
  split_and!; [|by apply Hall|].
  - eapply same_up; [done|apply (r_gid _ _ Hyz)|done|]. apply Hu; [done|]. left. by apply elem_of_all.
  - intros b Hb. apply Hcz; [..|by apply Hall|by apply Hall];
      apply (rel_member _ _ _ Hyz); by apply Hm.
Qed.

(** ** Shutting a group down and starting it again *)

Definition keeps (im : Z → image) x : Prop :=
  ∀ j s, 0 ≤ j → srvs x.1 !! Z.to_nat j = Some s → image_of s = im j.

Lemma shutdownServer_image s s' : shutdownServer ev s = Ret s' → dc s ≠ Some None → image_of s' = image_of s.
Proof. unfold shutdownServer, image_of. destruct (dc s) as [[im|]|] eqn:Hdc; intros [= <-] ?; simpl; by rewrite ?Hdc. Qed.

Lemma ShutdownServer_keeps im i x y :
  good x → member x.1 i → keeps im x → ShutdownServer ev i x.1 x.2 = Ret y →
  keeps im y ∧ ∀ j, member x.1 j → j = i ∨ ¬ is_conn x.1 j → ¬ is_conn y.1 j.
Proof.
  intros [Hwf _ _ Hd _] Hi Hk Heq. destruct (wf_lookup x.1 i Hwf Hi) as (s & es & Hs & _).
  assert (dc s ≠ Some None) as Hdc by by eapply Hd, list_elem_of_lookup_2.
  destruct (shutdownServer_ok s Hdc) as (s' & Hsh & Hen & _).
  destruct (ShutdownServer_gen ev i x.1 x.2 s s' Hwf Hi Hs Hsh Hen) as (t' & Heq' & _).
  rewrite Heq in Heq'. injection Heq' as ->. split; simpl.
  - intros j s0 Hj Hl. apply list_lookup_insert_Some in Hl as [(Hji & <- & _)|[_ Hl]]; [|by apply Hk].
    rewrite (shutdownServer_image s) by done. apply Hk; [done|]. by rewrite <-Hji.
  - intros j Hj Hor. change (¬ is_conn (set_conn i false x.1) j). rewrite is_conn_set_conn by done.
    case_decide; [done|naive_solver].
Qed.

Lemma Kill_keeps im l x y :
  good x → Forall (member x.1) l → keeps im x → Kill ev l x.1 x.2 = Ret y →
  keeps im y ∧ ∀ j, member x.1 j → j ∈ l ∨ ¬ is_conn x.1 j → ¬ is_conn y.1 j.
Proof.
  unfold Kill. revert x. induction l as [|i l IH]; intros x Hx Hl Hk.
  { destruct x. intros [= <-]. split; [done|]. intros j _ [Hj|?]; [by apply not_elem_of_nil in Hj|done]. }
  apply list.Forall_cons in Hl as [Hi Hl]. cbn [res_fold].
  destruct (ShutdownServer_safe i x Hx Hi) as (x1 & Heq & Hx1 & Hr & _). rewrite Heq. cbn [rbind].
  destruct (ShutdownServer_keeps im i x x1 Hx Hi Hk Heq) as [Hk1 Hc1]. intros Heqy. destruct x1 as [sg1 t1].
  destruct (IH (sg1, t1) Hx1) as [Hky Hcy]; [by eapply Forall_rel|done|exact Heqy|]. split; [done|].
  intros j Hj Hor. apply Hcy; [by eapply rel_member|]. destruct Hor as [[->|?]%elem_of_cons|?]; auto.
Qed.

(** All servers are down and disconnected, with the state [im] saved. *)
Definition off (im : Z → image) (sg : ServerGrp) : Prop :=
  ∀ i, member sg i → ¬ is_conn sg i ∧
    ∃ s, srvs sg !! Z.to_nat i = Some s ∧ dc s = None ∧ default no_image (saved s) = im i.

Lemma Shutdown_off im x :
  good x → keeps im x → ∃ y, Shutdown ev x.1 x.2 = Ret y ∧ good y ∧ rel x y ∧ off im y.1.
Proof.
  intros Hx Hk. destruct (Shutdown_safe x Hx) as (y & Heq & Hy & Hxy & _ & _ & Hdown).
  destruct (Kill_keeps im (all x.1) x y Hx (all_members _) Hk Heq) as [Hky Hcy].
  exists y. split_and!; [done..|]. intros i Hi. assert (member x.1 i) as Hm by (unfold member in *; by rewrite <-(r_N _ _ Hxy)).
  split; [apply Hcy; [done|]; left; by apply elem_of_all|].
  destruct (wf_lookup y.1 i (g_wf y Hy) Hi) as (s & _ & Hs & _). assert (dc s = None) as Hdc by by eapply Hdown, list_elem_of_lookup_2.
  exists s. split_and!; [done..|]. rewrite <-(Hky i s) by (done || apply Hi). unfold image_of. by rewrite Hdc.
Qed.

Lemma StartServers_off im x :
  good x → off im x.1 → ∃ y, StartServers rand ev x.1 x.2 = Ret y ∧ good y ∧ rel x y ∧
    ∀ a, member x.1 a → up im y a ∧ is_conn y.1 a ∧ ∀ b, member x.1 b → linked y.1 y.2 a b = true.
Proof.
  intros Hx Hoff. apply StartServers_ready; [done|..]; intros i Hi; destruct (Hoff i Hi) as (? & s & ? & ? & ?); [by exists s|done].
Qed.

(** ** The invariant of a configuration *)

Definition client (p : nat) (cfg : Config) : option Clnts.Clnt := clnts cfg ≫= (.!! p).

(** The groups are well formed and no daemon of theirs lacks its state; a name that
    is registered is the name of a server of one of the groups; every client has
    ends of its own, which exist. *)
Record ok (cfg : Config) : Prop := {
  ok_tester : tester_ok rand (tst cfg);
  ok_done : done (net (tst cfg)) = false;
  ok_groups g sg : grps cfg !! g = Some sg → gid sg = g ∧ good (sg, tst cfg);
  ok_procs : NoDup (procs (tst cfg)) ∧ ∀ p, p ∈ procs (tst cfg) → is_Some (grps cfg !! p.1);
  ok_reg nm : registered (tst cfg) nm →
    ∃ g sg i, grps cfg !! g = Some sg ∧ member sg i ∧ nm = ServerName g i;
  ok_clnt p c : client p cfg = Some c → Clnts.distinct (Clnts.ends c) ∧
    ∀ e, e ∈ Clnts.end_names c → e ∈ LabRpc.ends (net (tst cfg));
  ok_disj p p' c c' e : client p cfg = Some c → client p' cfg = Some c' → p ≠ p' →
    e ∈ Clnts.end_names c → e ∉ Clnts.end_names c'
}.

Lemma ok_processes cfg :
  ok cfg → NoDup (procs (tst cfg)) ∧ ∀ g i, (g, i) ∈ procs (tst cfg) ↔
    ∃ sg, grps cfg !! g = Some sg ∧ 0 ≤ i ∧ is_Some (srvs sg !! Z.to_nat i ≫= dc).
Proof.
  intros [_ _ Hg [Hnd Hp] _ _ _]. split; [done|]. intros g i. split.
  - intros Hin. destruct (Hp _ Hin) as [sg Hsg]. simpl in Hsg. destruct (Hg g sg Hsg) as [Hgid [_ _ _ _ [_ Hc]]].
    simpl in Hc. rewrite Hgid in Hc. pose proof (proj1 (Hc i) Hin) as [Hm Ha]. exists sg. split_and!; [done|apply Hm|done].
  - intros (sg & Hsg & Hi & Hs). destruct (Hg g sg Hsg) as [Hgid [_ _ _ _ [_ Hc]]]. simpl in Hc. rewrite Hgid in Hc.
    apply Hc. split; [|done]. destruct Hs as [d Hs]. apply bind_Some in Hs as (s & Hs & _).
    apply lookup_lt_Some in Hs. unfold member, N. lia.
Qed.

Lemma good_mono sg t t' :
  good (sg, t) → (drawn t ≤ drawn t')%nat → tester_ok rand t' →
  NoDup (procs t') ∧ (∀ i, (gid sg, i) ∈ procs t' ↔ (gid sg, i) ∈ procs t) → good (sg, t').
Proof.
  intros [Hwf Hn Ht Hd [_ Hp]] Hle Ht' [Hnd' Hp']. split; [done| |done|done|].
  - intros a b e Ha Hb He. apply (drawn_name_mono rand t); [done|]. by apply (Hn a b).
  - split; [done|]. intros i. simpl. rewrite Hp'. apply Hp.
Qed.

Lemma good_same sg t t' :
  good (sg, t) → (drawn t ≤ drawn t')%nat → tester_ok rand t' → procs t' = procs t → good (sg, t').
Proof. intros Hg Hle Ht' Hp. eapply good_mono; [done|done|done|]. rewrite Hp. split; [apply (g_procs _ Hg)|done]. Qed.

Lemma update_ok cfg g y :
  ok cfg → gid y.1 = g → good y →
  (drawn (tst cfg) ≤ drawn y.2)%nat →
  (∀ e, e ∈ LabRpc.ends (net (tst cfg)) → e ∈ LabRpc.ends (net y.2)) →
  done (net y.2) = done (net (tst cfg)) →
  (∀ nm, registered y.2 nm → registered (tst cfg) nm ∨ ∃ i, member y.1 i ∧ nm = ServerName g i) →
  (∀ p, p.1 ≠ g → p ∈ procs y.2 ↔ p ∈ procs (tst cfg)) →
  (∀ sg, grps cfg !! g = Some sg → N y.1 = N sg) →
  ok (set_tst y.2 (set_grps (<[g := y.1]> (grps cfg)) cfg)).
Proof.
  intros [Ht Hdn Hg Hpr Hreg Hc Hdj] Hgid Hy Hdr He Hd Hr Hps HN. split; simpl.
  - apply Hy.
  - congruence.
  - intros g' sg'. rewrite lookup_insert_Some. intros [[<- <-]|[Hne Hl]]; [by destruct y|].
    destruct (Hg g' sg' Hl) as [Hg' ?]. split; [done|]. eapply good_mono; [done|done|apply Hy|].
    split; [apply (g_procs _ Hy)|]. intros i. apply Hps. simpl. congruence.
  - split; [apply (g_procs _ Hy)|]. intros p Hin. rewrite lookup_insert_is_Some'. destruct (decide (p.1 = g)); [by left|right].
    apply Hpr. by apply Hps.
  - intros nm [Hn|(i & Hi & ->)]%Hr.
    + destruct (Hreg nm Hn) as (g' & sg' & i & Hl & Hi & ->). destruct (decide (g' = g)) as [->|].
      * exists g, y.1, i. rewrite lookup_insert_eq. split_and!; [done| |done].
        unfold member in *. by rewrite (HN sg').
      * exists g', sg', i. by rewrite lookup_insert_ne.
    + exists g, y.1, i. by rewrite lookup_insert_eq.
  - intros p c Hp. destruct (Hc p c Hp) as [? He']. split; [done|]. auto.
  - exact Hdj.
Qed.

Lemma on_group_ok g f sg cfg :
  ok cfg → lookupGroup g cfg = Some sg → safe (f sg (tst cfg)) (sg, tst cfg) →
  ∃ cfg', on_group g f cfg = Ret cfg' ∧ ok cfg' ∧ clnts cfg' = clnts cfg.
Proof.
  intros Hok Hg (y & Heq & Hy & [Hd He Hdn HN Hgid Hr Hp]). unfold on_group. rewrite Hg, Heq. cbn [rbind].
  destruct y as [sg' t']. eexists. split; [done|]. destruct (ok_groups cfg Hok g sg Hg) as [Hsg _].
  split; [|done]. eapply (update_ok cfg g (sg', t')); simpl in *; try done.
  - congruence.
  - intros nm [?|(i & Hi & ->)]%Hr; [auto|right]. exists i. rewrite Hsg. split; [|done].
    unfold member in *. by rewrite HN.
  - intros p. rewrite <-Hsg. apply Hp.
  - intros sg0. unfold lookupGroup in Hg. congruence.
Qed.

Lemma MakeGroup_ok g n cfg :
  ok cfg → grps cfg !! g = None → ∃ cfg' sg,
    MakeGroup rand g n cfg = Ret cfg' ∧ ok cfg' ∧ clnts cfg' = clnts cfg ∧
    grps cfg' = <[g := sg]> (grps cfg) ∧ N sg = Z.of_nat n ∧ gid sg = g ∧
    (∀ i, member sg i → waits (λ _, no_image) (sg, tst cfg') i ∧ ¬ is_conn sg i).
Proof.
  intros Hok Hg. destruct (makeSrvGrp_spec rand g n (tst cfg) (ok_tester cfg Hok)) as
    (sg & t' & Heq & Hwf & Hn & Ht & HN & Hnc & Hgid & Hnew & [Hsv Hpr] & [Hkd _ _ Hke Hkn] & _).
  unfold MakeGroup. rewrite Heq. cbn [rbind]. rewrite list.Forall_forall in Hnew.
  eexists _, sg. split; [done|]. split_and!; try done.
  - apply (update_ok cfg g (sg, t')); simpl; try done.
    + assert (∀ i, ¬ (g, i) ∈ procs (tst cfg)) as Hno.
      { intros i Hin%(proj2 (ok_procs cfg Hok)). simpl in Hin. rewrite Hg in Hin. by apply is_Some_None in Hin. }
      split; simpl; try done; [intros s [_ ->]%Hnew; done|]. unfold counted. simpl. rewrite Hpr, Hgid. split.
      { apply (ok_procs cfg Hok). }
      intros i. split; [by intros ?%Hno|]. intros [Hi [d Hd]]. apply bind_Some in Hd as (s & Hs & Hd).
      destruct (Hnew s) as [_ ?]; [by eapply list_elem_of_lookup_2|congruence].
    + intros nm. unfold registered. rewrite Hsv. auto.
    + intros p _. by rewrite Hpr.
    + intros sg'. by rewrite Hg.
  - intros i Hi. split; [|by apply Hnc]. destruct (wf_lookup sg i Hwf Hi) as (s & _ & Hs & _).
    exists s. split; [done|]. by destruct (Hnew s) as [-> ->]; [by eapply list_elem_of_lookup_2|].
Qed.

(** ** Clients *)

Lemma update_clnt_ok cfg p c' t' :
  ok cfg → (drawn (tst cfg) ≤ drawn t')%nat →
  (∀ e, e ∈ LabRpc.ends (net (tst cfg)) → e ∈ LabRpc.ends (net t')) →
  done (net t') = done (net (tst cfg)) → servers (net t') = servers (net (tst cfg)) →
  procs t' = procs (tst cfg) → tester_ok rand t' → Clnts.distinct (Clnts.ends c') →
  (∀ e, e ∈ Clnts.end_names c' → e ∈ LabRpc.ends (net t') ∧
     ((∃ c, client p cfg = Some c ∧ e ∈ Clnts.end_names c) ∨ ¬ drawn_name rand (tst cfg) e)) →
  ok (set_tst t' (set_clnts (<[p := c']> <$> clnts cfg) cfg)).
Proof.
  intros [Ht Hdn Hg Hpr Hreg Hc Hdj] Hd He Hdone Hsv Hp Ht' Hdist Hends.
  assert (∀ q c, client q (set_tst t' (set_clnts (<[p := c']> <$> clnts cfg) cfg)) = Some c →
    (q = p ∧ c = c') ∨ (q ≠ p ∧ client q cfg = Some c)) as Hcl.
  { intros q c. unfold client. simpl. destruct (clnts cfg) as [m|]; [|done]. simpl.
    rewrite lookup_insert_Some. naive_solver. }
  assert (∀ q c e, client q cfg = Some c → q ≠ p → e ∈ Clnts.end_names c →
    e ∉ Clnts.end_names c') as Hnew.
  { intros q c e Hq Hne Hec [_ [(c0 & Hc0 & He0)|Hnd]]%Hends.
    - by apply (Hdj q p c c0 e).
    - apply Hnd, Ht. by apply (Hc q c). }
  split; simpl.
  - done.
  - congruence.
  - intros g sg Hl. destruct (Hg g sg Hl). split; [done|]. by eapply good_same.
  - by rewrite Hp.
  - intros nm. unfold registered. rewrite Hsv. apply Hreg.
  - intros q c [[-> ->]|[Hne Hq]]%Hcl.
    + split; [done|]. intros e Hin. by apply Hends.
    + destruct (Hc q c Hq) as [? ?]. split; [done|]. auto.
  - intros q q' c c0 e Hq Hq' Hne. apply Hcl in Hq as [[-> ->]|[Hqp Hq]], Hq' as [[-> ->]|[Hqp' Hq']].
    + done.
    + intros Hin Hin0. by apply (Hnew q' c0 e).
    + intros Hin. by apply (Hnew q c e).
    + by apply (Hdj q q').
Qed.

Lemma remove_frame c t t' :
  Clnts.remove c t = Ret t' → drawn t' = drawn t ∧ done (net t') = done (net t) ∧ procs t' = procs t.
Proof.
  unfold Clnts.remove. generalize (Clnts.end_names c). intros l. revert t.
  induction l as [|e l IH]; intros t; cbn [res_fold]; [by intros [= ->]|].
  unfold DeleteEnd. case_bool_decide; cbn [rbind]; [|done]. intros Heq%IH. done.
Qed.

Lemma remove_all (l : list (nat * Clnts.Clnt)) t :
  NoDup (l ≫= λ q : nat * Clnts.Clnt, Clnts.end_names q.2) →
  (∀ q e, q ∈ l → e ∈ Clnts.end_names q.2 → e ∈ LabRpc.ends (net t)) →
  ∃ t', res_fold (λ t c, Clnts.remove c t) t l.*2 = Ret t' ∧
    (∀ e, e ∈ LabRpc.ends (net t') ↔
       e ∈ LabRpc.ends (net t) ∧ ∀ q, q ∈ l → e ∉ Clnts.end_names q.2) ∧
    servers (net t') = servers (net t) ∧ drawn t' = drawn t ∧ done (net t') = done (net t) ∧ procs t' = procs t.
Proof.
  revert t. induction l as [|[p c] l IH]; intros t Hnd Hin.
  { exists t. split_and!; try done. intros e. split; [|by intros []]. intros ?. split; [done|].
    intros q Hx. by apply not_elem_of_nil in Hx. }
  cbn [mbind list_bind app] in Hnd. apply list.NoDup_app in Hnd as (Hc & Hdisj & Hl). cbn [fmap list_fmap res_fold].
  destruct (Clnts.remove_spec c t Hc) as (t1 & Heq & He1 & _ & _ & Hs1).
  { intros e He. apply (Hin (p, c)); [by left|done]. }
  destruct (remove_frame c t t1 Heq) as (Hd1 & Hn1 & Hp1). simpl. rewrite Heq. cbn [rbind].
  destruct (IH t1 Hl) as (t2 & Heq2 & He2 & Hs2 & Hd2 & Hn2 & Hp2).
  { intros q e Hx He. apply He1. split; [apply (Hin q); [by right|done]|].
    intros Hec. apply (Hdisj e Hec). apply list_elem_of_bind. eauto. }
  exists t2. split_and!; [done| |congruence..]. intros e. rewrite He2, He1. split.
  - intros [[? ?] ?]. split; [done|]. intros q [->|?]%elem_of_cons; auto.
  - intros [? Hno]. split_and!; [done|apply (Hno (p, c)); by left|].
    intros q ?. apply Hno. by right.
Qed.

(** The ends of different clients differ. *)
Lemma clients_NoDup cfg m :
  ok cfg → clnts cfg = Some m →
  NoDup (map_to_list m ≫= λ q : nat * Clnts.Clnt, Clnts.end_names q.2).
Proof.
  intros Hok Hm.
  assert (∀ q, q ∈ map_to_list m → client q.1 cfg = Some q.2) as Hcl.
  { intros [p c] Hx%elem_of_map_to_list. unfold client. by rewrite Hm. }
  apply NoDup_bind; [| |apply NoDup_map_to_list].
  - intros q1 q2 e H1 H2 He1 He2. destruct (decide (q1.1 = q2.1)) as [Heq|Hne].
    + pose proof (Hcl q1 H1) as Hc1. pose proof (Hcl q2 H2) as Hc2. destruct q1, q2. simpl in *. congruence.
    + by destruct (ok_disj cfg Hok q1.1 q2.1 q1.2 q2.2 e (Hcl _ H1) (Hcl _ H2) Hne).
  - intros q Hx. apply Clnts.NoDup_end_names. by apply (ok_clnt cfg Hok q.1), Hcl.
Qed.

Lemma on_clnt_ok p f c cfg :
  ok cfg → client p cfg = Some c →
  (∃ c' t', f c (tst cfg) = Ret (c', t') ∧
     (drawn (tst cfg) ≤ drawn t')%nat ∧ tester_ok rand t' ∧
     (∀ e, e ∈ LabRpc.ends (net (tst cfg)) → e ∈ LabRpc.ends (net t')) ∧
     done (net t') = done (net (tst cfg)) ∧ servers (net t') = servers (net (tst cfg)) ∧
     procs t' = procs (tst cfg) ∧
     Clnts.distinct (Clnts.ends c') ∧
     ∀ e, e ∈ Clnts.end_names c' → e ∈ LabRpc.ends (net t') ∧
       (e ∈ Clnts.end_names c ∨ ¬ drawn_name rand (tst cfg) e)) →
  ∃ cfg', on_clnt p f cfg = Ret cfg' ∧ ok cfg' ∧ is_Some (clnts cfg').
Proof.
  intros Hok Hp (c' & t' & Heq & Hd & Ht & He & Hdn & Hs & Hpr & Hdist & Hends).
  unfold on_clnt. unfold client in Hp. rewrite Hp, Heq. cbn [rbind]. eexists. split; [done|]. split.
  - apply update_clnt_ok; try done. intros e [? Hor]%Hends. split; [done|].
    destruct Hor; [left; by exists c|by right].
  - simpl. destruct (clnts cfg); [by eexists|done].
Qed.

(** The operations that only switch ends of the client on and off. *)
Lemma switch_clnt_ok p f c to v es cfg :
  ok cfg → client p cfg = Some c →
  f c (tst cfg) = Ret (Clnts.MkClnt (Clnts.ends c) to, enable_all v es (tst cfg)) →
  ∃ cfg', on_clnt p f cfg = Ret cfg' ∧ ok cfg' ∧ is_Some (clnts cfg').
Proof.
  intros Hok Hp Heq. apply (on_clnt_ok p f c); [done|done|]. eexists _, _. split; [exact Heq|].
  destruct (enable_all_same v es (tst cfg)) as (Hd & [= Ho Hpr] & Hnet). destruct (ok_clnt cfg Hok p c Hp) as [H1 H2].
  rewrite Hnet. simpl. split_and!; try done; [by rewrite Hd| |].
  - intros e. rewrite Hnet. simpl. intros ?%(ok_tester cfg Hok).
    apply (drawn_name_mono rand (tst cfg)); [by rewrite Hd|done].
  - intros e He. split; [by apply H2|by left].
Qed.

Lemma makeEnd_ok p server c cfg :
  ok cfg → client p cfg = Some c →
  ∃ cfg', on_clnt p (λ c t, let* '(_, c, t) := Clnts.makeEnd rand server c t in Ret (c, t)) cfg = Ret cfg'
    ∧ ok cfg' ∧ is_Some (clnts cfg').
Proof.
  intros Hok Hp. apply (on_clnt_ok p _ c); [done|done|]. destruct (ok_clnt cfg Hok p c Hp) as [Hdist Hends].
  set (t := tst cfg) in *. unfold Clnts.makeEnd. destruct (Clnts.ends c !! server) as [e|] eqn:Hs.
  { cbn [rbind]. eexists _, _. split; [done|]. split_and!; try done; [apply Hok|]. intros e' He'. auto. }
  cbn [Randstring]. unfold MakeEnd. cbn [net]. pose proof (rand_fresh rand t (drawn t) ltac:(lia)) as Hf.
  rewrite bool_decide_false by (intros He; by apply Hf, (ok_tester cfg Hok)). cbn [rbind].
  set (c' := Clnts.MkClnt _ _). set (t' := if Clnts.allowedL _ _ then _ else _).
  assert (drawn t' = S (drawn t) ∧ LabRpc.ends (net t') = {[rand (drawn t)]} ∪ LabRpc.ends (net t) ∧
    done (net t') = done (net t) ∧ servers (net t') = servers (net t) ∧ procs t' = procs t) as (Hd & He & Hdn & Hsv & Hpr)
    by (unfold t'; by destruct (Clnts.allowedL _ _)).
  assert (∀ e, e ∈ Clnts.end_names c → e ≠ rand (drawn t)) as Hne.
  { intros e Hin ->. by apply Hf, (ok_tester cfg Hok), Hends. }
  exists c', t'. split; [done|]. split_and!; try done; [lia| |set_solver| |].
  - intros e. rewrite He, elem_of_union, elem_of_singleton. intros [->|Hin].
    + exists (drawn t). split; [lia|done].
    + apply (drawn_name_mono rand t); [lia|]. by apply (ok_tester cfg Hok).
  - intros s s' e. simpl. rewrite !lookup_insert_Some.
    assert (∀ s, Clnts.ends c !! s = Some (rand (drawn t)) → False) as Hno.
    { intros s0 H0. apply (Hne (rand (drawn t))); [|done]. apply Clnts.elem_of_end_names. eauto. }
    intros [[<- <-]|[? H1]] [[<- H2]|[? H2]]; try done; [by destruct (Hno s')|subst; by destruct (Hno s)|].
    by apply (Hdist s s' e).
  - intros e (s & Hin)%Clnts.elem_of_end_names. simpl in Hin. apply lookup_insert_Some in Hin as [[_ <-]|[_ Hin]].
    + split; [rewrite He; set_solver|by right].
    + assert (e ∈ Clnts.end_names c) by (apply Clnts.elem_of_end_names; eauto).
      split; [rewrite He; set_solver|by left].
Qed.

Lemma DeleteClient_ok p cfg :
  ok cfg → is_Some (clnts cfg) → ∃ cs t, Clnts.DeleteClient p (clnts cfg) (tst cfg) = Ret (cs, t) ∧
    ok (set_tst t (set_clnts cs cfg)) ∧ is_Some cs.
Proof.
  intros Hok [m Hm]. unfold Clnts.DeleteClient. change (clnts cfg ≫= (.!! p)) with (client p cfg).
  destruct (client p cfg) as [c|] eqn:Hp.
  2:{ eexists _, _. split; [done|]. rewrite Hm. split; [|done]. by rewrite <-Hm; destruct cfg. }
  destruct (ok_clnt cfg Hok p c Hp) as [Hdist Hin].
  destruct (Clnts.remove_spec c (tst cfg)) as (t' & Heq & He & _ & _ & Hs);
    [by apply Clnts.NoDup_end_names|done|].
  destruct (remove_frame _ _ _ Heq) as (Hd & Hn & Hp'). rewrite Heq. cbn [rbind]. eexists _, t'. split; [done|].
  rewrite Hm. split; [|by eexists]. destruct Hok as [Ht Hdn Hg Hpr Hreg Hc Hdj].
  assert (tester_ok rand t') as Ht'.
  { intros e [? _]%He. apply (drawn_name_mono rand (tst cfg)); [lia|]. by apply Ht. }
  assert (∀ q c0, client q (set_tst t' (set_clnts (delete p <$> Some m) cfg)) = Some c0 →
    q ≠ p ∧ client q cfg = Some c0) as Hcl.
  { intros q c0. unfold client. simpl. rewrite Hm, lookup_delete_Some. naive_solver. }
  split; simpl; [done|congruence| | | | |].
  - intros g sg Hl. destruct (Hg g sg Hl). split; [done|]. eapply good_same; [done|lia|done|done].
  - by rewrite Hp'.
  - intros nm. unfold registered. rewrite Hs. apply Hreg.
  - intros q c0 [Hne Hq]%Hcl. destruct (Hc q c0 Hq) as [? Hin0]. split; [done|].
    intros e He0. apply He. split; [by apply Hin0|]. by apply (Hdj q p c0 c).
  - intros q q' c0 c1 e [_ Hq]%Hcl [_ Hq']%Hcl. by apply (Hdj q q').
Qed.

(** ** Shutting groups down *)

Definition down (sg : ServerGrp) : Prop := ∀ s, s ∈ srvs sg → dc s = None.

Lemma down_dead sg i : down sg → ¬ alive sg i.
Proof.
  intros Hd [_ [d Ha]]. apply bind_Some in Ha as (s & Hs & Ha).
  rewrite (Hd s) in Ha by (by eapply list_elem_of_lookup_2). done.
Qed.

Lemma shutdown_group g sg cfg :
  ok cfg → grps cfg !! g = Some sg → ∃ cfg' sg', on_group g (Shutdown ev) cfg = Ret cfg' ∧ ok cfg' ∧
    cfg' = set_tst (tst cfg') (set_grps (<[g := sg']> (grps cfg)) cfg) ∧
    LabRpc.ends (net (tst cfg')) = LabRpc.ends (net (tst cfg)) ∧ N sg' = N sg ∧ down sg' ∧
    ∀ nm, registered (tst cfg') nm →
      registered (tst cfg) nm ∧ ∀ i, member sg i → nm ≠ ServerName g i.
Proof.
  intros Hok Hg. destruct (ok_groups cfg Hok g sg Hg) as [Hgid Hgood].
  destruct (Shutdown_safe (sg, tst cfg) Hgood) as (y & Heq & Hy & Hxy & He & Hreg & Hdn).
  destruct (on_group_ok g (Shutdown ev) sg cfg Hok Hg) as (cfg' & Heq' & Hok' & _).
  { exists y. done. }
  exists cfg', y.1. rewrite Heq'. unfold on_group in Heq'. unfold lookupGroup in Heq'.
  simpl in Heq. rewrite Hg, Heq in Heq'. destruct y as [sg' t']. injection Heq' as <-. simpl in *.
  split_and!; try done; [apply (r_N _ _ Hxy)|]. rewrite <-Hgid. exact Hreg.
Qed.

Lemma groups_cleanup_spec order cfg :
  ok cfg → NoDup order → (∀ g, g ∈ order → is_Some (grps cfg !! g)) →
  ∃ cfg', groups_cleanup ev order cfg = Ret cfg' ∧ ok cfg' ∧
    cfg' = set_tst (tst cfg') (set_grps (grps cfg') cfg) ∧
    LabRpc.ends (net (tst cfg')) = LabRpc.ends (net (tst cfg)) ∧
    (∀ nm, registered (tst cfg') nm → registered (tst cfg) nm ∧
       ∀ g sg i, g ∈ order → grps cfg !! g = Some sg → member sg i → nm ≠ ServerName g i) ∧
    (∀ g, g ∉ order → grps cfg' !! g = grps cfg !! g) ∧
    (∀ g sg, g ∈ order → grps cfg' !! g = Some sg → down sg).
Proof.
  unfold groups_cleanup. revert cfg. induction order as [|g order IH]; intros cfg Hok Hnd Hsome.
  { exists cfg. split_and!; try done; [by destruct cfg| |];
      intros; [split; [done|]; intros ?? ? Hin|]; by exfalso; eapply not_elem_of_nil. }
  apply list.NoDup_cons in Hnd as [Hgo Hnd]. destruct (Hsome g) as [sg Hsg]; [by left|].
  destruct (shutdown_group g sg cfg Hok Hsg) as (cfg1 & sg1 & Heq & Hok1 & Hcfg1 & He1 & HN1 & Hd1 & Hr1).
  assert (∀ g', g' ∈ order → grps cfg1 !! g' = grps cfg !! g') as Hsame.
  { intros g' Hg'. rewrite Hcfg1. simpl. apply lookup_insert_ne. congruence. }
  destruct (IH cfg1 Hok1 Hnd) as (cfg2 & Heq2 & Hok2 & Hcfg2 & He2 & Hr2 & Hout2 & Hd2).
  { intros g' Hg'. rewrite Hsame by done. apply Hsome. by right. }
  exists cfg2. cbn [res_fold]. rewrite Heq. cbn [rbind]. split_and!; [done|done| |congruence| | |].
  - rewrite Hcfg2, Hcfg1. done.
  - intros nm [Hn Hno]%Hr2. apply Hr1 in Hn as [Hn Hno1]. split; [done|].
    intros g' sg' i [->|Hg']%elem_of_cons Hl Hi; [simplify_eq; by apply Hno1|].
    apply (Hno g' sg'); [done|by rewrite Hsame|done].
  - intros g'. rewrite not_elem_of_cons. intros [Hne Hg']. rewrite Hout2, Hcfg1 by done. simpl.
    by rewrite lookup_insert_ne.
  - intros g' sg' [->|Hg']%elem_of_cons Hl; [|by eapply Hd2].
    rewrite Hout2, Hcfg1 in Hl by done. simpl in Hl. rewrite lookup_insert_eq in Hl. by simplify_eq.
Qed.

Lemma ExitGroup_ok g cfg :
  ok cfg → is_Some (grps cfg !! g) → ∃ cfg', ExitGroup ev g cfg = Ret cfg' ∧ ok cfg' ∧
    clnts cfg' = clnts cfg.
Proof.
  intros Hok [sg Hsg].
  destruct (shutdown_group g sg cfg Hok Hsg) as (cfg1 & sg1 & Heq & Hok1 & Hcfg1 & He1 & HN1 & Hdown & Hr1).
  unfold ExitGroup. rewrite Heq. cbn [rbind]. eexists. split; [done|]. split; [|by rewrite Hcfg1].
  destruct Hok1 as [Ht Hdn Hg Hpr Hreg Hc Hdj]. split; simpl; try done.
  - intros g' sg' [_ ?]%lookup_delete_Some. by apply Hg.
  - split; [apply Hpr|]. intros [g' i] Hin. pose proof (proj2 Hpr _ Hin) as [sg' Hsg']. simpl in *.
    destruct (decide (g' = g)) as [->|]; [|rewrite lookup_delete_ne by done; by exists sg'].
    destruct (Hg g sg' Hsg') as [Hgid [_ _ _ _ [_ Hp]]]. simpl in Hp. rewrite Hgid in Hp.
    rewrite Hcfg1 in Hsg'. simpl in Hsg'. rewrite lookup_insert_eq in Hsg'. injection Hsg' as <-.
    by apply Hp, down_dead in Hin.
  - intros nm Hn. destruct (Hr1 nm Hn) as [_ Hno]. destruct (Hreg nm Hn) as (g' & sg' & i & Hl & Hi & ->).
    destruct (decide (g' = g)) as [->|].
    + destruct (Hno i); [|done]. rewrite Hcfg1 in Hl. simpl in Hl. rewrite lookup_insert_eq in Hl.
      simplify_eq. unfold member in *. by rewrite <-HN1.
    + exists g', sg', i. by rewrite lookup_delete_ne.
Qed.

(** ** The operations of a test *)

Lemma MakeGroupStart_ok g n cfg :
  ok cfg → grps cfg !! g = None → ∃ cfg' sg, MakeGroupStart rand ev g n cfg = Ret cfg' ∧ ok cfg' ∧
    cfg' = set_tst (tst cfg') (set_grps (<[g := sg]> (grps cfg)) cfg) ∧ N sg = Z.of_nat n ∧
    ∀ a, member sg a → up (λ _, no_image) (sg, tst cfg') a ∧ is_conn sg a ∧
      ∀ b, member sg b → linked sg (tst cfg') a b = true.
Proof.
  intros Hok Hg. destruct (MakeGroup_ok g n cfg Hok Hg) as
    (cfg1 & sg & Heq & Hok1 & Hc1 & Hg1 & HN & Hgid & Hnew).
  assert (grps cfg1 !! g = Some sg) as Hl by (rewrite Hg1; apply lookup_insert_eq).
  destruct (ok_groups cfg1 Hok1 g sg Hl) as [_ Hgood].
  destruct (StartServers_ready (λ _, no_image) (sg, tst cfg1) Hgood) as (y & Hst & Hy & Hxy & Hup);
    [intros i Hi; by apply Hnew..|].
  destruct (on_group_ok g (StartServers rand ev) sg cfg1 Hok1 Hl) as (cfg' & Heq' & Hok' & _).
  { exists y. done. }
  unfold MakeGroupStart. rewrite Heq. cbn [rbind]. rewrite Heq'. exists cfg', y.1.
  unfold on_group, lookupGroup in Heq'. simpl in Hst. rewrite Hl, Hst in Heq'. destruct y as [sg' t'].
  cbn [rbind] in Heq'. injection Heq' as <-. simpl in *. pose proof (r_N _ _ Hxy) as HN'. simpl in HN'.
  unfold MakeGroup in Heq. destruct (makeSrvGrp rand g n (tst cfg)) as [[sg0 t0]|]; [|done].
  cbn [rbind] in Heq. injection Heq as <-. simpl in *.
  assert (∀ a, member sg' a → member sg a) as Hm by (intros a; unfold member; by rewrite HN').
  split_and!; [done|done| |congruence|].
  - unfold set_tst, set_grps. simpl. by rewrite insert_insert_eq.
  - intros a Ha%Hm. destruct (Hup a Ha) as (? & ? & Hlk). split_and!; [done..|]. intros b Hb%Hm. by apply Hlk.
Qed.

Lemma net_ok f cfg :
  ok cfg → (∀ rn, LabRpc.ends (f rn) = LabRpc.ends rn ∧ servers (f rn) = servers rn ∧ done (f rn) = done rn) →
  ok (on_net f cfg).
Proof.
  intros [Ht Hdn Hg Hpr Hreg Hc Hdj] Hf. destruct (Hf (net (tst cfg))) as (He & Hs & Hd).
  assert (tester_ok rand (tst (on_net f cfg))) as Ht'.
  { intros e. simpl. rewrite He. apply Ht. }
  split; simpl.
  - done.
  - congruence.
  - intros g sg Hl. destruct (Hg g sg Hl). split; [done|]. eapply good_same; [done|simpl; lia|done|done].
  - exact Hpr.
  - intros nm. unfold registered. simpl. rewrite Hs. apply Hreg.
  - rewrite He. exact Hc.
  - exact Hdj.
Qed.

Lemma run_ok o cfg :
  ok cfg → is_Some (clnts cfg) → valid o cfg →
  ∃ cfg', run rand ev o cfg = Ret cfg' ∧ ok cfg' ∧ is_Some (clnts cfg').
Proof.
  intros Hok Hm Hv.
  assert (∀ g f l, members g l cfg →
    (∀ x, good x → Forall (member x.1) l → safe (f x.1 x.2) x) →
    ∃ cfg', on_group g f cfg = Ret cfg' ∧ ok cfg' ∧ is_Some (clnts cfg')) as Hgrp.
  { intros g f l Hl Hf. unfold members in Hl. destruct (lookupGroup g cfg) as [sg|] eqn:Hsg; [|done]. destruct (ok_groups cfg Hok g sg Hsg) as [_ Hgood].
    destruct (on_group_ok g f sg cfg Hok Hsg) as (cfg' & -> & ? & Hc); [by apply (Hf (sg, tst cfg))|].
    exists cfg'. by rewrite Hc. }
  destruct o as [g n|g|g i|g i|g i im|g i to|g i from|g p1 p2|b|b|b|p to|p|p server|p|p to|p srv|p];
    simpl in Hv |- *.
  - destruct (MakeGroupStart_ok g n cfg Hok Hv) as (cfg' & sg & -> & ? & Hc & _).
    exists cfg'. split_and!; [done|done|]. by rewrite Hc.
  - unfold members in Hv. destruct (lookupGroup g cfg) as [sg|] eqn:Hsg; [|done].
    destruct (ExitGroup_ok g cfg Hok) as (cfg' & -> & ? & Hc); [by exists sg|]. exists cfg'. by rewrite Hc.
  - destruct Hv as [Hv Hidle]. unfold members in Hv. unfold idle_in in Hidle.
    destruct (lookupGroup g cfg) as [sg|] eqn:Hsg; [|done]. apply list.Forall_cons in Hv as [Hi _].
    destruct (ok_groups cfg Hok g sg Hsg) as [_ Hgood]. edestruct (on_group_ok g) as (cfg' & -> & ? & Hc);
      [done|done|by apply (StartServer_safe i (sg, tst cfg))|]. exists cfg'. by rewrite Hc.
  - eapply Hgrp; [done|]. intros x Hx [Hi _]%list.Forall_cons.
    destruct (ShutdownServer_safe i x Hx Hi) as (y & ? & ? & ? & _). by exists y.
  - eapply Hgrp; [done|]. intros x Hx _. destruct (persist_safe i im x Hx). by eexists.
  - eapply Hgrp; [done|]. intros x Hx [Hi Hl]%list.Forall_cons. by apply connect_safe.
  - eapply Hgrp; [done|]. intros x Hx [Hi Hl]%list.Forall_cons. by apply disconnect_safe.
  - eapply Hgrp; [done|]. intros x Hx [H1 H2]%list.Forall_app. by apply Partition_safe.
  - eexists. split; [done|]. split; [by apply net_ok|done].
  - eexists. split; [done|]. split; [by apply net_ok|done].
  - eexists. split; [done|]. split; [by apply net_ok|done].
  - destruct Hm as [m Hm]. unfold Clnts.MakeClientTo. rewrite Hm. cbn [rbind]. eexists. split; [done|].
    split; [|by eexists]. pose proof (update_clnt_ok cfg p (Clnts.makeClntTo to) (tst cfg) Hok) as H0.
    rewrite Hm in H0. destruct cfg. apply H0; try done; [apply Hok|].
    intros e (s & ?)%Clnts.elem_of_end_names. done.
  - destruct (DeleteClient_ok p cfg Hok Hm) as (cs & t & -> & ? & ?). by eexists.
  - destruct Hv as [c Hc]. by eapply makeEnd_ok.
  - destruct Hv as [c Hc]. by eapply (switch_clnt_ok p _ c).
  - destruct Hv as [c Hc]. eapply (switch_clnt_ok p _ c); [done|done|].
    unfold Clnts.ConnectTo. by rewrite Clnts.foldl_enable.
  - destruct Hv as [c Hc]. eapply (switch_clnt_ok p _ c (Clnts.srvs c)); [done|done|].
    unfold Clnts.Disconnect. rewrite (Clnts.foldl_enable (λ s, bool_decide (s = srv))). by destruct c.
  - destruct Hv as [c Hc]. by eapply (switch_clnt_ok p _ c).
Qed.

Lemma runs_ok os cfg cfg' :
  runs rand ev os cfg cfg' → ok cfg → is_Some (clnts cfg) → ok cfg' ∧ is_Some (clnts cfg').
Proof.
  induction 1 as [cfg|o os cfg cfg1 cfg2 Hv Hr Hrs IH]; [done|]. intros Hok Hm.
  destruct (run_ok o cfg Hok Hm Hv) as (cfg1' & Heq & ? & ?). apply IH; congruence.
Qed.
End inv.
End ConfigInv.
