(* ===== verification/ConfigSpec.v ===== *)
(** * The configuration of a test: properties

    What MakeConfig gives to a test and what Cleanup leaves behind, for every
    sequence of operations in between; and the shuffling of handles. *)

From stdpp Require Import pretty.
From S2P Require Import Prelude LabRpc Group GroupStart Clnts Annotation Config ConfigInv.
Import LabRpc Group GroupStart Config ConfigInv.


Section config.
Context (rand : nat → string) `{!Inj (=) (=) rand}.

(** The configuration before the first group is made. *)
Lemma blank_ok k e : ok rand (MkConfig None newGroups (MkTester MakeNetwork k 0 []) e (Some true) false 0 0 0 0).
Proof.
  split; simpl; try done.
  { split; [constructor|]. intros p Hp. by apply not_elem_of_nil in Hp. }
  intros nm [p Hp]. simpl in Hp. by rewrite lookup_empty in Hp.
Qed.

Lemma MakeConfig_ok k n reliable now :
  ∃ cfg sg, MakeConfig rand all_ok k n reliable now = Ret cfg ∧ ok rand cfg ∧
    clnts cfg = Some ∅ ∧ grps cfg = {[GRP0 := sg]} ∧ N sg = Z.of_nat n ∧
    LabRpc.reliable (net (tst cfg)) = reliable ∧
    ∀ a, member sg a → up (λ _, no_image) (sg, tst cfg) a ∧ is_conn sg a ∧
      ∀ b, member sg b → linked sg (tst cfg) a b = true.
Proof.
  destruct (MakeGroupStart_ok rand GRP0 n
    (MkConfig None newGroups (MkTester MakeNetwork (S k) 0 []) (rand k) (Some true) false 0 0 0 0))
    as (cfg & sg & Heq & Hok & Hcfg & HN & Hup); [apply blank_ok|done|].
  unfold MakeConfig. cbn [Randstring drawn net objs procs]. rewrite Heq. cbn [rbind].
  eexists _, sg. split; [done|]. rewrite Hcfg. simpl. split_and!; try done.
  destruct (net_ok rand (Reliable reliable) cfg Hok) as [Ht Hdn Hg Hpr Hreg _ _]; [done|].
  rewrite Hcfg in Hg, Hreg, Hpr. split; try done; intros p c; by unfold client.
Qed.
End config.

(** A test finds its servers running and fully connected: MakeConfig with [n]
    servers, when their processes start and answer, returns a configuration with
    the one group 0 of [n] servers and no clients, in which every server runs with an
    empty persistent state and is connected, and for any two servers a request that
    one sends to the other is routed, over an enabled end, to the server object
    registered under the other's name, with the reliability asked for and without
    long reordering. *)
Theorem MakeConfig_ready rand `{!Inj (=) (=) rand} k n reliable now :
  ∃ cfg sg, MakeConfig rand all_ok k n reliable now = Ret cfg ∧
    grps cfg = {[GRP0 := sg]} ∧ N sg = Z.of_nat n ∧ clnts cfg = Some ∅ ∧
    cfg_IsReliable cfg = reliable ∧
    ∀ a b, 0 ≤ a < Z.of_nat n → 0 ≤ b < Z.of_nat n →
      (dc <$> srvs sg !! Z.to_nat a) = Some (Some (Some no_image)) ∧ IsConnected a sg = Ret true ∧
      ∃ e p, end_name sg a b = Some e ∧ servers (net (tst cfg)) !! ServerName GRP0 b = Some (Some p) ∧
        readEndnameInfo e (net (tst cfg)) =
          (true, Some (ServerName GRP0 b), Some p, reliable, LabRpc.longReordering (net (tst cfg))).
Proof.
  destruct (MakeConfig_ok rand k n reliable now) as (cfg & sg & Heq & Hok & Hc & Hg & HN & Hrel & Hup).
  exists cfg, sg. split_and!; [done..|]. intros a b Ha Hb. rewrite <-HN in Ha, Hb.
  assert (gid sg = GRP0) as Hgid.
  { apply (ok_groups rand cfg Hok GRP0 sg). rewrite Hg. apply lookup_singleton_eq. }
  destruct (Hup a Ha) as ((Hdc & _ & Hrow) & Hconn & Hlink). split_and!; [done| |].
  { unfold IsConnected. by rewrite (slice_get_Some _ _ true) by (done || apply Ha). }
  destruct (Hrow b Hb) as (e & He & Hce). destruct (Hup b Hb) as ((_ & [p Hp] & _) & _).
  simpl in *. rewrite Hgid in *. exists e, p. split_and!; [done..|].
  pose proof (Hlink b Hb) as Hl. unfold linked in Hl. rewrite He in Hl.
  unfold readEndnameInfo. rewrite Hl, Hrel. unfold mget. rewrite Hce. simpl. by rewrite Hp.
Qed.

(** C37. Whatever a test does, Cleanup leaves nothing running.  Processes start, answer and
    are killed when they are told to (otherwise the tester ends with log.Fatalf, or goes on
    without the server); and a test starts only servers without a daemon, since "If restart
    servers, first call ShutdownServer" (srv.go): the process of a server that is started
    twice would be lost.  Then after MakeConfig and any sequence of operations on groups,
    servers, links, partitions, the network and clients, with arguments that make sense,
    while daemons save what they like: the processes that run are those of the servers that
    have a daemon, one each; every further such operation returns (no name is drawn twice,
    no end is deleted twice, no nil is dereferenced); and so does Cleanup, in whatever order
    it meets the groups: no process runs any more, no server has a daemon, no server name is
    registered, no client's end is left on the network, and the network is closed. *)
Theorem cleanup_stops rand `{!Inj (=) (=) rand} k n reliable now os cfg0 cfg order vis x :
  MakeConfig rand all_ok k n reliable now = Ret cfg0 → runs rand all_ok os cfg0 cfg →
  order ≡ₚ (map_to_list (grps cfg)).*1 →
  (NoDup (procs (tst cfg)) ∧
     ∀ g i, (g, i) ∈ procs (tst cfg) ↔
       ∃ sg, grps cfg !! g = Some sg ∧ 0 ≤ i ∧ is_Some (srvs sg !! Z.to_nat i ≫= dc)) ∧
  (∀ o, valid o cfg → ∃ cfg', run rand all_ok o cfg = Ret cfg') ∧
  ∃ cfg' out, Cleanup all_ok order vis x cfg = Ret (cfg', out) ∧ procs (tst cfg') = [] ∧
    (∀ nm p, servers (net (tst cfg')) !! nm ≠ Some (Some p)) ∧
    (∀ g sg s, grps cfg' !! g = Some sg → s ∈ srvs sg → dc s = None) ∧
    (∀ p c e, clnts cfg ≫= (.!! p) = Some c → e ∈ Clnts.end_names c →
       e ∉ LabRpc.ends (net (tst cfg'))) ∧
    done (net (tst cfg')) = true ∧ clnts cfg' = None.
Proof.
  intros Hmk Hrs Hord. destruct (MakeConfig_ok rand k n reliable now) as (cfg1 & sg & Heq & Hok1 & Hc1 & _).
  rewrite Heq in Hmk. injection Hmk as ->.
  destruct (runs_ok rand os cfg0 cfg Hrs Hok1) as [Hok [m Hm]]; [by eexists|].
  split. { by eapply ok_processes. }
  split. { intros o Hv. destruct (run_ok rand o cfg Hok) as (cfg' & ? & _); [by eexists|done|by exists cfg']. }
  unfold Cleanup, Clnts.cleanup. rewrite Hm. simpl default.
  assert (∀ q, q ∈ map_to_list m → client q.1 cfg = Some q.2) as Hcl.
  { intros [p c] Hq%elem_of_map_to_list. unfold client. by rewrite Hm. }
  destruct (remove_all (map_to_list m) (tst cfg)) as (t & Hrm & Hends & Hsv & Hd & Hdn & Htp).
  { by eapply clients_NoDup. }
  { intros q e Hq. by apply (ok_clnt rand cfg Hok q.1), Hcl. }
  rewrite Hrm. cbn [rbind].
  assert (ok rand (set_tst t (set_clnts None cfg))) as Hokt.
  { destruct Hok as [Ht Hdone Hg Hpr Hreg Hc Hdj].
    assert (tester_ok rand t) by (intros e [? _]%Hends; apply (drawn_name_mono rand (tst cfg)); [lia|by apply Ht]).
    split; simpl; try done; [congruence| |by rewrite Htp|].
    - intros g sg0 Hl. destruct (Hg g sg0 Hl). split; [done|]. eapply good_same; [done|lia|done|done].
    - intros nm. unfold registered. rewrite Hsv. apply Hreg. }
  assert (∀ g, g ∈ order ↔ is_Some (grps cfg !! g)) as Hin.
  { intros g. rewrite Hord, list_elem_of_fmap. split.
    - intros ([g' sg'] & -> & ?%elem_of_map_to_list). by eexists.
    - intros [sg' ?]. exists (g, sg'). by rewrite elem_of_map_to_list. }
  destruct (groups_cleanup_spec rand order (set_tst t (set_clnts None cfg)) Hokt) as
    (cfg2 & Hgc & Hok2 & Hcfg2 & He2 & Hr2 & Hout & Hdown).
  { rewrite Hord. apply NoDup_fst_map_to_list. }
  { intros g. apply Hin. }
  rewrite Hgc. cbn [rbind]. unfold LabRpc.Cleanup. rewrite (ok_done rand cfg2 Hok2). cbn [rbind].
  eexists _, _. split; [done|].
  assert (∀ nm, ¬ registered (tst cfg2) nm) as Hnone.
  { intros nm Hn. destruct (Hr2 nm Hn) as [Hn' Hno].
    destruct (ok_reg rand _ Hokt nm Hn') as (g & sg' & i & Hl & Hi & ->).
    eapply Hno; [apply Hin; by eexists|done..]. }
  assert (∀ g sg' s, grps cfg2 !! g = Some sg' → s ∈ srvs sg' → dc s = None) as Hall.
  { intros g sg' s Hl. destruct (decide (g ∈ order)); [by eapply Hdown|].
    rewrite Hout in Hl by done. destruct (Hin g) as [_ Hg]. destruct n0. apply Hg. by eexists. }
  assert (∀ p c e, client p cfg = Some c → e ∈ Clnts.end_names c → e ∉ LabRpc.ends (net (tst cfg2))) as Hce.
  { intros p c e Hp He. rewrite He2. simpl. rewrite Hends. intros [_ Hno]. apply (Hno (p, c)); [|done].
    apply elem_of_map_to_list. unfold client in Hp. by rewrite Hm in Hp. }
  assert (clnts cfg2 = None) by (by rewrite Hcfg2). rewrite <-Hm.
  assert (procs (tst cfg2) = []) as Hnp.
  { apply elem_of_nil_inv. intros [g i] (sg' & Hl & _ & d & Hd')%(ok_processes rand cfg2 Hok2).
    apply bind_Some in Hd' as (s & Hs & Hd'). rewrite (Hall g sg' s) in Hd' by (done || by eapply list_elem_of_lookup_2). done. }
  simpl. destruct (trpc cfg2); simpl; (split_and!; [exact Hnp| |exact Hall|exact Hce|done|done]);
    intros nm p Hp; apply (Hnone nm); by exists p.
Qed.

(** ** Witnesses *)

Definition decimal (n : nat) : string := pretty (N.of_nat n).
#[export] Instance decimal_inj : Inj (=) (=) decimal.
Proof. intros a b. unfold decimal. intros H%(inj pretty). by apply Nat2N.inj. Qed.

Lemma MakeConfig_ready_witness :
  ∃ cfg sg, MakeConfig decimal all_ok 7 3 false 42 = Ret cfg ∧ grps cfg = {[GRP0 := sg]} ∧
    cfg_IsReliable cfg = false ∧ IsConnected 2 sg = Ret true.
Proof.
  destruct (MakeConfig_ready decimal 7 3 false 42) as (cfg & sg & Heq & Hg & _ & _ & Hr & Hall).
  destruct (Hall 2 0) as (_ & Hc & _); [lia|lia|].
  exists cfg, sg. split; [exact Heq|]. split; [exact Hg|]. split; [exact Hr|exact Hc].
Defined.

(** A test with a second group, a client with an end to it, and a server that crashes, starts
    again and saves. *)
Definition example_ops : list op :=
  [OMakeGroup 1 1; OMakeClient 0 None; OMakeEnd 0 "server-1-0"; OShutdown 1 0; OStart 1 0;
   OPersist 1 0 no_image; OPartition 0 [0] [1; 2]].
Definition or_blank (r : res Config) : Config :=
  match r with Ret c => c | Stop _ => MkConfig None ∅ (MkTester MakeNetwork 0 0 []) "" None false 0 0 0 0 end.
Definition example_start : Config := or_blank (MakeConfig decimal all_ok 0 3 true 0).
Definition example_cfg : Config :=
  or_blank (res_fold (λ c o, run decimal all_ok o c) example_start example_ops).

(** The operations are valid one after the other. *)
Fixpoint valid_all (rand : nat → string) (os : list op) (cfg : Config) : bool :=
  match os with
  | [] => true
  | o :: os => bool_decide (valid o cfg) &&
      match run rand all_ok o cfg with Ret c => valid_all rand os c | Stop _ => false end
  end.
Lemma runs_fold rand os cfg cfg' :
  valid_all rand os cfg = true → res_fold (λ c o, run rand all_ok o c) cfg os = Ret cfg' →
  runs rand all_ok os cfg cfg'.
Proof.
  revert cfg. induction os as [|o os IH]; intros cfg; simpl; [intros _ [= ->]; constructor|].
  intros [Hv%bool_decide_eq_true Hr]%andb_prop. destruct (run rand all_ok o cfg) as [c|] eqn:Ho; [|done]. cbn [rbind].
  intros Heq. econstructor; [done|done|]. by apply IH.
Qed.

Lemma cleanup_stops_witness :
  ∃ cfg' out, Cleanup all_ok [1; 0] (λ _ _ x, (x, None)) Annotation.mkAnnotation example_cfg = Ret (cfg', out) ∧
    procs (tst cfg') = [] ∧ (∀ nm p, servers (net (tst cfg')) !! nm ≠ Some (Some p)) ∧ done (net (tst cfg')) = true.
Proof.
  destruct (cleanup_stops decimal 0 3 true 0 example_ops example_start example_cfg [1; 0] (λ _ _ x, (x, None))
    Annotation.mkAnnotation) as (_ & _ & cfg' & out & Heq & Hpr & Hno & _ & _ & Hd & _).
  - vm_compute. reflexivity.
  - apply runs_fold; vm_compute; reflexivity.
  - assert ((map_to_list (grps example_cfg)).*1 = [1; 0] ∨ (map_to_list (grps example_cfg)).*1 = [0; 1])
      as [-> | ->] by (vm_compute; auto); [done|apply perm_swap].
  - exists cfg', out. split; [exact Heq|]. split; [exact Hpr|]. split; [exact Hno|exact Hd].
Defined.

(** The process of a server that is started while it runs is lost: after the server is
    shut down, one of its two processes still runs. *)
Example start_twice_leaks :
  match res_fold (λ c o, run decimal all_ok o c) example_start [OStart GRP0 1; OShutdown GRP0 1] with
  | Ret c => procs (tst c) = [(0, 2); (0, 1); (0, 0)]
  | Stop _ => False
  end.
Proof. vm_compute. reflexivity. Qed.

(** ** Shuffling handles *)

Lemma swap_perm {A} i j (l : list A) :
  0 ≤ i < Z.of_nat (length l) → 0 ≤ j < Z.of_nat (length l) →
  ∃ l', swap i j l = Ret l' ∧ l' ≡ₚ l.
Proof.
  intros Hi Hj. destruct (lookup_lt_is_Some_2 l (Z.to_nat i)) as [y Hy]; [lia|].
  destruct (lookup_lt_is_Some_2 l (Z.to_nat j)) as [x Hx]; [lia|]. unfold swap.
  rewrite (slice_get_Some l j x) by (done || lia). cbn [rbind].
  rewrite (slice_get_Some l i y) by (done || lia). cbn [rbind].
  rewrite slice_set_Ret by done. cbn [rbind]. rewrite slice_set_Ret by by rewrite length_insert.
  eexists. split; [done|]. by apply Permutation_insert_swap.
Qed.

(** random_handles returns the handles in some order, whatever is drawn. *)
Theorem random_handles_perm {A} (intn : Z → Z) (kvh : list A) :
  (∀ i, 0 ≤ i → 0 ≤ intn i ≤ i) → ∃ sa, random_handles intn kvh = Ret sa ∧ sa ≡ₚ kvh.
Proof.
  intros Hin. unfold random_handles.
  assert (∀ ks l, l ≡ₚ kvh → Forall (λ i, 0 ≤ i < Z.of_nat (length kvh)) ks →
    ∃ sa, res_fold (λ sa i, swap i (intn i) sa) l ks = Ret sa ∧ sa ≡ₚ kvh) as Hfold.
  { induction ks as [|i ks IH]; intros l Hl Hks; [by exists l|].
    apply list.Forall_cons in Hks as [Hi Hks]. cbn [res_fold]. pose proof (Permutation_length Hl) as Hlen.
    destruct (swap_perm i (intn i) l) as (l' & -> & Hl'); [lia|specialize (Hin i); lia|].
    apply IH; [by rewrite Hl'|done]. }
  apply Hfold; [done|]. apply list.Forall_forall. intros i (k & -> & Hk%elem_of_seq)%list_elem_of_fmap. lia.
Qed.
