(* ===== verification/ConfigReach.v ===== *)
(** * Clients and groups do not disturb each other (tester1/config.go, clnts.go, group.go)

    The ends of clients and of servers live in one network.  What a test does to a group
    switches only ends of the servers of this group, and what it does to a client only
    ends of this client: so what a client can reach is a function of the operations on
    this client alone, the [view] below. *)

From S2P Require Import Prelude LabRpc Group GroupStart Clnts ClntsSpec Annotation Config ConfigInv ConfigSpec.
Import LabRpc Group GroupStart Config ConfigInv.

Module ConfigReach.

(** ** Operations on a group leave other ends alone *)

Section group.
Context (rand : nat → string) `{!Inj (=) (=) rand}.
Implicit Types x y : ServerGrp * tester.

(** An end that exists, or existed, and is not an end of the group. *)
Definition far x (e : string) : Prop :=
  drawn_name rand x.2 e ∧ ∀ a b, member x.1 a → member x.1 b → end_name x.1 a b ≠ Some e.
Definition on (t : tester) (e : string) : bool := mget false (enabled (net t)) e.
Definition frame x y : Prop := ∀ e, far x e → far y e ∧ on y.2 e = on x.2 e.

#[global] Instance frame_preorder : PreOrder frame.
Proof.
  split; [by intros x e|]. intros x y z Hxy Hyz e He. destruct (Hxy e He) as [Hy Heq].
  destruct (Hyz e Hy) as [Hz Heq']. split; [done|congruence].
Qed.

Definition tame (r : res (ServerGrp * tester)) x : Prop :=
  ∃ y, r = Ret y ∧ good rand y ∧ rel x y ∧ frame x y.

Lemma tame_safe r x : safe rand r x → (∀ y, r = Ret y → frame x y) → tame r x.
Proof. intros (y & -> & ? & ?) Hf. exists y. split_and!; [done..|by apply Hf]. Qed.

Lemma tame_bind r (k : ServerGrp * tester → res (ServerGrp * tester)) x :
  tame r x → (∀ y, good rand y → rel x y → tame (k y) y) → tame (rbind r k) x.
Proof.
  intros (y & -> & Hy & Hxy & Hf) Hk. destruct (Hk y Hy Hxy) as (z & Heq & Hz & Hyz & Hf').
  exists z. split_and!; [done|done|by etrans..].
Qed.

Lemma tame_fold {A} (f : ServerGrp * tester → A → res (ServerGrp * tester)) l x :
  good rand x → (∀ y i, good rand y → rel x y → i ∈ l → tame (f y i) y) → tame (res_fold f x l) x.
Proof.
  intros Hx Hf. assert (∀ y, good rand y → rel x y → tame (res_fold f y l) y) as H0; [|by apply H0].
  revert Hf. induction l as [|i l IH]; intros Hf y Hy Hxy; [by exists y|].
  cbn [res_fold]. apply tame_bind; [apply Hf; [done|done|by left]|].
  intros z Hz Hyz. apply IH; [|done|by etrans]. intros. apply Hf; [done|done|by right].
Qed.

Lemma far_ends_to x e i js :
  far x e → member x.1 i → Forall (member x.1) js → e ∉ ends_to i js x.1.
Proof.
  intros [_ Hf] Hi Hjs. rewrite list.Forall_forall in Hjs. unfold ends_to. rewrite elem_of_app, !list_elem_of_omap.
  intros [(j & Hj & He)|(j & Hj & He)]; by eapply Hf; [..|exact He]; auto.
Qed.

Lemma frame_switch x i js conn v :
  member x.1 i → Forall (member x.1) js →
  frame x (MkGrp (srvs x.1) (servernames x.1) (gid x.1) conn, enable_all v (ends_to i js x.1) x.2).
Proof.
  intros Hi Hjs e He. pose proof (far_ends_to x e i js He Hi Hjs) as Hn. destruct He as [Hd Hf].
  destruct (enable_all_same v (ends_to i js x.1) x.2) as (Hdr & _ & _). split; [split; [|exact Hf]|].
  - apply (drawn_name_mono rand x.2); [simpl; by rewrite Hdr|done].
  - unfold on. simpl. by rewrite enable_all_enabled, decide_False.
Qed.

Lemma connect_tame i to x :
  good rand x → member x.1 i → Forall (member x.1) to → tame (connect i to x.1 x.2) x.
Proof.
  intros Hx Hi Hto. apply tame_safe; [by apply connect_safe|]. rewrite connect_eq by (done || apply Hx).
  intros y [= <-]. apply frame_switch; [done|by apply Forall_filter].
Qed.

Lemma disconnect_tame i from x :
  good rand x → member x.1 i → Forall (member x.1) from → tame (disconnect i from x.1 x.2) x.
Proof.
  intros Hx Hi Hto. apply tame_safe; [by apply disconnect_safe|]. rewrite disconnect_eq by (done || apply Hx).
  intros y [= <-]. by apply frame_switch.
Qed.

Lemma Partition_tame p1 p2 x :
  good rand x → Forall (member x.1) p1 → Forall (member x.1) p2 → tame (Partition p1 p2 x.1 x.2) x.
Proof.
  assert (∀ me other x, good rand x → Forall (member x.1) me → Forall (member x.1) other →
    tame (res_fold (λ '(sg, t) i, let* '(sg, t) := disconnect i other sg t in connect i me sg t) x me) x) as Hside.
  { intros me other x0 Hx Hme Hot. apply tame_fold; [done|]. intros [sg t] i Hy Hxy Hi.
    pose proof (Forall_rel _ _ _ Hxy Hme) as Hme'. pose proof (Forall_rel _ _ _ Hxy Hot) as Hot'.
    assert (member sg i) by (rewrite list.Forall_forall in Hme'; auto).
    apply tame_bind; [by apply (disconnect_tame i other (sg, t))|].
    intros [sg1 t1] Hz Hyz. apply (connect_tame i me (sg1, t1)); [done|by eapply rel_member|by eapply Forall_rel]. }
  intros Hx H1 H2. destruct x as [sg t]. unfold Partition. apply tame_bind; [by apply Hside|].
  intros y Hy Hxy. apply Hside; [done|by eapply Forall_rel..].
Qed.

Lemma StartServer_tame i x :
  good rand x → member x.1 i → idle x i →
  tame (let* '(sg, t, _) := StartServer rand all_ok i x.1 x.2 in Ret (sg, t)) x.
Proof.
  intros Hx Hi Hidle. apply tame_safe; [by apply StartServer_safe|]. destruct Hx as [Hwf Hn Ht Hd _].
  destruct (wf_lookup x.1 i Hwf Hi) as (s & es & Hs & _).
  destruct (StartServer_spec rand all_ok i x.1 x.2 s Hwf Hn Ht Hi Hs) as
    (t' & -> & _ & _ & _ & _ & _ & [Hkd _ Hke _ _] & _ & _); [done..|].
  intros y [= <-] e [He Hf]. split; [split|]; simpl.
  - by apply (drawn_name_mono rand x.2).
  - intros a b. rewrite !member_with_srv. intros Ha Hb. rewrite end_name_with_srv by done. simpl. case_decide; [|by apply Hf].
    intros Hl%list_elem_of_lookup_2. by apply (fresh_names_new rand x.2) in Hl.
  - unfold on, mget. by rewrite Hke.
Qed.

Lemma ShutdownServer_tame i x :
  good rand x → member x.1 i → tame (ShutdownServer all_ok i x.1 x.2) x.
Proof.
  intros Hx Hi. apply tame_safe.
  { destruct (ShutdownServer_safe rand i x Hx Hi) as (y & ? & ? & ? & _). by exists y. }
  destruct Hx as [Hwf Hn Ht Hd _]. destruct (wf_lookup x.1 i Hwf Hi) as (s & es & Hs & Hes & _ & Hl).
  destruct (shutdownServer_ok s) as (s' & Hsh & Hen & Hdc); [by eapply Hd, list_elem_of_lookup_2|].
  pose proof (all_members x.1) as Hall. unfold ShutdownServer. rewrite disconnect_eq by done. cbn [rbind].
  rewrite (slice_get_Some _ _ s) by (done || apply Hi). cbn [rbind]. rewrite Hsh. cbn [rbind].
  rewrite slice_set_Ret by apply Hi. intros y [= <-] e He.
  destruct (frame_switch x i (all x.1) (connected (set_conn i false x.1)) false Hi Hall e He) as [[Hdr Hf] Heq].
  split; [split|]; [by destruct (dc s)| |by destruct (dc s)]. intros a b Ha Hb. simpl in *.
  assert (member x.1 a ∧ member x.1 b) as [Ha' Hb'].
  { unfold member, N in Ha, Hb. simpl in Ha, Hb. rewrite length_insert in Ha, Hb. done. }
  rewrite (end_name_with_srv i s' (set_conn i false x.1)) by done. rewrite Hen, Hes. case_decide; [|by apply Hf].
  simpl. rewrite <-Hl. by apply Hf.
Qed.

Lemma Shutdown_tame x : good rand x → tame (Shutdown all_ok x.1 x.2) x.
Proof.
  intros Hx. unfold Shutdown, Kill. destruct x as [sg t]. apply tame_fold; [done|]. intros [sg1 t1] i Hy Hxy Hi.
  apply (ShutdownServer_tame i (sg1, t1)); [done|]. eapply rel_member; [done|]. by apply elem_of_all.
Qed.

(** A daemon saves: no end is touched. *)
Lemma persist_tame i im x : good rand x → tame (Ret (persist i im x.1, x.2)) x.
Proof.
  intros Hx. destruct (persist_safe rand i im x Hx) as [Hy Hxy]. eexists. split_and!; [done..|].
  intros e [He Hf]. split; [|done]. split; [done|]. intros a b. simpl.
  rewrite persist_ends. pose proof (r_N _ _ Hxy) as HN. simpl in HN. unfold member. rewrite HN. apply Hf.
Qed.

Lemma StartSrvs_tame l x :
  good rand x → NoDup l → (∀ i, i ∈ l → member x.1 i ∧ idle x i) → tame (StartSrvs rand all_ok l x.1 x.2) x.
Proof.
  unfold StartSrvs. revert x. induction l as [|i l IH]; intros x Hx Hnd Hl; [by exists x; destruct x|].
  apply list.NoDup_cons in Hnd as [Hil Hnd]. destruct (Hl i) as [Hi Hidle]; [by left|]. cbn [res_fold].
  destruct (StartServer_tame i x Hx Hi Hidle) as (y & Heq & Hy & Hxy & Hf).
  destruct (IH y Hy Hnd) as (z & Heqz & Hz & Hyz & Hfz).
  { intros j Hj. destruct (Hl j) as [Hm Hj']; [by right|]. split; [by eapply rel_member|].
    unfold idle. by rewrite (StartServer_others rand i j x y Hx Hi Heq ltac:(congruence) (proj1 Hm)). }
  exists z. destruct x as [sg t], y as [sg1 t1]. rewrite Heq. cbn [rbind].
  split_and!; [exact Heqz|done|by etrans..].
Qed.

Lemma StartServers_tame x :
  good rand x → (∀ i, member x.1 i → idle x i) → tame (StartServers rand all_ok x.1 x.2) x.
Proof.
  intros Hx Hidle. unfold StartServers. apply tame_bind.
  - apply StartSrvs_tame; [done| |intros i Hi%elem_of_all; auto].
    unfold all. apply NoDup_fmap_2; [apply _|apply NoDup_seq].
  - intros [sg t] Hy _. unfold ConnectAll. apply tame_fold; [done|]. intros [sg1 t1] i Hz Hyz Hi.
    apply (connect_tame i (all sg1) (sg1, t1)); [done| |apply all_members].
    eapply rel_member; [done|]. by apply elem_of_all.
Qed.
End group.

(** ** What is known of a client *)

(** The servers to which the client has made an end, and the servers it can reach. *)
Record view := MkView { known : gset string; reaches : string → bool }.

Definition allows (to : option (list string)) (s : string) : bool := Clnts.allowedL (Clnts.MkClnt ∅ to) s.

(** What an operation of the test means for the clients. *)
Definition see (vs : gmap nat view) (o : op) : gmap nat view :=
  match o with
  | OMakeClient p to => <[p := MkView ∅ (allows to)]> vs
  | ODeleteClient p => delete p vs
  | OMakeEnd p s => alter (λ v, MkView ({[s]} ∪ known v) (reaches v)) p vs
  | OClntConnectAll p => alter (λ v, MkView (known v) (λ _, true)) p vs
  | OClntDisconnectAll p => alter (λ v, MkView (known v) (λ _, false)) p vs
  | OClntConnectTo p to =>
      alter (λ v, MkView (known v) (allows to)) p vs
  | OClntDisconnect p srv =>
      alter (λ v, MkView (known v) (λ s, if decide (s = srv ∧ s ∈ known v) then false else reaches v s)) p vs
  | _ => vs
  end.

(** ConnectTo does not switch ends off: it is not used to take away a server that the
    client reaches over an end it has made. *)
Definition widens (vs : gmap nat view) (o : op) : Prop :=
  match o with
  | OClntConnectTo p to =>
      match vs !! p with
      | Some v => set_Forall (λ s, reaches v s = true → allows to s = true) (known v)
      | None => True
      end
  | _ => True
  end.
Fixpoint widening (vs : gmap nat view) (os : list op) : Prop :=
  match os with
  | [] => True
  | o :: os => widens vs o ∧ widening (see vs o) os
  end.
#[global] Instance widens_dec vs o : Decision (widens vs o).
Proof. destruct o; simpl; try apply _. destruct (vs !! p); apply _. Defined.
#[global] Instance widening_dec vs os : Decision (widening vs os).
Proof. revert vs. induction os; intros vs; simpl; apply _. Defined.

Definition shows (c : Clnts.Clnt) (t : tester) (v : view) : Prop :=
  (∀ s, is_Some (Clnts.ends c !! s) ↔ s ∈ known v) ∧ ∀ s, Clnts.reach c t s = reaches v s.

Lemma shows_frame c t t' v :
  shows c t v → (∀ e, e ∈ Clnts.end_names c → on t' e = on t e) → shows c t' v.
Proof.
  intros [Hk Hr] Hon. split; [done|]. intros s. rewrite <-Hr. unfold Clnts.reach.
  destruct (Clnts.ends c !! s) as [e|] eqn:He; [|done]. apply Hon. apply Clnts.elem_of_end_names. by exists s.
Qed.

(** The operations on clients. *)
Definition client_op (o : op) : bool :=
  match o with
  | OMakeClient _ _ | ODeleteClient _ | OMakeEnd _ _ | OClntConnectAll _ | OClntConnectTo _ _
  | OClntDisconnect _ _ | OClntDisconnectAll _ => true
  | _ => false
  end.

Section config.
Context (rand : nat → string) `{!Inj (=) (=) rand}.
Implicit Types cfg : Config.

Lemma client_op_grps o cfg cfg' : client_op o = true → run rand all_ok o cfg = Ret cfg' → grps cfg' = grps cfg.
Proof.
  destruct o; try done; intros _; simpl; unfold on_clnt; intros Hr;
    repeat match type of Hr with
    | match ?x with _ => _ end = _ => destruct x; [|done]
    | rbind _ _ = Ret _ => apply rbind_Ret_inv in Hr as (? & ? & Hr)
    | (let '(_, _) := ?x in _) = _ => destruct x
    end; by simplify_eq/=.
Qed.

Record rinv cfg (vs : gmap nat view) : Prop := {
  ri_ok : ok rand cfg;
  ri_clnts : is_Some (clnts cfg);
  ri_far g sg p c e : grps cfg !! g = Some sg → client p cfg = Some c → e ∈ Clnts.end_names c →
    far rand (sg, tst cfg) e;
  ri_view p : match client p cfg, vs !! p with
    | Some c, Some v => shows c (tst cfg) v
    | None, None => True
    | _, _ => False
    end
}.

(** An operation on a group. *)
Lemma on_group_rinv g f sg cfg vs :
  rinv cfg vs → grps cfg !! g = Some sg → tame rand (f sg (tst cfg)) (sg, tst cfg) →
  ∃ cfg' sg', on_group g f cfg = Ret cfg' ∧ rinv cfg' vs ∧ grps cfg' = <[g := sg']> (grps cfg) ∧
    clnts cfg' = clnts cfg.
Proof.
  intros [Hok Hm Hfar Hv] Hg (y & Heq & Hy & Hxy & Hf).
  destruct (on_group_ok rand g f sg cfg Hok Hg) as (cfg' & Heq' & Hok' & Hc); [by exists y|].
  assert (cfg' = set_tst y.2 (set_grps (<[g := y.1]> (grps cfg)) cfg)) as Hcfg'.
  { unfold on_group, lookupGroup in Heq'. rewrite Hg, Heq in Heq'. destruct y. by injection Heq'. }
  exists cfg', y.1. split_and!; [done| |by rewrite Hcfg'|done].
  assert (∀ p, client p cfg' = client p cfg) as Hcl by (intros p; unfold client; by rewrite Hc).
  assert (tst cfg' = y.2 ∧ grps cfg' = <[g := y.1]> (grps cfg)) as [Ht Hgs] by by rewrite Hcfg'.
  split; [done|by rewrite Hc| |].
  - intros g' sg' p c e. rewrite Hgs, Ht, Hcl. intros Hl Hp He.
    apply lookup_insert_Some in Hl as [[<- <-]|[Hne Hl]].
    + destruct (Hf e (Hfar g sg p c e Hg Hp He)) as [Hfe _]. by destruct y.
    + destruct (Hfar g' sg' p c e Hl Hp He) as [Hd Hno]. split; [|done].
      apply (drawn_name_mono rand (tst cfg)); [apply (r_drawn _ _ Hxy)|done].
  - intros p. rewrite Hcl, Ht. pose proof (Hv p) as Hvp. destruct (client p cfg) as [c|] eqn:Hp; [|done].
    destruct (vs !! p) as [v|]; [|done]. eapply shows_frame; [done|]. intros e He.
    by apply (Hf e), (Hfar g sg p c e).
Qed.

Lemma MakeGroup_rinv g n cfg vs :
  rinv cfg vs → grps cfg !! g = None → ∃ cfg' sg, MakeGroup rand g n cfg = Ret cfg' ∧ rinv cfg' vs ∧
    grps cfg' = <[g := sg]> (grps cfg) ∧ ∀ i, member sg i → idle (sg, tst cfg') i.
Proof.
  intros [Hok Hm Hfar Hv] Hg. destruct (MakeGroup_ok rand g n cfg Hok Hg) as (cfg' & sg & Heq & Hok' & Hc & Hgs & _ & _ & Hnew0).
  destruct (makeSrvGrp_spec rand g n (tst cfg) (ok_tester _ _ Hok)) as
    (sg0 & t' & Heq0 & _ & _ & _ & _ & _ & _ & _ & _ & [Hkd _ Hke _ _] & Hnew).
  assert (cfg' = set_tst t' (set_grps (<[g := sg0]> (grps cfg)) cfg)) as Hcfg'.
  { unfold MakeGroup in Heq. rewrite Heq0 in Heq. by injection Heq. }
  assert (tst cfg' = t') as Ht by by rewrite Hcfg'.
  assert (sg = sg0) as ->. { rewrite Hcfg' in Hgs. simpl in Hgs. apply (f_equal (.!! g)) in Hgs. rewrite !lookup_insert_eq in Hgs. by injection Hgs. }
  exists cfg', sg0. split_and!; [done| |done|intros i Hi; by eapply waits_idle, Hnew0].
  assert (∀ p, client p cfg' = client p cfg) as Hcl by (intros p; unfold client; by rewrite Hc).
  assert (∀ p c e, client p cfg = Some c → e ∈ Clnts.end_names c → drawn_name rand (tst cfg) e) as Hdr.
  { intros p c e Hp He. apply (ok_tester _ _ Hok). by apply (ok_clnt _ _ Hok p c). }
  split; [done|by rewrite Hc| |].
  - intros g' sg' p c e. rewrite Hgs, Ht, Hcl. intros Hl Hp He. split; [by apply (drawn_name_mono rand (tst cfg)), (Hdr p c)|].
    apply lookup_insert_Some in Hl as [[<- <-]|[Hne Hl]]; simpl; intros a b Ha Hb Hen.
    + eapply Hnew; [exact Ha|exact Hb|exact Hen|by eapply Hdr].
    + destruct (Hfar g' sg' p c e Hl Hp He) as [_ Hno]. by apply (Hno a b).
  - intros p. rewrite Hcl, Ht. pose proof (Hv p) as Hvp. destruct (client p cfg) as [c|] eqn:Hp; [|done].
    destruct (vs !! p) as [v|]; [|done]. eapply shows_frame; [done|]. intros e He. unfold on, mget.
    by rewrite Hke by by eapply Hdr.
Qed.

(** An operation on a client. *)
Lemma on_clnt_rinv p f c v v' cfg cfg' vs :
  rinv cfg vs → client p cfg = Some c → on_clnt p f cfg = Ret cfg' → ok rand cfg' →
  (∀ c' t', f c (tst cfg) = Ret (c', t') → shows c (tst cfg) v → shows c' t' v' ∧ (drawn (tst cfg) ≤ drawn t')%nat ∧
     (∀ e, e ∈ Clnts.end_names c' → e ∈ Clnts.end_names c ∨ ¬ drawn_name rand (tst cfg) e) ∧
     (∀ e, drawn_name rand (tst cfg) e → e ∉ Clnts.end_names c → on t' e = on (tst cfg) e)) →
  vs !! p = Some v → rinv cfg' (<[p := v']> vs).
Proof.
  intros [Hok [m Hm] Hfar Hv] Hp Heq Hok' Hf Hvs. unfold on_clnt in Heq. fold (client p cfg) in Heq. rewrite Hp in Heq.
  destruct (f c (tst cfg)) as [[c' t']|] eqn:Hfc; [|done]. cbn [rbind] in Heq. injection Heq as <-.
  pose proof (Hv p) as Hvp. rewrite Hp, Hvs in Hvp. destruct (Hf c' t' eq_refl Hvp) as (Hsh & Hd & Hends & Hon).
  assert (∀ q, client q (set_tst t' (set_clnts (<[p := c']> <$> clnts cfg) cfg)) =
    if decide (q = p) then Some c' else client q cfg) as Hcl.
  { intros q. unfold client. simpl. rewrite Hm. simpl. case_decide; [subst; apply lookup_insert_eq|by apply lookup_insert_ne]. }
  split; [done|by rewrite Hm; eexists| |].
  - intros g sg q c0 e. simpl. rewrite Hcl. intros Hg Hq He.
    assert (drawn_name rand t' e) as Hdr.
    { apply (ok_tester _ _ Hok'). simpl. apply (ok_clnt _ _ Hok' q c0); [by rewrite Hcl|done]. }
    split; [done|]. simpl. intros a b Ha Hb Hen. case_decide.
    + simplify_eq. destruct (Hends e He) as [Ho|Ho]; [destruct (Hfar g sg p c e Hg Hp Ho) as [_ Hno]; by apply (Hno a b)|].
      apply Ho. destruct (ok_groups _ _ Hok g sg Hg) as [_ [_ Hn _ _]]. by apply (Hn a b).
    + destruct (Hfar g sg q c0 e Hg Hq He) as [_ Hno]. by apply (Hno a b).
  - intros q. rewrite Hcl. simpl. case_decide as Hq; [subst; by rewrite lookup_insert_eq|].
    rewrite lookup_insert_ne by done. pose proof (Hv q) as Hvq. destruct (client q cfg) as [c0|] eqn:Hq0; [|done].
    destruct (vs !! q) as [v0|]; [|done]. eapply shows_frame; [done|]. intros e He. apply Hon.
    + apply (ok_tester _ _ Hok). by apply (ok_clnt _ _ Hok q c0).
    + by apply (ok_disj _ _ Hok q p c0 c).
Qed.

Lemma on_enable_all v es t e : e ∉ es → on (enable_all v es t) e = on t e.
Proof. intros He. unfold on. by rewrite enable_all_enabled, decide_False. Qed.

Lemma some_ends_sub P c e : e ∈ Clnts.some_ends P (Clnts.ends c) → e ∈ Clnts.end_names c.
Proof.
  unfold Clnts.some_ends, Clnts.end_names. rewrite !list_elem_of_fmap.
  intros (x & -> & [_ ?]%list_elem_of_filter). by exists x.
Qed.

(** Switching ends of a client. *)
Lemma switch_rinv p f c v to w P (reach' : string → bool) cfg cfg' vs :
  rinv cfg vs → client p cfg = Some c → vs !! p = Some v → on_clnt p f cfg = Ret cfg' → ok rand cfg' →
  f c (tst cfg) = Ret (Clnts.MkClnt (Clnts.ends c) to, enable_all w (Clnts.some_ends P (Clnts.ends c)) (tst cfg)) →
  (shows c (tst cfg) v → ∀ s, Clnts.reach (Clnts.MkClnt (Clnts.ends c) to)
     (enable_all w (Clnts.some_ends P (Clnts.ends c)) (tst cfg)) s = reach' s) →
  rinv cfg' (<[p := MkView (known v) reach']> vs).
Proof.
  intros Hri Hp Hvs Heq Hok' Hf Hr. eapply on_clnt_rinv; [done..| |done].
  intros c' t' Hc Hsh. rewrite Hf in Hc. injection Hc as <- <-. split_and!.
  - split; [apply Hsh|by apply Hr].
  - destruct (enable_all_same w (Clnts.some_ends P (Clnts.ends c)) (tst cfg)) as (-> & _). done.
  - intros e He. by left.
  - intros e _ He. apply on_enable_all. intros ?. by eapply He, some_ends_sub.
Qed.

(** Making an end. *)
Lemma makeEnd_shows server c t v e c' t' :
  clnt_ok rand c t → Clnts.makeEnd rand server c t = Ret (e, c', t') → shows c t v →
  shows c' t' (MkView ({[server]} ∪ known v) (reaches v)) ∧ (drawn t ≤ drawn t')%nat ∧
  (∀ e, e ∈ Clnts.end_names c' → e ∈ Clnts.end_names c ∨ ¬ drawn_name rand t e) ∧
  (∀ e, drawn_name rand t e → e ∉ Clnts.end_names c → on t' e = on t e).
Proof.
  intros Hc Heq [Hk Hr]. destruct (makeEnd_reach rand server c t Hc) as (e0 & c0 & t0 & Heq0 & He & _ & _ & Hreach & _).
  rewrite Heq in Heq0. injection Heq0 as <- <- <-. unfold Clnts.makeEnd in Heq.
  destruct (Clnts.ends c !! server) as [e1|] eqn:Hs.
  { injection Heq as -> -> ->. split_and!; [split; simpl|done|by left|done].
    - intros s. rewrite Hk. pose proof (Hk server). set_solver.
    - done. }
  cbn [Randstring] in Heq. unfold MakeEnd in Heq. simpl in Heq. case_bool_decide as Hn; [done|].
  cbn [rbind] in Heq. injection Heq as <- <- Ht'. pose proof (rand_fresh rand t (drawn t) ltac:(lia)) as Hf.
  assert (drawn t' = S (drawn t) ∧ ∀ e, e ≠ rand (drawn t) → on t' e = on t e) as [Hd Hon].
  { unfold on. rewrite <-Ht'. destruct (Clnts.allowedL c server); simpl; (split; [done|]);
      intros e Hne; by rewrite !mget_insert_ne. }
  split_and!.
  - split; simpl; [|intros s; rewrite <-Hr; by apply Hreach].
    intros s. rewrite elem_of_union, elem_of_singleton, <-Hk. destruct (decide (s = server)) as [->|Hne].
    + rewrite lookup_insert_eq. split; [by left|by eexists].
    + rewrite lookup_insert_ne by done. tauto.
  - lia.
  - intros e (s & He')%Clnts.elem_of_end_names. simpl in He'. apply lookup_insert_Some in He' as [[_ <-]|[_ He']].
    + by right.
    + left. apply Clnts.elem_of_end_names. by exists s.
  - intros e Hdr _. apply Hon. by intros ->.
Qed.

(** Deleting a client. *)
Lemma DeleteClient_rinv p cfg vs :
  rinv cfg vs → ∃ cs t, Clnts.DeleteClient p (clnts cfg) (tst cfg) = Ret (cs, t) ∧
    rinv (set_tst t (set_clnts cs cfg)) (delete p vs).
Proof.
  intros [Hok [m Hm] Hfar Hv]. destruct (DeleteClient_ok rand p cfg Hok) as (cs & t & Heq & Hok' & Hcs); [by eexists|].
  exists cs, t. split; [done|]. set (cfg' := set_tst t (set_clnts cs cfg)).
  assert ((∀ q, client q cfg' = if decide (q = p) then None else client q cfg) ∧ drawn t = drawn (tst cfg) ∧
    ∀ q c e, q ≠ p → client q cfg = Some c → e ∈ Clnts.end_names c → on t e = on (tst cfg) e) as (Hcl & Hd & Hon).
  { unfold Clnts.DeleteClient in Heq. change (clnts cfg ≫= (.!! p)) with (client p cfg) in Heq.
    destruct (client p cfg) as [c|] eqn:Hp.
    - destruct (Clnts.remove c (tst cfg)) as [t1|] eqn:Hrm; [|done]. cbn [rbind] in Heq. injection Heq as <- <-.
      destruct (ok_clnt _ _ Hok p c Hp) as [Hdist Hin].
      destruct (Clnts.remove_spec c (tst cfg)) as (t2 & Hrm' & _ & _ & Hen & _); [by apply Clnts.NoDup_end_names|done|].
      rewrite Hrm in Hrm'. injection Hrm' as <-. destruct (remove_frame _ _ _ Hrm) as [Hd _]. split_and!; [|done|].
      + intros q. unfold client. simpl. rewrite Hm. simpl. case_decide; [subst; apply lookup_delete_eq|by apply lookup_delete_ne].
      + intros q c0 e Hne Hq He. unfold on, mget. destruct (Hen e) as [-> _]; [|done]. by apply (ok_disj _ _ Hok q p c0 c).
    - injection Heq as <- <-. split_and!; [|done..]. intros q. unfold client. simpl.
      case_decide; [by subst|done]. }
  split; [done|done| |].
  - intros g sg q c e. rewrite Hcl. case_decide as Hne; [done|]. simpl. intros Hg Hq He.
    destruct (Hfar g sg q c e Hg Hq He) as [Hdr Hno]. split; [|done]. simpl.
    apply (drawn_name_mono rand (tst cfg)); [by rewrite Hd|done].
  - intros q. rewrite Hcl. case_decide as Hne; [subst; by rewrite lookup_delete_eq|]. rewrite lookup_delete_ne by done.
    pose proof (Hv q) as Hvq. destruct (client q cfg) as [c|] eqn:Hq; [|done]. destruct (vs !! q) as [v|]; [|done].
    eapply shows_frame; [done|]. intros e He. by apply (Hon q c).
Qed.

(** ** Every operation of a test *)

Lemma alter_lookup (f : view → view) p (vs : gmap nat view) v : vs !! p = Some v → alter f p vs = <[p := f v]> vs.
Proof.
  intros Hp. apply map_eq. intros q. destruct (decide (p = q)) as [->|Hne].
  - by rewrite lookup_alter_eq, lookup_insert_eq, Hp.
  - by rewrite lookup_alter_ne, lookup_insert_ne.
Qed.

Lemma rinv_client p cfg vs c : rinv cfg vs → client p cfg = Some c → ∃ v, vs !! p = Some v.
Proof. intros [_ _ _ Hv] Hp. pose proof (Hv p) as Hvp. rewrite Hp in Hvp. destruct (vs !! p) as [v|]; [by exists v|done]. Qed.

Lemma rinv_dom cfg vs p : rinv cfg vs → is_Some (client p cfg) ↔ is_Some (vs !! p).
Proof.
  intros [_ _ _ Hv]. pose proof (Hv p) as Hvp.
  destruct (client p cfg), (vs !! p); try done; by split; intros [? ?].
Qed.

Lemma net_rinv f cfg vs :
  (∀ rn, LabRpc.ends (f rn) = LabRpc.ends rn ∧ servers (f rn) = servers rn ∧ done (f rn) = done rn ∧ enabled (f rn) = enabled rn) →
  rinv cfg vs → rinv (on_net f cfg) vs.
Proof.
  intros Hf [Hok Hm Hfar Hv]. split; [apply net_ok; [done|intros rn; by destruct (Hf rn) as (? & ? & ? & ?)]|done| |].
  - intros g sg p c e Hg Hp He. by destruct (Hfar g sg p c e Hg Hp He).
  - intros p. pose proof (Hv p) as Hvp. change (client p (on_net f cfg)) with (client p cfg).
    destruct (client p cfg) as [c|]; [|done]. destruct (vs !! p); [|done]. eapply shows_frame; [done|].
    intros e _. unfold on. simpl. by destruct (Hf (net (tst cfg))) as (_ & _ & _ & ->).
Qed.

Lemma member_rinv g f l cfg cfg' vs :
  rinv cfg vs → members g l cfg → on_group g f cfg = Ret cfg' →
  (∀ x, good rand x → Forall (member x.1) l → tame rand (f x.1 x.2) x) → rinv cfg' vs.
Proof.
  intros Hri Hl Heq Hf. unfold members in Hl. destruct (lookupGroup g cfg) as [sg|] eqn:Hsg; [|done].
  destruct (ok_groups _ _ (ri_ok _ _ Hri) g sg Hsg) as [_ Hgood].
  destruct (on_group_rinv g f sg cfg vs Hri Hsg) as (cfg1 & _ & Heq1 & Hri1 & _); [by apply (Hf (sg, tst cfg))|].
  rewrite Heq in Heq1. by injection Heq1 as <-.
Qed.

Lemma group_op_rinv o cfg cfg' vs :
  rinv cfg vs → client_op o = false → valid o cfg → run rand all_ok o cfg = Ret cfg' → rinv cfg' vs.
Proof.
  intros Hri Ho Hv Hr. destruct o as [g n|g|g i|g i|g i im|g i to|g i from|g p1 p2|b|b|b|p to|p|p server|p|p to|p srv|p]; simpl in Hv, Hr; try done.
  - destruct (MakeGroup_rinv g n cfg vs Hri Hv) as (cfg1 & sg & Heq & Hri1 & Hg1 & Hidle).
    unfold MakeGroupStart in Hr. rewrite Heq in Hr. cbn [rbind] in Hr.
    assert (grps cfg1 !! g = Some sg) as Hsg by (rewrite Hg1; apply lookup_insert_eq).
    destruct (ok_groups _ _ (ri_ok _ _ Hri1) g sg Hsg) as [_ Hgood].
    destruct (on_group_rinv g (StartServers rand all_ok) sg cfg1 vs Hri1 Hsg) as (cfg2 & _ & Heq2 & Hri2 & _);
      [by apply (StartServers_tame rand (sg, tst cfg1))|]. congruence.
  - unfold members in Hv. destruct (lookupGroup g cfg) as [sg|] eqn:Hsg; [|done].
    destruct (ok_groups _ _ (ri_ok _ _ Hri) g sg Hsg) as [_ Hgood].
    destruct (on_group_rinv g (Shutdown all_ok) sg cfg vs Hri Hsg) as (cfg1 & sg' & Heq & [Hok1 Hm1 Hfar1 Hv1] & Hg1 & Hc1).
    { by apply (Shutdown_tame rand (sg, tst cfg)). }
    destruct (ExitGroup_ok rand g cfg (ri_ok _ _ Hri)) as (cfg2 & Heq2 & Hok2 & _); [by exists sg|].
    rewrite Hr in Heq2. injection Heq2 as <-. unfold ExitGroup in Hr. rewrite Heq in Hr. injection Hr as <-.
    split; [done|done| |exact Hv1]. intros g' sg0 p c e Hl. simpl in Hl. apply lookup_delete_Some in Hl as [_ Hl].
    by apply (Hfar1 g' sg0 p c e).
  - destruct Hv as [Hv Hidle]. unfold members in Hv. unfold idle_in in Hidle.
    destruct (lookupGroup g cfg) as [sg|] eqn:Hsg; [|done]. apply list.Forall_cons in Hv as [Hi _].
    destruct (ok_groups _ _ (ri_ok _ _ Hri) g sg Hsg) as [_ Hgood]. match type of Hr with on_group _ ?f _ = _ =>
      destruct (on_group_rinv g f sg cfg vs Hri Hsg) as (cfg2 & _ & Heq2 & Hri2 & _) end;
      [by apply (StartServer_tame rand i (sg, tst cfg))|]. congruence.
  - eapply (member_rinv g _ [i]); [done..|]. intros x Hx [Hi _]%list.Forall_cons. by apply ShutdownServer_tame.
  - eapply (member_rinv g _ [i]); [done..|]. intros x Hx _. by apply persist_tame.
  - eapply (member_rinv g _ (i :: to)); [done..|]. intros x Hx [Hi Hl]%list.Forall_cons. by apply connect_tame.
  - eapply (member_rinv g _ (i :: from)); [done..|]. intros x Hx [Hi Hl]%list.Forall_cons. by apply disconnect_tame.
  - eapply (member_rinv g _ (p1 ++ p2)); [done..|]. intros x Hx [H1 H2]%list.Forall_app. by apply Partition_tame.
  - injection Hr as <-. by apply net_rinv.
  - injection Hr as <-. by apply net_rinv.
  - injection Hr as <-. by apply net_rinv.
Qed.

Lemma clnt_ok_client p c cfg : ok rand cfg → client p cfg = Some c → clnt_ok rand c (tst cfg).
Proof.
  intros Hok Hc. destruct (ok_clnt _ _ Hok p c Hc) as [Hd Hin]. split_and!; [done| |apply Hok].
  intros s e He. apply (ok_tester _ _ Hok), Hin, Clnts.elem_of_end_names. by exists s.
Qed.

Lemma new_client_rinv p to cfg cs vs :
  rinv cfg vs → client p cfg = None → Clnts.MakeClientTo p to (clnts cfg) = Ret cs → ok rand (set_clnts cs cfg) →
  rinv (set_clnts cs cfg) (<[p := MkView ∅ (allows to)]> vs).
Proof.
  intros [Hok [m Hm] Hfar Hview] Hp Hr Hok'. unfold Clnts.MakeClientTo in Hr. rewrite Hm in Hr. injection Hr as <-.
  assert (∀ q, client q (set_clnts (Some (<[p := Clnts.makeClntTo to]> m)) cfg) =
    if decide (q = p) then Some (Clnts.makeClntTo to) else client q cfg) as Hcl.
  { intros q. unfold client. simpl. rewrite Hm. simpl. case_decide; [subst; apply lookup_insert_eq|by apply lookup_insert_ne]. }
  split; [done|by eexists| |].
  - intros g sg q c e. rewrite Hcl. case_decide; [|by apply Hfar].
    intros _ [= <-] (s & Hs)%Clnts.elem_of_end_names. simpl in Hs. by rewrite lookup_empty in Hs.
  - intros q. rewrite Hcl. case_decide as Hne; [|rewrite lookup_insert_ne by done; apply Hview]. subst. rewrite lookup_insert_eq.
    split; simpl; [intros s; rewrite lookup_empty; split; [by intros [? ?]|set_solver]|].
    intros s. unfold Clnts.reach. simpl. by rewrite lookup_empty.
Qed.

Lemma run_rinv o cfg cfg' vs :
  rinv cfg vs → widens vs o → valid o cfg → run rand all_ok o cfg = Ret cfg' → rinv cfg' (see vs o).
Proof.
  intros Hri Hw Hv Hr. pose proof (group_op_rinv o cfg cfg' vs Hri) as Hgrp. pose proof Hri as [Hok Hm Hfar Hview].
  destruct (run_ok rand o cfg Hok Hm Hv) as (cfg0 & Heq0 & Hok' & Hm').
  rewrite Hr in Heq0. injection Heq0 as <-.
  destruct o as [g n|g|g i|g i|g i im|g i to|g i from|g p1 p2|b|b|b|p to|p|p server|p|p to|p srv|p];
    try (by apply Hgrp); simpl in Hv, Hr |- *; try (destruct Hv as [c Hc]; fold (client p cfg) in Hc;
      destruct (rinv_client p cfg vs c Hri Hc) as [v Hvs];
      pose proof (proj1 (ok_clnt _ _ Hok p c Hc)) as Hd; rewrite (alter_lookup _ p vs v Hvs)).
  - apply rbind_Ret_inv in Hr as (cs & Hcs & Hr). injection Hr as <-. by apply new_client_rinv.
  - destruct (DeleteClient_rinv p cfg vs Hri) as (cs & t & Heq & Hri'). rewrite Heq in Hr. by injection Hr as <-.
  - eapply on_clnt_rinv; [done..| |done]. intros c' t' Hmk Hshow'. cbn beta in Hmk. destruct (Clnts.makeEnd rand server c (tst cfg)) as [[[e c0] t0]|] eqn:Heq; [|done].
    injection Hmk as <- <-. eapply makeEnd_shows; [by apply (clnt_ok_client p)|done|done].
  - eapply (switch_rinv p _ c v None true (λ _, true)); [done..| |].
    + unfold Clnts.ConnectAll. by rewrite Clnts.some_ends_all.
    + intros _ s. destruct (connect_reach c (tst cfg) None "" s Hd) as (H1 & _). unfold Clnts.ConnectAll in H1.
      by rewrite <-Clnts.some_ends_all in H1.
  - eapply (switch_rinv p _ c v to true (Clnts.allowedL (Clnts.MkClnt (Clnts.ends c) to))); [done..| |].
    + unfold Clnts.ConnectTo. by rewrite Clnts.foldl_enable.
    + intros [Hk Hre] s. destruct (connect_reach c (tst cfg) to "" s Hd) as (_ & _ & H1 & _). unfold Clnts.ConnectTo in H1.
      rewrite (Clnts.foldl_enable (Clnts.allowedL (Clnts.MkClnt (Clnts.ends c) to))) in H1. simpl in H1. rewrite H1, Hre.
      unfold widens in Hw. rewrite Hvs in Hw. change (Clnts.allowedL _ s) with (allows to s).
      case_bool_decide as Hs; [|by rewrite orb_false_r]. apply Hk in Hs. specialize (Hw s Hs).
      destruct (reaches v s) eqn:Hrs; [by rewrite (Hw Hrs)|by rewrite orb_false_r].
  - eapply (switch_rinv p _ c v (Clnts.srvs c) false (λ s, bool_decide (s = srv))); [done..| |].
    + unfold Clnts.Disconnect. rewrite (Clnts.foldl_enable (λ s, bool_decide (s = srv))). by destruct c.
    + intros [Hk Hre] s. destruct (connect_reach c (tst cfg) None srv s Hd) as (_ & _ & _ & H1). unfold Clnts.Disconnect in H1.
      rewrite (Clnts.foldl_enable (λ s, bool_decide (s = srv))) in H1. destruct c as [es l]. simpl in *. rewrite H1, Hre.
      pose proof (Hk s). repeat case_decide; tauto.
  - eapply (switch_rinv p _ c v (Some []) false (λ _, true)); [done..| |].
    + unfold Clnts.DisconnectAll. by rewrite Clnts.some_ends_all.
    + intros _ s. destruct (connect_reach c (tst cfg) None "" s Hd) as (_ & H1 & _). unfold Clnts.DisconnectAll in H1.
      by rewrite <-Clnts.some_ends_all in H1.
Qed.

Lemma runs_rinv os cfg cfg' vs :
  rinv cfg vs → widening vs os → runs rand all_ok os cfg cfg' → rinv cfg' (foldl see vs os).
Proof.
  intros Hri Hw Hrs. revert vs Hri Hw. induction Hrs as [cfg|o os cfg cfg1 cfg2 Hv Hr Hrs IH]; intros vs Hri Hw; [done|].
  destruct Hw as [Hw1 Hw2]. simpl. apply IH; [by eapply run_rinv|done].
Qed.

Lemma start_rinv k n reliable now cfg : MakeConfig rand all_ok k n reliable now = Ret cfg → rinv cfg ∅.
Proof.
  intros Hmk. destruct (MakeConfig_ok rand k n reliable now) as (cfg1 & sg & Heq & Hok1 & Hc1 & _).
  rewrite Heq in Hmk. injection Hmk as ->.
  assert (∀ p, client p cfg = None) as Hcl by (intros p; unfold client; rewrite Hc1; simpl; apply lookup_empty).
  split; [done|by eexists| |].
  - intros g sg' p c e _. by rewrite Hcl.
  - intros p. by rewrite Hcl, lookup_empty.
Qed.

(** *** Operations on clients leave the links between servers alone *)

Lemma on_clnt_frame p f c e cfg cfg' :
  client p cfg = Some c → on_clnt p f cfg = Ret cfg' →
  (∀ c' t', f c (tst cfg) = Ret (c', t') → on t' e = on (tst cfg) e) → on (tst cfg') e = on (tst cfg) e.
Proof.
  intros Hp Heq Hf. unfold on_clnt in Heq. fold (client p cfg) in Heq. rewrite Hp in Heq.
  destruct (f c (tst cfg)) as [[c' t']|]; [|done]. injection Heq as <-. by eapply Hf.
Qed.

Lemma client_frame o cfg cfg' e :
  ok rand cfg → is_Some (clnts cfg) → client_op o = true → valid o cfg → run rand all_ok o cfg = Ret cfg' →
  drawn_name rand (tst cfg) e → (∀ p c, client p cfg = Some c → e ∉ Clnts.end_names c) →
  on (tst cfg') e = on (tst cfg) e.
Proof.
  intros Hok [m Hm] Ho Hv Hr He Hno.
  assert (∀ p c P w, client p cfg = Some c → on (enable_all w (Clnts.some_ends P (Clnts.ends c)) (tst cfg)) e = on (tst cfg) e) as Hsw.
  { intros p c P w Hp. apply on_enable_all. intros ?. by eapply (Hno p c), some_ends_sub. }
  destruct o as [g n|g|g i|g i|g i im|g i to|g i from|g p1 p2|b|b|b|p to|p|p server|p|p to|p srv|p]; try done; simpl in Hv, Hr;
    try (destruct Hv as [c Hc]; eapply on_clnt_frame; [exact Hc|exact Hr|]; intros c' t' Heq).
  - apply rbind_Ret_inv in Hr as (cs & _ & Hr). by injection Hr as <-.
  - unfold Clnts.DeleteClient in Hr. change (clnts cfg ≫= (.!! p)) with (client p cfg) in Hr.
    destruct (client p cfg) as [c|] eqn:Hp; [|by injection Hr as <-]. destruct (ok_clnt _ _ Hok p c Hp) as [Hdist Hin].
    destruct (Clnts.remove_spec c (tst cfg)) as (t2 & Hrm & _ & _ & Hen & _); [by apply Clnts.NoDup_end_names|done|].
    rewrite Hrm in Hr. cbn [rbind] in Hr. injection Hr as <-. unfold on, mget. simpl.
    destruct (Hen e) as [-> _]; [by eapply Hno|done].
  - cbn beta in Heq. destruct (Clnts.makeEnd rand server c (tst cfg)) as [[[e1 c0] t0]|] eqn:Hmk; [|done]. injection Heq as <- <-.
    destruct (makeEnd_shows server c (tst cfg) (MkView (dom (Clnts.ends c)) (Clnts.reach c (tst cfg))) e1 c0 t0) as (_ & _ & _ & Hon);
      [by apply (clnt_ok_client p)|done| |].
    + split; [intros s; simpl; by rewrite elem_of_dom|done].
    + apply Hon; [done|by eapply Hno].
  - unfold Clnts.ConnectAll in Heq. rewrite <-Clnts.some_ends_all in Heq. injection Heq as <- <-. by eapply Hsw.
  - unfold Clnts.ConnectTo in Heq. rewrite Clnts.foldl_enable in Heq. injection Heq as <- <-. by eapply Hsw.
  - unfold Clnts.Disconnect in Heq. rewrite (Clnts.foldl_enable (λ s, bool_decide (s = srv))) in Heq. injection Heq as <- <-. by eapply Hsw.
  - unfold Clnts.DisconnectAll in Heq. rewrite <-Clnts.some_ends_all in Heq. injection Heq as <- <-. by eapply Hsw.
Qed.

Lemma client_links o cfg cfg' vs g sg a b :
  rinv cfg vs → client_op o = true → valid o cfg → run rand all_ok o cfg = Ret cfg' →
  grps cfg !! g = Some sg → member sg a → member sg b → linked sg (tst cfg') a b = linked sg (tst cfg) a b.
Proof.
  intros [Hok Hm Hfar _] Ho Hv Hr Hg Ha Hb. unfold linked. destruct (end_name sg a b) as [e|] eqn:He; [|done].
  destruct (ok_groups _ _ Hok g sg Hg) as [_ [_ Hn _ _ _]]. apply (client_frame o cfg cfg' e); [done..|by apply (Hn a b)|].
  intros p c Hp Hin. destruct (Hfar g sg p c e Hg Hp Hin) as [_ Hno]. by apply (Hno a b).
Qed.
End config.
End ConfigReach.
Import ConfigReach.

(** C21. Faults of servers are not faults of clients, and clients do not interfere.  After
    MakeConfig and any sequence of operations on groups, servers, links, partitions, the
    network and clients, the clients that exist are those that were made and not deleted,
    and what each of them can reach, over the ends it has and those it would make, is what
    the operations on this client alone say: after MakeClientTo and ConnectTo exactly the
    servers of the list, after ConnectAll every server, after DisconnectAll none, and
    Disconnect takes the named server away, unless the client had no end to it.  And no
    operation on a client switches a link between servers.  Processes start, answer and are
    killed as they are told to.  ConnectTo never disables an end, so this is for tests that
    do not use it to take away a server that the client reaches over an end it has made:
    there the code does not do what its comment says (an empty list does not cut off such
    a client; see connect_reach in ClntsSpec.v). *)
Theorem clients_isolated rand `{!Inj (=) (=) rand} k n reliable now os cfg0 cfg :
  MakeConfig rand all_ok k n reliable now = Ret cfg0 → runs rand all_ok os cfg0 cfg → widening ∅ os →
  (∀ p, is_Some (clnts cfg ≫= (.!! p)) ↔ is_Some (foldl see ∅ os !! p)) ∧
  (∀ p c v s, clnts cfg ≫= (.!! p) = Some c → foldl see ∅ os !! p = Some v →
     Clnts.reach c (tst cfg) s = reaches v s) ∧
  (∀ o cfg' g sg a b, client_op o = true → valid o cfg → run rand all_ok o cfg = Ret cfg' →
     grps cfg !! g = Some sg → member sg a → member sg b →
     grps cfg' !! g = Some sg ∧ linked sg (tst cfg') a b = linked sg (tst cfg) a b).
Proof.
  intros Hmk Hrs Hw. pose proof (runs_rinv rand os cfg0 cfg ∅ (start_rinv rand _ _ _ _ _ Hmk) Hw Hrs) as Hri. split_and!.
  - intros p. by eapply rinv_dom.
  - intros p c v s Hp Hvs. pose proof (ri_view _ _ _ Hri p) as Hv. fold (client p cfg) in Hp.
    rewrite Hp, Hvs in Hv. by apply Hv.
  - intros o cfg' g sg a b Ho Hv Hr Hg Ha Hb. split; [by rewrite (client_op_grps rand o cfg cfg' Ho Hr)|].
    by eapply client_links.
Qed.

(** *** A witness: a client that may reach one server, and one that is cut off from a
    server, while a server dies and comes back and the group is partitioned. *)

Definition reach_ops : list op :=
  [OMakeClient 7 (Some ["server-0-0"]); OMakeEnd 7 "server-0-0"; OShutdown 0 0; OStart 0 0; OConnect 0 0 [0; 1; 2];
   OMakeClient 8 None; OMakeEnd 8 "server-0-1"; OClntDisconnect 8 "server-0-1"; OPartition 0 [0] [1; 2];
   OClntConnectTo 7 (Some ["server-0-2"; "server-0-0"])].
Definition reach_end : res Config :=
  let* cfg := MakeConfig decimal all_ok 0 3 true 0 in res_fold (λ cfg o, run decimal all_ok o cfg) cfg reach_ops.

Lemma clients_isolated_witness :
  ∃ cfg c7 c8, reach_end = Ret cfg ∧ clnts cfg ≫= (.!! 7%nat) = Some c7 ∧ clnts cfg ≫= (.!! 8%nat) = Some c8 ∧
    Clnts.reach c7 (tst cfg) "server-0-0" = true ∧ Clnts.reach c8 (tst cfg) "server-0-1" = false.
Proof.
  destruct reach_end as [cfg|] eqn:Hend; [|vm_compute in Hend; discriminate].
  assert (runs decimal all_ok reach_ops example_start cfg) as Hrs.
  { apply runs_fold; [vm_compute; reflexivity|]. rewrite <-Hend. vm_compute. reflexivity. }
  destruct (clients_isolated decimal 0 3 true 0 reach_ops example_start cfg) as (Hex & Hre & _); [vm_compute; reflexivity|exact Hrs|apply (bool_decide_unpack _); vm_compute; exact I|].
  destruct (foldl see ∅ reach_ops !! 7%nat) as [v7|] eqn:H7; [|vm_compute in H7; discriminate].
  destruct (foldl see ∅ reach_ops !! 8%nat) as [v8|] eqn:H8; [|vm_compute in H8; discriminate].
  destruct (proj2 (Hex 7%nat)) as [c7 Hc7]; [by eexists|]. destruct (proj2 (Hex 8%nat)) as [c8 Hc8]; [by eexists|].
  exists cfg, c7, c8. split_and!; [reflexivity|exact Hc7|exact Hc8|rewrite (Hre _ _ _ _ Hc7 H7)|rewrite (Hre _ _ _ _ Hc8 H8)].
  - assert ((λ v, reaches v "server-0-0") <$> foldl see ∅ reach_ops !! 7%nat = Some true) as Hx by (vm_compute; reflexivity).
    rewrite H7 in Hx. by injection Hx.
  - assert ((λ v, reaches v "server-0-1") <$> foldl see ∅ reach_ops !! 8%nat = Some false) as Hx by (vm_compute; reflexivity).
    rewrite H8 in Hx. by injection Hx.
Defined.
