(* ===== verification/Testers.v ===== *)
(** * The tester of Raft on its group (raft1/test.go, tester1/group.go)

    A tester has the configuration of the test and, for each server, a proxy through which
    it calls the daemon of the server.  The tester kills and restarts servers while the
    servers report what they apply, so that proxies become stale and are made anew.

    A DaemonClnt is known by the labrpc server object that StartServer makes with it:
    StartServer sets its dispatch function to the daemon's forward and registers it under
    the name of the server.  The calls to the annotation package do not influence these
    functions. *)

From S2P Require Import Prelude LabRpc Group GroupStart Clnts Annotation Config Wire RaftTest.
Import LabRpc Group GroupStart Config.

(** ** group.go: the daemon of a server *)

Module Daemons.
Definition DaemonClnt (i : Z) (sg : ServerGrp) (t : tester) : res (option nat) :=
  let* s := slice_get (srvs sg) i in
  Ret (match dc s with
       | None => None
       | Some _ => mget None (servers (net t)) (ServerName (gid sg) i)
       end).
Definition GetConnected (sg : ServerGrp) : list bool := connected sg.
Definition Servers (sg : ServerGrp) : list Z := all sg.
(** The requests that were dispatched to a server object are counted by the object. *)
Definition RpcCount (count : nat → Z) (i : Z) (sg : ServerGrp) (t : tester) : res Z :=
  match mget None (servers (net t)) (ServerName (gid sg) i) with
  | Some p => Ret (count p)
  | None => Stop Panic
  end.

(** A function of [ts.g], the group GRP0 of the configuration. *)
Definition ask_group {A} (gid : Z) (f : ServerGrp → tester → res A) (cfg : Config) : res A :=
  match lookupGroup gid cfg with None => Stop Panic | Some sg => f sg (tst cfg) end.
End Daemons.
Import Daemons.

(** ** raft1/test.go *)

Module RaftTester.
Section raft.
Context {C : Type} `{EqDecision C} (rand : nat → string) (ev : env).

(** [rfsrv] is nil ([None]), or a proxy around a DaemonClnt, which may be a nil pointer
    ([Some None]); the other fields are those of RaftTest.v. *)
Record raftServer := MkRaftServer { rfsrv : option (option nat); rs : RaftTest.raftServer C }.
Record Test := MkTest {
  cfg : Config; n : nat; finished : bool; srvs : list (option raftServer); maxIndex : Z; snapshot : bool }.
Implicit Types ts : Test.

Definition set_cfg (c : Config) ts : Test :=
  MkTest c (n ts) (finished ts) (srvs ts) (maxIndex ts) (snapshot ts).
Definition set_srvs (l : list (option raftServer)) ts : Test :=
  MkTest (cfg ts) (n ts) (finished ts) l (maxIndex ts) (snapshot ts).

Definition newRaftServer (s : option (option nat)) : raftServer := MkRaftServer s RaftTest.newRaftServer.

(** newRfproxy wraps the daemon client, also when there is none. *)
Definition mksrv (srv : Z) (dc : option nat) ts : res Test :=
  let* old := slice_get (srvs ts) srv in
  let new := match old with
    | None => newRaftServer (Some dc)
    | Some s => MkRaftServer (Some dc) (rs s)
    end in
  let* l := slice_set (srvs ts) srv (Some new) in
  Ret (set_srvs l ts).

Definition makeTest (k n : nat) (reliable snapshot : bool) (now : Z) : res Test :=
  let* c := MakeConfig rand ev k n reliable now in
  let ts := MkTest (SetLongDelays true c) n false (replicate n None) 0 snapshot in
  res_fold (λ ts i, let* dc := ask_group GRP0 (DaemonClnt i) (cfg ts) in mksrv i dc ts)
    ts (Z.of_nat <$> seq 0 n).

Definition set_nil ts (srv : Z) : res Test :=
  let* s := slice_get (srvs ts) srv in
  match s with
  | None => Stop Panic
  | Some s => let* l := slice_set (srvs ts) srv (Some (MkRaftServer None (rs s))) in Ret (set_srvs l ts)
  end.
Definition kill (l : list Z) ts : res Test :=
  let* c := on_group GRP0 (Kill ev l) (cfg ts) in
  res_fold set_nil (set_cfg c ts) l.

Definition restart_one ts (srv : Z) : res Test :=
  let* dc := ask_group GRP0 (DaemonClnt srv) (cfg ts) in
  let* ts := mksrv srv dc ts in
  let* c := on_group GRP0 (ConnectOne srv) (cfg ts) in
  Ret (set_cfg c ts).
Definition restart (l : list Z) ts : res Test :=
  let* c := on_group GRP0 (StartSrvs rand ev l) (cfg ts) in
  res_fold restart_one (set_cfg c ts) l.

(** The tests also call the group directly. *)
Definition connect (i : Z) ts : res Test :=
  let* c := on_group GRP0 (ConnectOne i) (cfg ts) in Ret (set_cfg c ts).
Definition disconnect (i : Z) ts : res Test :=
  let* c := on_group GRP0 (DisconnectAll i) (cfg ts) in Ret (set_cfg c ts).

Definition cleanup (now : Z) (order : list Z)
    (vis : bool → string → Annotation.Annotation → Annotation.Annotation * option (list Annotation.PAnn))
    (x : Annotation.Annotation) ts : res Test :=
  let ts := MkTest (cfg ts) (n ts) true (srvs ts) (maxIndex ts) (snapshot ts) in
  let* _ := End_ now (cfg ts) in
  let* '(c, _) := Cleanup ev order vis x (cfg ts) in
  Ret (set_cfg c ts).

(** *** The reports of the servers: the handlers of RaftTest.v on the tester's copies *)

Fixpoint copies (l : list (option raftServer)) : res (list (RaftTest.raftServer C)) :=
  match l with
  | [] => Ret []
  | None :: _ => Stop Panic
  | Some s :: l => let* l := copies l in Ret (rs s :: l)
  end.
Definition put_copy (o : option raftServer) (r : RaftTest.raftServer C) : option raftServer :=
  (λ s, MkRaftServer (rfsrv s) r) <$> o.
Definition report (f : RaftTest.Test C → res (RaftTest.Test C)) ts : res Test :=
  let* l := copies (srvs ts) in
  let* t := f (RaftTest.MkTest l (maxIndex ts)) in
  Ret (MkTest (cfg ts) (n ts) (finished ts) (zip_with put_copy (srvs ts) (RaftTest.srvs t))
    (RaftTest.maxIndex t) (snapshot ts)).

(** *** Asking every connected server, as checkOneLeader and checkTerms do in a round

    A call on a nil proxy panics, and so does one of a proxy around a nil DaemonClnt. *)

Definition ask_state (GetState : nat → Z * bool) ts (acc : list (Z * (Z * bool))) (i : Z) :
    res (list (Z * (Z * bool))) :=
  let* c := ask_group GRP0 (λ sg _, IsConnected i sg) (cfg ts) in
  if c : bool then
    let* s := slice_get (srvs ts) i in
    match mjoin (s ≫= rfsrv) with
    | None => Stop Panic
    | Some p => Ret (acc ++ [(i, GetState p)])
    end
  else Ret acc.
Definition ask_states (GetState : nat → Z * bool) ts : res (list (Z * (Z * bool))) :=
  res_fold (ask_state GetState ts) [] (Z.of_nat <$> seq 0 (n ts)).

(** *** A test: what it does to the servers, and what the servers report meanwhile *)

Inductive op :=
| Kill (l : list Z) | Restart (l : list Z) | Connect (i : Z) | Disconnect (i : Z)
| Applied (me : Z) (m : RaftTest.ApplyMsg C) | Ingested (me : Z) (xlog : gmap Z (option C)).
Definition run (o : op) ts : res Test :=
  match o with
  | Kill l => kill l ts
  | Restart l => restart l ts
  | Connect i => connect i ts
  | Disconnect i => disconnect i ts
  | Applied me m => report (RaftTest.applier_one me m) ts
  | Ingested me xlog => report (RaftTest.IngestLog me xlog) ts
  end.
End raft.
#[global] Arguments Test : clear implicits.
#[global] Arguments raftServer : clear implicits.
#[global] Arguments op : clear implicits.
End RaftTester.
