(* ===== verification/RsmGroup.v ===== *)
(** * The tester of the replicated state machine on its group (kvraft1/rsm/test.go)

    As for Raft (Testers.v), the tester has a proxy for each server, made with the daemon of
    the server; it kills, restarts, connects and disconnects the servers. *)

From S2P Require Import Prelude LabRpc Group GroupStart Clnts Annotation Config Testers.
Import LabRpc Group GroupStart Config Daemons.

Module RsmTester.
Definition NSRV : nat := 3.

Section rsm.
Context (rand : nat → string) (ev : env).

(** An rsmServer holds nil ([None]), or a proxy around a DaemonClnt, which may be a nil
    pointer ([Some None]).  An entry of [srvs] may be a nil pointer. *)
Abbreviation rsmServer := (option (option nat)).
Record Test := MkTest { cfg : Config; srvs : list (option rsmServer); leader : Z; maxraftstate : Z }.
Implicit Types ts : Test.
Definition set_cfg (c : Config) ts : Test := MkTest c (srvs ts) (leader ts) (maxraftstate ts).

Definition newRSMServer (rsm : option (option nat)) : rsmServer := rsm.
Definition getRSM (rs : rsmServer) : option (option nat) := rs.
Definition rsmServer_Kill (rs : rsmServer) : rsmServer := None.

(** newRSMproxy wraps the daemon client. *)
Definition mksrv (srv : Z) (dc : option nat) ts : res Test :=
  let* l := slice_set (srvs ts) srv (Some (newRSMServer (Some dc))) in
  Ret (MkTest (cfg ts) l (leader ts) (maxraftstate ts)).
Definition mksrvs (l : list Z) ts : res Test :=
  res_fold (λ ts i, let* dc := ask_group GRP0 (DaemonClnt i) (cfg ts) in mksrv i dc ts) ts l.

Definition makeTest (k : nat) (maxraftstate now : Z) : res Test :=
  let* c := MakeConfig rand ev k NSRV true now in
  mksrvs (Z.of_nat <$> seq 0 NSRV) (MkTest c (replicate NSRV None) 0 maxraftstate).

Definition kill (l : list Z) ts : res Test :=
  let* c := on_group GRP0 (Group.Kill ev l) (cfg ts) in Ret (set_cfg c ts).

Definition restart (l : list Z) ts : res Test :=
  let* c := on_group GRP0 (StartSrvs rand ev l) (cfg ts) in
  let* c := on_group GRP0 ConnectAll c in
  mksrvs l (set_cfg c ts).

Definition getLeader ts : Z := leader ts.
Definition disconnectLeader ts : res (Test * Z) :=
  let* c := on_group GRP0 (DisconnectAll (leader ts)) (cfg ts) in Ret (set_cfg c ts, leader ts).
Definition connect (i : Z) ts : res Test :=
  let* c := on_group GRP0 (ConnectOne i) (cfg ts) in Ret (set_cfg c ts).

Definition cleanup (now now' : Z) (order : list Z)
    (vis : bool → string → Annotation.Annotation → Annotation.Annotation * option (list Annotation.PAnn))
    (x : Annotation.Annotation) ts : res Test :=
  let* _ := End_ now (cfg ts) in
  let* '(c, _) := Cleanup ev order vis x (cfg ts) in
  let* _ := CheckTimeout now' c in
  Ret (set_cfg c ts).

Inductive op := Kill (l : list Z) | Restart (l : list Z) | DisconnectLeader | Connect (i : Z) | Leads (i : Z).
(** Leads: onePartition has found a leader. *)
Definition run (o : op) ts : res Test :=
  match o with
  | Kill l => kill l ts
  | Restart l => restart l ts
  | DisconnectLeader => let* '(ts, _) := disconnectLeader ts in Ret ts
  | Connect i => connect i ts
  | Leads i => Ret (MkTest (cfg ts) (srvs ts) i (maxraftstate ts))
  end.
End rsm.
End RsmTester.
