(* ===== verification/TestersSpec.v ===== *)
(** * The testers on their groups: properties

    The proxies of a tester and the daemons of its group stay in step, whatever the test
    kills, restarts, connects and disconnects, and whatever the servers report meanwhile. *)

From stdpp Require Import pretty.
From S2P Require Import Prelude LabRpc Group GroupStart Clnts Annotation Config ConfigInv ConfigSpec Wire RaftTest Testers RsmGroup.
Import LabRpc Group GroupStart Config ConfigInv Daemons.

(** ** Which object is registered for a server, and whether its daemon runs *)

Section group.
Context (rand : nat → string) `{!Inj (=) (=) rand}.
Implicit Types x y : ServerGrp * tester.

Lemma ServerName_inj g i j : ServerName g i = ServerName g j → i = j.
Proof. unfold ServerName. intros H. repeat apply (inj _) in H. done. Qed.

Definition reg x (i : Z) : option nat := mget None (servers (net x.2)) (ServerName (gid x.1) i).
Definition running x (i : Z) : Prop := is_Some (srvs x.1 !! Z.to_nat i ≫= dc).

(** A daemon runs exactly for the servers that are registered. *)
Definition synced x : Prop := ∀ i, member x.1 i → running x i ↔ is_Some (reg x i).

Lemma DaemonClnt_reg x i : synced x → wf x.1 → member x.1 i → DaemonClnt i x.1 x.2 = Ret (reg x i).
Proof.
  intros Hs Hwf Hi. destruct (wf_lookup x.1 i Hwf Hi) as (s & es & Hl & _). unfold DaemonClnt.
  rewrite (slice_get_Some _ _ s) by (done || apply Hi). cbn [rbind]. fold (reg x i). pose proof (Hs i Hi) as Hr. unfold running in Hr. rewrite Hl in Hr.
  simpl in Hr. destruct (dc s); [done|]. destruct (reg x i); [|done].
  destruct Hr as [_ Hr]. destruct Hr as [? ?]; [by eexists|done].
Qed.

(** An operation leaves [f] registered and [c] connected. *)
Record seen x (f : Z → option nat) (c : Z → Prop) : Prop := {
  s_good : good rand x;
  s_synced : synced x;
  s_reg i : member x.1 i → reg x i = f i;
  s_conn i : member x.1 i → is_conn x.1 i ↔ c i
}.

Lemma seen_ext x f g c d :
  seen x f c → (∀ i, member x.1 i → f i = g i) → (∀ i, member x.1 i → c i ↔ d i) → seen x g d.
Proof. intros [Hg Hs Hr Hc] Hf Hcd. split; [done|done| |]; intros i Hi; [by rewrite Hr, Hf|by rewrite Hc, Hcd]. Qed.

Lemma Z_to_nat_ne x i j : member x.1 i → member x.1 j → i ≠ j → Z.to_nat i ≠ Z.to_nat j.
Proof. unfold member. lia. Qed.

Lemma ShutdownServer_seen i x f c :
  seen x f c → member x.1 i → ∃ y, ShutdownServer all_ok i x.1 x.2 = Ret y ∧ rel x y ∧
    seen y (λ j, if decide (j = i) then None else f j) (λ j, j ≠ i ∧ c j).
Proof.
  intros [Hx Hsy Hr Hc] Hi. destruct (ShutdownServer_safe rand i x Hx Hi) as (y & Heq & Hy & Hxy & _).
  exists y. split_and!; [done|done|]. destruct Hx as [Hwf _ _ Hd _].
  destruct (wf_lookup x.1 i Hwf Hi) as (s & es & Hs & _).
  destruct (shutdownServer_ok s) as (s' & Hsh & Hen & Hdc); [by eapply Hd, list_elem_of_lookup_2|].
  destruct (ShutdownServer_gen all_ok i x.1 x.2 s s' Hwf Hi Hs Hsh Hen) as (t' & Heq' & _ & _ & _ & _ & _ & _ & Hsv & _).
  rewrite Heq in Heq'. injection Heq' as ->. pose proof (r_N _ _ Hxy) as HN. simpl in HN.
  assert (∀ j, reg (with_srv i s' (set_conn i false x.1), t') j = if decide (j = i) then None else reg x j) as Hreg.
  { intros j. unfold reg, mget. simpl. rewrite Hsv. case_decide as Hj; [subst; by rewrite lookup_insert_eq|].
    rewrite lookup_insert_ne; [done|]. by intros ?%ServerName_inj. }
  split; [done| | |]; intros j Hj; simpl in Hj; rewrite member_with_srv in Hj; change (member x.1 j) in Hj.
  - rewrite Hreg. unfold running. simpl. case_decide as Hji.
    + subst. rewrite list_lookup_insert_eq by (by eapply lookup_lt_Some). simpl. by rewrite Hdc.
    + rewrite list_lookup_insert_ne by (apply (Z_to_nat_ne x); [done|done|congruence]). by apply Hsy.
  - rewrite Hreg. case_decide; [done|by apply Hr].
  - simpl. rewrite <-Hc by done. change (connected _) with (connected (set_conn i false x.1)).
    change (is_conn (with_srv i s' (set_conn i false x.1)) j) with (is_conn (set_conn i false x.1) j).
    rewrite is_conn_set_conn by done. case_decide; naive_solver.
Qed.

Lemma Kill_seen l x f c :
  seen x f c → Forall (member x.1) l → ∃ y, Kill all_ok l x.1 x.2 = Ret y ∧ rel x y ∧
    seen y (λ j, if decide (j ∈ l) then None else f j) (λ j, j ∉ l ∧ c j).
Proof.
  unfold Kill. revert x f c. induction l as [|i l IH]; intros x f c Hx Hl.
  { exists x. destruct x as [sg t]. split_and!; [done|done|]. eapply seen_ext; [done|..]; intros i _; [by rewrite decide_False by apply not_elem_of_nil|set_solver]. }
  apply list.Forall_cons in Hl as [Hi Hl]. destruct (ShutdownServer_seen i x f c Hx Hi) as (y & Heq & Hxy & Hy).
  destruct (IH y _ _ Hy) as (z & Heqz & Hyz & Hz); [by eapply Forall_rel|].
  exists z. cbn [res_fold]. rewrite Heq. cbn [rbind]. destruct x as [sg t], y as [sg1 t1].
  split_and!; [done|by etrans|]. eapply seen_ext; [done| |].
  - intros j _. simpl. repeat case_decide; set_solver.
  - intros j _. simpl. set_solver.
Qed.

Lemma seen_idle i x f c : seen x f c → member x.1 i → f i = None → idle x i.
Proof.
  intros [Hx Hsy Hr _] Hi Hf. destruct (wf_lookup x.1 i (g_wf _ _ Hx) Hi) as (s & _ & Hs & _).
  pose proof (Hsy i Hi) as [Hrun _]. unfold running, idle in *. rewrite Hs in *. simpl in *.
  destruct (dc s); [|done]. destruct Hrun as [p Hp]; [by eexists|]. rewrite Hr in Hp by done. congruence.
Qed.

Lemma StartServer_seen i x f c :
  seen x f c → member x.1 i → f i = None → ∃ y p,
    (let* '(sg, t, _) := StartServer rand all_ok i x.1 x.2 in Ret (sg, t)) = Ret y ∧ rel x y ∧
    seen y (λ j, if decide (j = i) then Some p else f j) c.
Proof.
  intros Hseen Hi Hf. pose proof (seen_idle i x f c Hseen Hi Hf) as Hidle. destruct Hseen as [Hx Hsy Hr Hc].
  destruct (StartServer_safe rand i x Hx Hi Hidle) as (y & Heq & Hy & Hxy).
  exists y, (objs x.2). split_and!; [done|done|]. destruct Hx as [Hwf Hn Ht Hd _].
  destruct (wf_lookup x.1 i Hwf Hi) as (s & es & Hs & _).
  destruct (StartServer_spec rand all_ok i x.1 x.2 s Hwf Hn Ht Hi Hs) as (t' & Heq' & _ & _ & _ & _ & Hsv & _); [done..|].
  rewrite Heq' in Heq. injection Heq as <-. clear Heq'. set (s' := started _ _ _ _) in *.
  assert (∀ j, reg (with_srv i s' x.1, t') j = if decide (j = i) then Some (objs x.2) else reg x j) as Hreg.
  { intros j. unfold reg, mget. simpl. rewrite Hsv. case_decide as Hj; [subst; by rewrite lookup_insert_eq|].
    rewrite lookup_insert_ne; [done|]. by intros ?%ServerName_inj. }
  split; [done| | |]; intros j Hj; simpl in Hj; rewrite member_with_srv in Hj.
  - rewrite Hreg. unfold running. simpl. case_decide as Hji.
    + subst. rewrite list_lookup_insert_eq by (by eapply lookup_lt_Some). simpl. by split; eexists.
    + rewrite list_lookup_insert_ne by (apply (Z_to_nat_ne x); [done|done|congruence]). by apply Hsy.
  - rewrite Hreg. case_decide; [done|by apply Hr].
  - by apply Hc.
Qed.

Lemma StartSrvs_seen l x f c :
  seen x f c → Forall (member x.1) l → NoDup l → (∀ j, j ∈ l → f j = None) → ∃ y g, StartSrvs rand all_ok l x.1 x.2 = Ret y ∧ rel x y ∧
    seen y g c ∧ (∀ j, j ∈ l → is_Some (g j)) ∧ (∀ j, j ∉ l → g j = f j).
Proof.
  unfold StartSrvs. revert x f c. induction l as [|i l IH]; intros x f c Hx Hl Hnd Hf.
  { exists x, f. destruct x as [sg t]. split_and!; [done..| |done]. intros j Hj. by apply not_elem_of_nil in Hj. }
  apply list.Forall_cons in Hl as [Hi Hl]. apply list.NoDup_cons in Hnd as [Hil Hnd].
  destruct (StartServer_seen i x f c Hx Hi) as (y & p & Heq & Hxy & Hy); [apply Hf; by left|].
  destruct (IH y _ _ Hy) as (z & g & Heqz & Hyz & Hz & Hin & Hout); [by eapply Forall_rel|done| |].
  { intros j Hj. rewrite decide_False by congruence. apply Hf. by right. }
  exists z, g. cbn [res_fold]. rewrite Heq. cbn [rbind]. destruct x as [sg t], y as [sg1 t1].
  split_and!; [done|by etrans|done| |].
  - intros j [->|Hj]%elem_of_cons; [|by apply Hin]. destruct (decide (i ∈ l)); [by apply Hin|].
    rewrite Hout by done. rewrite decide_True by done. by eexists.
  - intros j [Hj1 Hj2]%not_elem_of_cons. rewrite Hout by done. by rewrite decide_False.
Qed.

(** Switching ends: only the connections change. *)
Lemma switch_seen x f c conn v es d :
  seen x f c → length conn = length (connected x.1) →
  (∀ i, member x.1 i → conn !! Z.to_nat i = Some true ↔ d i) →
  let y := (MkGrp (srvs x.1) (servernames x.1) (gid x.1) conn, enable_all v es x.2) in rel x y ∧ seen y f d.
Proof.
  intros [Hx Hsy Hr Hc] Hl Hd y. destruct (switch_safe rand x conn v es Hx Hl) as [Hy Hxy]. split; [done|].
  destruct (enable_all_same v es x.2) as (_ & _ & Hnet). split; [done| | |].
  - intros i Hi. unfold running, reg. simpl. rewrite Hnet. by apply Hsy.
  - intros i Hi. unfold reg. simpl. rewrite Hnet. by apply Hr.
  - done.
Qed.

Lemma ConnectOne_seen i x f c :
  seen x f c → member x.1 i → ∃ y, ConnectOne i x.1 x.2 = Ret y ∧ rel x y ∧ seen y f (λ j, j = i ∨ c j).
Proof.
  intros Hx Hi. pose proof (g_wf _ _ (s_good _ _ _ Hx)) as Hwf. unfold ConnectOne.
  rewrite connect_eq by (done || apply all_members). eexists. split; [done|].
  eapply switch_seen; [done|by rewrite length_insert|]. intros j Hj.
  change (is_conn (set_conn i true x.1) j ↔ j = i ∨ c j). rewrite is_conn_set_conn by done.
  rewrite <-(s_conn _ _ _ Hx) by done. case_decide; naive_solver.
Qed.

Lemma DisconnectAll_seen i x f c :
  seen x f c → member x.1 i → ∃ y, DisconnectAll i x.1 x.2 = Ret y ∧ rel x y ∧ seen y f (λ j, j ≠ i ∧ c j).
Proof.
  intros Hx Hi. pose proof (g_wf _ _ (s_good _ _ _ Hx)) as Hwf. unfold DisconnectAll.
  rewrite disconnect_eq by (done || apply all_members). eexists. split; [done|].
  eapply switch_seen; [done|by rewrite length_insert|]. intros j Hj.
  change (is_conn (set_conn i false x.1) j ↔ j ≠ i ∧ c j). rewrite is_conn_set_conn by done.
  rewrite <-(s_conn _ _ _ Hx) by done. case_decide; naive_solver.
Qed.
End group.

(** ** A configuration whose group GRP0 has [n] servers, with [f] registered and [c] connected *)

Section config.
Context (rand : nat → string) `{!Inj (=) (=) rand}.
Implicit Types cfg : Config.

Definition group0 (n : nat) cfg (f : Z → option nat) (c : Z → Prop) : Prop :=
  ok rand cfg ∧ ∃ sg, grps cfg !! GRP0 = Some sg ∧ N sg = Z.of_nat n ∧ seen rand (sg, tst cfg) f c.

Lemma on_grp0_at n h cfg f c g d sg y :
  group0 n cfg f c → grps cfg !! GRP0 = Some sg → h sg (tst cfg) = Ret y → rel (sg, tst cfg) y →
  seen rand y g d → ∃ cfg', on_group GRP0 h cfg = Ret cfg' ∧ group0 n cfg' g d.
Proof.
  intros (Hok & sg0 & Hsg0 & HN & _) Hsg Heq Hxy Hy. assert (sg0 = sg) as -> by congruence.
  destruct (on_group_ok rand GRP0 h sg cfg Hok Hsg) as (cfg' & Heq' & Hok' & _).
  { exists y. split_and!; [done|apply Hy|done]. }
  exists cfg'. split; [done|]. unfold on_group, lookupGroup in Heq'. rewrite Hsg, Heq in Heq'.
  destruct y as [sg' t']. injection Heq' as <-. split; [done|]. exists sg'.
  split_and!; [apply lookup_insert_eq| |done]. pose proof (r_N _ _ Hxy) as Hn. simpl in Hn. lia.
Qed.

Lemma on_grp0 n h cfg f c g d :
  group0 n cfg f c →
  (∀ x, seen rand x f c → (∀ i, member x.1 i ↔ 0 ≤ i < Z.of_nat n) →
     ∃ y, h x.1 x.2 = Ret y ∧ rel x y ∧ seen rand y g d) →
  ∃ cfg', on_group GRP0 h cfg = Ret cfg' ∧ group0 n cfg' g d.
Proof.
  intros Hg0 Hh. pose proof Hg0 as (_ & sg & Hsg & HN & Hs).
  destruct (Hh (sg, tst cfg) Hs) as (y & Heq & Hxy & Hy); [intros i; unfold member; simpl; by rewrite HN|].
  by eapply on_grp0_at.
Qed.

Lemma start_grp0 n l cfg f c :
  group0 n cfg f c → Forall (λ i, 0 ≤ i < Z.of_nat n) l → NoDup l → (∀ j, j ∈ l → f j = None) →
  ∃ cfg' g, on_group GRP0 (StartSrvs rand all_ok l) cfg = Ret cfg' ∧ group0 n cfg' g c ∧
    (∀ j, j ∈ l → is_Some (g j)) ∧ (∀ j, j ∉ l → g j = f j).
Proof.
  intros Hg0 Hl Hnd Hf. pose proof Hg0 as (_ & sg & Hsg & HN & Hs).
  destruct (StartSrvs_seen rand l (sg, tst cfg) f c Hs) as (y & g & Heq & Hxy & Hy & Hin & Hout); [|done|done|].
  { eapply list.Forall_impl; [done|]. intros i ?. unfold member. simpl. by rewrite HN. }
  destruct (on_grp0_at n (StartSrvs rand all_ok l) cfg f c g c sg y) as (cfg' & ? & ?); [done..|].
  by exists cfg', g.
Qed.

Lemma ask_DaemonClnt n cfg f c i :
  group0 n cfg f c → 0 ≤ i < Z.of_nat n → ask_group GRP0 (DaemonClnt i) cfg = Ret (f i).
Proof.
  intros (Hok & sg & Hsg & HN & [Hg Hsy Hr _]) Hi. unfold ask_group, lookupGroup. rewrite Hsg.
  assert (member sg i) by (unfold member; by rewrite HN).
  change sg with (sg, tst cfg).1 at 1. change (tst cfg) with (sg, tst cfg).2 at 1.
  rewrite DaemonClnt_reg by (done || apply Hg). by rewrite Hr.
Qed.

Lemma ask_IsConnected n cfg f c i :
  group0 n cfg f c → 0 ≤ i < Z.of_nat n →
  ∃ b, ask_group GRP0 (λ sg _, IsConnected i sg) cfg = Ret b ∧ (b = true ↔ c i).
Proof.
  intros (Hok & sg & Hsg & HN & [Hg _ _ Hc]) Hi. unfold ask_group, lookupGroup, IsConnected. rewrite Hsg.
  assert (member sg i) as Hm by (unfold member; by rewrite HN).
  destruct (lookup_lt_is_Some_2 (connected sg) (Z.to_nat i)) as [b Hb].
  { rewrite (wf_conn sg (g_wf _ _ Hg)). unfold member, N in Hm. lia. }
  exists b. rewrite (slice_get_Some _ _ b) by (done || lia). split; [done|]. rewrite <-Hc by done.
  unfold is_conn. simpl. rewrite Hb. naive_solver.
Qed.

Lemma MakeConfig_group0 k n reliable now :
  ∃ cfg f, MakeConfig rand all_ok k n reliable now = Ret cfg ∧ group0 n cfg f (λ _, True) ∧
    ∀ i, 0 ≤ i < Z.of_nat n → is_Some (f i).
Proof.
  destruct (MakeConfig_ok rand k n reliable now) as (cfg & sg & Heq & Hok & _ & Hg & HN & _ & Hup).
  assert (grps cfg !! GRP0 = Some sg) as Hsg by (rewrite Hg; apply lookup_singleton_eq).
  assert (∀ i, member sg i → is_Some (reg (sg, tst cfg) i)) as Hreg.
  { intros i Hi. destruct (Hup i Hi) as ((_ & [p Hp] & _) & _). exists p. unfold reg, mget. simpl in *. by rewrite Hp. }
  exists cfg, (reg (sg, tst cfg)). split; [done|]. split.
  - split; [done|]. exists sg. split_and!; [done..|]. split; [by apply (ok_groups _ _ Hok GRP0)| |done|].
    + intros i Hi. split; [intros _; by apply Hreg|]. intros _. destruct (Hup i Hi) as ((Hdc & _) & _).
      unfold running. simpl in *. destruct (srvs sg !! Z.to_nat i); [|done]. simpl in *. by eexists; simplify_eq.
    + intros i Hi. split; [done|]. intros _. by destruct (Hup i Hi) as (_ & ? & _).
  - intros i Hi. apply Hreg. unfold member. by rewrite HN.
Qed.

Lemma net_group0 n f cfg g c :
  (∀ rn, LabRpc.ends (f rn) = LabRpc.ends rn ∧ servers (f rn) = servers rn ∧ done (f rn) = done rn) →
  group0 n cfg g c → group0 n (on_net f cfg) g c.
Proof.
  intros Hf (Hok & sg & Hsg & HN & [Hg Hsy Hr Hc]). pose proof (net_ok rand f cfg Hok Hf) as Hok'.
  split; [done|]. exists sg. split_and!; [done..|]. destruct (Hf (net (tst cfg))) as (_ & Hs & _).
  split; [by apply (ok_groups _ _ Hok' GRP0)| | |done].
  - intros i Hi. unfold running, reg in *. simpl. rewrite Hs. by apply Hsy.
  - intros i Hi. unfold reg in *. simpl. rewrite Hs. by apply Hr.
Qed.
End config.

(** ** The tester of Raft *)

Section raft.
Import RaftTester.
Context {C : Type} `{EqDecision C} (rand : nat → string) `{!Inj (=) (=) rand}.
Implicit Types ts : Test C.
Implicit Types t : RaftTest.Test C.

Definition joined (ps : list (option (option nat))) (l : list (RaftTest.raftServer C)) : list (option (raftServer C)) :=
  zip_with (λ p r, Some (MkRaftServer p r)) ps l.

Lemma copies_joined ps l : length ps = length l → copies (joined ps l) = Ret l.
Proof.
  revert l. induction ps as [|p ps IH]; intros [|r l] Hl; simplify_eq/=; [done|].
  unfold joined in IH. by rewrite IH.
Qed.

Lemma put_copies ps l l' :
  length ps = length l → length l' = length l → zip_with put_copy (joined ps l) l' = joined ps l'.
Proof.
  revert l l'. induction ps as [|p ps IH]; intros [|r l] [|r' l'] H1 H2; simplify_eq/=; [done|].
  f_equal. by apply IH.
Qed.

Lemma joined_lookup ps l i p r :
  ps !! i = Some p → l !! i = Some r → joined ps l !! i = Some (Some (MkRaftServer p r)).
Proof. intros Hp Hr. unfold joined. rewrite lookup_zip_with, Hp. simpl. by rewrite Hr. Qed.

Lemma joined_insert ps l i p r :
  l !! i = Some r → <[i := Some (MkRaftServer p r)]> (joined ps l) = joined (<[i := p]> ps) l.
Proof.
  intros Hr. unfold joined. rewrite (insert_zip_with (λ p r, Some (MkRaftServer p r)) ps l i p r).
  by rewrite (list_insert_id l).
Qed.

(** The tester [ts] keeps the copies [t]; server [i] has proxy [f i] unless it is
    pending. *)
Record step_inv (D : Z → Prop) ts (f : Z → option nat) (c : Z → Prop) t (ps : list (option (option nat))) : Prop := {
  i_group : group0 rand (n ts) (cfg ts) f c;
  i_srvs : srvs ts = joined ps (RaftTest.srvs t);
  i_max : maxIndex ts = RaftTest.maxIndex t;
  i_ps : length ps = n ts;
  i_len : length (RaftTest.srvs t) = n ts;
  i_proxy i : 0 ≤ i < Z.of_nat (n ts) → ¬ D i → ps !! Z.to_nat i = Some (Some <$> f i);
  i_conn i : 0 ≤ i < Z.of_nat (n ts) → c i → is_Some (f i)
}.

Lemma inv_lookup D ts f c t ps i :
  step_inv D ts f c t ps → 0 ≤ i < Z.of_nat (n ts) → ∃ p r, ps !! Z.to_nat i = Some p ∧
    RaftTest.srvs t !! Z.to_nat i = Some r ∧ srvs ts !! Z.to_nat i = Some (Some (MkRaftServer p r)).
Proof.
  intros [_ Hs _ Hps Hl _ _] Hi.
  destruct (lookup_lt_is_Some_2 ps (Z.to_nat i)) as [p Hp]; [lia|].
  destruct (lookup_lt_is_Some_2 (RaftTest.srvs t) (Z.to_nat i)) as [r Hr]; [lia|].
  exists p, r. split_and!; [done..|]. rewrite Hs. by apply joined_lookup.
Qed.

(** A new proxy for a server that has an entry. *)
Lemma set_proxy D ts f c t ps i p :
  step_inv D ts f c t ps → 0 ≤ i < Z.of_nat (n ts) → p = Some <$> f i →
  ∃ r, srvs ts !! Z.to_nat i = Some (Some r) ∧
    slice_set (srvs ts) i (Some (MkRaftServer p (rs r))) = Ret (joined (<[Z.to_nat i := p]> ps) (RaftTest.srvs t)) ∧
    step_inv (λ j, D j ∧ j ≠ i) (set_srvs (joined (<[Z.to_nat i := p]> ps) (RaftTest.srvs t)) ts) f c t
      (<[Z.to_nat i := p]> ps).
Proof.
  intros Hinv Hi ->. destruct (inv_lookup D ts f c t ps i Hinv Hi) as (q & r & Hq & Hr & Hsr).
  exists (MkRaftServer q r). split; [done|]. destruct Hinv as [Hg Hs Hm Hps Hl Hp Hc]. split.
  - rewrite slice_set_Ret by (apply lookup_lt_Some in Hsr; lia). by rewrite Hs, (joined_insert _ _ _ _ r).
  - split; simpl; try done; [by rewrite length_insert|]. intros j Hj HD. destruct (decide (j = i)) as [->|Hne].
    + apply list_lookup_insert_eq. lia.
    + rewrite list_lookup_insert_ne by lia. apply Hp; tauto.
Qed.

Lemma mksrv_inv D ts f c t ps i :
  step_inv D ts f c t ps → 0 ≤ i < Z.of_nat (n ts) → is_Some (f i) → ∃ ts' ps', mksrv i (f i) ts = Ret ts' ∧
    step_inv (λ j, D j ∧ j ≠ i) ts' f c t ps' ∧ n ts' = n ts ∧ cfg ts' = cfg ts.
Proof.
  intros Hinv Hi [p Hp]. destruct (set_proxy D ts f c t ps i (Some (f i)) Hinv Hi) as (r & Hr & Hset & Hinv'); [by rewrite Hp|].
  unfold mksrv. rewrite (slice_get_Some _ _ (Some r)) by (done || lia). cbn [rbind]. rewrite Hset. cbn [rbind].
  eexists _, _. split; [done|]. done.
Qed.

Lemma set_nil_inv D ts f c t ps i :
  step_inv D ts f c t ps → 0 ≤ i < Z.of_nat (n ts) → f i = None → ∃ ts' ps', set_nil ts i = Ret ts' ∧
    step_inv (λ j, D j ∧ j ≠ i) ts' f c t ps' ∧ n ts' = n ts.
Proof.
  intros Hinv Hi Hf. destruct (set_proxy D ts f c t ps i None Hinv Hi) as (r & Hr & Hset & Hinv'); [by rewrite Hf|].
  unfold set_nil. rewrite (slice_get_Some _ _ (Some r)) by (done || lia). cbn [rbind]. rewrite Hset. cbn [rbind].
  eexists _, _. split; [done|]. done.
Qed.

Lemma inv_pending (D D' : Z → Prop) ts f c t ps :
  step_inv D ts f c t ps → (∀ i, 0 ≤ i < Z.of_nat (n ts) → D i → D' i) → step_inv D' ts f c t ps.
Proof. intros [? ? ? ? ? Hp ?] HD. split; try done. intros i Hi Hn. apply Hp; [done|]. naive_solver. Qed.

(** The whole configuration changes. *)
Lemma set_cfg_inv (D D' : Z → Prop) ts f c t ps cf g d :
  step_inv D ts f c t ps → group0 rand (n ts) cf g d →
  (∀ i, 0 ≤ i < Z.of_nat (n ts) → ¬ D' i → ¬ D i ∧ g i = f i) →
  (∀ i, 0 ≤ i < Z.of_nat (n ts) → d i → is_Some (g i)) → step_inv D' (set_cfg cf ts) g d t ps.
Proof.
  intros [_ ? ? ? ? Hp _] Hg HD Hd. split; simpl; try done. intros i Hi Hn. destruct (HD i Hi Hn) as [? ->]. by apply Hp.
Qed.

Definition nobody : Z → Prop := λ _, False.

(** A loop that brings the pending servers into step, one after the other. *)
Lemma fold_pending (step : Test C → Z → res (Test C)) (P : Z → Prop) f t l ts c ps :
  (∀ D ts c ps i, step_inv D ts f c t ps → 0 ≤ i < Z.of_nat (n ts) → P i →
     ∃ ts' c' ps', step ts i = Ret ts' ∧ step_inv (λ j, D j ∧ j ≠ i) ts' f c' t ps' ∧ n ts' = n ts) →
  step_inv (.∈ l) ts f c t ps → Forall (λ i, 0 ≤ i < Z.of_nat (n ts) ∧ P i) l →
  ∃ ts' c' ps', res_fold step ts l = Ret ts' ∧ step_inv nobody ts' f c' t ps' ∧ n ts' = n ts.
Proof.
  intros Hstep. revert ts c ps. induction l as [|i l IH]; intros ts c ps Hi Hall.
  { exists ts, c, ps. split_and!; [done| |done]. eapply inv_pending; [done|]. by intros i _ ?%not_elem_of_nil. }
  apply list.Forall_cons in Hall as [[Hr HP] Hall]. cbn [res_fold].
  destruct (Hstep _ ts c ps i Hi Hr HP) as (ts2 & c2 & ps2 & -> & Hi2 & Hn2). cbn [rbind].
  destruct (IH ts2 c2 ps2) as (ts' & c' & ps' & ? & ? & ?).
  - eapply inv_pending; [done|]. intros j _ [[->|?]%elem_of_cons ?]; done.
  - by rewrite Hn2.
  - exists ts', c', ps'. split_and!; [done..|congruence].
Qed.

Lemma kill_inv l ts f c t ps :
  step_inv nobody ts f c t ps → Forall (λ i, 0 ≤ i < Z.of_nat (n ts)) l →
  ∃ ts' f' c' ps', kill all_ok l ts = Ret ts' ∧ step_inv nobody ts' f' c' t ps' ∧ n ts' = n ts.
Proof.
  intros Hinv Hl. unfold kill. set (g := λ j, if decide (j ∈ l) then None else f j).
  destruct (on_grp0 rand (n ts) (Group.Kill all_ok l) (cfg ts) f c g (λ j, j ∉ l ∧ c j)) as (cf & -> & Hcf).
  { apply Hinv. }
  { intros x Hx Hm. apply Kill_seen; [done..|]. eapply list.Forall_impl; [done|]. intros i ?. by apply Hm. }
  cbn [rbind]. destruct (fold_pending set_nil (λ i, g i = None) g t l (set_cfg cf ts) (λ j, j ∉ l ∧ c j) ps)
    as (ts' & c' & ps' & ? & ? & ?).
  - intros D ts1 c1 ps1 i Hi Hr Hg. destruct (set_nil_inv D ts1 g c1 t ps1 i Hi Hr Hg) as (ts2 & ps2 & ?). by exists ts2, c1, ps2.
  - eapply set_cfg_inv; [exact Hinv|done| |].
    + intros i Hi Hn. split; [by intros []|]. unfold g. by rewrite decide_False.
    + intros i Hi [Hn Hc]. unfold g. rewrite decide_False by done. by apply (i_conn _ _ _ _ _ _ Hinv).
  - rewrite list.Forall_forall in *. intros i Hil. split; [by apply Hl|]. unfold g. by rewrite decide_True.
  - by exists ts', g, c', ps'.
Qed.

Lemma restart_one_inv D ts f c t ps i :
  step_inv D ts f c t ps → 0 ≤ i < Z.of_nat (n ts) → is_Some (f i) →
  ∃ ts' c' ps', restart_one ts i = Ret ts' ∧ step_inv (λ j, D j ∧ j ≠ i) ts' f c' t ps' ∧ n ts' = n ts.
Proof.
  intros Hinv Hi Hf. unfold restart_one. rewrite (ask_DaemonClnt rand (n ts) _ f c) by (done || apply Hinv). cbn [rbind].
  destruct (mksrv_inv D ts f c t ps i Hinv Hi Hf) as (ts1 & ps1 & -> & Hi1 & Hn1 & Hc1). cbn [rbind].
  destruct (on_grp0 rand (n ts1) (ConnectOne i) (cfg ts1) f c f (λ j, j = i ∨ c j)) as (cf & -> & Hcf).
  { apply Hi1. }
  { intros x Hx Hm. apply ConnectOne_seen; [done..|]. apply Hm. by rewrite Hn1. }
  cbn [rbind]. eexists _, _, _. split; [done|]. split; [|done].
  eapply (set_cfg_inv _ _ ts1); [done|done|naive_solver|]. intros j Hj [->|?]; [done|].
  by apply (i_conn _ _ _ _ _ _ Hi1).
Qed.

Lemma restart_inv l ts f c t ps :
  step_inv nobody ts f c t ps → Forall (λ i, 0 ≤ i < Z.of_nat (n ts)) l → NoDup l → (∀ j, j ∈ l → f j = None) →
  ∃ ts' f' c' ps', restart rand all_ok l ts = Ret ts' ∧ step_inv nobody ts' f' c' t ps' ∧ n ts' = n ts.
Proof.
  intros Hinv Hl Hnd Hnone. unfold restart.
  destruct (start_grp0 rand (n ts) l (cfg ts) f c) as (cf & g & -> & Hcf & Hin & Hout); [apply Hinv|done..|].
  cbn [rbind]. destruct (fold_pending restart_one (λ i, is_Some (g i)) g t l (set_cfg cf ts) c ps)
    as (ts' & c' & ps' & ? & ? & ?).
  - intros D ts1 c1 ps1 i. apply restart_one_inv.
  - eapply set_cfg_inv; [exact Hinv|done| |].
    + intros i _ Hn. split; [by intros []|by apply Hout].
    + intros i Hi Hc. destruct (decide (i ∈ l)); [by apply Hin|]. rewrite Hout by done. by apply (i_conn _ _ _ _ _ _ Hinv).
  - rewrite list.Forall_forall in *. intros i Hil. split; [by apply Hl|by apply Hin].
  - by exists ts', g, c', ps'.
Qed.

Lemma connect_inv i ts f c t ps :
  step_inv nobody ts f c t ps → 0 ≤ i < Z.of_nat (n ts) → is_Some (f i) →
  ∃ ts' c', connect i ts = Ret ts' ∧ step_inv nobody ts' f c' t ps ∧ n ts' = n ts.
Proof.
  intros Hinv Hi Hf. unfold connect.
  destruct (on_grp0 rand (n ts) (ConnectOne i) (cfg ts) f c f (λ j, j = i ∨ c j)) as (cf & -> & Hcf).
  { apply Hinv. }
  { intros x Hx Hm. apply ConnectOne_seen; [done..|]. by apply Hm. }
  cbn [rbind]. eexists _, _. split; [done|]. split; [|done].
  eapply set_cfg_inv; [done|done|naive_solver|]. intros j Hj [->|?]; [done|]. by apply (i_conn _ _ _ _ _ _ Hinv).
Qed.

Lemma disconnect_inv i ts f c t ps :
  step_inv nobody ts f c t ps → 0 ≤ i < Z.of_nat (n ts) →
  ∃ ts' c', disconnect i ts = Ret ts' ∧ step_inv nobody ts' f c' t ps ∧ n ts' = n ts.
Proof.
  intros Hinv Hi. unfold disconnect.
  destruct (on_grp0 rand (n ts) (DisconnectAll i) (cfg ts) f c f (λ j, j ≠ i ∧ c j)) as (cf & -> & Hcf).
  { apply Hinv. }
  { intros x Hx Hm. apply DisconnectAll_seen; [done..|]. by apply Hm. }
  cbn [rbind]. eexists _, _. split; [done|]. split; [|done].
  eapply set_cfg_inv; [done|done|naive_solver|]. intros j Hj [_ ?]. by apply (i_conn _ _ _ _ _ _ Hinv).
Qed.

(** *** Reports *)

Lemma applier_one_total me m t :
  0 ≤ me < Z.of_nat (length (RaftTest.srvs t)) →
  ∃ t', RaftTest.applier_one me m t = Ret t' ∧ length (RaftTest.srvs t') = length (RaftTest.srvs t).
Proof.
  intros Hme. unfold RaftTest.applier_one. destruct (RaftTest.CommandValid m); [|by exists t].
  destruct (lookup_lt_is_Some_2 (RaftTest.srvs t) (Z.to_nat me)) as [r Hr]; [lia|].
  unfold RaftTest.CheckLogs. rewrite (slice_get_Some _ _ r) by (done || lia). cbn [rbind].
  destruct (if _ && _ then _ else _); [|eexists; split; [done|]; simpl; by rewrite length_insert].
  unfold RaftTest.ApplyErr. simpl. erewrite slice_get_Some; [|lia|apply list_lookup_insert_eq; lia].
  cbn [rbind]. eexists. split; [done|]. simpl. by rewrite !length_insert.
Qed.

Lemma IngestLog_total me xlog t :
  0 ≤ me < Z.of_nat (length (RaftTest.srvs t)) →
  ∃ t', RaftTest.IngestLog me xlog t = Ret t' ∧ length (RaftTest.srvs t') = length (RaftTest.srvs t).
Proof.
  intros Hme. destruct (lookup_lt_is_Some_2 (RaftTest.srvs t) (Z.to_nat me)) as [r Hr]; [lia|].
  unfold RaftTest.IngestLog. rewrite (slice_get_Some _ _ r) by (done || lia). cbn [rbind].
  eexists. split; [done|]. simpl. by rewrite length_insert.
Qed.

Lemma report_inv h ts f c t t' ps :
  step_inv nobody ts f c t ps → h t = Ret t' → length (RaftTest.srvs t') = length (RaftTest.srvs t) →
  ∃ ts', report h ts = Ret ts' ∧ step_inv nobody ts' f c t' ps ∧ n ts' = n ts.
Proof.
  intros [Hg Hs Hm Hps Hl Hp Hc] Ht Hl'. unfold report. rewrite Hs, copies_joined by congruence. cbn [rbind].
  rewrite Hm. replace (RaftTest.MkTest (RaftTest.srvs t) (RaftTest.maxIndex t)) with t by by destruct t.
  rewrite Ht. cbn [rbind]. rewrite put_copies by congruence. eexists. split; [done|]. split; [|done].
  split; simpl; try done. by rewrite Hl'.
Qed.

(** *** The start of a test *)

Lemma makeTest_inv k n0 reliable snap now : ∃ ts f c ps,
  makeTest rand all_ok k n0 reliable snap now = Ret ts ∧
  step_inv nobody ts f c (RaftTest.makeTest n0) ps ∧ n ts = n0.
Proof.
  destruct (MakeConfig_group0 rand k n0 reliable now) as (cf & f & Heq & Hg & Hf).
  apply (net_group0 rand n0 (LongDelays true)) in Hg; [|done]. unfold makeTest. rewrite Heq. cbn [rbind].
  set (pre := λ k, (λ i, Some (MkRaftServer (C:=C) (Some (f (Z.of_nat i))) RaftTest.newRaftServer)) <$> seq 0 k).
  assert (∀ m k, (k + m = n0)%nat →
    res_fold (λ ts i, let* dc := ask_group GRP0 (DaemonClnt i) (cfg ts) in mksrv i dc ts)
      (MkTest (SetLongDelays true cf) n0 false (pre k ++ replicate m None) 0 snap) (Z.of_nat <$> seq k m) =
    Ret (MkTest (SetLongDelays true cf) n0 false (pre n0) 0 snap)) as Hfold.
  { induction m as [|m IH]; intros k' Hk; [rewrite app_nil_r; by replace k' with n0 by lia|].
    cbn [seq fmap list_fmap res_fold cfg]. rewrite (ask_DaemonClnt rand n0 _ f (λ _, True)) by (done || lia).
    cbn [rbind]. unfold mksrv. cbn [srvs]. assert (length (pre k') = k') as Hl by (unfold pre; by rewrite length_fmap, length_seq).
    rewrite (slice_get_Some _ _ None) by (lia || by rewrite Nat2Z.id, lookup_app_r, Hl, Nat.sub_diag by lia).
    cbn [rbind]. rewrite slice_set_Ret by (rewrite length_app, length_replicate; lia). cbn [rbind].
    rewrite Nat2Z.id, insert_app_r_alt, Hl, Nat.sub_diag by lia. cbn [replicate list_insert insert]. rewrite <-(IH (S k')) by lia.
    assert (pre (S k') = pre k' ++ [Some (newRaftServer (Some (f (Z.of_nat k'))))]) as -> by (unfold pre; by rewrite seq_S, fmap_app).
    by rewrite <-(assoc_L (++)). }
  specialize (Hfold n0 0%nat eq_refl). simpl in Hfold. exists (MkTest (SetLongDelays true cf) n0 false (pre n0) 0 snap).
  exists f, (λ _, True), ((λ i, Some (f (Z.of_nat i))) <$> seq 0 n0). split; [exact Hfold|]. split; [|done].
  split; simpl; [done| |done|by rewrite length_fmap, length_seq|by rewrite length_replicate| |auto].
  - unfold joined. rewrite zip_with_replicate_r_eq by by rewrite length_fmap, length_seq.
    unfold pre. by rewrite <-list_fmap_compose.
  - intros i Hi _. rewrite list_lookup_fmap, lookup_seq_lt by lia. simpl. rewrite Z2Nat.id by lia.
    destruct (Hf i Hi) as [p ->]. done.
Qed.

(** *** Asking the connected servers *)

Lemma ask_states_inv GetState ts f c t ps :
  step_inv nobody ts f c t ps → ∃ states, ask_states GetState ts = Ret states ∧
    ∀ i st, (i, st) ∈ states ↔ 0 ≤ i < Z.of_nat (n ts) ∧ c i ∧ ∃ p, f i = Some p ∧ st = GetState p.
Proof.
  intros Hinv. unfold ask_states.
  assert (∀ l acc, Forall (λ i, 0 ≤ i < Z.of_nat (n ts)) l → ∃ states,
    res_fold (ask_state GetState ts) acc l = Ret states ∧
    ∀ i st, (i, st) ∈ states ↔ (i, st) ∈ acc ∨ i ∈ l ∧ c i ∧ ∃ p, f i = Some p ∧ st = GetState p) as Hfold.
  { induction l as [|j l IH]; intros acc Hl; [exists acc; split; [done|]; intros; set_solver|].
    apply list.Forall_cons in Hl as [Hj Hl]. cbn [res_fold]. unfold ask_state at 1.
    destruct (ask_IsConnected rand (n ts) (cfg ts) f c j) as (b & -> & Hb); [apply Hinv|done|]. cbn [rbind].
    destruct b; cbn [rbind].
    - destruct (inv_lookup _ ts f c t ps j Hinv Hj) as (q & r & Hq & Hr & Hsr).
      rewrite (slice_get_Some _ _ _ (proj1 Hj) Hsr). cbn [rbind].
      rewrite (i_proxy _ _ _ _ _ _ Hinv j Hj) in Hq by (by intros []). injection Hq as <-.
      assert (c j) as Hcj by by apply Hb. destruct (i_conn _ _ _ _ _ _ Hinv j Hj Hcj) as [p Hp].
      cbn [mbind option_bind rfsrv]. rewrite Hp. cbn.
      destruct (IH (acc ++ [(j, GetState p)]) Hl) as (states & -> & Hst). exists states. split; [done|].
      intros i st. rewrite Hst, elem_of_app, list_elem_of_singleton, elem_of_cons. naive_solver.
    - assert (¬ c j) as Hcj by (intros Hc%Hb; done). destruct (IH acc Hl) as (states & -> & Hst).
      exists states. split; [done|]. intros i st. rewrite Hst, elem_of_cons. naive_solver. }
  destruct (Hfold (Z.of_nat <$> seq 0 (n ts)) []) as (states & -> & Hst).
  { apply list.Forall_forall. intros i (k & -> & Hk%elem_of_seq)%list_elem_of_fmap. lia. }
  exists states. split; [done|]. intros i st. rewrite Hst, list_elem_of_fmap. setoid_rewrite elem_of_seq.
  rewrite elem_of_nil. split; [intros [[]|((k & -> & Hk) & H1)]; split; [lia|done]|].
  intros [Hi H1]. right. split; [|done]. exists (Z.to_nat i). lia.
Qed.

(** *** Whole tests *)

(** The arguments are servers of the test; only servers that are killed are restarted,
    each once, and only a server that is not killed is connected. *)
Definition proxied ts (i : Z) : Prop := is_Some (mjoin (srvs ts !! Z.to_nat i) ≫= rfsrv).
#[global] Instance proxied_dec ts i : Decision (proxied ts i) := _.
Definition valid (o : op C) ts : Prop :=
  match o with
  | Kill l => Forall (λ i, 0 ≤ i < Z.of_nat (n ts)) l
  | Restart l => Forall (λ i, 0 ≤ i < Z.of_nat (n ts) ∧ ¬ proxied ts i) l ∧ NoDup l
  | Connect i => 0 ≤ i < Z.of_nat (n ts) ∧ proxied ts i
  | Disconnect i | Applied i _ | Ingested i _ => 0 ≤ i < Z.of_nat (n ts)
  end.
Inductive runs : list (op C) → Test C → Test C → Prop :=
| runs_nil ts : runs [] ts ts
| runs_cons o os ts ts1 ts2 : valid o ts → run rand all_ok o ts = Ret ts1 → runs os ts1 ts2 → runs (o :: os) ts ts2.

(** What the servers reported, without the tester's doings. *)
Definition reported (o : op C) t : res (RaftTest.Test C) :=
  match o with
  | Applied me m => RaftTest.applier_one me m t
  | Ingested me xlog => RaftTest.IngestLog me xlog t
  | _ => Ret t
  end.
Definition all_reported (os : list (op C)) t : res (RaftTest.Test C) := res_fold (λ t o, reported o t) t os.

Lemma raft_run_inv o ts f c t ps :
  step_inv nobody ts f c t ps → valid o ts →
  ∃ ts' f' c' t' ps', run rand all_ok o ts = Ret ts' ∧ reported o t = Ret t' ∧ step_inv nobody ts' f' c' t' ps' ∧ n ts' = n ts.
Proof.
  intros Hinv Hv. pose proof (i_len _ _ _ _ _ _ Hinv) as Hlen. destruct o as [l|l|i|i|me m|me xlog]; simpl in *.
  - destruct (kill_inv l ts f c t ps Hinv Hv) as (ts' & f' & c' & ps' & ?). by exists ts', f', c', t, ps'; naive_solver.
  - destruct Hv as [Hv Hnd]. destruct (restart_inv l ts f c t ps Hinv) as (ts' & f' & c' & ps' & ?);
      [eapply list.Forall_impl; [exact Hv|]; by intros i [? _]|done| |by exists ts', f', c', t, ps'; naive_solver].
    rewrite list.Forall_forall in Hv. intros j Hj. destruct (Hv j Hj) as [Hr Hn].
    destruct (inv_lookup _ ts f c t ps j Hinv Hr) as (q & r & Hq & _ & Hsr). unfold proxied in Hn. rewrite Hsr in Hn.
    rewrite (i_proxy _ _ _ _ _ _ Hinv j Hr) in Hq by (by intros []). injection Hq as <-. simpl in Hn.
    destruct (f j); [|done]. by destruct Hn; eexists.
  - destruct Hv as [Hi [p Hp]]. destruct (inv_lookup _ ts f c t ps i Hinv Hi) as (q & r & Hq & Hr & Hsr).
    rewrite Hsr in Hp. simpl in Hp. rewrite (i_proxy _ _ _ _ _ _ Hinv i Hi) in Hq by (by intros []). injection Hq as <-.
    destruct (connect_inv i ts f c t ps Hinv Hi) as (ts' & c' & ?); [destruct (f i); [by eexists|done]|]. by exists ts', f, c', t, ps; naive_solver.
  - destruct (disconnect_inv i ts f c t ps Hinv Hv) as (ts' & c' & ?). by exists ts', f, c', t, ps; naive_solver.
  - destruct (applier_one_total me m t) as (t' & Ht & Hl'); [lia|].
    destruct (report_inv _ ts f c t t' ps Hinv Ht Hl') as (ts' & ?). by exists ts', f, c, t', ps; naive_solver.
  - destruct (IngestLog_total me xlog t) as (t' & Ht & Hl'); [lia|].
    destruct (report_inv _ ts f c t t' ps Hinv Ht Hl') as (ts' & ?). by exists ts', f, c, t', ps; naive_solver.
Qed.

Lemma raft_runs_inv os ts ts' f c t ps :
  runs os ts ts' → step_inv nobody ts f c t ps →
  ∃ f' c' t' ps', all_reported os t = Ret t' ∧ step_inv nobody ts' f' c' t' ps' ∧ n ts' = n ts.
Proof.
  intros Hr. revert f c t ps. induction Hr as [ts|o os ts ts1 ts2 Hv Ho Hr IH]; intros f c t ps Hinv; [by exists f, c, t, ps|].
  destruct (raft_run_inv o ts f c t ps Hinv Hv) as (ts1' & f1 & c1 & t1 & ps1 & Ho' & Hrep & Hinv1 & Hn1).
  rewrite Ho in Ho'. injection Ho' as <-. destruct (IH _ _ _ _ Hinv1) as (f' & c' & t' & ps' & Hrs & ? & Hn).
  exists f', c', t', ps'. unfold all_reported in *. cbn [res_fold]. rewrite Hrep. cbn [rbind].
  split_and!; [done..|congruence].
Qed.
End raft.

(** C17. The tester of Raft and its servers stay in step.  A test starts with makeTest and then
    kills servers, restarts servers that it has killed, disconnects servers, connects
    servers that are not killed, and gets reports from the servers, in any order.
    Processes start, answer and are killed as they are told to: then every such step
    returns (otherwise the tester ends with log.Fatalf, or restart wraps a nil DaemonClnt).
    At any point, a server of the tester either has a proxy, to whose daemon the network
    delivers what is sent to the server, and one process of the server runs; or it has none,
    no process of it runs, the network delivers to nobody, and it is not connected.  So the
    rounds of checkOneLeader and checkTerms, which ask the connected servers, never
    dereference nil, and ask exactly the daemons of the connected servers.  What the tester
    has recorded of the logs is what the servers reported, whatever was killed and restarted
    in between. *)
Theorem tester_in_step {C} `{EqDecision C} rand `{!Inj (=) (=) rand} k n0 reliable snap now os
    (ts0 ts : RaftTester.Test C) :
  RaftTester.makeTest rand all_ok k n0 reliable snap now = Ret ts0 → runs rand os ts0 ts →
  (∀ o, valid o ts → ∃ ts', RaftTester.run rand all_ok o ts = Ret ts') ∧
  (∃ t, all_reported os (RaftTest.makeTest n0) = Ret t ∧
     RaftTester.copies (RaftTester.srvs ts) = Ret (RaftTest.srvs t) ∧ RaftTester.maxIndex ts = RaftTest.maxIndex t) ∧
  ∃ sg, grps (RaftTester.cfg ts) !! GRP0 = Some sg ∧ NoDup (procs (tst (RaftTester.cfg ts))) ∧
    (∀ i, 0 ≤ i < Z.of_nat n0 → ∃ s, RaftTester.srvs ts !! Z.to_nat i = Some (Some s) ∧
       let d := srvs sg !! Z.to_nat i ≫= dc in
       let r := mget None (servers (net (tst (RaftTester.cfg ts)))) (ServerName GRP0 i) in
       RaftTester.rfsrv s = Some <$> r ∧ (is_Some d ↔ is_Some r) ∧
       ((GRP0, i) ∈ procs (tst (RaftTester.cfg ts)) ↔ is_Some r) ∧
       (is_conn sg i → is_Some r)) ∧
    ∀ GetState, ∃ states, RaftTester.ask_states GetState ts = Ret states ∧
      ∀ i st, (i, st) ∈ states ↔ 0 ≤ i < Z.of_nat n0 ∧ is_conn sg i ∧
        ∃ s p, RaftTester.srvs ts !! Z.to_nat i = Some (Some s) ∧ RaftTester.rfsrv s = Some (Some p) ∧ st = GetState p.
Proof.
  intros Hmk Hr. destruct (makeTest_inv (C:=C) rand k n0 reliable snap now) as (ts1 & f0 & c0 & ps0 & Heq & Hinv0 & Hn0).
  rewrite Hmk in Heq. injection Heq as <-.
  destruct (raft_runs_inv rand os ts0 ts f0 c0 _ ps0 Hr Hinv0) as (f & c & t & ps & Hrep & Hinv & Hn).
  rewrite Hn0 in Hn. split_and!.
  { intros o Hv. destruct (raft_run_inv rand o ts f c t ps Hinv Hv) as (ts' & _ & _ & _ & _ & ? & _). by exists ts'. }
  { exists t. split; [done|]. split; [|apply Hinv]. rewrite (i_srvs _ _ _ _ _ _ _ Hinv). apply copies_joined.
    by rewrite (i_ps _ _ _ _ _ _ _ Hinv), (i_len _ _ _ _ _ _ _ Hinv). }
  destruct (i_group _ _ _ _ _ _ _ Hinv) as (Hok & sg & Hsg & HN & [Hgood Hsy Hreg Hconn]). exists sg.
  destruct (ok_groups _ _ Hok GRP0 sg Hsg) as [Hgid _]. destruct (g_procs _ _ Hgood) as [Hnd Hpr]. rewrite Hn in HN.
  assert (∀ i, 0 ≤ i < Z.of_nat n0 → ∃ s, RaftTester.srvs ts !! Z.to_nat i = Some (Some s) ∧ RaftTester.rfsrv s = Some <$> f i) as Hsrv.
  { intros i Hi. rewrite <-Hn in Hi. destruct (inv_lookup _ _ ts f c t ps i Hinv Hi) as (q & r & Hq & _ & Hsr).
    rewrite (i_proxy _ _ _ _ _ _ _ Hinv i Hi) in Hq by (by intros []). injection Hq as <-. by eexists. }
  assert (∀ i, 0 ≤ i < Z.of_nat n0 → member sg i) as Hmem by (intros i; unfold member; by rewrite HN).
  split_and!; [done|done| |].
  - intros i Hi. destruct (Hsrv i Hi) as (s & Hs & Hp). exists s. split; [done|]. cbv zeta. rewrite <-Hgid.
    pose proof (Hsy i (Hmem i Hi)) as H1. pose proof (Hpr i) as H4. unfold alive, reg in *. pose proof (Hreg i (Hmem i Hi)) as H2. pose proof (Hconn i (Hmem i Hi)) as H3.
    simpl in *. rewrite H2 in *. unfold running in H1. simpl in H1. rewrite Hp. pose proof (Hmem i Hi).
    split_and!; [done|exact H1|tauto|]. intros Hc%H3.
    apply (i_conn _ _ _ _ _ _ _ Hinv); [by rewrite Hn|done].
  - intros GetState. destruct (ask_states_inv rand GetState ts f c t ps Hinv) as (states & Heq & Hst).
    exists states. split; [done|]. intros i st. rewrite Hst, Hn. split.
    + intros (Hi & Hc & p & Hp & ->). destruct (Hsrv i Hi) as (s & Hs & Hps). split_and!; [lia|lia|by apply (Hconn i), Hc; apply Hmem|].
      exists s, p. split_and!; [done|by rewrite Hps, Hp|done].
    + intros (Hi & Hc & s & p & Hs & Hps & ->). destruct (Hsrv i Hi) as (s' & Hs' & Hp'). simplify_eq.
      split; [done|]. split; [by apply (Hconn i); [apply Hmem|]|]. exists p. rewrite Hps in Hp'. split; [destruct (f i); by simplify_eq/=|done].
Qed.

(** *** A witness: three servers; server 1 is killed, commits are reported meanwhile,
    server 1 is started again and server 0 is disconnected *)

Definition a_msg (v : nat) (i : Z) : RaftTest.ApplyMsg nat := RaftTest.MkMsg true (Some v) i false None 0 0.
Definition raft_ops : list (RaftTester.op nat) :=
  [RaftTester.Kill [1]; RaftTester.Applied 0 (a_msg 7 1); RaftTester.Applied 2 (a_msg 7 1); RaftTester.Restart [1];
   RaftTester.Disconnect 0].
Definition raft_start : res (RaftTester.Test nat) := RaftTester.makeTest decimal all_ok 0 3 true false 0.
Definition raft_end : res (RaftTester.Test nat) :=
  let* ts := raft_start in res_fold (λ ts o, RaftTester.run decimal all_ok o ts) ts raft_ops.

#[local] Instance raft_valid_dec (o : RaftTester.op nat) ts : Decision (valid o ts).
Proof. destruct o; simpl; apply _. Defined.
Fixpoint raft_valid_all (os : list (RaftTester.op nat)) (ts : RaftTester.Test nat) : bool :=
  match os with
  | [] => true
  | o :: os => bool_decide (valid o ts) &&
      match RaftTester.run decimal all_ok o ts with Ret ts => raft_valid_all os ts | Stop _ => false end
  end.
Lemma raft_runs_fold os ts ts' :
  raft_valid_all os ts = true → res_fold (λ ts o, RaftTester.run decimal all_ok o ts) ts os = Ret ts' →
  runs decimal os ts ts'.
Proof.
  revert ts. induction os as [|o os IH]; intros ts; simpl; [intros _ [= ->]; constructor|].
  intros [Hv%bool_decide_eq_true Hr]%andb_prop.
  destruct (RaftTester.run decimal all_ok o ts) as [ts1|] eqn:Ho; [|done]. cbn [rbind].
  intros Heq. econstructor; [done|done|]. by apply IH.
Qed.

Lemma tester_in_step_witness :
  ∃ ts t, raft_end = Ret ts ∧ RaftTester.copies (RaftTester.srvs ts) = Ret (RaftTest.srvs t) ∧
    RaftTest.nCommitted 1 t = Ret (2, Some 7%nat) ∧
    ∃ states, RaftTester.ask_states (λ p, (Z.of_nat p, false)) ts = Ret states ∧ states = [(1, (3, false)); (2, (2, false))].
Proof.
  destruct raft_start as [ts0|] eqn:H0; [|vm_compute in H0; discriminate].
  destruct (res_fold (λ ts o, RaftTester.run decimal all_ok o ts) ts0 raft_ops) as [ts|] eqn:H1.
  2:{ exfalso. revert H1. assert (Ret ts0 = raft_start) as Hr by (symmetry; exact H0). vm_compute in Hr.
      injection Hr as ->. vm_compute. discriminate. }
  assert (raft_valid_all raft_ops ts0 = true) as Hv.
  { assert (match raft_start with Ret ts0 => raft_valid_all raft_ops ts0 | Stop _ => false end = true) as Hx
      by (vm_compute; reflexivity). rewrite H0 in Hx. exact Hx. }
  destruct (tester_in_step (C:=nat) decimal 0 3 true false 0 raft_ops ts0 ts H0 (raft_runs_fold raft_ops ts0 ts Hv H1))
    as (_ & (t & Hrep & Hcop & _) & sg & _ & _ & _ & Hask).
  exists ts, t. split; [unfold raft_end; rewrite H0; exact H1|]. split; [exact Hcop|]. split.
  - vm_compute in Hrep. injection Hrep as <-. vm_compute. reflexivity.
  - destruct (Hask (λ p, (Z.of_nat p, false))) as (states & Hst & _). exists states. split; [exact Hst|].
    assert ((let* ts := raft_end in RaftTester.ask_states (λ p, (Z.of_nat p, false)) ts) = Ret [(1, (3, false)); (2, (2, false))])
      as Hx by (vm_compute; reflexivity).
    unfold raft_end in Hx. rewrite H0 in Hx. cbn [rbind] in Hx. rewrite H1 in Hx. cbn [rbind] in Hx. congruence.
Defined.

(** ** The tester of the replicated state machine *)

Section rsm.
Import RsmTester.
Context (rand : nat → string) `{!Inj (=) (=) rand}.
Implicit Types ts : Test.

Abbreviation in_range i := (0 ≤ i < Z.of_nat NSRV).

Record rsm_inv ts (f : Z → option nat) (c : Z → Prop) : Prop := {
  ri_group : group0 rand NSRV (cfg ts) f c;
  ri_len : length (srvs ts) = NSRV;
  ri_proxy i : in_range i → is_Some (f i) → srvs ts !! Z.to_nat i = Some (Some (Some (f i)));
  ri_leader : in_range (leader ts)
}.

Lemma mksrvs_spec l ts f c :
  group0 rand NSRV (cfg ts) f c → length (srvs ts) = NSRV → Forall (λ i, in_range i) l →
  ∃ ts', mksrvs l ts = Ret ts' ∧ cfg ts' = cfg ts ∧ leader ts' = leader ts ∧ length (srvs ts') = NSRV ∧
    ∀ i, in_range i → srvs ts' !! Z.to_nat i = if decide (i ∈ l) then Some (Some (Some (f i))) else srvs ts !! Z.to_nat i.
Proof.
  unfold mksrvs. intros Hg. revert ts Hg. induction l as [|j l IH]; intros ts Hg Hlen Hl; [by exists ts|].
  apply list.Forall_cons in Hl as [Hj Hl]. cbn [res_fold].
  rewrite (ask_DaemonClnt rand NSRV _ f c) by done. cbn [rbind].
  set (ts1 := MkTest (cfg ts) (<[Z.to_nat j := Some (newRSMServer (Some (f j)))]> (srvs ts)) (leader ts) (maxraftstate ts)).
  assert (mksrv j (f j) ts = Ret ts1) as -> by (unfold mksrv; by rewrite slice_set_Ret by lia). cbn [rbind].
  destruct (IH ts1)
    as (ts' & -> & Hc & Hle & Hle' & Hsr); [done|simpl; by rewrite length_insert|done|].
  exists ts'. split_and!; [done..|]. intros i Hi. rewrite Hsr by done. simpl.
  destruct (decide (i ∈ l)); [by rewrite decide_True by (by right)|]. destruct (decide (i = j)) as [->|Hne].
  - rewrite decide_True by (by left). apply list_lookup_insert_eq. lia.
  - rewrite decide_False by (by apply not_elem_of_cons). apply list_lookup_insert_ne. lia.
Qed.

Definition rsm_valid (o : op) ts : Prop :=
  match o with
  | Kill l => Forall (λ i, in_range i) l
  | Restart l => Forall (λ i, in_range i ∧
      mget None (servers (net (tst (cfg ts)))) (ServerName GRP0 i) = None) l ∧ NoDup l
  | Connect i | Leads i => in_range i
  | DisconnectLeader => True
  end.

Lemma ConnectAll_grp0 cf f c : group0 rand NSRV cf f c →
  ∃ cf', on_group GRP0 ConnectAll cf = Ret cf' ∧ group0 rand NSRV cf' f (λ _, True).
Proof.
  intros Hg. eapply on_grp0; [done|]. intros x Hx Hm. unfold ConnectAll.
  assert (∀ l x c, seen rand x f c → Forall (member x.1) l → ∃ y,
    res_fold (λ '(sg, t) i, ConnectOne i sg t) x l = Ret y ∧ rel x y ∧ seen rand y f (λ j, j ∈ l ∨ c j)) as Hfold.
  { clear. induction l as [|i l IH]; intros x c Hx Hl.
    { exists x. split_and!; [done|done|]. eapply seen_ext; [done..|]. intros i _. set_solver. }
    apply list.Forall_cons in Hl as [Hi Hl]. destruct (ConnectOne_seen rand i x f c Hx Hi) as (y & Heq & Hxy & Hy).
    destruct (IH y _ Hy) as (z & Heqz & Hyz & Hz); [by eapply Forall_rel|]. exists z. destruct x as [sg t]. cbn [res_fold].
    simpl in Heq. rewrite Heq. cbn [rbind]. split_and!; [done|by etrans|]. eapply seen_ext; [done..|]. intros j _. set_solver. }
  destruct (Hfold (all x.1) x c Hx (all_members _)) as (y & Heq & Hxy & Hy). exists y.
  split_and!; [by destruct x|done|]. eapply seen_ext; [done..|]. intros j Hj. split; [done|]. intros _. left.
  apply elem_of_all. unfold member in *. by rewrite <-(r_N _ _ Hxy).
Qed.

Lemma rsm_run_inv o ts f c :
  rsm_inv ts f c → rsm_valid o ts → ∃ ts' f' c', run rand all_ok o ts = Ret ts' ∧ rsm_inv ts' f' c'.
Proof.
  intros [Hg Hlen Hp Hld] Hv. destruct o as [l|l| |i|i]; simpl in *.
  - unfold kill. destruct (on_grp0 rand NSRV (Group.Kill all_ok l) (cfg ts) f c
      (λ j, if decide (j ∈ l) then None else f j) (λ j, j ∉ l ∧ c j)) as (cf & -> & Hcf); [done| |].
    { intros x Hx Hm. apply Kill_seen; [done..|]. eapply list.Forall_impl; [done|]. intros i ?. by apply Hm. }
    cbn [rbind]. eexists _, _, _. split; [done|]. split; [exact Hcf|done| |done]. simpl.
    intros i Hi. case_decide; [by intros [? ?]|]. by apply Hp.
  - destruct Hv as [Hv Hnd]. rewrite list.Forall_forall in Hv.
    assert (Forall (λ i, in_range i) l) as Hr by (apply list.Forall_forall; intros i Hi; by apply Hv).
    unfold restart. destruct (start_grp0 rand NSRV l (cfg ts) f c Hg Hr Hnd) as (cf & g & -> & Hcf & Hin & Hout).
    { intros i Hi. destruct Hg as (Hok & sg & Hsg & HN & [_ _ Hreg _]). destruct (Hv i Hi) as [Hir Hnone].
      rewrite <-Hreg by (unfold member; simpl; by rewrite HN). unfold reg. simpl.
      destruct (ok_groups _ _ Hok GRP0 sg Hsg) as [-> _]. exact Hnone. }
    cbn [rbind].
    destruct (ConnectAll_grp0 cf g c Hcf) as (cf' & -> & Hcf'). cbn [rbind].
    destruct (mksrvs_spec l (set_cfg cf' ts) g (λ _, True)) as (ts' & -> & Hc & Hl & Hlen' & Hsr); [done..|].
    exists ts', g, (λ _, True). split; [done|]. split; [by rewrite Hc|done| |by rewrite Hl]. intros i Hi Hs.
    rewrite Hsr by done. case_decide; [done|]. rewrite Hout in Hs |- * by done. by apply Hp.
  - unfold disconnectLeader. destruct (on_grp0 rand NSRV (DisconnectAll (leader ts)) (cfg ts) f c f
      (λ j, j ≠ leader ts ∧ c j)) as (cf & -> & Hcf); [done| |].
    { intros x Hx Hm. apply DisconnectAll_seen; [done..|]. by apply Hm. }
    cbn [rbind]. by eexists _, _, _.
  - unfold connect. destruct (on_grp0 rand NSRV (ConnectOne i) (cfg ts) f c f (λ j, j = i ∨ c j)) as (cf & -> & Hcf); [done| |].
    { intros x Hx Hm. apply ConnectOne_seen; [done..|]. by apply Hm. }
    cbn [rbind]. by eexists _, _, _.
  - by eexists _, _, _.
Qed.

Lemma rsm_makeTest_inv k maxraftstate now :
  ∃ ts f c, makeTest rand all_ok k maxraftstate now = Ret ts ∧ rsm_inv ts f c.
Proof.
  destruct (MakeConfig_group0 rand k NSRV true now) as (cf & f & Heq & Hg & Hf). unfold makeTest. rewrite Heq. cbn [rbind].
  destruct (mksrvs_spec (Z.of_nat <$> seq 0 NSRV) (MkTest cf (replicate NSRV None) 0 maxraftstate) f (λ _, True))
    as (ts & -> & Hc & Hl & Hlen & Hsr); [done|done| |].
  { apply list.Forall_forall. intros i (j & -> & Hj%elem_of_seq)%list_elem_of_fmap. unfold NSRV in *. lia. }
  exists ts, f, (λ _, True). split; [done|]. split; [by rewrite Hc|done| |by rewrite Hl].
  intros i Hi _. rewrite Hsr by done. rewrite decide_True; [done|]. apply list_elem_of_fmap. exists (Z.to_nat i).
  rewrite elem_of_seq. lia.
Qed.
End rsm.

Inductive rsm_runs (rand : nat → string) : RsmTester.Test → RsmTester.Test → Prop :=
| rr_nil ts : rsm_runs rand ts ts
| rr_cons o ts ts1 ts2 : rsm_valid o ts → RsmTester.run rand all_ok o ts = Ret ts1 →
    rsm_runs rand ts1 ts2 → rsm_runs rand ts ts2.

(** Whatever a test of the replicated state machine kills, restarts after a kill, and
    connects, it does not stop, and the proxy of every server that runs is the proxy of the
    daemon that is registered for it.  The proxy of a killed server stays, so Submit on it
    fails in the RPC layer; no rsmServer is ever nil after makeTest. *)
Theorem rsm_proxies_current rand `{!Inj (=) (=) rand} k maxraftstate now ts0 ts :
  RsmTester.makeTest rand all_ok k maxraftstate now = Ret ts0 → rsm_runs rand ts0 ts →
  (∀ o, rsm_valid o ts → ∃ ts', RsmTester.run rand all_ok o ts = Ret ts') ∧
  ∃ sg, grps (RsmTester.cfg ts) !! GRP0 = Some sg ∧
    ∀ i p, 0 ≤ i < Z.of_nat RsmTester.NSRV →
      mget None (servers (net (tst (RsmTester.cfg ts)))) (ServerName (gid sg) i) = Some p →
      RsmTester.srvs ts !! Z.to_nat i = Some (Some (Some (Some p))).
Proof.
  intros Hmk Hr. destruct (rsm_makeTest_inv rand k maxraftstate now) as (ts1 & f0 & c0 & Heq & Hinv0).
  rewrite Hmk in Heq. injection Heq as <-.
  assert (∃ f c, rsm_inv rand ts f c) as (f & c & Hinv).
  { clear Hmk. revert f0 c0 Hinv0. induction Hr as [ts|o ts ts1 ts2 Hv Ho _ IH]; intros f0 c0 Hinv0; [by exists f0, c0|].
    destruct (rsm_run_inv rand o ts f0 c0 Hinv0 Hv) as (ts1' & f1 & c1 & Heq & Hinv1).
    rewrite Ho in Heq. injection Heq as <-. by eapply IH. }
  split. { intros o Hv. destruct (rsm_run_inv rand o ts f c Hinv Hv) as (ts' & _ & _ & ? & _). by exists ts'. }
  destruct Hinv as [(_ & sg & Hsg & HN & [_ _ Hreg _]) Hlen Hp _].
  exists sg. split_and!; [done..|]. intros i p Hi Hrg. assert (f i = Some p) as Hf.
  { rewrite <-Hreg; [exact Hrg|]. unfold member. simpl. by rewrite HN. }
  rewrite <-Hf. apply Hp; [done|]. by exists p.
Qed.
