(* ===== verification/Daemon.v ===== *)
(** * Daemon processes (tester1/daemonclnt.go, daemonsrv.go, testsrv.go)

    The tester starts every server as a process: [runDaemon] builds its command
    line, [InitDaemon] takes it apart.  In the process, the ends that the server
    calls are set to [forward], which sends the call to the tester; the tester
    puts it on the simulated network at the end of that name.  The flag package,
    which reads the options, and the process itself are not modelled. *)

From stdpp Require Import pretty.
From Stdlib Require Import Strings.Ascii.
From S2P Require Import Prelude LabRpc Wire NetRpc Demux SockRpc.
Import LabRpc Wire NetRpc SockRpc.
Local Open Scope Z_scope.

Module Daemon.

(** ** strconv.Itoa and strconv.Atoi *)

Definition Itoa (z : Z) : string := pretty z.

Definition digit (c : ascii) : option Z :=
  let n := Z.of_nat (nat_of_ascii c) in
  if decide (48 ≤ n ≤ 57) then Some (n - 48) else None.
Fixpoint digits (acc : Z) (s : string) : option Z :=
  match s with
  | EmptyString => Some acc
  | String c s => match digit c with Some d => digits (10 * acc + d) s | None => None end
  end.
Definition unsigned (s : string) : option Z :=
  match s with EmptyString => None | _ => digits 0 s end.
Definition signed (s : string) : option Z :=
  match s with
  | EmptyString => None
  | String c s' =>
      if decide (c = "-"%char) then Z.opp <$> unsigned s'
      else if decide (c = "+"%char) then unsigned s' else unsigned s
  end.
(** [None] is an error: no digits, another character, or out of the range of int. *)
Definition Atoi (s : string) : option Z :=
  match signed s with
  | Some z => if decide (- two63 ≤ z < two63) then Some z else None
  | None => None
  end.

(** ** The command line *)

Definition options (useRaftStateMachine : bool) : list string :=
  if useRaftStateMachine then ["--raft-state-machine"] else [].

(** The arguments that runDaemon gives to the process. *)
Definition daemon_args (pargs : list string) (useRaftStateMachine : bool) (gid srv : Z)
    (endName : string) (endNames : list string) : list string :=
  pargs ++ options useRaftStateMachine ++
  [Itoa gid; Itoa srv; Itoa (Z.of_nat (length endNames)); endName] ++ endNames.

(** The loop that skips the options; an empty argument has no first character. *)
Fixpoint skip_options (i s : Z) (args : list string) : res Z :=
  match args with
  | [] => Ret s
  | EmptyString :: _ => Stop Panic
  | String c _ :: args => if decide (c = "-"%char) then skip_options (i + 1) (i + 1) args else Ret s
  end.

(** [args[lo:hi]] *)
Definition slice_range {A} (l : list A) (lo hi : Z) : res (list A) :=
  if decide (0 ≤ lo ≤ hi ∧ hi ≤ Z.of_nat (length l)) then
    Ret (take (Z.to_nat (hi - lo)) (drop (Z.to_nat lo) l))
  else Stop Panic.

(** What InitDaemon finds in its arguments; [None] is the error it returns. *)
Record dargs := MkDArgs { a_gid : Z; a_sid : Z; a_tester : string; a_ends : list string; a_me : string }.
Definition atoi_arg (args : list string) (i : Z) (k : Z → res (option dargs)) : res (option dargs) :=
  let* a := slice_get args i in
  match Atoi a with Some z => k z | None => Ret None end.
Definition parse_args (args : list string) : res (option dargs) :=
  let* s := skip_options 0 0 args in
  atoi_arg args s (λ gid,
  atoi_arg args (s + 1) (λ sid,
  atoi_arg args (s + 2) (λ nsrv,
  let* testerEndName := slice_get args (s + 3) in
  let* endNames := slice_range args (s + 4) (s + 4 + nsrv) in
  let* me := slice_get endNames sid in
  Ret (Some (MkDArgs gid sid testerEndName endNames me))))).

Definition sockctl (sock : string) : string := sock +:+ "-ctl".

(** ** Forwarding *)

Record ForwardArgs := MkFwd { F_Method : string; F_End : string; F_Args : bytes; F_Id : Z }.
Record ForwardReply := MkFwdRep { Rep : bytes; Ok : bool }.

Section forward.
Context `{Codec ForwardArgs} `{Codec ForwardReply} `{Codec RPCArgs}.

(** DaemonSrv.forward: the RPC it makes, with the next number; and what it
    returns for the answer. *)
Definition forward_request (id : Z) (end_ method : string) (b : bytes) : res (bytes * Z) :=
  let id := i64 (id + 1) in
  let* args := Marshall (MkFwd method end_ b id) in
  let* req := RPC_request "TesterRPC.Forward" args in
  Ret (req, id).
Definition forward_result (r : Demux.reply) : res (bytes * bool) :=
  let* '(rep, ok) := RPCMarshall_result r in
  match rep with
  | Some fr => if (ok : bool) then Ret (Rep fr, Ok fr) else Ret ([], ok)
  | None => Ret ([], ok)
  end.

(** TesterRPC.Forward: the request it puts on the network of the tester, and the
    reply it makes of the network's answer. *)
Definition TesterRPC_Forward (args : ForwardArgs) (rn : Network) : res reqMsg :=
  let* e := LookupEnd (F_End args) rn in Ret (Forward_request e (F_Method args) (F_Args args)).
Definition TesterRPC_reply (m : replyMsg) : ForwardReply :=
  let (rep, ok) := Forward_result m in MkFwdRep rep ok.

(** ClientEnd.Call in a daemon, where the end has been given [forward] by SetCall:
    the reply of [forward] decoded. *)
Definition daemon_Call {R} `{Codec R} (r : Demux.reply) : res (option R * bool) :=
  let* '(rep, ok) := forward_result r in
  if (ok : bool) then let* v := Unmarshall rep in Ret (Some v, true) else Ret (None, false).
End forward.

(** ** Lemmas: numbers *)

Lemma digit_char x : (x < 10)%N → digit (pretty_N_char x) = Some (Z.of_N x).
Proof.
  intros Hx. assert (Hcase : x ∈ N.of_nat <$> seq 0 10).
  { apply list_elem_of_fmap. exists (N.to_nat x). rewrite elem_of_seq. lia. }
  simpl in Hcase. repeat (apply elem_of_cons in Hcase as [->|Hcase]; [done|]).
  by apply not_elem_of_nil in Hcase.
Qed.

Lemma digits_go x s : digits 0 (pretty_N_go x s) = digits (Z.of_N x) s.
Proof.
  revert s. induction (N.lt_wf_0 x) as [x _ IH]; intros s.
  destruct (decide (x = 0%N)) as [->|Hx]; [done|].
  rewrite pretty_N_go_step by lia. rewrite IH by (apply N.div_lt; lia). simpl.
  rewrite digit_char by (apply N.mod_lt; lia). f_equal.
  pose proof (N.div_mod x 10 ltac:(lia)). lia.
Qed.

Lemma unsigned_pretty (x : N) : unsigned (pretty x) = Some (Z.of_N x).
Proof.
  unfold pretty, pretty_N. case_decide as Hx; [by subst|].
  pose proof (digits_go x "") as Hd. simpl in Hd.
  destruct (pretty_N_go x "") as [|c s]; [|done].
  simpl in Hd. injection Hd as Hd. destruct x; [done|simpl in Hd; lia].
Qed.

(** A decimal number starts with a digit. *)
Lemma unsigned_head (x : N) : ∃ c s, pretty x = String c s ∧ is_Some (digit c).
Proof.
  pose proof (unsigned_pretty x) as Hu. destruct (pretty x) as [|c s]; [done|].
  exists c, s. split; [done|]. simpl in Hu. destruct (digit c); [by eexists|done].
Qed.
Lemma digit_sign c : is_Some (digit c) → c ≠ "-"%char ∧ c ≠ "+"%char.
Proof. intros [d Hd]. split; intros ->; done. Qed.

Lemma Itoa_head z : 0 ≤ z → ∃ c s, Itoa z = String c s ∧ is_Some (digit c).
Proof.
  intros Hz. unfold Itoa. destruct z as [|p|p]; [|apply (unsigned_head (Npos p))|lia].
  by exists "0"%char, EmptyString.
Qed.

Lemma signed_pretty (x : N) : signed (pretty x) = Some (Z.of_N x).
Proof.
  rewrite <-unsigned_pretty. destruct (unsigned_head x) as (c & s & -> & [Hm Hp]%digit_sign).
  simpl. by rewrite !decide_False by done.
Qed.

Lemma Atoi_Itoa z : - two63 ≤ z < two63 → Atoi (Itoa z) = Some z.
Proof.
  intros Hz. unfold Atoi. assert (signed (Itoa z) = Some z) as ->; [|by rewrite decide_True].
  destruct z as [|p|p]; [done|apply (signed_pretty (Npos p))|].
  unfold Itoa. change (pretty (Z.neg p)) with (String "-" (pretty (Npos p))). simpl.
  by rewrite unsigned_pretty.
Qed.

(** ** Lemmas: the command line *)

Definition is_option (a : string) : bool :=
  match a with String c _ => bool_decide (c = "-"%char) | EmptyString => false end.

Lemma skip_options_app opts i s rest :
  Forall is_option opts →
  skip_options i s (opts ++ rest) =
  skip_options (i + Z.of_nat (length opts))
    (if decide (opts = []) then s else i + Z.of_nat (length opts)) rest.
Proof.
  revert i s. induction opts as [|o opts IH]; intros i s Ho.
  { simpl. by rewrite Z.add_0_r. }
  apply list.Forall_cons in Ho as [Ho Hos]. destruct o as [|c o]; [done|]. simpl in Ho |- *.
  apply Is_true_true, bool_decide_eq_true in Ho. rewrite decide_True, IH by done.
  f_equal; [lia|]. destruct opts; simpl; lia.
Qed.

Lemma slice_get_app {A} (l l' : list A) i :
  0 ≤ i → slice_get (l ++ l') (Z.of_nat (length l) + i) = slice_get l' i.
Proof.
  intros Hi. unfold slice_get. rewrite !decide_True by lia.
  rewrite lookup_app_r by lia. by replace (Z.to_nat _ - length l)%nat with (Z.to_nat i) by lia.
Qed.

Lemma options_ok b : Forall is_option (options b).
Proof. destruct b; repeat constructor. Qed.

End Daemon.
