(* ===== verification/DaemonSpec.v ===== *)
(** * Properties of the daemons

    The command line survives its way to the process, and a call made in a
    daemon is a call at the same end in the tester. *)

From stdpp Require Import pretty.
From S2P Require Import Prelude LabRpc Wire NetRpc Demux SockRpc Daemon.
Import LabRpc Wire NetRpc SockRpc Daemon.
Local Open Scope Z_scope.

(** The command line of a daemon is read back: for program options that start
    with a dash, a group number that is not negative (a minus sign would look like
    an option) and a server of the group, InitDaemon finds in the arguments that
    runDaemon builds the group, the server's number, the name of the tester's end,
    the names of the server's ends, and its own name among them. *)
Theorem daemon_args_roundtrip pargs b gid srv endName endNames me :
  Forall is_option pargs → 0 ≤ gid < two63 → Z.of_nat (length endNames) < two63 →
  0 ≤ srv → endNames !! Z.to_nat srv = Some me →
  parse_args (daemon_args pargs b gid srv endName endNames) =
  Ret (Some (MkDArgs gid srv endName endNames me)).
Proof.
  intros Hp Hg Hn Hs Hme. pose proof (lookup_lt_Some _ _ _ Hme) as Hlt.
  unfold parse_args, daemon_args. rewrite (assoc_L (++)).
  set (opts := pargs ++ options b). assert (Hopts : Forall is_option opts).
  { apply list.Forall_app. split; [done|]. apply options_ok. }
  set (rest := _ ++ endNames). rewrite skip_options_app by done.
  replace (if decide (opts = []) then 0 else 0 + Z.of_nat (length opts))
    with (Z.of_nat (length opts)) by (case_decide as Ho; [by rewrite Ho|lia]).
  rewrite Z.add_0_l. unfold rest at 1. simpl app.
  destruct (Itoa_head gid) as (c & s & Hhead & [Hc _]%digit_sign); [lia|]. rewrite Hhead. simpl.
  rewrite decide_False by done. simpl. unfold atoi_arg.
  replace (Z.of_nat (length opts)) with (Z.of_nat (length opts) + 0) by lia.
  rewrite <-!Z.add_assoc, !slice_get_app by lia. unfold rest, slice_get. simpl.
  rewrite !Atoi_Itoa by (unfold two63 in *; lia). simpl.
  unfold slice_range. rewrite decide_True by (rewrite length_app; simpl; lia). simpl.
  rewrite Z.add_simpl_l, Nat2Z.id.
  replace (Z.to_nat (Z.of_nat (length opts) + (0 + 4))) with (length opts + 4)%nat by lia.
  rewrite <-drop_drop, drop_app_length. simpl. rewrite firstn_all, drop_0.
  by rewrite decide_True, Hme by done.
Qed.

Lemma daemon_args_roundtrip_witness :
  parse_args (daemon_args ["--max-raft-state=1"] true 7 1 "tester" ["a"; "b"; "c"]) =
  Ret (Some (MkDArgs 7 1 "tester" ["a"; "b"; "c"] "b"))%string.
Proof.
  apply daemon_args_roundtrip;
    [repeat constructor|by vm_compute|by vm_compute|done|reflexivity].
Defined.

(** C3. Forwarding is transparent: what a server in a daemon calls at one of its
    ends is the call of the same method with the same arguments at the end of that
    name in the tester's network, and what Call returns in the daemon is what Call
    in the tester makes of the network's answer.  (The RPC between the processes
    succeeds here; if it fails, Call returns false.) *)
Theorem daemon_call_transparent `{CodecLaws ForwardArgs} `{CodecLaws ForwardReply}
    `{CodecLaws RPCArgs} {A R} `{Codec A} `{Codec R} id end_ method (args : A) rm req id' rn m rb :
  Call_request end_ method args = Ret rm → end_ ∈ ends rn →
  forward_request id end_ method (rq_args rm) = Ret (req, id') →
  Marshall (TesterRPC_reply m) = Ret rb →
  (∃ ra fa, Unmarshall req = Ret ra ∧ Method ra = "TesterRPC.Forward"%string ∧
    Unmarshall (Args ra) = Ret fa ∧ TesterRPC_Forward fa rn = Ret rm) ∧
  daemon_Call (R:=R) (Demux.Reply rb true false) = Call_result m ∧
  daemon_Call (R:=R) (Demux.Reply rb false false) = Ret (None, false) ∧
  daemon_Call (R:=R) (Demux.Reply [] false true) = Ret (None, false).
Proof.
  intros Hcall Hin Hreq Hrb. split.
  - unfold forward_request in Hreq. apply rbind_Ret_inv in Hreq as (ab & Hab & Hreq).
    apply rbind_Ret_inv in Hreq as (rq & Hrq & [= -> <-]). unfold RPC_request in Hrq.
    exists (MkRPCArgs "TesterRPC.Forward" ab), (MkFwd method end_ (rq_args rm) (i64 (id + 1))).
    split; [by apply Unmarshall_Marshall|]. split; [done|].
    split; [by apply Unmarshall_Marshall|]. unfold TesterRPC_Forward, LookupEnd. simpl.
    rewrite bool_decide_eq_true_2 by done. simpl. unfold Call_request in Hcall.
    by apply rbind_Ret_inv in Hcall as (b & _ & [= <-]).
  - split; [|done]. unfold daemon_Call, forward_result, RPCMarshall_result. simpl.
    rewrite (Unmarshall_Marshall _ _ Hrb). simpl. unfold Call_result. by destruct m as [[] rep].
Qed.

(** A gob of bits. *)
Definition bit_bytes (p : positive) : bytes :=
  (fix go p := match p with
               | xH => []
               | xO p => "000"%byte :: go p
               | xI p => "001"%byte :: go p
               end) p.
Fixpoint of_bit_bytes (b : bytes) : positive :=
  match b with
  | [] => xH
  | x :: b => if decide (x = "000"%byte) then xO (of_bit_bytes b) else xI (of_bit_bytes b)
  end.
Lemma of_bit_bytes_eq p : of_bit_bytes (bit_bytes p) = p.
Proof. induction p as [p IH|p IH|]; simpl; [..|done]; f_equal; apply IH. Qed.

Section bit_codec.
Context {A B : Type} `{Countable B} (f : A → B) (g : B → A) (Hgf : ∀ a, g (f a) = a).
Definition bit_codec : Codec A := {|
  encode a := Some (bit_bytes (countable.encode (f a)));
  decode b := g <$> countable.decode (of_bit_bytes b) |}.
Lemma bit_codec_laws : @CodecLaws A bit_codec.
Proof.
  intros a b [= <-]. simpl. rewrite of_bit_bytes_eq, countable.decode_encode. simpl. by rewrite Hgf.
Qed.
End bit_codec.

#[local] Instance byte_countable : Countable byte.
Proof.
  refine (inj_countable Byte.to_N Byte.of_N _). intros b. apply Byte.of_to_N.
Defined.
#[local] Instance fwd_codec : Codec ForwardArgs :=
  bit_codec (λ a, (F_Method a, F_End a, F_Args a, F_Id a)) (λ '(m, e, a, i), MkFwd m e a i).
#[local] Instance fwd_laws : CodecLaws ForwardArgs.
Proof. apply bit_codec_laws. by intros []. Qed.
#[local] Instance fwdrep_codec : Codec ForwardReply :=
  bit_codec (λ a, (Rep a, Ok a)) (λ '(r, o), MkFwdRep r o).
#[local] Instance fwdrep_laws : CodecLaws ForwardReply.
Proof. apply bit_codec_laws. by intros []. Qed.
#[local] Instance rpcargs_codec : Codec RPCArgs :=
  bit_codec (λ a, (Method a, Args a)) (λ '(m, a), MkRPCArgs m a).
#[local] Instance rpcargs_laws : CodecLaws RPCArgs.
Proof. apply bit_codec_laws. by intros []. Qed.
#[local] Instance nat_codec : Codec nat := bit_codec id id.

Definition fwd_args : bytes := bit_bytes (countable.encode 5%nat).
Definition fwd_wire : bytes :=
  bit_bytes (countable.encode ("Raft.AppendEntries"%string, "e"%string, fwd_args, 1)).

Lemma daemon_call_transparent_witness :
  daemon_Call (R:=nat) (Demux.Reply (bit_bytes (countable.encode (fwd_args, true))) true false) =
  Ret (Some 5%nat, true).
Proof.
  destruct (daemon_call_transparent (R:=nat) 0 "e" "Raft.AppendEntries" 5%nat
    (ReqMsg "e" "Raft.AppendEntries" fwd_args)
    (bit_bytes (countable.encode ("TesterRPC.Forward"%string, fwd_wire))) 1
    (set_ends {["e"]} MakeNetwork) (ReplyMsg true fwd_args)
    (bit_bytes (countable.encode (fwd_args, true)))) as (_ & Hc & _).
  - reflexivity.
  - by vm_compute.
  - by vm_compute.
  - reflexivity.
  - rewrite Hc. by vm_compute.
Defined.
