(* ===== verification/DaemonInit.v ===== *)
(** * Starting a daemon: Init, InitWait and the main goroutine (tester1/daemonsrv.go)

    InitDaemon, the handler of Init and the handler of InitWait meet at the one
    unbuffered channel [ds.ch]: Init sends a persister, which InitDaemon receives; then
    InitDaemon makes the server, adds its services, and sends nil, which InitWait
    receives; and InitDaemon waits at the channel until the process is killed.  The
    tester calls Init (daemonclnt.go, init) and then InitWait (waitInit), and goes on if
    a call fails.  A send and a receive of any two of them can meet, so the step
    relation has every pair. *)

From S2P Require Import Prelude LabRpc Persister Group.
Import LabRpc.

Module DaemonInit.

Section daemon.
(** The services that the server's constructor makes for a persister. *)
Context {Svc : Type} (mks : Group.image → list Svc).

(** InitDaemon, from the point where the control server runs. *)
Inductive mpc :=
| MRecv                   (** ds.persister = <-ds.ch *)
| MMake                   (** NewRPCSrv, mks *)
| MAdd (svcs : list Svc)  (** the services still to be added *)
| MSignal                 (** ds.ch <- nil *)
| MQuit                   (** <-ds.ch *)
| MReturned.

(** A handler: no request has arrived, it is at the channel, it has returned. *)
Inductive hpc := HNone | HPend | HDone.

(** The tester; [ok] and [okw] are what the two calls returned. *)
Inductive tpc :=
| TStart
| TInit
| TInited (ok : bool)
| TWait (ok : bool)
| TReady (ok okw : bool).

Record daemon := MkDaemon {
  tester : tpc;
  init_h : hpc; wait_h : hpc; main : mpc;
  persister : option Group.image;
  services : list Svc
}.
Implicit Types d : daemon.

(** What the tester sends with Init. *)
Context (args : Group.image).

Inductive init_step d : daemon → Prop :=
| i_call lost : tester d = TStart →
    init_step d (MkDaemon TInit (if lost : bool then HNone else HPend) (wait_h d) (main d) (persister d) (services d))
| i_return : tester d = TInit → init_h d = HDone →
    init_step d (MkDaemon (TInited true) (init_h d) (wait_h d) (main d) (persister d) (services d))
| i_fail : tester d = TInit →
    init_step d (MkDaemon (TInited false) (init_h d) (wait_h d) (main d) (persister d) (services d)).

Inductive waitInit_step d : daemon → Prop :=
| w_call ok lost : tester d = TInited ok →
    waitInit_step d
      (MkDaemon (TWait ok) (init_h d) (if lost : bool then HNone else HPend) (main d) (persister d) (services d))
| w_return ok : tester d = TWait ok → wait_h d = HDone →
    waitInit_step d (MkDaemon (TReady ok true) (init_h d) (wait_h d) (main d) (persister d) (services d))
| w_fail ok : tester d = TWait ok →
    waitInit_step d (MkDaemon (TReady ok false) (init_h d) (wait_h d) (main d) (persister d) (services d)).

Inductive InitDaemon_step d : daemon → Prop :=
| m_recv : main d = MRecv → init_h d = HPend →
    InitDaemon_step d (MkDaemon (tester d) HDone (wait_h d) MMake (Some args) (services d))
| m_make p : main d = MMake → persister d = Some p →
    InitDaemon_step d (MkDaemon (tester d) (init_h d) (wait_h d) (MAdd (mks p)) (persister d) [])
| m_add s svcs : main d = MAdd (s :: svcs) →
    InitDaemon_step d
      (MkDaemon (tester d) (init_h d) (wait_h d) (MAdd svcs) (persister d) (services d ++ [s]))
| m_added : main d = MAdd [] →
    InitDaemon_step d (MkDaemon (tester d) (init_h d) (wait_h d) MSignal (persister d) (services d))
| m_signal : main d = MSignal → wait_h d = HPend →
    InitDaemon_step d (MkDaemon (tester d) (init_h d) HDone MQuit (persister d) (services d))
| m_quit : main d = MQuit → init_h d = HPend →
    InitDaemon_step d (MkDaemon (tester d) HDone (wait_h d) MReturned (persister d) (services d))
| m_stolen : init_h d = HPend → wait_h d = HPend →   (** InitWait receives what Init sends *)
    InitDaemon_step d (MkDaemon (tester d) HDone HDone (main d) (persister d) (services d)).

Inductive step d d' : Prop :=
| s_init : init_step d d' → step d d'
| s_wait : waitInit_step d d' → step d d'
| s_daemon : InitDaemon_step d d' → step d d'.

Definition start : daemon := MkDaemon TStart HNone HNone MRecv None [].

(** ** The invariant *)

Definition before_wait (t : tpc) : Prop := match t with TStart | TInit | TInited _ => True | _ => False end.
Definition init_ok (t : tpc) : Prop :=
  match t with TInited ok | TWait ok | TReady ok _ => ok = true | _ => False end.

Definition main_ok d : Prop :=
  match main d with
  | MRecv => persister d = None ∧ services d = []
  | MMake => persister d = Some args ∧ services d = []
  | MAdd l => persister d = Some args ∧ services d ++ l = mks args
  | MSignal | MQuit => persister d = Some args ∧ services d = mks args
  | MReturned => False
  end.

Record inv d : Prop := {
  v_main : main_ok d;
  v_past : main d ≠ MRecv → init_h d = HDone;
  v_start : tester d = TStart → init_h d = HNone;
  v_nowait : before_wait (tester d) → wait_h d = HNone;
  v_taken : init_h d = HDone → wait_h d = HDone ∨ main d ≠ MRecv;
  v_ok : init_ok (tester d) → main d ≠ MRecv;
  v_done : init_ok (tester d) → wait_h d = HDone → main d = MQuit;
  v_quit : main d = MQuit → wait_h d = HDone;
  v_ready ok : tester d = TReady ok true → wait_h d = HDone
}.

Lemma daemon_start_inv : inv start.
Proof. by constructor. Qed.

Ltac fields := constructor; unfold main_ok in *; simpl in *; try done; intros; simplify_eq/=; try done; try intuition congruence.

Lemma daemon_step_inv d d' : inv d → step d d' → inv d'.
Proof.
  intros [V1 V2 V3 V4 V5 V6 V7 V8 V9] [Hs|Hs|Hs]; destruct d as [t ih wh m p sv]; simpl in *.
  - destruct Hs as [[] Ht|Ht Hh|Ht]; simpl in *; subst; fields.
  - destruct Hs as [ok [] Ht|ok Ht Hh|ok Ht]; simpl in *; subst; fields.
  - destruct Hs as [Hm Hh|q Hm Hp|s svcs Hm|Hm|Hm Hh|Hm Hh|Hh Hw]; simpl in *; subst; fields.
    + by rewrite <-app_assoc.
    + by rewrite app_nil_r in V1.
Qed.

Lemma daemon_steps_inv d d' : inv d → rtc step d d' → inv d'.
Proof. intros Hinv Hr. induction Hr as [|? ? ? Hs _ IH]; [done|]. by apply IH, (daemon_step_inv _ _ Hinv). Qed.

(** ** It gets ready *)

(** The services are added. *)
Lemma add_all t ih wh l p sv :
  rtc step (MkDaemon t ih wh (MAdd l) p sv) (MkDaemon t ih wh MSignal p (sv ++ l)).
Proof.
  revert sv. induction l as [|s l IH]; intros sv.
  - rewrite app_nil_r. by apply rtc_once, s_daemon, m_added.
  - eapply rtc_l; [by eapply s_daemon, m_add|]. simpl. rewrite (cons_middle s sv l), app_assoc. apply IH.
Qed.

Lemma to_signal d : inv d → wait_h d = HPend → init_ok (tester d) →
  ∃ sv, rtc step d (MkDaemon (tester d) (init_h d) HPend MSignal (persister d) sv).
Proof.
  intros Hinv Hw Hok. pose proof (v_main _ Hinv) as Hm. pose proof (v_ok _ Hinv Hok) as Hne.
  pose proof (v_quit _ Hinv) as Hq.
  destruct d as [t ih wh m p sv]; unfold main_ok in Hm; simpl in *; subst wh.
  destruct m as [| |l| | |]; try done.
  - destruct Hm as [-> ->]. eexists. eapply rtc_l; [by eapply s_daemon, m_make|]. apply add_all.
  - eexists. apply add_all.
  - exists sv. apply rtc_refl.
  - by specialize (Hq eq_refl).
Qed.

(** No call has failed and no request was lost. *)
Definition healthy d : Prop :=
  match tester d with
  | TStart => True
  | TInit => init_h d ≠ HNone
  | TInited ok => ok = true
  | TWait ok => ok = true ∧ wait_h d ≠ HNone
  | TReady ok okw => ok = true ∧ okw = true
  end.

Abbreviation gets_ready d := (∃ d', rtc step d d' ∧ tester d' = TReady true true).

Lemma ready_l d d1 : step d d1 → gets_ready d1 → gets_ready d.
Proof. intros Hs (d' & Hr & Ht). exists d'. split; [by eapply rtc_l|done]. Qed.

Lemma waiting_ready d : inv d → tester d = TWait true → wait_h d ≠ HNone → gets_ready d.
Proof.
  intros Hinv Ht Hw. destruct (wait_h d) eqn:Hh; [done| |].
  - destruct (to_signal d Hinv Hh) as [sv Hr]; [by rewrite Ht|]. eexists. split.
    { etrans; [exact Hr|]. eapply rtc_l; [by eapply s_daemon, m_signal|].
      apply rtc_once, s_wait, (w_return _ true); [done|done]. }
    done.
  - eexists. split; [by apply rtc_once, s_wait, (w_return _ true)|done].
Qed.

Lemma inited_ready d : inv d → tester d = TInited true → gets_ready d.
Proof.
  intros Hinv Ht. pose proof (s_wait _ _ (w_call d true false Ht)) as Hs.
  eapply ready_l; [exact Hs|]. by apply waiting_ready; [eapply daemon_step_inv| |].
Qed.

Lemma init_done_ready d : inv d → tester d = TInit → init_h d = HDone → gets_ready d.
Proof.
  intros Hinv Ht Hi. pose proof (s_init _ _ (i_return d Ht Hi)) as Hs. eapply ready_l; [exact Hs|].
  by apply inited_ready; [eapply daemon_step_inv|].
Qed.

Lemma init_ready d : inv d → tester d = TInit → init_h d ≠ HNone → gets_ready d.
Proof.
  intros Hinv Ht Hh. destruct (init_h d) eqn:Hi; [done| |by apply init_done_ready].
  assert (main d = MRecv) as Hm.
  { pose proof (v_past _ Hinv) as Hp. rewrite Hi in Hp. by destruct (main d); [|specialize (Hp ltac:(done))..]. }
  pose proof (s_daemon _ _ (m_recv d Hm Hi)) as Hs. eapply ready_l; [exact Hs|].
  by apply init_done_ready; [eapply daemon_step_inv| |].
Qed.

Lemma healthy_ready d : inv d → healthy d → gets_ready d.
Proof.
  intros Hinv Hh. unfold healthy in Hh. destruct (tester d) as [| |ok|ok|ok okw] eqn:Ht.
  - pose proof (s_init _ _ (i_call d false Ht)) as Hs. eapply ready_l; [exact Hs|].
    by apply init_ready; [eapply daemon_step_inv| |].
  - by apply init_ready.
  - subst ok. by apply inited_ready.
  - destruct Hh as [-> ?]. by apply waiting_ready.
  - destruct Hh as [-> ->]. exists d. split; [apply rtc_refl|done].
Qed.
End daemon.

(** ** The handlers and the persister

    Each process has a store of buffers of its own (Persister.v); a message carries
    contents, and the receiver allocates buffers for them. *)

Import Persister.

Definition image_of (ps : Persister) (s : store) : Group.image :=
  (contents s (raftstate ps), contents s (snapshot ps)).

(** The decoder allocates the slices of the arguments. *)
Definition received (im : Group.image) (s : store) : slice * slice * store :=
  let (r, s) := alloc im.1 s in
  let (n, s) := alloc im.2 s in
  (r, n, s).

(** Init: the persister that it sends to InitDaemon. *)
Definition Init (r n : slice) (s : store) : Persister * store := Save r n MakePersister s.

(** A daemon that serves: its persister, its buffers, and whether the connection to the
    tester and the server for the other servers are open. *)
Record serving := MkServing { ps : Persister; bufs_of : store; rpcc_open : bool; rpcs_open : bool }.

Definition CheckpointPersister (d : serving) : (slice * slice) * serving :=
  let (p, s) := Checkpoint (ps d) (bufs_of d) in
  let (r, s) := ReadRaftState p s in
  let (n, s) := ReadSnapshot p s in
  ((r, n), MkServing (ps d) s false false).

Definition StateSize (d : serving) : Z * Z :=
  (RaftStateSize (ps d) (bufs_of d), SnapshotSize (ps d) (bufs_of d)).

(** checkpointPersister in the tester, with the reply [im]. *)
Definition checkpoint_reply (im : Group.image) (s : store) : Persister * store :=
  let '(r, n, s) := received im s in Save r n MakePersister s.

Definition placed (p : Persister) (s : store) : Prop := below s (raftstate p) ∧ below s (snapshot p).

(** A clone has the contents, and the buffers that were there before keep theirs. *)
Definition keeps (s s' : store) : Prop := ∀ z, below s z → below s' z ∧ contents s' z = contents s z.
Lemma keeps_trans s1 s2 s3 : keeps s1 s2 → keeps s2 s3 → keeps s1 s3.
Proof. intros H1 H2 z Hz. destruct (H1 z Hz) as [H3 <-]. by apply H2. Qed.

Lemma alloc_spec b s : let '(y, s') := alloc b s in contents s' y = b ∧ below s' y ∧ keeps s s'.
Proof.
  simpl. split; [apply mget_insert_eq|]. split; [lia|]. intros z Hz. split; [|by apply contents_fresh].
  destruct z; simpl in *; [lia|done].
Qed.

Lemma clone_spec x s :
  let '(y, s') := clone x s in contents s' y = contents s x ∧ below s' y ∧ keeps s s'.
Proof. apply alloc_spec. Qed.

(** The clones that Save and Checkpoint make. *)
Lemma two_clones x y s : below s y →
  let '(r, s1) := clone x s in let '(n, s2) := clone y s1 in
  (contents s2 r, contents s2 n) = (contents s x, contents s y) ∧ below s2 r ∧ below s2 n ∧ keeps s s2.
Proof.
  intros Hy. pose proof (clone_spec x s) as H1. destruct (clone x s) as [r s1]. destruct H1 as (E1 & B1 & K1).
  pose proof (clone_spec y s1) as H2. destruct (clone y s1) as [n s2]. destruct H2 as (E2 & B2 & K2).
  destruct (K2 r B1) as [B3 E3], (K1 y Hy) as [_ E4]. split; [congruence|]. split_and!; [done..|by eapply keeps_trans].
Qed.

Lemma Save_image r n p s : below s n →
  let '(p', s') := Save r n p s in image_of p' s' = (contents s r, contents s n) ∧ placed p' s'.
Proof.
  intros Hn. pose proof (two_clones r n s Hn) as H1. unfold Save. destruct (clone r s) as [r' s1], (clone n s1) as [n' s2].
  destruct H1 as (E & B1 & B2 & _). by split.
Qed.

(** What Init is called with is what the persister holds. *)
Lemma Init_image im s :
  let '(r, n, s1) := received im s in let '(p, s2) := Init r n s1 in image_of p s2 = im ∧ placed p s2.
Proof.
  unfold received, Init. pose proof (alloc_spec im.1 s) as H1. destruct (alloc im.1 s) as [r s1].
  destruct H1 as (E1 & B1 & _). pose proof (alloc_spec im.2 s1) as H2. destruct (alloc im.2 s1) as [n s2].
  destruct H2 as (E2 & B2 & K2). pose proof (Save_image r n MakePersister s2 B2) as Hs.
  destruct (Save r n MakePersister s2) as [p s3]. destruct Hs as [-> Hp]. split; [|done].
  destruct (K2 r B1) as [_ E3]. destruct im. simpl in *. congruence.
Qed.

(** CheckpointPersister answers with what the persister holds, closes both connections,
    and leaves the persister as it is; StateSize are the sizes of what it answers. *)
Lemma CheckpointPersister_image d :
  placed (ps d) (bufs_of d) →
  let '((r, n), d') := CheckpointPersister d in
  (contents (bufs_of d') r, contents (bufs_of d') n) = image_of (ps d) (bufs_of d) ∧
  image_of (ps d') (bufs_of d') = image_of (ps d) (bufs_of d) ∧
  rpcc_open d' = false ∧ rpcs_open d' = false ∧
  StateSize d = (Z.of_nat (length (contents (bufs_of d') r)), Z.of_nat (length (contents (bufs_of d') n))).
Proof.
  intros [Hr Hn]. destruct d as [p s c1 c2]. unfold CheckpointPersister, Checkpoint, ReadRaftState, ReadSnapshot.
  cbn [ps bufs_of] in *. pose proof (two_clones (raftstate p) (snapshot p) s Hn) as H1.
  destruct (clone (raftstate p) s) as [r1 s1], (clone (snapshot p) s1) as [n1 s2].
  destruct H1 as (E1 & B1 & B2 & K1). cbn [raftstate snapshot].
  pose proof (two_clones r1 n1 s2 B2) as H2. destruct (clone r1 s2) as [r3 s3], (clone n1 s3) as [n3 s4].
  destruct H2 as (E2 & _ & _ & K2). cbn [ps bufs_of rpcc_open rpcs_open].
  pose proof (keeps_trans _ _ _ K1 K2) as K. destruct (K _ Hr) as [_ Er], (K _ Hn) as [_ En].
  unfold StateSize, RaftStateSize, SnapshotSize, image_of in *. cbn [ps bufs_of].
  injection E1 as E1 E1'. injection E2 as E2 E2'. split_and!; congruence.
Qed.

(** A checkpoint of a daemon's persister arrives in the tester as it is. *)
Lemma checkpoint_image d s :
  placed (ps d) (bufs_of d) →
  let '((r, n), d') := CheckpointPersister d in
  let '(p, s') := checkpoint_reply (contents (bufs_of d') r, contents (bufs_of d') n) s in
  image_of p s' = image_of (ps d) (bufs_of d).
Proof.
  intros Hp. pose proof (CheckpointPersister_image d Hp) as Hc. destruct (CheckpointPersister d) as [[r n] d'].
  destruct Hc as [-> _]. pose proof (Init_image (image_of (ps d) (bufs_of d)) s) as Hi.
  unfold checkpoint_reply. destruct (received _ s) as [[r' n'] s1]. unfold Init in Hi.
  destruct (Save r' n' MakePersister s1) as [p s2]. by destruct Hi.
Qed.
End DaemonInit.

Import DaemonInit.

(** C24. When the tester goes on, the server is there.  In every reachable state of the
    start of a daemon, with any interleaving of its main goroutine, its handlers and the
    tester and any failures of the two calls: the main goroutine never returns; if Init
    and InitWait both returned true, the daemon has the persister that Init was called
    with and offers exactly the services that the constructor made for it; and as long
    as no call has failed and no request was lost, the tester can get there. *)
Theorem daemon_ready {Svc} (mks : Group.image → list Svc) args d :
  rtc (step mks args) start d →
  main d ≠ MReturned ∧
  (tester d = TReady true true → persister d = Some args ∧ services d = mks args) ∧
  (healthy d → ∃ d', rtc (step mks args) d d' ∧ tester d' = TReady true true).
Proof.
  intros Hr. pose proof (daemon_steps_inv mks args _ _ (daemon_start_inv mks args) Hr) as Hinv.
  pose proof (v_main _ _ _ Hinv) as Hm. split_and!.
  - intros Hx. unfold main_ok in Hm. by rewrite Hx in Hm.
  - intros Ht. assert (main d = MQuit) as Hq.
    { apply (v_done _ _ _ Hinv); [by rewrite Ht|]. by apply (v_ready _ _ _ Hinv true). }
    unfold main_ok in Hm. by rewrite Hq in Hm.
  - by apply healthy_ready.
Qed.

(** The services are two numbers made from the saved state. *)
Lemma daemon_ready_witness :
  ∃ d', rtc (step (λ im : Group.image, [length im.1; length im.2]) ([], ["000"%byte])) start d' ∧
    tester d' = TReady true true.
Proof.
  apply (daemon_ready (λ im : Group.image, [length im.1; length im.2]) ([], ["000"%byte]) start).
  - apply rtc_refl.
  - exact I.
Defined.

(** A failed Init call is not harmless: if its request still arrives, InitWait can take
    the persister meant for InitDaemon, and returns true although no server was made. *)
Lemma stolen_init {Svc} (mks : Group.image → list Svc) args :
  ∃ d, rtc (step mks args) start d ∧ tester d = TReady false true ∧ main d = MRecv ∧ services d = [].
Proof.
  eexists. split.
  { eapply rtc_l; [by eapply s_init, (i_call _ false)|].
    eapply rtc_l; [by eapply s_init, i_fail|].
    eapply rtc_l; [by eapply s_wait, (w_call _ false false)|].
    eapply rtc_l; [by eapply s_daemon, m_stolen|].
    apply rtc_once, s_wait, (w_return _ false); done. }
  done.
Qed.
