(* ===== verification/DaemonProc.v ===== *)
(** * A daemon and its tester, wired up (tester1/daemonsrv.go, daemonclnt.go, testsrv.go)

    The tester starts a daemon with a command line, keeps a [DaemonClnt] for it, and has a
    server of its own, [TesterRPC], for the RPCs of the daemons.  The daemon makes the ends
    that its server calls, a client to the tester, a control server at once, and, when it
    has its persister, the server with the services.  The sockets have names: here they
    meet.  Daemon.v has the command line and the forwarding, SockSrv.v the connections,
    DaemonInit.v the order in which things happen. *)

From stdpp Require Import pretty.
From S2P Require Import Prelude LabRpc Wire NetRpc Demux SockRpc DemuxSpec SockSrv Daemon DaemonSpec.
Import LabRpc Wire Demux SockRpc SockSrv Daemon.
Local Open Scope Z_scope.

Module DaemonProc.

(** A function for SetCall: an end, a method and arguments; with the counter of the
    requests, as [forward_request]. *)
Definition Fcall : Type := Z → string → string → bytes → res (bytes * Z).
Record ClientEnd := MkClientEnd { endname : string; callf : option Fcall }.
Definition SetCall (f : Fcall) (e : ClientEnd) : ClientEnd := MkClientEnd (endname e) (Some f).

(** The loop over [endNames], which makes an end and gives it [forward]. *)
Fixpoint make_ends (forward : Fcall) (names : list string) (rn : Network) : res (list ClientEnd * Network) :=
  match names with
  | [] => Ret ([], rn)
  | e :: names =>
      let* rn := MakeEnd e rn in
      let* '(ends, rn) := make_ends forward names rn in
      Ret (SetCall forward (MkClientEnd e None) :: ends, rn)
  end.

Section proc.
Context `{Codec msg} `{Codec InitMsg} `{Codec ForwardArgs} `{Codec RPCArgs} {St : Type}.

(** A service: its name and the methods of its type. *)
Definition svc : Type := string * list (LabRpc.Method St).
Definition add_service (rpcs : RPCSrv (St:=St)) (s : svc) : RPCSrv := rpcs_AddService s.1 s.2 rpcs.

Record DaemonSrv := MkDaemonSrv {
  ds_endName : string;
  ds_rpcc : RPCClnt;                  (** to the tester *)
  ds_rpcsCtl : RPCSrv (St:=St);       (** control RPCs *)
  ds_rpcs : option (RPCSrv (St:=St))  (** the services, when the persister has come *)
}.

(** InitDaemon until it waits for the persister: the number of the group, that of the
    server, the ends and the daemon; [ctl] has the methods of DaemonSrv.  [None] is an error in
    the arguments. *)
Definition InitDaemon_ctl (ctl : list (LabRpc.Method St)) (args : list string) :
    res (option (Z * Z * list ClientEnd * DaemonSrv)) :=
  let* d := parse_args args in
  match d with
  | None => Ret None
  | Some d =>
      let* '(ends, _) := make_ends forward_request (a_ends d) MakeNetwork in
      let* '(rpcc, _) := NewRPCClnt (a_me d) (a_tester d) in
      let rpcsCtl := add_service (NewRPCSrv (sockctl (a_me d))) ("DaemonSrv", ctl) in
      Ret (Some (a_gid d, a_sid d, ends, MkDaemonSrv (a_me d) rpcc rpcsCtl None))
  end.

(** The rest of InitDaemon, with the services that [mks] made. *)
Definition InitDaemon_serve (svcs : list svc) (ds : DaemonSrv) : DaemonSrv :=
  MkDaemonSrv (ds_endName ds) (ds_rpcc ds) (ds_rpcsCtl ds) (Some (foldl add_service (NewRPCSrv (ds_endName ds)) svcs)).

Record DaemonClnt := MkDaemonClnt {
  dc_srv : Z; dc_server : string; dc_endName : string; dc_rpcc : option RPCClnt; dc_rpccClnt : RPCClnt }.

(** runDaemon, when the process has started; the arguments of the process are
    [daemon_args] of Daemon.v. *)
Definition runDaemon (gid srv : Z) (endNames : list string) : res DaemonClnt :=
  let* me := slice_get endNames srv in
  let* '(rpcc, _) := NewRPCClnt "tester" (sockctl me) in
  Ret (MkDaemonClnt srv ("server-" +:+ pretty gid +:+ "-" +:+ pretty srv) me None rpcc).

(** init, after the RPC, whatever it returned. *)
Definition dc_init (dc : DaemonClnt) : res DaemonClnt :=
  let* '(rpcc, _) := NewRPCClnt "tester" (dc_endName dc) in
  Ret (MkDaemonClnt (dc_srv dc) (dc_server dc) (dc_endName dc) (Some rpcc) (dc_rpccClnt dc)).

(** Call and forward of a DaemonClnt are RPCs of its client [dc_rpcc], a nil pointer before
    init. *)
Definition dc_forward (method : string) (args : bytes) (dc : DaemonClnt) : res (string * bytes) :=
  match dc_rpcc dc with
  | Some rpcc => let* req := RPC_request method args in Ret (rc_srvEnd rpcc, req)
  | None => Stop Panic
  end.
Definition dc_Call {A} `{Codec A} (method : string) (args : A) (dc : DaemonClnt) : res (string * bytes) :=
  let* b := Marshall args in dc_forward method b dc.

(** testsrv.go: the server of the tester, at the name [endName] of the configuration, and
    AddService of config.go, where the configuration may have none. *)
Definition newTesterRPCSrv (methods : list (LabRpc.Method St)) (endName : string) : RPCSrv :=
  add_service (NewRPCSrv endName) ("TesterRPC", methods).
Definition trpc_cleanup (trpc : RPCSrv (St:=St)) : res RPCSrv := rpcs_Close trpc.
Definition cfg_AddService (s : svc) (trpc : option (RPCSrv (St:=St))) : option RPCSrv :=
  (λ t, add_service t s) <$> trpc.

(** ** Lemmas *)

Lemma make_ends_ok forward names rn :
  NoDup names → (∀ e, e ∈ names → e ∉ LabRpc.ends rn) →
  ∃ rn', make_ends forward names rn = Ret ((λ e, MkClientEnd e (Some forward)) <$> names, rn') ∧
    ∀ e, e ∈ LabRpc.ends rn' ↔ e ∈ LabRpc.ends rn ∨ e ∈ names.
Proof.
  revert rn. induction names as [|e names IH]; intros rn Hnd Hnew; simpl.
  { exists rn. split; [done|]. set_solver. }
  apply list.NoDup_cons in Hnd as [He Hnd]. unfold MakeEnd. rewrite bool_decide_false by (apply Hnew; set_solver). cbn [rbind].
  edestruct IH as (rn' & Heq & Hends); [done| |rewrite Heq].
  - intros e' He'. simpl. specialize (Hnew e'). set_solver.
  - cbn [rbind]. exists rn'. split; [done|]. intros e'. rewrite Hends. simpl. set_solver.
Qed.

Lemma make_ends_twice forward e names names' rn :
  e ∈ names → make_ends forward (names ++ e :: names') rn = Stop LogFatal.
Proof.
  assert (∀ xs rn, e ∈ LabRpc.ends rn → make_ends forward (xs ++ e :: names') rn = Stop LogFatal) as Hin.
  { induction xs as [|e1 xs IH]; intros rn1 He1; simpl; unfold MakeEnd.
    - by rewrite bool_decide_true.
    - case_bool_decide; [done|]. cbn [rbind]. rewrite IH; [done|]. simpl. set_solver. }
  intros He. revert rn He. induction names as [|e1 names IH]; intros rn; [by intros ?%not_elem_of_nil|].
  intros [<-|He]%elem_of_cons.
  - simpl. unfold MakeEnd. case_bool_decide; [done|]. cbn [rbind]. rewrite Hin; [done|]. simpl. set_solver.
  - simpl. unfold MakeEnd. case_bool_decide; [done|]. cbn [rbind]. by rewrite IH.
Qed.

Lemma services_of (svcs : list svc) rpcs s :
  NoDup svcs.*1 → s ∈ svcs →
  services (srv (foldl add_service rpcs svcs)) !! s.1 = Some (MakeService s.1 s.2) ∧ sock (foldl add_service rpcs svcs) = sock rpcs.
Proof.
  assert (∀ ss rpcs, sock (foldl add_service rpcs ss) = sock rpcs) as Hsock.
  { induction ss as [|x ss IH]; intros r; [done|]. simpl. by rewrite IH. }
  assert (∀ ss rpcs n, n ∉ ss.*1 → services (srv (foldl add_service rpcs ss)) !! n = services (srv rpcs) !! n) as Hother.
  { induction ss as [|x ss IH]; intros r n Hn; [done|]. simpl in *. apply not_elem_of_cons in Hn as [Hne Hn].
    rewrite IH by done. simpl. by rewrite lookup_insert_ne. }
  revert rpcs. induction svcs as [|x svcs IH]; intros rpcs Hnd; [by intros ?%not_elem_of_nil|].
  simpl in Hnd. apply list.NoDup_cons in Hnd as [Hx Hnd]. intros [->|Hs]%elem_of_cons; simpl; [|destruct (IH (add_service rpcs x) Hnd Hs) as [? ->]; done].
  split; [|by rewrite Hsock]. rewrite Hother by done. simpl. apply lookup_insert_eq.
Qed.

(** gob can write the name of a client. *)
Definition can_connect (clnt : string) : Prop := is_Some (encode (MkInitMsg clnt)) ∧ ∀ b, is_Some (encode (Msg 0 b true)).

Lemma NewRPCClnt_ok clnt srvEnd : can_connect clnt →
  ∃ f, NewRPCClnt clnt srvEnd = Ret (MkRPCClnt clnt srvEnd (MkDemuxClnt newCallMap 1 clnt srvEnd), f) ∧
    NewDemuxClnt clnt srvEnd = Ret (MkDemuxClnt newCallMap 1 clnt srvEnd, f).
Proof.
  intros [[b Hb] Hmsg]. destruct (Hmsg b) as [m Hm]. unfold NewRPCClnt, NewDemuxClnt, WriteCall, Marshall. rewrite Hb. cbn [rbind].
  cbn [dnextTag]. rewrite Hm. cbn [rbind]. by eexists.
Qed.
End proc.
End DaemonProc.
Import DaemonProc.

(** The processes are wired up.  Let the tester start a daemon for server [srv] of group [gid], with
    distinct ends, and let the daemon get the arguments that runDaemon makes.  Then the daemon
    knows its group, its number and its ends in order, and a Call at each of them is
    forwarded under its own name; the client of the tester for control RPCs has dialled the
    control socket of this daemon, where the methods of DaemonSrv are, and after init its
    other client has dialled the socket at which InitDaemon serves, under their names, all
    services that were made; Call and forward of the DaemonClnt send their requests there;
    and the daemon has dialled the socket of the tester, where TesterRPC is.  But with an
    end twice in the arguments, the daemon ends with log.Fatalf. *)
Theorem daemon_wired `{Codec msg} `{Codec InitMsg} `{Codec ForwardArgs} `{Codec RPCArgs} {St}
    pargs b gid srvn (testerEnd : string) endNames me (ctl trpc : list (LabRpc.Method St)) (svcs : list svc) :
  Forall is_option pargs → 0 ≤ gid < two63 → Z.of_nat (length endNames) < two63 → 0 ≤ srvn → endNames !! Z.to_nat srvn = Some me →
  can_connect "tester" → can_connect me → NoDup svcs.*1 →
  (NoDup endNames → ∃ ends ds dc dc',
     InitDaemon_ctl ctl (daemon_args pargs b gid srvn testerEnd endNames) = Ret (Some (gid, srvn, ends, ds)) ∧
     ends = (λ e, MkClientEnd e (Some forward_request)) <$> endNames ∧
     runDaemon gid srvn endNames = Ret dc ∧ dc_init dc = Ret dc' ∧
     rc_srvEnd (dc_rpccClnt dc') = sock (ds_rpcsCtl ds) ∧
     services (srv (ds_rpcsCtl ds)) !! "DaemonSrv" = Some (MakeService "DaemonSrv" ctl) ∧
     (∃ rpcs, ds_rpcs (InitDaemon_serve svcs ds) = Some rpcs ∧ sock rpcs = me ∧
        (∀ s, s ∈ svcs → services (srv rpcs) !! s.1 = Some (MakeService s.1 s.2)) ∧
        ∀ method args req, RPC_request method args = Ret req → dc_forward method args dc' = Ret (sock rpcs, req)) ∧
     rc_srvEnd (ds_rpcc ds) = sock (newTesterRPCSrv trpc testerEnd) ∧
     services (srv (newTesterRPCSrv trpc testerEnd)) !! "TesterRPC" = Some (MakeService "TesterRPC" trpc)) ∧
  (¬ NoDup endNames → InitDaemon_ctl ctl (daemon_args pargs b gid srvn testerEnd endNames) = Stop LogFatal).
Proof.
  intros Hp Hg Hn Hs Hme Ht Hc Hsv. unfold InitDaemon_ctl. rewrite (daemon_args_roundtrip _ _ _ _ _ _ me) by done. cbn [rbind a_gid a_sid a_tester a_ends a_me].
  split.
  - intros Hnd. destruct (make_ends_ok forward_request endNames MakeNetwork Hnd) as (rn & -> & _); [set_solver|]. cbn [rbind].
    destruct (NewRPCClnt_ok me testerEnd Hc) as (f1 & -> & _). cbn [rbind].
    destruct (NewRPCClnt_ok "tester" (sockctl me) Ht) as (f2 & H2' & _). destruct (NewRPCClnt_ok "tester" me Ht) as (f3 & H3' & _).
    eexists _, _, _, _. split; [done|]. split; [done|]. split.
    { unfold runDaemon, slice_get. rewrite decide_True, Hme by done. cbn [rbind]. rewrite H2'. done. }
    split. { unfold dc_init. cbn [dc_endName]. rewrite H3'. done. }
    split; [done|]. split; [apply lookup_insert_eq|]. split.
    { eexists. split; [done|]. split; [|split].
      - destruct svcs as [|s svcs]; [done|]. apply (services_of (s :: svcs) (NewRPCSrv me) s Hsv). by left.
      - intros s Hin. by apply (services_of svcs (NewRPCSrv me)).
      - intros method args req Hr. unfold dc_forward. cbn [dc_rpcc]. rewrite Hr. cbn [rbind rc_srvEnd]. f_equal. f_equal.
        destruct svcs as [|s svcs]; [done|]. symmetry. apply (services_of (s :: svcs) (NewRPCSrv me) s Hsv). by left. }
    split; [done|apply lookup_insert_eq].
  - intros Hd. assert (∃ e names names', endNames = names ++ e :: names' ∧ e ∈ names) as (e & names & names' & -> & He).
    { revert Hd. clear. induction endNames as [|x l IH] using rev_ind; [by intros []; constructor|]. intros Hd.
      destruct (decide (NoDup l)) as [Hl|Hl].
      - exists x, l, []. split; [done|]. apply dec_stable. intros Hx. apply Hd. apply list.NoDup_app. split; [done|]. split; [|apply NoDup_singleton].
        intros y Hy ->%list_elem_of_singleton. done.
      - destruct (IH Hl) as (e & n1 & n2 & -> & He). exists e, n1, (n2 ++ [x]). by rewrite <-(assoc_L (++)). }
    by rewrite make_ends_twice.
Qed.

(** *** A witness: server 0 of group 1, with one service; only lengths of encodings matter here *)

#[local] Instance blank_codec {A} : Codec A := {| encode _ := Some []; decode _ := None |}.

Lemma daemon_wired_witness :
  (∃ ends ds dc rpcs, InitDaemon_ctl (St:=nat) [] (daemon_args [] false 1 0 "tester-end" ["a"; "b"]) = Ret (Some (1, 0, ends, ds)) ∧
     endname <$> ends = ["a"; "b"] ∧ (let* dc := runDaemon 1 0 ["a"; "b"] in dc_init dc) = Ret dc ∧
     rc_srvEnd (dc_rpccClnt dc) = "a-ctl" ∧ ds_rpcs (InitDaemon_serve [("Raft", [])] ds) = Some rpcs ∧ sock rpcs = "a") ∧
  InitDaemon_ctl (St:=nat) [] (daemon_args [] false 1 0 "tester-end" ["a"; "a"]) = Stop LogFatal.
Proof.
  assert (∀ c, can_connect c) as Hc by (intros c; split; intros; eexists; reflexivity).
  split.
  - destruct (daemon_wired (St:=nat) [] false 1 0 "tester-end" ["a"; "b"] "a" [] [] [("Raft", [])]) as [H _];
      [constructor|vm_compute; split; [discriminate|reflexivity]|vm_compute; reflexivity|lia|reflexivity|apply Hc|apply Hc|
       apply (bool_decide_unpack _); vm_compute; exact I|].
    destruct H as (ends & ds & dc & dc' & H1 & -> & H3 & H4 & H5 & _ & (rpcs & H7 & H8 & _) & _);
      [apply (bool_decide_unpack _); vm_compute; exact I|].
    eexists _, ds, dc', rpcs. split; [exact H1|]. split; [reflexivity|]. split; [rewrite H3; exact H4|].
    split; [|split; [exact H7|exact H8]]. rewrite H5.
    assert (match InitDaemon_ctl (St:=nat) [] (daemon_args [] false 1 0 "tester-end" ["a"; "b"]) with
      | Ret (Some (_, _, _, ds)) => sock (ds_rpcsCtl ds) = "a-ctl" | _ => False end) as Hx by (vm_compute; reflexivity).
    rewrite H1 in Hx. exact Hx.
  - apply (daemon_wired (St:=nat) [] false 1 0 "tester-end" ["a"; "a"] "a" [] [] []);
      [constructor|vm_compute; split; [discriminate|reflexivity]|vm_compute; reflexivity|lia|reflexivity|apply Hc|apply Hc|constructor|].
    intros Hnd. apply list.NoDup_cons in Hnd as [Hx _]. apply Hx. left.
Defined.
