(* ===== verification/Proxy.v ===== *)
(** * Stubs that call across processes

    (raft1/proxy.go, raft1/server.go, raft1/test.go, kvraft1/rsm/proxy.go,
    kvraft1/rsm/server.go, tester1/annotator.go, tester1/testclnt.go)

    The tester calls the servers in their daemons through proxies, and the servers
    report to the tester through others.  Each proxy packs its arguments into a
    struct, calls a method of a service by its name and unpacks the reply; the
    handler at the other end calls the function that is meant.  A process that
    panics in a handler is a state [Stop]; whether a request and its reply arrive is
    the argument [link].  Raft and the replicated state machine are the programs
    under test: the classes [Raft] and [Rsm]. *)

From S2P Require Import Prelude LabRpc Wire Demux SockRpc RaftTest Annotation.
Import Wire SockRpc LabRpc.

Module Proxy.

(** ** One call *)

Inductive link := Through | RequestLost | ReplyLost.

Section call.
Context `{Codec RPCArgs} {St : Type}.

(** RPCMarshall to the server [srv]: a reply that does not arrive is an error of
    the transport. *)
Definition rpc_call {A R} `{Codec A} `{Codec R} (l : link) (clnt meth : string) (args : A)
    (srv : Server St * St) : res ((Server St * St) * (option R * bool)) :=
  let* ab := Marshall args in
  let* req := RPC_request meth ab in
  match l with
  | RequestLost => let* x := RPCMarshall_result (Demux.Reply [] false true) in Ret (srv, x)
  | Through | ReplyLost =>
      let* '(srv, (rep, ok)) := Demux.ServeRequest srv clnt req in
      let* x := RPCMarshall_result
        match l with ReplyLost => Demux.Reply [] false true | _ => Demux.Reply rep ok false end in
      Ret (srv, x)
  end.
End call.

(** TesterClnt.Call and DaemonClnt.Call are RPCMarshall. *)
Abbreviation Call := rpc_call.

(** A method of a service: [f] is its body, from the zero value of the reply. *)
Definition handler {S A R} `{Codec A} `{Codec R} (name : string) (zero : R)
    (f : S → A → res (S * R)) : Method (res S) :=
  MkMethod name "" 3 true 0 A R decode zero
    (λ st a rep, match st with
       | Ret s => match f s a with Ret (s', r) => (Ret s', r) | Stop e => (Stop e, rep) end
       | Stop e => (Stop e, rep)
       end)
    (λ r, default [] (encode r)).

(** A server with one service more. *)
Definition serving {S} (name : string) (ms : list (Method (res S))) : Server (res S) :=
  AddService (MakeService name ms) MakeServer.

(** ** raft1: the servers under test *)

Class Raft (C R : Type) := {
  raft_Start : R → option C → R * (Z * Z * bool);
  raft_GetState : R → Z * bool
}.

Record GetStateArgs := MkGetStateArgs {}.
Record GetStateReply := MkGetStateReply { GS_Term : Z; GS_Leader : bool }.
Record StartArgs (C : Type) := MkStartArgs { SA_Command : option C }.
Arguments MkStartArgs {C}.
Arguments SA_Command {C}.
Record StartReply := MkStartReply { SR_Index : Z; SR_Term : Z; SR_Leader : bool }.

Section rfsrv.
Context {C R : Type} `{Raft C R}.

(** The raft of an rfsrv, [None] when nil: Start checks it, GetState does not. *)
Definition rfsrv_Start (command : option C) (raft : option R) : option R * (Z * Z * bool) :=
  match raft with
  | None => (None, (0, 0, false))
  | Some rf => let (rf, x) := raft_Start rf command in (Some rf, x)
  end.
Definition rfsrv_GetState (raft : option R) : res (Z * bool) :=
  match raft with None => Stop Panic | Some rf => Ret (raft_GetState rf) end.

Definition GetStateRPC (raft : option R) (args : GetStateArgs) : res (option R * GetStateReply) :=
  let* '(term, leader) := rfsrv_GetState raft in Ret (raft, MkGetStateReply term leader).
Definition StartRPC (raft : option R) (args : StartArgs C) : res (option R * StartReply) :=
  let '(raft, (index, term, leader)) := rfsrv_Start (SA_Command args) raft in
  Ret (raft, MkStartReply index term leader).

Context `{Codec RPCArgs} `{Codec GetStateArgs} `{Codec GetStateReply}
  `{Codec (StartArgs C)} `{Codec StartReply}.

Definition rfsrv_methods : list (Method (res (option R))) :=
  [handler "GetStateRPC" (MkGetStateReply 0 false) GetStateRPC;
   handler "StartRPC" (MkStartReply 0 0 false) StartRPC].

(** Rfproxy: the reply keeps its zero value when the call fails. *)
Definition Rfproxy_GetState (l : link) (clnt : string) (srv : Server (res (option R)) * res (option R)) :
    res ((Server (res (option R)) * res (option R)) * (Z * bool)) :=
  let* '(srv, (rep, _)) := Call l clnt "rfsrv.GetStateRPC" MkGetStateArgs srv in
  let rep := default (MkGetStateReply 0 false) rep in
  Ret (srv, (GS_Term rep, GS_Leader rep)).
Definition Rfproxy_Start (l : link) (clnt : string) (command : option C)
    (srv : Server (res (option R)) * res (option R)) :
    res ((Server (res (option R)) * res (option R)) * (Z * Z * bool)) :=
  let* '(srv, (rep, _)) := Call l clnt "rfsrv.StartRPC" (MkStartArgs command) srv in
  let rep := default (MkStartReply 0 0 false) rep in
  Ret (srv, (SR_Index rep, SR_Term rep, SR_Leader rep)).
End rfsrv.

(** ** raft1: the tester *)

Record CheckLogsArgs (C : Type) := MkCheckLogsArgs { CL_Index : Z; CL_Msg : RaftTest.ApplyMsg C }.
Arguments MkCheckLogsArgs {C}.
Arguments CL_Index {C}.
Arguments CL_Msg {C}.
Record CheckLogsReply (C : Type) := MkCheckLogsReply { CL_Err : option (RaftTest.apperr C); CL_Prevok : bool }.
Arguments MkCheckLogsReply {C}.
Arguments CL_Err {C}.
Arguments CL_Prevok {C}.
Record IngestLogArgs (C : Type) := MkIngestLogArgs { IL_Index : Z; IL_Log : gmap Z (option C) }.
Arguments MkIngestLogArgs {C}.
Arguments IL_Index {C}.
Arguments IL_Log {C}.
Record IngestLogReply := MkIngestLogReply {}.
Record ApplyErrArgs (C : Type) := MkApplyErrArgs { AE_Index : Z; AE_Err : RaftTest.apperr C }.
Arguments MkApplyErrArgs {C}.
Arguments AE_Index {C}.
Arguments AE_Err {C}.
Record ApplyErrReply := MkApplyErrReply {}.

Section raft_tester.
Context {C : Type} `{EqDecision C}.
Abbreviation Test := (RaftTest.Test C).

Definition CheckLogsRPC (ts : Test) (args : CheckLogsArgs C) : res (Test * CheckLogsReply C) :=
  let* '(err, prevok, ts) := RaftTest.CheckLogs (CL_Index args) (CL_Msg args) ts in
  Ret (ts, MkCheckLogsReply err prevok).
Definition IngestLogRPC (ts : Test) (args : IngestLogArgs C) : res (Test * IngestLogReply) :=
  let* ts := RaftTest.IngestLog (IL_Index args) (IL_Log args) ts in Ret (ts, MkIngestLogReply).
Definition ApplyErrRPC (ts : Test) (args : ApplyErrArgs C) : res (Test * ApplyErrReply) :=
  let* ts := RaftTest.ApplyErr (AE_Index args) (AE_Err args) ts in Ret (ts, MkApplyErrReply).

Context `{Codec RPCArgs} `{Codec (CheckLogsArgs C)} `{Codec (CheckLogsReply C)}
  `{Codec (IngestLogArgs C)} `{Codec IngestLogReply} `{Codec (ApplyErrArgs C)} `{Codec ApplyErrReply}.

Definition Test_methods : list (Method (res Test)) :=
  [handler "ApplyErrRPC" MkApplyErrReply ApplyErrRPC;
   handler "CheckLogsRPC" (MkCheckLogsReply None false) CheckLogsRPC;
   handler "IngestLogRPC" MkIngestLogReply IngestLogRPC].

Definition TesterProxy_CheckLogs (l : link) (clnt : string) (index : Z) (m : RaftTest.ApplyMsg C)
    (srv : Server (res Test) * res Test) :
    res ((Server (res Test) * res Test) * (option (RaftTest.apperr C) * bool)) :=
  let* '(srv, (rep, ok)) := Call l clnt "Test.CheckLogsRPC" (MkCheckLogsArgs index m) srv in
  let rep := default (MkCheckLogsReply None false) rep in
  if (ok : bool) then Ret (srv, (CL_Err rep, CL_Prevok rep)) else Ret (srv, (Some RaftTest.EErrRPC, false)).
Definition TesterProxy_IngestLog (l : link) (clnt : string) (index : Z) (m : gmap Z (option C))
    (srv : Server (res Test) * res Test) : res (Server (res Test) * res Test) :=
  let* '(srv, _) := Call (R:=IngestLogReply) l clnt "Test.IngestLogRPC" (MkIngestLogArgs index m) srv in
  Ret srv.
Definition TesterProxy_ApplyErr (l : link) (clnt : string) (index : Z) (err : RaftTest.apperr C)
    (srv : Server (res Test) * res Test) : res (Server (res Test) * res Test) :=
  let* '(srv, _) := Call (R:=ApplyErrReply) l clnt "Test.ApplyErrRPC" (MkApplyErrArgs index err) srv in
  Ret srv.
End raft_tester.

(** ** kvraft1/rsm: the counter under the replicated state machine *)

(** What may be in an [any] here. *)
Inductive rsm_any := Inc | Null | Dec | IncRep (N : Z) | NullRep | Nil.

Global Instance rsm_any_eq_dec : EqDecision rsm_any.
Proof. solve_decision. Defined.

(** Submit of the replicated state machine. *)
Class Rsm (M : Type) := rsm_Submit : M → rsm_any → M * (string * rsm_any).

Record rsmSrv (M : Type) := MkRsmSrv { rsm : M; counter : Z }.
Arguments MkRsmSrv {M}.
Arguments rsm {M}.
Arguments counter {M}.

Record SubmitArgs := MkSubmitArgs { SM_Req : rsm_any }.
Record SubmitReply := MkSubmitReply { SM_Err : string; SM_Rep : rsm_any }.
Record GetCounterArgs := MkGetCounterArgs {}.
Record GetCounterReply := MkGetCounterReply { GC_Count : Z }.

Section rsmsrv.
Context {M : Type} `{Rsm M}.
Implicit Types rs : rsmSrv M.

Definition newRSMSrv (m : M) : rsmSrv M := MkRsmSrv m 0.
Definition GetCounter rs : Z := counter rs.

(** DoOp: anything but an Inc or a Null ends the process. *)
Definition DoOp (req : rsm_any) rs : res (rsm_any * rsmSrv M) :=
  match req with
  | Inc => let rs := MkRsmSrv (rsm rs) (i64 (counter rs + 1)) in Ret (IncRep (counter rs), rs)
  | Null => Ret (NullRep, rs)
  | _ => Stop LogFatal
  end.

Definition Submit (req : rsm_any) rs : (string * rsm_any) * rsmSrv M :=
  let (m, x) := rsm_Submit (rsm rs) req in (x, MkRsmSrv m (counter rs)).

(** Snapshot ignores the error of the encoder. *)
Definition rsm_Snapshot `{Codec Z} rs : bytes := default [] (encode (counter rs)).
Definition rsm_Restore `{Codec Z} (data : bytes) rs : res (rsmSrv M) :=
  match decode data with Some n => Ret (MkRsmSrv (rsm rs) n) | None => Stop LogFatal end.

Definition SubmitRPC rs (args : SubmitArgs) : res (rsmSrv M * SubmitReply) :=
  let '((err, rep), rs) := Submit (SM_Req args) rs in Ret (rs, MkSubmitReply err rep).
Definition GetCounterRPC rs (args : GetCounterArgs) : res (rsmSrv M * GetCounterReply) :=
  Ret (rs, MkGetCounterReply (GetCounter rs)).

Context `{Codec RPCArgs} `{Codec SubmitArgs} `{Codec SubmitReply}
  `{Codec GetCounterArgs} `{Codec GetCounterReply}.

Definition rsmSrv_methods : list (Method (res (rsmSrv M))) :=
  [handler "GetCounterRPC" (MkGetCounterReply 0) GetCounterRPC;
   handler "SubmitRPC" (MkSubmitReply "" Nil) SubmitRPC].

Definition RSMproxy_Submit (l : link) (clnt : string) (req : rsm_any)
    (srv : Server (res (rsmSrv M)) * res (rsmSrv M)) :
    res ((Server (res (rsmSrv M)) * res (rsmSrv M)) * (string * rsm_any)) :=
  let* '(srv, (rep, _)) := Call l clnt "rsmSrv.SubmitRPC" (MkSubmitArgs req) srv in
  let rep := default (MkSubmitReply "" Nil) rep in
  Ret (srv, (SM_Err rep, SM_Rep rep)).
Definition RSMproxy_GetCounter (l : link) (clnt : string)
    (srv : Server (res (rsmSrv M)) * res (rsmSrv M)) :
    res ((Server (res (rsmSrv M)) * res (rsmSrv M)) * Z) :=
  let* '(srv, (rep, _)) := Call l clnt "rsmSrv.GetCounterRPC" MkGetCounterArgs srv in
  Ret (srv, GC_Count (default (MkGetCounterReply 0) rep)).
End rsmsrv.

(** ** tester1: annotations from daemons *)

Record PostAnnotatorPointArgs := MkPointArgs { P_Tag : string; P_Desp : string; P_Details : string }.
Record PostAnnotatorPointReply := MkPointReply {}.
Record GetAnnotatorTimestampArgs := MkTimestampArgs {}.
Record GetAnnotatorTimestampReply := MkTimestampReply { T_Timestamp : Z }.
Record PostAnnotatorInfoIntervalArgs := MkInfoArgs { I_Start : Z; I_Desp : string; I_Details : string }.
Record PostAnnotatorInfoIntervalReply := MkInfoReply {}.

Section annotator.
(** [t] is the clock of the tester when the handler runs. *)
Context (t : Z).
Abbreviation vis := Annotation.vis.

Definition PostAnnotatorPoint (v : vis) (args : PostAnnotatorPointArgs) : res (vis * PostAnnotatorPointReply) :=
  Ret (Annotation.AnnotatePoint t (P_Tag args) (P_Desp args) (P_Details args) v, MkPointReply).
Definition GetAnnotatorTimestamp_handler (v : vis) (args : GetAnnotatorTimestampArgs) :
    res (vis * GetAnnotatorTimestampReply) := Ret (v, MkTimestampReply t).
Definition PostAnnotatorInfoInterval_handler (v : vis) (args : PostAnnotatorInfoIntervalArgs) :
    res (vis * PostAnnotatorInfoIntervalReply) :=
  Ret (Annotation.AnnotateInfoInterval t (I_Start args) (I_Desp args) (I_Details args) v, MkInfoReply).

Context `{Codec RPCArgs} `{Codec PostAnnotatorPointArgs} `{Codec PostAnnotatorPointReply}
  `{Codec GetAnnotatorTimestampArgs} `{Codec GetAnnotatorTimestampReply}
  `{Codec PostAnnotatorInfoIntervalArgs} `{Codec PostAnnotatorInfoIntervalReply}.

Definition TesterRPC_methods : list (Method (res vis)) :=
  [handler "GetAnnotatorTimestamp" (MkTimestampReply 0) GetAnnotatorTimestamp_handler;
   handler "PostAnnotatorInfoInterval" MkInfoReply PostAnnotatorInfoInterval_handler;
   handler "PostAnnotatorPoint" MkPointReply PostAnnotatorPoint].

Definition Annotate (l : link) (clnt tag desp details : string) (srv : Server (res vis) * res vis) :
    res (Server (res vis) * res vis) :=
  let* '(srv, _) := Call (R:=PostAnnotatorPointReply) l clnt "TesterRPC.PostAnnotatorPoint"
    (MkPointArgs tag desp details) srv in
  Ret srv.
Definition GetAnnotatorTimestamp (l : link) (clnt : string) (srv : Server (res vis) * res vis) :
    res ((Server (res vis) * res vis) * Z) :=
  let* '(srv, (rep, ok)) := Call l clnt "TesterRPC.GetAnnotatorTimestamp" MkTimestampArgs srv in
  Ret (srv, if (ok : bool) then T_Timestamp (default (MkTimestampReply 0) rep) else 0).
Definition PostAnnotatorInfoInterval (l : link) (clnt : string) (start : Z) (desp details : string)
    (srv : Server (res vis) * res vis) : res (Server (res vis) * res vis) :=
  let* '(srv, _) := Call (R:=PostAnnotatorInfoIntervalReply) l clnt "TesterRPC.PostAnnotatorInfoInterval"
    (MkInfoArgs start desp details) srv in
  Ret srv.
End annotator.

End Proxy.
