(* ===== verification/ProxySpec.v ===== *)
(** * Stubs that call across processes: properties

    A call through a proxy is the call of the function behind it, unless messages
    are lost; and the counter of the RSM tests survives its snapshot. *)

From S2P Require Import Prelude LabRpc Wire Demux SockRpc RaftTest Annotation DaemonSpec Proxy.
Import Wire SockRpc LabRpc Proxy.

(** A type whose values gob encodes and decodes. *)
Class Gob (A : Type) `{Codec A} := {
  gob_laws : CodecLaws A;
  gob_total a : is_Some (encode a)
}.
#[global] Existing Instance gob_laws.

(** A server that offers a service and has no dispatch function of its own. *)
Definition offers {S} (rs : Server S) (name : string) (ms : list (Method S)) : Prop :=
  services rs !! name = Some (MakeService name ms) ∧ dispatchf rs = None.

Lemma serving_offers {S} name (ms : list (Method (res S))) : offers (serving name ms) name ms.
Proof. split; [apply lookup_insert_eq|done]. Qed.

(** The state of the server and the answer after a call. *)
Definition effect {S} (l : link) (s s' : S) : S := match l with RequestLost => s | _ => s' end.
Definition answer {R} (l : link) (zero r : R) : R := match l with Through => r | _ => zero end.

Lemma Marshall_gob {A} `{Gob A} (a : A) : ∃ b, encode a = Some b ∧ Marshall a = Ret b ∧ Unmarshall b = Ret a.
Proof.
  destruct (gob_total a) as [b Hb]. exists b. unfold Marshall. rewrite Hb. split_and!; [done..|].
  apply Unmarshall_Marshall. unfold Marshall. by rewrite Hb.
Qed.

Lemma rpc_call_handler `{Gob RPCArgs} {S A R} `{Gob A} `{Gob R} l clnt meth svc name ms zero
    (f : S → A → res (S * R)) rs s a s' r :
  meth = svc +:+ "." +:+ name →
  offers rs svc ms → NoDup (m_name <$> ms) → handler name zero f ∈ ms → no_dot name →
  f s a = Ret (s', r) →
  ∃ rs', rpc_call l clnt meth a (rs, Ret s) =
      Ret ((rs', Ret (effect l s s')), match l with Through => (Some r, true) | _ => (None, false) end) ∧
    offers rs' svc ms.
Proof.
  intros -> [Hsv Hdf] Hnd Hin Hdot Hf. unfold rpc_call.
  destruct (Marshall_gob a) as (ab & Hea & -> & Hua). cbn [rbind]. unfold RPC_request.
  destruct (Marshall_gob (MkRPCArgs (svc +:+ "." +:+ name) ab)) as (req & _ & -> & Hur). cbn [rbind].
  set (rs1 := LabRpc.MkServer (services rs) (i64 (srv_count rs + 1)) (dispatchf rs)).
  destruct (Marshall_gob r) as (rb & Her & _ & Hub).
  assert (Demux.ServeRequest (rs, Ret s) clnt req = Ret ((rs1, Ret s'), (rb, true))) as Hserve.
  { unfold Demux.ServeRequest, RPCSrv_ServerI. rewrite Hur. cbn [rbind SockRpc.Method SockRpc.Args].
    unfold Dispatch, srv_dispatch. cbn [rq_svcMeth rq_args]. rewrite split_svcMeth_app by done.
    cbn [rbind dispatchf services]. rewrite Hdf, Hsv. unfold svc_dispatch.
    pose proof (MakeService_lookup svc ms (handler name zero f) Hnd Hin) as Hl.
    change (m_name (handler name zero f)) with name in Hl. rewrite Hl. cbn [is_handler handler].
    unfold Unmarshall in Hua. cbn [rq_args]. simpl. destruct (decode ab) as [a'|]; [|done].
    injection Hua as ->. rewrite Hf. simpl. rewrite Her. simpl. unfold rs1. by rewrite Hdf. }
  destruct l.
  - exists rs1. rewrite Hserve. cbn [rbind]. unfold RPCMarshall_result. cbn [RPC_result Demux.rerr Demux.rep Demux.rok].
    rewrite Hub. done.
  - exists rs. done.
  - exists rs1. rewrite Hserve. done.
Qed.

Ltac offered := match goal with |- _ ∈ _ => repeat (apply elem_of_cons; first [by left|right]) end.
Ltac distinct_names := apply (bool_decide_unpack _); vm_compute; exact I.

(** A proxy, by the lemma about its call and the names of the service; what is left
    is what the handler computes. *)
Ltac by_handler lem names :=
  let rs' := fresh "rs" in let Heq := fresh "Heq" in let Hrs' := fresh "Hrs" in
  edestruct lem as (rs' & Heq & Hrs');
    [reflexivity|eassumption|apply names|offered|vm_compute; set_solver| |
     exists rs'; split; [|exact Hrs'];
     unfold Rfproxy_Start, Rfproxy_GetState, TesterProxy_CheckLogs, TesterProxy_ApplyErr,
       TesterProxy_IngestLog, RSMproxy_Submit, RSMproxy_GetCounter, Annotate, GetAnnotatorTimestamp,
       PostAnnotatorInfoInterval;
     rewrite Heq; match goal with l : link |- _ => by destruct l end].

(** ** The proxies of the Raft tests *)

Section raft.
Context {C Rf : Type} `{EqDecision C} `{Raft C Rf} `{Gob RPCArgs} `{Gob GetStateArgs}
  `{Gob GetStateReply} `{Gob (StartArgs C)} `{Gob StartReply} `{Gob (CheckLogsArgs C)}
  `{Gob (CheckLogsReply C)} `{Gob (IngestLogArgs C)} `{Gob IngestLogReply} `{Gob (ApplyErrArgs C)}
  `{Gob ApplyErrReply}.
Abbreviation rf_methods := (rfsrv_methods (C:=C) (R:=Rf)).

Lemma rfsrv_names : NoDup (m_name <$> rf_methods).
Proof. distinct_names. Qed.
Lemma Test_names : NoDup (m_name <$> Test_methods (C:=C)).
Proof. distinct_names. Qed.

Lemma Rfproxy_Start_spec l clnt command rs raft :
  offers rs "rfsrv" rf_methods →
  ∃ rs', Rfproxy_Start l clnt command (rs, Ret raft) =
      Ret ((rs', Ret (effect l raft (rfsrv_Start command raft).1)),
           answer l (0, 0, false) (rfsrv_Start command raft).2) ∧
    offers rs' "rfsrv" rf_methods.
Proof.
  intros Hrs. destruct (rfsrv_Start command raft) as [raft' [[index term] leader]] eqn:Hst.
  by_handler (rpc_call_handler l clnt "rfsrv.StartRPC" "rfsrv" "StartRPC" rf_methods
    (MkStartReply 0 0 false) StartRPC rs raft (MkStartArgs command) raft'
    (MkStartReply index term leader)) rfsrv_names.
  unfold StartRPC. simpl. by rewrite Hst.
Qed.

Lemma Rfproxy_GetState_spec l clnt rs rf :
  offers rs "rfsrv" rf_methods →
  ∃ rs', Rfproxy_GetState l clnt (rs, Ret (Some rf)) =
      Ret ((rs', Ret (Some rf)), answer l (0, false) (raft_GetState rf)) ∧
    offers rs' "rfsrv" rf_methods.
Proof.
  intros Hrs. destruct (raft_GetState rf) as [term leader] eqn:Hst.
  by_handler (rpc_call_handler l clnt "rfsrv.GetStateRPC" "rfsrv" "GetStateRPC" rf_methods
    (MkGetStateReply 0 false) (GetStateRPC (C:=C)) rs (Some rf) MkGetStateArgs (Some rf)
    (MkGetStateReply term leader)) rfsrv_names.
  unfold GetStateRPC. simpl. by rewrite Hst.
Qed.

Lemma TesterProxy_CheckLogs_spec l clnt i m rs ts err prevok ts' :
  offers rs "Test" Test_methods → RaftTest.CheckLogs (C:=C) i m ts = Ret (err, prevok, ts') →
  ∃ rs', TesterProxy_CheckLogs l clnt i m (rs, Ret ts) =
      Ret ((rs', Ret (effect l ts ts')), answer l (Some RaftTest.EErrRPC, false) (err, prevok)) ∧
    offers rs' "Test" Test_methods.
Proof.
  intros Hrs Hc.
  by_handler (rpc_call_handler l clnt "Test.CheckLogsRPC" "Test" "CheckLogsRPC" Test_methods
    (MkCheckLogsReply None false) CheckLogsRPC rs ts (MkCheckLogsArgs i m) ts'
    (MkCheckLogsReply err prevok)) Test_names.
  unfold CheckLogsRPC. simpl. by rewrite Hc.
Qed.

Lemma TesterProxy_ApplyErr_spec l clnt i err rs ts ts' :
  offers rs "Test" Test_methods → RaftTest.ApplyErr (C:=C) i err ts = Ret ts' →
  ∃ rs', TesterProxy_ApplyErr l clnt i err (rs, Ret ts) = Ret (rs', Ret (effect l ts ts')) ∧
    offers rs' "Test" Test_methods.
Proof.
  intros Hrs Hc.
  by_handler (rpc_call_handler l clnt "Test.ApplyErrRPC" "Test" "ApplyErrRPC" Test_methods
    MkApplyErrReply ApplyErrRPC rs ts (MkApplyErrArgs i err) ts' MkApplyErrReply) Test_names.
  unfold ApplyErrRPC. simpl. by rewrite Hc.
Qed.

Lemma TesterProxy_IngestLog_spec l clnt i xlog rs ts ts' :
  offers rs "Test" Test_methods → RaftTest.IngestLog (C:=C) i xlog ts = Ret ts' →
  ∃ rs', TesterProxy_IngestLog l clnt i xlog (rs, Ret ts) = Ret (rs', Ret (effect l ts ts')) ∧
    offers rs' "Test" Test_methods.
Proof.
  intros Hrs Hc.
  by_handler (rpc_call_handler l clnt "Test.IngestLogRPC" "Test" "IngestLogRPC" Test_methods
    MkIngestLogReply IngestLogRPC rs ts (MkIngestLogArgs i xlog) ts' MkIngestLogReply) Test_names.
  unfold IngestLogRPC. simpl. by rewrite Hc.
Qed.
End raft.

(** C25. The processes of a Raft test act as one program.  For a daemon that offers
    the methods of its rfsrv and a tester that offers those of its Test, whatever
    happens to the messages: the tester's Start through its proxy does to the Raft
    server what rfsrv.Start does, or nothing if the request is lost, and returns what
    that returns, or zeros if a message is lost; and a server's CheckLogs through its
    proxy does to the tester what CheckLogs does and returns its error text and flag,
    or ErrRPC and false if a message is lost.  Both servers stay able to serve. *)
Theorem proxies_transparent {C Rf} `{EqDecision C} `{Raft C Rf} `{Gob RPCArgs} `{Gob GetStateArgs}
    `{Gob GetStateReply} `{Gob (StartArgs C)} `{Gob StartReply} `{Gob (CheckLogsArgs C)}
    `{Gob (CheckLogsReply C)} `{Gob (IngestLogArgs C)} `{Gob IngestLogReply} `{Gob (ApplyErrArgs C)}
    `{Gob ApplyErrReply} l clnt (rs : Server (res (option Rf))) raft (command : option C)
    (rt : Server (res (RaftTest.Test C))) ts i m err prevok ts' :
  offers rs "rfsrv" (rfsrv_methods (C:=C)) → offers rt "Test" Test_methods →
  RaftTest.CheckLogs i m ts = Ret (err, prevok, ts') →
  (∃ rs', Rfproxy_Start l clnt command (rs, Ret raft) =
      Ret ((rs', Ret (effect l raft (rfsrv_Start command raft).1)),
           answer l (0, 0, false) (rfsrv_Start command raft).2) ∧
    offers rs' "rfsrv" (rfsrv_methods (C:=C))) ∧
  (∃ rt', TesterProxy_CheckLogs l clnt i m (rt, Ret ts) =
      Ret ((rt', Ret (effect l ts ts')), answer l (Some RaftTest.EErrRPC, false) (err, prevok)) ∧
    offers rt' "Test" Test_methods).
Proof.
  intros Hrs Hrt Hc. split; [by apply Rfproxy_Start_spec|by apply TesterProxy_CheckLogs_spec].
Qed.

(** *** A witness: commands are numbers, Raft is the list of what was started *)

Definition toy_raft := list (option nat).
#[local] Instance toy_raft_Raft : Raft nat toy_raft := {|
  raft_Start rf c := (rf ++ [c], (Z.of_nat (length rf) + 1, 1, true));
  raft_GetState rf := (1, true)
|}.

Section bit_gob.
Context {A B : Type} `{Countable B} (f : A → B) (g : B → A) (Hgf : ∀ a, g (f a) = a).
Lemma bit_gob : @Gob A (bit_codec f g).
Proof. split; [by apply bit_codec_laws|]. intros a. by eexists. Qed.
End bit_gob.

#[local] Instance byte_count : Countable byte.
Proof. refine (inj_countable Byte.to_N Byte.of_N _). intros b. apply Byte.of_to_N. Defined.

Abbreviation err := (RaftTest.apperr nat).
Definition err_code (e : err) : nat * list Z * list (option nat) :=
  match e with
  | RaftTest.ECommit index i j v old => (0%nat, [index; i; j], [v; old])
  | RaftTest.EOutOfOrder me index => (1%nat, [me; index], [])
  | RaftTest.EExpected me e g => (2%nat, [me; e; g], [])
  | RaftTest.ENilSnapshot => (3%nat, [], [])
  | RaftTest.EDecode => (4%nat, [], [])
  | RaftTest.ESnapIndex me => (5%nat, [me], [])
  | RaftTest.EErrRPC => (6%nat, [], [])
  end.
Definition code_err (x : nat * list Z * list (option nat)) : err :=
  match x with
  | (0%nat, [index; i; j], [v; old]) => RaftTest.ECommit index i j v old
  | (1%nat, [me; index], _) => RaftTest.EOutOfOrder me index
  | (2%nat, [me; e; g], _) => RaftTest.EExpected me e g
  | (3%nat, _, _) => RaftTest.ENilSnapshot
  | (4%nat, _, _) => RaftTest.EDecode
  | (5%nat, [me], _) => RaftTest.ESnapIndex me
  | _ => RaftTest.EErrRPC
  end.
Lemma code_err_code e : code_err (err_code e) = e.
Proof. by destruct e. Qed.

Abbreviation msg := (RaftTest.ApplyMsg nat).
Definition msg_code (m : msg) :=
  (RaftTest.CommandValid m, RaftTest.Command m, RaftTest.CommandIndex m, RaftTest.SnapshotValid m,
   RaftTest.Snapshot m, RaftTest.SnapshotTerm m, RaftTest.SnapshotIndex m).
Definition code_msg (x : bool * option nat * Z * bool * option bytes * Z * Z) : msg :=
  let '(a, b, c, d, e, f, g) := x in RaftTest.MkMsg a b c d e f g.

#[local] Instance c_args : Codec RPCArgs := bit_codec (λ a, (SockRpc.Method a, Args a)) (λ x, MkRPCArgs x.1 x.2).
#[local] Instance c_gsa : Codec GetStateArgs := bit_codec (λ _, tt) (λ _, MkGetStateArgs).
#[local] Instance c_gsr : Codec GetStateReply :=
  bit_codec (λ r, (GS_Term r, GS_Leader r)) (λ x, MkGetStateReply x.1 x.2).
#[local] Instance c_sa : Codec (StartArgs nat) := bit_codec SA_Command MkStartArgs.
#[local] Instance c_sr : Codec StartReply :=
  bit_codec (λ r, (SR_Index r, SR_Term r, SR_Leader r)) (λ x, MkStartReply x.1.1 x.1.2 x.2).
#[local] Instance c_cla : Codec (CheckLogsArgs nat) :=
  bit_codec (λ a, (CL_Index a, msg_code (CL_Msg a))) (λ x, MkCheckLogsArgs x.1 (code_msg x.2)).
#[local] Instance c_clr : Codec (CheckLogsReply nat) :=
  bit_codec (λ r, (err_code <$> CL_Err r, CL_Prevok r)) (λ x, MkCheckLogsReply (code_err <$> x.1) x.2).
#[local] Instance c_ila : Codec (IngestLogArgs nat) :=
  bit_codec (λ a, (IL_Index a, IL_Log a)) (λ x, MkIngestLogArgs x.1 x.2).
#[local] Instance c_ilr : Codec IngestLogReply := bit_codec (λ _, tt) (λ _, MkIngestLogReply).
#[local] Instance c_aea : Codec (ApplyErrArgs nat) :=
  bit_codec (λ a, (AE_Index a, err_code (AE_Err a))) (λ x, MkApplyErrArgs x.1 (code_err x.2)).
#[local] Instance c_aer : Codec ApplyErrReply := bit_codec (λ _, tt) (λ _, MkApplyErrReply).

(** The tester hears of command 7 at index 1 from server 0, and its reply is lost. *)
Lemma proxies_transparent_witness :
  ∃ rs' rt' ts', let srv := serving (S := option toy_raft) "rfsrv" (rfsrv_methods (C:=nat)) in
    Rfproxy_Start ReplyLost "server-0-0" (Some 7%nat) (srv, Ret (Some [])) =
      Ret ((rs', Ret (Some [Some 7%nat])), (0, 0, false)) ∧
    TesterProxy_CheckLogs ReplyLost "server-0-0" 0 (RaftTest.MkMsg true (Some 7%nat) 1 false None 0 0)
      (serving (S := RaftTest.Test nat) "Test" Test_methods, Ret (RaftTest.makeTest 2)) =
      Ret ((rt', Ret ts'), (Some RaftTest.EErrRPC, false)) ∧ RaftTest.maxIndex ts' = 1.
Proof.
  assert (Gob RPCArgs) by (apply bit_gob; by intros []).
  assert (Gob GetStateArgs) by (apply bit_gob; by intros []).
  assert (Gob GetStateReply) by (apply bit_gob; by intros []).
  assert (Gob (StartArgs nat)) by (apply bit_gob; by intros []).
  assert (Gob StartReply) by (apply bit_gob; by intros []).
  assert (Gob (CheckLogsArgs nat)) by (apply bit_gob; by intros [? []]).
  assert (Gob (CheckLogsReply nat))
    by (apply bit_gob; intros [[e|] ?]; simpl; [by rewrite code_err_code|done]).
  assert (Gob (IngestLogArgs nat)) by (apply bit_gob; by intros []).
  assert (Gob IngestLogReply) by (apply bit_gob; by intros []).
  assert (Gob (ApplyErrArgs nat)) by (apply bit_gob; intros []; simpl; by rewrite code_err_code).
  assert (Gob ApplyErrReply) by (apply bit_gob; by intros []).
  destruct (proxies_transparent ReplyLost "server-0-0" _ (Some ([] : toy_raft)) (Some 7%nat) _
    (RaftTest.makeTest 2) 0 (RaftTest.MkMsg true (Some 7%nat) 1 false None 0 0) None false
    (RaftTest.MkTest [RaftTest.MkRS None {[1 := Some 7%nat]}; RaftTest.MkRS None ∅] 1)
    (serving_offers _ _) (serving_offers _ _)) as [(rs' & Hs & _) (rt' & Hc & _)];
    [vm_compute; reflexivity|].
  eexists rs', rt', _. split; [exact Hs|]. split; [exact Hc|reflexivity].
Defined.

(** ** The counter of the RSM tests *)

Section rsm.
Context {M : Type} `{Rsm M} `{Gob RPCArgs} `{Gob SubmitArgs} `{Gob SubmitReply}
  `{Gob GetCounterArgs} `{Gob GetCounterReply}.

Lemma rsmSrv_names : NoDup (m_name <$> rsmSrv_methods (M:=M)).
Proof. distinct_names. Qed.

Lemma RSMproxy_Submit_spec l clnt req rs (s : rsmSrv M) :
  offers rs "rsmSrv" rsmSrv_methods →
  ∃ rs', RSMproxy_Submit l clnt req (rs, Ret s) =
      Ret ((rs', Ret (effect l s (Submit req s).2)), answer l (""%string, Nil) (Submit req s).1) ∧
    offers rs' "rsmSrv" rsmSrv_methods.
Proof.
  intros Hrs. destruct (Submit req s) as [[err rep] s'] eqn:Hs.
  by_handler (rpc_call_handler l clnt "rsmSrv.SubmitRPC" "rsmSrv" "SubmitRPC" rsmSrv_methods
    (MkSubmitReply "" Nil) SubmitRPC rs s (MkSubmitArgs req) s' (MkSubmitReply err rep)) rsmSrv_names.
  unfold SubmitRPC. simpl. by rewrite Hs.
Qed.

Lemma RSMproxy_GetCounter_spec l clnt rs (s : rsmSrv M) :
  offers rs "rsmSrv" rsmSrv_methods →
  ∃ rs', RSMproxy_GetCounter l clnt (rs, Ret s) = Ret ((rs', Ret s), answer l 0 (counter s)) ∧
    offers rs' "rsmSrv" rsmSrv_methods.
Proof.
  intros Hrs.
  by_handler (rpc_call_handler l clnt "rsmSrv.GetCounterRPC" "rsmSrv" "GetCounterRPC" rsmSrv_methods
    (MkGetCounterReply 0) GetCounterRPC rs s MkGetCounterArgs s (MkGetCounterReply (counter s))) rsmSrv_names.
  done.
Qed.
End rsm.

(** Executing a log of operations; the replies. *)
Definition do_ops {M} (reqs : list rsm_any) (s : rsmSrv M) : res (list rsm_any * rsmSrv M) :=
  res_fold (λ '(reps, s) req, let* '(rep, s) := DoOp req s in Ret (reps ++ [rep], s)) ([], s) reqs.
Definition is_op (req : rsm_any) : Prop := req = Inc ∨ req = Null.

Lemma do_ops_acc {M} reqs (s : rsmSrv M) acc :
  res_fold (λ '(reps, s) req, let* '(rep, s) := DoOp req s in Ret (reps ++ [rep], s)) (acc, s) reqs =
    let* '(reps, s) := do_ops reqs s in Ret (acc ++ reps, s).
Proof.
  unfold do_ops. revert s acc. induction reqs as [|req reqs IH]; intros s acc; simpl; [by rewrite app_nil_r|].
  destruct (DoOp req s) as [[rep s']|]; [|done]. simpl. rewrite IH, (IH s' [rep]).
  destruct (res_fold _ ([], s') reqs) as [[reps s'']|]; [|done]. simpl. by rewrite <-(assoc_L (++)).
Qed.

Lemma do_ops_cons {M} req reqs (s : rsmSrv M) :
  do_ops (req :: reqs) s =
    let* '(rep, s) := DoOp req s in let* '(reps, s) := do_ops reqs s in Ret (rep :: reps, s).
Proof.
  unfold do_ops at 1. cbn [res_fold]. destruct (DoOp req s) as [[rep s']|]; [|done].
  cbn [rbind app]. by rewrite do_ops_acc.
Qed.
Lemma do_ops_app {M} reqs reqs' (s : rsmSrv M) :
  do_ops (reqs ++ reqs') s =
    let* '(reps, s) := do_ops reqs s in let* '(reps', s) := do_ops reqs' s in Ret (reps ++ reps', s).
Proof.
  revert s. induction reqs as [|req reqs IH]; intros s.
  { simpl. by destruct (do_ops reqs' s) as [[]|]. }
  simpl app. rewrite !do_ops_cons. destruct (DoOp req s) as [[rep s']|]; [|done]. cbn [rbind].
  rewrite IH. destruct (do_ops reqs s') as [[reps s'']|]; [|done]. cbn [rbind].
  by destruct (do_ops reqs' s'') as [[]|].
Qed.

(** Servers with the same counter give the same replies. *)
Lemma do_ops_counter {M M'} reqs (s1 : rsmSrv M) (s2 : rsmSrv M') :
  counter s1 = counter s2 →
  match do_ops reqs s1 with
  | Ret (reps, s) => ∃ s', do_ops reqs s2 = Ret (reps, s') ∧ counter s = counter s'
  | Stop e => do_ops reqs s2 = Stop e
  end.
Proof.
  revert s1 s2. induction reqs as [|req reqs IH]; intros s1 s2 Hc; [by exists s2|].
  assert (∀ rep (x1 : rsmSrv M) (x2 : rsmSrv M'), counter x1 = counter x2 →
    match (let* '(reps, s) := do_ops reqs x1 in Ret (rep :: reps, s)) with
    | Ret (reps, s) => ∃ s', (let* '(reps, s) := do_ops reqs x2 in Ret (rep :: reps, s)) = Ret (reps, s')
        ∧ counter s = counter s'
    | Stop e => (let* '(reps, s) := do_ops reqs x2 in Ret (rep :: reps, s)) = Stop e
    end) as Hrest.
  { intros rep x1 x2 Hx. specialize (IH x1 x2 Hx). destruct (do_ops reqs x1) as [[r y1]|]; simpl.
    - destruct IH as (y2 & -> & ?). by exists y2.
    - by rewrite IH. }
  rewrite !do_ops_cons. destruct req; simpl; rewrite ?Hc; try done; by apply Hrest.
Qed.

(** A server that lost its memory and got a snapshot goes on as the one that made it:
    for every log and every point of it at which the snapshot was made, restoring the
    snapshot into a new server and executing the rest gives the replies and the
    counter of a server that executed the whole log. *)
Theorem rsm_snapshot_continues {M} `{Gob Z} (before after : list rsm_any) (s s' : rsmSrv M) (m : M) reps :
  do_ops before s = Ret (reps, s') →
  ∃ s0, rsm_Restore (rsm_Snapshot s') (newRSMSrv m) = Ret s0 ∧
    match do_ops (before ++ after) s with
    | Ret (r, s1) => ∃ r2 s2, do_ops after s0 = Ret (r2, s2) ∧ r = reps ++ r2 ∧ counter s1 = counter s2
    | Stop e => do_ops after s0 = Stop e
    end.
Proof.
  intros Hb. unfold rsm_Snapshot, rsm_Restore. destruct (Marshall_gob (counter s')) as (b & -> & _ & Hu).
  simpl. unfold Unmarshall in Hu. destruct (decode b) as [n|]; [|done]. injection Hu as ->.
  eexists. split; [done|]. rewrite do_ops_app, Hb. cbn [rbind].
  pose proof (do_ops_counter after s' (MkRsmSrv m (counter s')) eq_refl) as Ha. simpl.
  destruct (do_ops after s') as [[r1 s1]|]; [|done]. destruct Ha as (s2 & -> & ?). simpl. by exists r1, s2.
Qed.

(** ** Annotations from daemons *)

Section annotator.
Context (t : Z) `{Gob RPCArgs} `{Gob PostAnnotatorPointArgs} `{Gob PostAnnotatorPointReply}
  `{Gob GetAnnotatorTimestampArgs} `{Gob GetAnnotatorTimestampReply}
  `{Gob PostAnnotatorInfoIntervalArgs} `{Gob PostAnnotatorInfoIntervalReply}.

Lemma TesterRPC_names : NoDup (m_name <$> TesterRPC_methods t).
Proof. distinct_names. Qed.

(** An annotation that a daemon makes is in the tester's annotations, as if the tester
    had made it when the request arrived. *)
Lemma Annotate_spec l clnt tag desp details rs v :
  offers rs "TesterRPC" (TesterRPC_methods t) →
  ∃ rs', Annotate l clnt tag desp details (rs, Ret v) =
      Ret (rs', Ret (effect l v (Annotation.AnnotatePoint t tag desp details v))) ∧
    offers rs' "TesterRPC" (TesterRPC_methods t).
Proof.
  intros Hrs.
  by_handler (rpc_call_handler l clnt "TesterRPC.PostAnnotatorPoint" "TesterRPC" "PostAnnotatorPoint"
    (TesterRPC_methods t) MkPointReply (PostAnnotatorPoint t) rs v (MkPointArgs tag desp details)
    (Annotation.AnnotatePoint t tag desp details v) MkPointReply)
    TesterRPC_names.
  done.
Qed.

Lemma GetAnnotatorTimestamp_spec l clnt rs v :
  offers rs "TesterRPC" (TesterRPC_methods t) →
  ∃ rs', GetAnnotatorTimestamp l clnt (rs, Ret v) = Ret ((rs', Ret v), answer l 0 t) ∧
    offers rs' "TesterRPC" (TesterRPC_methods t).
Proof.
  intros Hrs.
  by_handler (rpc_call_handler l clnt "TesterRPC.GetAnnotatorTimestamp" "TesterRPC" "GetAnnotatorTimestamp"
    (TesterRPC_methods t) (MkTimestampReply 0) (GetAnnotatorTimestamp_handler t) rs v MkTimestampArgs v
    (MkTimestampReply t)) TesterRPC_names.
  done.
Qed.

Lemma PostAnnotatorInfoInterval_spec l clnt start desp details rs v :
  offers rs "TesterRPC" (TesterRPC_methods t) →
  ∃ rs', PostAnnotatorInfoInterval l clnt start desp details (rs, Ret v) =
      Ret (rs', Ret (effect l v (Annotation.AnnotateInfoInterval t start desp details v))) ∧
    offers rs' "TesterRPC" (TesterRPC_methods t).
Proof.
  intros Hrs.
  by_handler (rpc_call_handler l clnt "TesterRPC.PostAnnotatorInfoInterval" "TesterRPC"
    "PostAnnotatorInfoInterval" (TesterRPC_methods t) MkInfoReply (PostAnnotatorInfoInterval_handler t) rs v
    (MkInfoArgs start desp details) (Annotation.AnnotateInfoInterval t start desp details v) MkInfoReply) TesterRPC_names.
  done.
Qed.
End annotator.
