(* ===== verification/RsmTest.v ===== *)
(** * The tester of the replicated state machine (kvraft1/rsm/test.go)

    [onePartition] looks for the leader: it submits a request to the servers in turn,
    starting from the last one that accepted, for 10 s.  [checkCounter] waits until
    enough servers show a value.  Both look at a world that changes while they run, also
    by the hands of other goroutines of the test: the clock, the variable [leader], the
    connections, and the servers behind their proxies.  The world is the class [World];
    times are milliseconds.

    The loop of [onePartition] has fuel; 10 s in rounds of at least 50 ms are at most 201
    rounds. *)

From S2P Require Import Prelude LabRpc Wire KvTest Proxy.
Import KvTest Proxy.

Local Open Scope Z_scope.

Module RsmTest.

Definition NSRV : Z := 3.

(** [D] are the proxies (rsmServer.rsm): [w_getRSM i] is ts.srvs[i].getRSM(), [None] when
    nil, and [w_counter i] is ts.srvs[i].rsm.GetCounter(). *)
Class World (D W : Type) := {
  w_now : W → W * Z;
  w_sleep : Z → W → W;
  w_getLeader : W → W * Z;
  w_setLeader : Z → W → W;
  w_connected : Z → W → W * bool;
  w_getRSM : Z → W → W * option D;
  w_submit : D → rsm_any → W → W * (string * rsm_any);
  w_OpInc : W → W;
  w_counter : Z → W → W * res Z
}.

Definition inPartition (s : Z) (p : option (list Z)) : bool :=
  match p with None => true | Some p => bool_decide (s ∈ p) end.

Section test.
Context {D W : Type} `{World D W}.
Implicit Types w : W.

(** The submissions so far: the server and its answer. *)
Abbreviation asked := (list (Z * string)).

(** for range ts.srvs *)
Fixpoint try_servers (k : nat) (index : Z) (p : option (list Z)) (req : rsm_any) (acc : asked) w :
    W * asked * res (option rsm_any) :=
  match k with
  | O => (w, acc, Ret None)
  | S k =>
      if decide (index >= NSRV) then (w, acc, Stop LogFatal)
      else
        let (w, conn) := if decide (index ≠ -1) then w_connected index w else (w, false) in
        let (w, rsm) := if conn : bool then w_getRSM index w else (w, None) in
        let next := (index + 1) `rem` NSRV in
        match rsm with
        | Some rsm =>
            if inPartition index p then
              let '(w, (err, rep)) := w_submit rsm req w in
              let acc := acc ++ [(index, err)] in
              if decide (err = OK) then (w_setLeader index (w_OpInc w), acc, Ret (Some rep))
              else try_servers k next p req acc w
            else try_servers k next p req acc w
        | None => try_servers k next p req acc w
        end
  end.

Fixpoint one_loop (fuel : nat) (t0 : Z) (p : option (list Z)) (req : rsm_any) (acc : asked) w :
    W * asked * res rsm_any :=
  match fuel with
  | O => (w, acc, Stop OutOfFuel)
  | S fuel =>
      let (w, now) := w_now w in
      if decide (now - t0 < 10000) then
        let (w, index) := w_getLeader w in
        match try_servers (Z.to_nat NSRV) index p req acc w with
        | (w, acc, Stop e) => (w, acc, Stop e)
        | (w, acc, Ret (Some rep)) => (w, acc, Ret rep)
        | (w, acc, Ret None) => one_loop fuel t0 p req acc (w_sleep 50 w)
        end
      else (w, acc, Ret Nil)
  end.

Definition rounds : nat := 201.

Definition onePartition (p : option (list Z)) (req : rsm_any) w : W * asked * res rsm_any :=
  let (w, t0) := w_now w in one_loop rounds t0 p req [] w.

(** oneInc returns the field N of the reply. *)
Definition oneInc w : W * res Z :=
  match onePartition None Inc w with
  | (w, _, Stop e) => (w, Stop e)
  | (w, _, Ret Nil) => (w, Ret 0)
  | (w, _, Ret (IncRep n)) => (w, Ret n)
  | (w, _, Ret _) => (w, Stop Panic)
  end.

Definition oneNull w : W * res () :=
  match onePartition None Null w with
  | (w, _, Stop e) => (w, Stop e)
  | (w, _, Ret Nil) | (w, _, Ret NullRep) => (w, Ret tt)
  | (w, _, Ret _) => (w, Stop Panic)
  end.

(** The loop of countValue, over the servers from [i]. *)
Fixpoint count_from (k : nat) (i v n : Z) w : W * res Z :=
  match k with
  | O => (w, Ret n)
  | S k =>
      match w_counter i w with
      | (w, Stop e) => (w, Stop e)
      | (w, Ret c) => count_from k (i + 1) v (if decide (c = v) then n + 1 else n) w
      end
  end.
Definition countValue (v : Z) w : W * res Z := count_from (Z.to_nat NSRV) 0 v 0 w.

(** [Ret true] when enough servers had the value. *)
Fixpoint check_loop (iters : nat) (to v nsrv : Z) w : W * res bool :=
  match iters with
  | O => (w, Ret false)
  | S iters =>
      match countValue v w with
      | (w, Stop e) => (w, Stop e)
      | (w, Ret n) =>
          if decide (n >= nsrv) then (w, Ret true)
          else check_loop iters (if decide (to < 1000) then to * 2 else to) v nsrv (w_sleep to w)
      end
  end.
Definition checkCounter (v nsrv : Z) w : W * res () :=
  match check_loop 30 10 v nsrv w with
  | (w, Stop e) => (w, Stop e)
  | (w, Ret true) => (w, Ret tt)
  | (w, Ret false) => (w, Stop FailNow)
  end.

(** The loop of TestBasic4A, from [i] on. *)
Fixpoint basic_loop (k : nat) (i : Z) w : W * res () :=
  match k with
  | O => (w, Ret tt)
  | S k =>
      match oneInc w with
      | (w, Stop e) => (w, Stop e)
      | (w, Ret r) =>
          if decide (r ≠ i + 1) then (w, Stop FailNow)
          else
            match checkCounter r NSRV w with
            | (w, Stop e) => (w, Stop e)
            | (w, Ret _) => basic_loop k (i + 1) w
            end
      end
  end.
Definition TestBasic4A (ninc : nat) w : W * res () := basic_loop ninc 0 w.
End test.
End RsmTest.
