(* ===== verification/RsmTestSpec.v ===== *)
(** * The tester of the replicated state machine: properties (kvraft1/rsm/test.go) *)

From S2P Require Import Prelude LabRpc Wire KvTest Proxy RsmTest.
Import KvTest Proxy RsmTest.

Local Open Scope Z_scope.

(** A sleep takes its time and nothing turns the clock back; the variable [leader] holds
    an index of a server, which is all that anyone stores in it. *)
Class WorldLaws {D W} `{World D W} (time : W → Z) := {
  now_time w : (w_now w).2 = time w;
  now_mono w : time w ≤ time (w_now w).1;
  sleep_time d w : time w + d ≤ time (w_sleep d w);
  leader_mono w : time w ≤ time (w_getLeader w).1;
  leader_range w : 0 ≤ (w_getLeader w).2 < NSRV;
  set_mono i w : time w ≤ time (w_setLeader i w);
  set_get i w : 0 ≤ i < NSRV → (w_getLeader (w_setLeader i w)).2 = i;
  connected_mono i w : time w ≤ time (w_connected i w).1;
  getRSM_mono i w : time w ≤ time (w_getRSM i w).1;
  submit_mono d req w : time w ≤ time (w_submit d req w).1;
  inc_mono w : time w ≤ time (w_OpInc w);
  counter_mono i w : time w ≤ time (w_counter i w).1
}.

Lemma next_range index : 0 ≤ index < NSRV → 0 ≤ (index + 1) `rem` NSRV < NSRV.
Proof. unfold NSRV. intros ?. apply Z.rem_bound_pos; lia. Qed.

(** The next server is one step nearer to [lead]. *)
Lemma next_nearer lead index :
  0 ≤ lead < NSRV → 0 ≤ index < NSRV → index ≠ lead →
  (lead - (index + 1) `rem` NSRV) `mod` NSRV = (lead - index) `mod` NSRV - 1.
Proof.
  unfold NSRV. intros Hl Hi Hne.
  assert (index = 0 ∨ index = 1 ∨ index = 2) as [->|[->| ->]] by lia;
    assert (lead = 0 ∨ lead = 1 ∨ lead = 2) as [->|[->| ->]] by lia; done.
Qed.

Section ends.
Context {D W : Type} `{World D W} (time : W → Z) `{!WorldLaws time}.
Implicit Types w : W.

(** A submission was made to a server of the partition, and refused. *)
Definition refused (p : option (list Z)) (a : Z * string) : Prop :=
  (0 ≤ a.1 < NSRV ∧ inPartition a.1 p = true) ∧ a.2 ≠ OK.

(** What was asked: refusals, and then one server accepted. *)
Definition found (p : option (list Z)) (acc : list (Z * string)) w : Prop :=
  ∃ l i, acc = l ++ [(i, OK)] ∧ Forall (refused p) l ∧
    (0 ≤ i < NSRV ∧ inPartition i p = true) ∧ (w_getLeader w).2 = i.

Lemma rsm_try_servers k index p req acc w :
  0 ≤ index < NSRV → Forall (refused p) acc →
  match try_servers k index p req acc w with
  | (w', acc', Ret None) => time w ≤ time w' ∧ Forall (refused p) acc'
  | (w', acc', Ret (Some _)) => found p acc' w'
  | (_, _, Stop _) => False
  end.
Proof.
  revert index acc w. induction k as [|k IH]; intros index acc w Hi Hacc; cbn [try_servers]; [done|].
  rewrite decide_False by lia. rewrite decide_True by lia.
  pose proof (connected_mono index w) as H1. destruct (w_connected index w) as [w1 conn]. simpl in H1.
  destruct (if conn then w_getRSM index w1 else (w1, None)) as [w2 rsm] eqn:Hw2.
  assert (time w ≤ time w2) as H2.
  { destruct conn; simplify_eq; [|done]. pose proof (getRSM_mono index w1) as Hm. rewrite Hw2 in Hm. simpl in Hm. lia. }
  pose proof (next_range _ Hi) as Hn.
  assert (∀ acc2 w3, time w ≤ time w3 → Forall (refused p) acc2 →
    match try_servers k ((index + 1) `rem` NSRV) p req acc2 w3 with
    | (w', acc', Ret None) => time w ≤ time w' ∧ Forall (refused p) acc'
    | (w', acc', Ret (Some _)) => found p acc' w'
    | (_, _, Stop _) => False
    end) as Hnext.
  { intros acc2 w3 Ht Ha. specialize (IH _ acc2 w3 Hn Ha).
    destruct (try_servers k _ p req acc2 w3) as [[w' acc'] [[rep|]|e]]; [done| |done].
    destruct IH. split; [lia|done]. }
  destruct rsm as [d|]; [|by apply Hnext]. destruct (inPartition index p) eqn:Hp; [|by apply Hnext].
  pose proof (submit_mono d req w2) as H3. destruct (w_submit d req w2) as [w3 [err rep]]. simpl in H3.
  destruct (decide (err = OK)) as [->|He].
  - exists acc, index. split_and!; [done|done|lia|lia|done|]. by apply set_get.
  - apply Hnext; [lia|]. apply Forall_app. split; [done|]. by apply Forall_singleton.
Qed.

Lemma rsm_one_loop fuel t0 p req acc w :
  (1 ≤ fuel)%nat → 10000 - (time w - t0) ≤ 50 * (Z.of_nat fuel - 1) → Forall (refused p) acc →
  match one_loop fuel t0 p req acc w with
  | (w', acc', Ret rep) => found p acc' w' ∨ (rep = Nil ∧ Forall (refused p) acc' ∧ t0 + 10000 ≤ time w')
  | (_, _, Stop _) => False
  end.
Proof.
  revert acc w. induction fuel as [|fuel IH]; intros acc w Hf Ht Hacc; [lia|]. cbn [one_loop].
  pose proof (now_time w) as Hn. pose proof (now_mono w) as Hm. destruct (w_now w) as [w1 now]. simpl in Hn, Hm.
  destruct (decide (now - t0 < 10000)); [|right; split_and!; [done..|lia]].
  pose proof (leader_mono w1) as Hl. pose proof (leader_range w1) as Hr.
  destruct (w_getLeader w1) as [w2 index]. simpl in Hl, Hr.
  pose proof (rsm_try_servers (Z.to_nat NSRV) index p req acc w2 Hr Hacc) as Hts.
  destruct (try_servers (Z.to_nat NSRV) index p req acc w2) as [[w3 acc3] [[rep|]|e]]; [by left| |done].
  destruct Hts as [Ht3 Ha3]. pose proof (sleep_time 50 w3). apply IH; [lia|lia|done].
Qed.
End ends.

(** The search for the leader ends, and finds what it says.  Whatever the servers
    answer, and whatever other goroutines do to the variable that holds the last leader,
    onePartition returns.  It has submitted the request only to servers of the
    partition; all of them refused except perhaps the last one asked, and then
    the variable holds that server, so at most one submission was accepted.  If nobody
    accepted, nil is returned, not before 10 s have passed. *)
Theorem onePartition_ends {D W} `{World D W} (time : W → Z) `{!WorldLaws time} p req (w : W) :
  ∃ w' acc rep, onePartition p req w = (w', acc, Ret rep) ∧
    ((∃ l i, acc = l ++ [(i, OK)] ∧ Forall (refused p) l ∧ (0 ≤ i < NSRV ∧ inPartition i p = true) ∧
        (w_getLeader w').2 = i) ∨
     (rep = Nil ∧ Forall (refused p) acc ∧ time w + 10000 ≤ time w')).
Proof.
  unfold onePartition. pose proof (now_time w) as Hn. pose proof (now_mono w) as Hm.
  destruct (w_now w) as [w1 t0]. simpl in Hn, Hm.
  pose proof (rsm_one_loop time rounds t0 p req [] w1) as Hl.
  specialize (Hl ltac:(unfold rounds; lia) ltac:(unfold rounds; lia) ltac:(done)).
  destruct (one_loop rounds t0 p req [] w1) as [[w' acc] [rep|]]; [|done]. exists w', acc, rep.
  split; [done|]. destruct Hl as [?|(? & ? & ?)]; [by left|]. right. split_and!; [done..|lia].
Qed.

(** ** A service without failures *)

(** How long checkCounter sleeps before it looks for the last time. *)
Fixpoint slept (iters : nat) (to : Z) : Z :=
  match iters with
  | O | S O => 0
  | S iters => to + slept iters (if decide (to < 1000) then to * 2 else to)
  end.

(** Nothing was executed between two worlds. *)
Definition kept {W} (time executed since : W → Z) (w w' : W) : Prop :=
  executed w' = executed w ∧ since w' = since w ∧ time w ≤ time w'.

(** All servers are up and connected and [lead] is the leader all the time.  It executes
    an Inc once and answers with the new value of the counter; the others refuse.
    [executed] counts the executions, [since] is the time of the last one, and after
    [delay] every server has executed the same.  Proxy [d] is that of server [srv d]. *)
Class Stable {D W} `{World D W} (time executed since : W → Z) (srv : D → Z) (lead delay : Z) := {
  lead_range : 0 ≤ lead < NSRV;
  delay_range : delay ≤ slept 30 10;
  st_prompt w : (w_now (w_now w).1).2 - (w_now w).2 < 10000;
  st_now w : kept time executed since w (w_now w).1;
  st_sleep d w : 0 ≤ d → kept time executed since w (w_sleep d w);
  st_getLeader w : kept time executed since w (w_getLeader w).1;
  st_setLeader i w : kept time executed since w (w_setLeader i w);
  st_inc w : kept time executed since w (w_OpInc w);
  st_connected i w : (w_connected i w).2 = true ∧ kept time executed since w (w_connected i w).1;
  st_getRSM i w : 0 ≤ i < NSRV →
    (∃ d, (w_getRSM i w).2 = Some d ∧ srv d = i) ∧ kept time executed since w (w_getRSM i w).1;
  st_other d w : srv d ≠ lead →
    (w_submit d Inc w).2.1 ≠ OK ∧ kept time executed since w (w_submit d Inc w).1;
  st_lead d w : srv d = lead →
    (w_submit d Inc w).2 = (OK, IncRep (executed w + 1)) ∧
    executed (w_submit d Inc w).1 = executed w + 1 ∧
    since (w_submit d Inc w).1 ≤ time (w_submit d Inc w).1;
  st_counter i w : 0 ≤ i < NSRV → kept time executed since w (w_counter i w).1 ∧
    (∃ c, (w_counter i w).2 = Ret c) ∧
    (since w + delay ≤ time w → (w_counter i w).2 = Ret (executed w))
}.

Section stable.
Context {D W : Type} `{World D W} (time executed since : W → Z) (srv : D → Z) (lead delay : Z).
Context `{!WorldLaws time} `{!Stable time executed since srv lead delay}.
Implicit Types w : W.
Notation kept := (kept time executed since).

#[local] Instance kept_trans : Transitive kept.
Proof. intros w1 w2 w3 (? & ? & ?) (? & ? & ?). split_and!; [congruence..|lia]. Qed.

(** The leader has answered. *)
Definition answered w w' (r : res (option rsm_any)) : Prop :=
  r = Ret (Some (IncRep (executed w + 1))) ∧ executed w' = executed w + 1 ∧ since w' ≤ time w'.

(** A round finds the leader if it is among the next [k] servers. *)
Lemma try_servers_finds k index acc w :
  0 ≤ index < NSRV → (lead - index) `mod` NSRV < Z.of_nat k →
  ∃ w' acc' r, try_servers k index None Inc acc w = (w', acc', r) ∧ answered w w' r.
Proof.
  pose proof lead_range as Hlead.
  revert index acc w. induction k as [|k IH]; intros index acc w Hi Hk.
  { pose proof (Z.mod_pos_bound (lead - index) NSRV). unfold NSRV in *. lia. }
  cbn [try_servers]. rewrite decide_False, decide_True by lia.
  destruct (st_connected index w) as [Hc Hk1]. destruct (w_connected index w) as [w1 conn]. simpl in Hc, Hk1. subst conn.
  destruct (st_getRSM index w1 Hi) as [(d & Hd & Hsrv) Hk2]. destruct (w_getRSM index w1) as [w2 rsm].
  simpl in Hd, Hk2. subst rsm. cbn [inPartition]. assert (kept w w2) as Hk02 by by etrans.
  destruct (decide (index = lead)) as [Heq|Hne].
  - destruct (st_lead d w2) as (Hr & Hex & Hs); [congruence|]. destruct (w_submit d Inc w2) as [w3 r]. simpl in Hr, Hex, Hs.
    subst r. rewrite decide_True by done. eexists _, _, _. split; [reflexivity|].
    assert (kept w3 (w_setLeader index (w_OpInc w3))) as (He & Hsi & Ht) by (etrans; [apply st_inc|apply st_setLeader]).
    destruct Hk02 as (H1 & _ & _). split_and!; [by rewrite H1|lia|]. rewrite Hsi. lia.
  - destruct (st_other d w2) as (Hr & Hk3); [congruence|]. destruct (w_submit d Inc w2) as [w3 [err rep]]. simpl in Hr, Hk3.
    rewrite decide_False by done.
    destruct (IH ((index + 1) `rem` NSRV) (acc ++ [(index, err)]) w3) as (w' & acc' & r & Heq & Hr' & Hex & Hs).
    + by apply next_range.
    + rewrite (next_nearer lead index) by done. lia.
    + exists w', acc', r. split; [done|]. destruct Hk02 as (H1 & _ & _), Hk3 as (H2 & _ & _).
      split_and!; [by rewrite Hr', H2, H1|lia|done].
Qed.

Lemma oneInc_counts w :
  ∃ w', oneInc w = (w', Ret (executed w + 1)) ∧ executed w' = executed w + 1 ∧ since w' ≤ time w'.
Proof.
  unfold oneInc, onePartition. pose proof (st_prompt w) as Hp. destruct (st_now w) as (He1 & _ & _).
  destruct (w_now w) as [w1 t0]. simpl in Hp, He1. unfold rounds. cbn [one_loop].
  destruct (st_now w1) as (He2 & _ & _). destruct (w_now w1) as [w2 now]. simpl in Hp, He2.
  rewrite decide_True by done. destruct (st_getLeader w2) as (He3 & _ & _). pose proof (leader_range w2) as Hr.
  destruct (w_getLeader w2) as [w3 index]. simpl in He3, Hr.
  destruct (try_servers_finds (Z.to_nat NSRV) index [] w3 Hr) as (w' & acc' & r & -> & -> & Hex & Hs).
  { rewrite Z2Nat.id by done. by apply Z.mod_pos_bound. }
  exists w'. split; [|split; [lia|done]]. by rewrite He3, He2, He1.
Qed.

Lemma count_from_spec k i v n w :
  0 ≤ i → i + Z.of_nat k ≤ NSRV →
  ∃ w' m, count_from k i v n w = (w', Ret m) ∧ kept w w' ∧
    (since w + delay ≤ time w → v = executed w → m = n + Z.of_nat k).
Proof.
  revert i n w. induction k as [|k IH]; intros i n w Hi Hk; cbn [count_from].
  { exists w, n. split; [done|]. split; [split_and!; done|lia]. }
  destruct (st_counter i w) as (Hk1 & [c Hc] & Hv); [lia|].
  destruct (w_counter i w) as [w1 r]. simpl in *. subst r.
  destruct (IH (i + 1) (if decide (c = v) then n + 1 else n) w1) as (w' & m & -> & Hk2 & Hm); [lia..|].
  exists w', m. split; [done|]. split; [by etrans|]. intros Ht Hex. destruct Hk1 as (He & Hs & Ht1).
  injection (Hv Ht) as ->. rewrite decide_True in Hm by done. rewrite Hm; [lia|lia|congruence].
Qed.

Lemma check_loop_spec iters to v w :
  (1 ≤ iters)%nat → 0 ≤ to → v = executed w → since w + delay ≤ time w + slept iters to →
  ∃ w', check_loop iters to v NSRV w = (w', Ret true) ∧ kept w w'.
Proof.
  revert to w. induction iters as [|iters IH]; intros to w Hit Hto Hv Ht; [lia|]. cbn [check_loop].
  unfold countValue. destruct (count_from_spec (Z.to_nat NSRV) 0 v 0 w) as (w1 & m & -> & Hk1 & Hm); [done..|].
  destruct (decide (m >= NSRV)) as [|Hlt]; [by exists w1|].
  destruct iters as [|iters].
  { exfalso. apply Hlt. simpl in Ht. rewrite Hm by (done || lia). unfold NSRV. lia. }
  pose proof (st_sleep to w1 Hto) as Hk2. assert (kept w (w_sleep to w1)) as Hk02 by by etrans.
  destruct (IH (if decide (to < 1000) then to * 2 else to) (w_sleep to w1)) as (w' & Heq & Hk3).
  - lia.
  - case_decide; lia.
  - destruct Hk02 as (-> & _ & _). done.
  - destruct Hk02 as (_ & -> & _). pose proof (sleep_time to w1). destruct Hk1 as (_ & _ & ?).
    change (slept (S (S iters)) to) with (to + slept (S iters) (if decide (to < 1000) then to * 2 else to)) in Ht. lia.
  - exists w'. split; [done|]. by etrans.
Qed.

Lemma basic_loop_spec k w :
  ∃ w', basic_loop k (executed w) w = (w', Ret tt) ∧ executed w' = executed w + Z.of_nat k.
Proof.
  revert w. induction k as [|k IH]; intros w; cbn [basic_loop]; [exists w; split; [done|lia]|].
  destruct (oneInc_counts w) as (w1 & -> & Hex & Hs). rewrite decide_False by lia.
  unfold checkCounter. pose proof delay_range as Hd.
  destruct (check_loop_spec 30 10 (executed w + 1) w1) as (w2 & -> & He2 & _); [lia|done|done|lia|].
  rewrite <-Hex, <-He2. destruct (IH w2) as (w' & -> & He). exists w'. split; [done|lia].
Qed.
End stable.

(** C32. The basic test of the replicated state machine raises no false alarm.  Let the
    servers be up and connected, let one of them be the leader all the time and the
    others refuse, and let an executed Inc reach all of them within the 29.43 s that
    checkCounter sleeps.  Then TestBasic4A passes for any number of increments, whichever
    server is the leader and whatever the variable [leader] says at first, and the service
    has executed exactly that number of increments. *)
Theorem basic_test_accepted {D W} `{World D W} (time executed since : W → Z) (srv : D → Z) (lead delay : Z)
    `{!WorldLaws time} `{!Stable time executed since srv lead delay} ninc (w : W) :
  executed w = 0 →
  ∃ w', TestBasic4A ninc w = (w', Ret tt) ∧ executed w' = Z.of_nat ninc.
Proof.
  intros H0. destruct (basic_loop_spec time executed since srv lead delay ninc w) as (w' & Heq & He).
  exists w'. rewrite H0 in Heq, He. split; [exact Heq|lia].
Qed.

(** *** A witness: server 1 leads; the others are 30 ms behind, and the tester starts its
    search at server 2. *)

Record toy := MkToy { toy_time : Z; toy_leader : Z; toy_n : Z; toy_since : Z }.
#[local] Instance toy_world : World Z toy := {|
  w_now w := (w, toy_time w);
  w_sleep d w := MkToy (toy_time w + Z.max 0 d) (toy_leader w) (toy_n w) (toy_since w);
  w_getLeader w := (w, toy_leader w `mod` NSRV);
  w_setLeader i w := MkToy (toy_time w) i (toy_n w) (toy_since w);
  w_connected i w := (w, true);
  w_getRSM i w := (w, Some i);
  w_submit d req w :=
    if decide (d = 1 ∧ req = Inc) then
      (MkToy (toy_time w + 5) (toy_leader w) (toy_n w + 1) (toy_time w + 5), (OK, IncRep (toy_n w + 1)))
    else (w, ("ErrWrongLeader", Nil));
  w_OpInc w := w;
  w_counter i w :=
    (w, Ret (if decide (i = 1 ∨ toy_since w + 30 ≤ toy_time w) then toy_n w else toy_n w - 1))
|}.
#[local] Instance toy_laws : WorldLaws toy_time.
Proof.
  split; simpl; try done; try lia.
  - intros w. by apply Z.mod_pos_bound.
  - intros i w ?. by apply Z.mod_small.
  - intros d req w. case_decide; simpl; lia.
Qed.
#[local] Instance toy_stable : Stable (D:=Z) toy_time toy_n toy_since id 1 30.
Proof.
  split; [done|vm_compute; discriminate|..]; unfold kept; simpl; try done; try lia.
  - intros i w ?. split; [by exists i|done].
  - intros d w Hd. unfold id in Hd. rewrite decide_False by tauto. done.
  - intros d w Hd. unfold id in Hd. rewrite decide_True by done. done.
  - intros i w ?. split; [done|]. split; [by eexists|]. intros Ht. by rewrite decide_True by auto.
Qed.

Lemma basic_test_accepted_witness :
  ∃ w', TestBasic4A (D:=Z) 10 (MkToy 0 2 0 0) = (w', Ret tt) ∧ toy_n w' = 10.
Proof.
  exact (basic_test_accepted toy_time toy_n toy_since id 1 30 10 (MkToy 0 2 0 0) eq_refl).
Defined.

Lemma onePartition_ends_witness :
  ∃ w' acc rep, onePartition (D:=Z) (Some [0; 2]) Inc (MkToy 0 2 0 0) = (w', acc, Ret rep) ∧
    rep = Nil ∧ Forall (refused (Some [0; 2])) acc.
Proof.
  destruct (onePartition_ends toy_time (Some [0; 2]) Inc (MkToy 0 2 0 0)) as (w' & acc & rep & Heq & Hor).
  assert ((onePartition (D:=Z) (Some [0; 2]) Inc (MkToy 0 2 0 0)).2 = Ret Nil) as Hnil by (vm_compute; reflexivity).
  rewrite Heq in Hnil. injection Hnil as ->. exists w', acc, Nil. split; [exact Heq|]. split; [reflexivity|].
  destruct Hor as [(l & i & Hacc & _)|(_ & Hf & _)]; [|exact Hf]. exfalso.
  assert (bool_decide (Forall (λ a, a.2 ≠ OK) (onePartition (D:=Z) (Some [0; 2]) Inc (MkToy 0 2 0 0)).1.2) = true) as Hb
    by (vm_compute; reflexivity).
  apply bool_decide_eq_true in Hb. rewrite Heq in Hb. simpl in Hb. rewrite Hacc, Forall_app in Hb.
  destruct Hb as [_ Hb]. inversion Hb as [|x y Hx]. exact (Hx eq_refl).
Defined.
