(* ===== verification/MrTest.v ===== *)
(** * The MapReduce tests (mr/util.go, mrapps/jobcount.go, mtiming.go, rtiming.go)

    A test compares what the workers wrote with what mrsequential wrote, with the
    programs find, sort and cmp, which are the class [Cmds] with the laws of their
    manuals.  The applications jobcount, mtiming and rtiming measure the workers
    through files: jobcount leaves one file per call of Map, and nparallel counts the
    workers that are running now; the latter is a step relation, because it is about
    processes that run at the same time.

    A file is its path and contents.  White space is that of ASCII. *)

From Stdlib Require Import Ascii.
From stdpp Require Import pretty.
From S2P Require Import Prelude MapReduce Daemon.
Import MapReduce.

Module MrTest.

(** ** Strings *)

Definition nl : ascii := Ascii.ascii_of_nat 10.
Definition is_space (c : ascii) : bool :=
  let n := Ascii.nat_of_ascii c in
  ((9 <=? n) && (n <=? 13))%nat || (n =? 32)%nat.

(** strings.TrimSpace, strings.Split(s, "\n"), strings.HasPrefix *)
Fixpoint trim_left (s : list ascii) : list ascii :=
  match s with c :: s' => if is_space c then trim_left s' else s | [] => [] end.
Definition TrimSpace (s : list ascii) : list ascii := rev (trim_left (rev (trim_left s))).
Fixpoint Split (s : list ascii) : list (list ascii) :=
  match s with
  | [] => [[]]
  | c :: s =>
      if decide (c = nl) then [] :: Split s
      else match Split s with w :: ws => (c :: w) :: ws | [] => [[c]] end
  end.
Definition HasPrefix (p s : string) : bool := String.prefix p s.
Definition chars (s : string) : list ascii := String.list_ascii_of_string s.
Definition text (l : list ascii) : string := String.string_of_list_ascii l.

(** The lines of a text: what is before a newline, and the rest if it is not empty. *)
Definition unlines (ls : list (list ascii)) : list ascii := ls ≫= λ l, l ++ [nl].
Definition lines (s : list ascii) : list (list ascii) :=
  let ls := Split s in match reverse ls with [] :: r => reverse r | _ => ls end.

(** ** mr/util.go *)

(** The files that a test sees, by path. *)
Abbreviation files := (gmap string (list ascii)).

(** The programs that the tests run: the standard output of [sort f1 ... fn] for the
    contents of the files and of [find dir -type f -name pat]; whether [cmp] exits
    with 0. *)
Class Cmds := {
  sort_cmd : list (list ascii) → list ascii;
  find_cmd : files → string → string → list ascii;
  cmp_cmd : list ascii → list ascii → bool;
  name_matches : string → string → string → bool       (** dir, pattern, path *)
}.
(** sort writes all the lines, and the same output for the same lines; find writes
    the paths that match, one per line and each once; cmp compares bytes. *)
Class CmdLaws `{Cmds} := {
  sort_lines fs : lines (sort_cmd fs) ≡ₚ fs ≫= lines;
  sort_det fs fs' : fs ≫= lines ≡ₚ fs' ≫= lines → sort_cmd fs = sort_cmd fs';
  find_lists fs dir pat : ∃ ps, ps ≡ₚ filter (λ p, name_matches dir pat p = true) (elements (dom fs)) ∧
    find_cmd fs dir pat = unlines (chars <$> ps);
  cmp_eq a b : cmp_cmd a b = true ↔ a = b
}.

Section util.
Context `{Cmds} (tmp : string).

Definition in_tmp (f : string) : string := tmp +:+ "/" +:+ f.

Definition findFiles (dir s : string) (fs : files) : list string :=
  let s1 := TrimSpace (find_cmd fs dir s) in
  if decide (s1 = []) then [] else text <$> Split s1.

(** filepath.Join("..", f) for the paths "../..." that findFiles returns *)
Definition findFilesPre (dir s pre : string) (fs : files) : list string :=
  (λ f, "../" +:+ f) <$> findFiles dir s fs.

Definition read_all (ps : list string) (fs : files) : res (list (list ascii)) :=
  res_fold (λ acc p, match fs !! p with Some c => Ret (acc ++ [c]) | None => Stop LogFatal end) [] ps.

(** mergeOutput: sort fails on a file that is not there. *)
Definition mergeOutput (out : string) (fs : files) : res files :=
  let ps := findFiles tmp "mr-out-[0-9]" fs in
  if decide (length ps < 1)%nat then Stop LogFatal
  else
    let* cs := read_all ps (<[in_tmp out := []]> fs) in
    Ret (<[in_tmp out := sort_cmd cs]> fs).

(** What mrsequential writes to mr-out-0, fmt.Fprintf(ofile, "%v %v\n", ...). *)
Definition print_output (out : list (string * string)) : list ascii :=
  out ≫= λ x, chars x.1 ++ [" "%char] ++ chars x.2 ++ [nl].

(** mkCorrectOutput; [seq] is how mrsequential ended. *)
Definition mkCorrectOutput (seq : res (list (string * string))) (out : string) (fs : files) : res files :=
  match seq with
  | Stop _ => Stop LogFatal
  | Ret o =>
      let fs := <[in_tmp "mr-out-0" := print_output o]> fs in
      let fs := <[in_tmp out := []]> fs in
      let* cs := read_all [in_tmp "mr-out-0"] fs in
      Ret (delete (in_tmp "mr-out-0") (<[in_tmp out := sort_cmd cs]> fs))
  end.

Definition runCmp (f1 f2 : string) (fs : files) : res () :=
  match fs !! in_tmp f1, fs !! in_tmp f2 with
  | Some a, Some b => if cmp_cmd a b then Ret tt else Stop FailNow
  | _, _ => Stop FailNow
  end.

(** countPattern, for a regular expression with [matches s] matches in [s]. *)
Definition countPatternFile (matches : list ascii → nat) (f : string) (fs : files) : res nat :=
  match fs !! f with Some c => Ret (matches c) | None => Stop LogFatal end.
Definition countPattern (matches : list ascii → nat) (ps : list string) (fs : files) : res nat :=
  res_fold (λ n f, let* k := countPatternFile matches f fs in Ret (n + k)%nat) 0%nat ps.

(** cleanup removes the files mr-*; errors of os.Remove are ignored. *)
Definition cleanup (fs : files) : files :=
  foldl (λ fs f, delete f fs) fs (findFiles tmp "mr-*" fs).
End util.

(** ** jobcount.go *)

(** [count] of every process, and the names in the directory. *)
Record jobs := MkJobs { count : gmap Z Z; dir : gset string }.

Definition job_file (me cnt : Z) : string :=
  "mr-worker-jobcount-" +:+ pretty me +:+ "-" +:+ pretty cnt.
(** Map in the process [me]. *)
Definition jobcount_Map (me : Z) (st : jobs) : list KeyValue * jobs :=
  let cnt := mget 0 (count st) me in
  ([KV "a" "x"], MkJobs (<[me := cnt + 1]> (count st)) ({[job_file me cnt]} ∪ dir st)).
Definition jobcount_Reduce (key : string) (values : list string) (st : jobs) : string :=
  pretty (foldl (λ n f, if HasPrefix "mr-worker-jobcount" f then n + 1 else n) 0 (elements (dir st))).

(** ** mtiming.go and rtiming.go *)

(** fmt.Sscanf with %d: white space, a sign, at least one digit, all the digits that
    follow; an int that overflows is an error, as is a newline before the number. *)
Fixpoint skip_space (s : string) : option string :=
  match s with
  | String c s' => if is_space c then if decide (c = nl) then None else skip_space s' else Some s
  | EmptyString => Some s
  end.
Fixpoint digits_prefix (acc : Z) (s : string) : Z :=
  match s with
  | String c s => match Daemon.digit c with Some d => digits_prefix (acc * 10 + d) s | None => acc end
  | EmptyString => acc
  end.
Definition scan_number (s : string) : option Z :=
  match s with
  | String c s' => match Daemon.digit c with Some d => Some (digits_prefix d s') | None => None end
  | EmptyString => None
  end.
Definition int_range (z : Z) : option Z := if decide (- two63 ≤ z < two63) then Some z else None.
Definition scan_d (s : string) : option Z :=
  match skip_space s with
  | Some (String c s' as s) =>
      if decide (c = "-"%char) then scan_number s' ≫= λ z, int_range (- z)
      else if decide (c = "+"%char) then scan_number s' ≫= int_range
      else scan_number s ≫= int_range
  | _ => None
  end.
Fixpoint strip_prefix (p s : string) : option string :=
  match p, s with
  | EmptyString, _ => Some s
  | String c p, String d s => if decide (c = d) then strip_prefix p s else None
  | String _ _, EmptyString => None
  end.

Section nparallel.
Context (phase : string).

Definition worker_file (pid : Z) : string := "mr-worker-" +:+ phase +:+ "-" +:+ pretty pid.
(** the pid that Sscanf(name, "mr-worker-<phase>-%d", &xpid) finds *)
Definition scan_pid (name : string) : option Z :=
  strip_prefix ("mr-worker-" +:+ phase +:+ "-") name ≫= scan_d.

(** Where a process is in nparallel; [seen] is ghost: the processes that were in
    nparallel when it read the directory. *)
Inductive npc :=
| NOut                                                   (** not in nparallel *)
| NWritten                                               (** its file is there *)
| NScan (names : list string) (ret : Z) (seen : gset Z)  (** the loop over the names *)
| NRet (ret : Z) (seen : gset Z)                         (** returned [ret] *)
| NPanic.                                                (** os.Remove failed *)

Record world := MkWorld { names_in : gset string; procs : gmap Z npc }.
Implicit Types w : world.

Definition in_phase (p : npc) : bool :=
  match p with NWritten | NScan _ _ _ => true | _ => false end.
Definition goto (pid : Z) (p : npc) w : world := MkWorld (names_in w) (<[pid := p]> (procs w)).
(** syscall.Kill(xpid, 0) finds a process *)
Definition alive (pid : Z) w : bool := bool_decide (is_Some (procs w !! pid)).
Definition running w : gset Z := dom (filter (λ x : Z * npc, in_phase x.2 = true) (procs w)).

(** The processes call nparallel any number of times, and die at any moment.
    Readdirnames returns all the names: there are at most a million. *)
Inductive nstep w : world → Prop :=
| n_write pid : procs w !! pid = Some NOut →
    nstep w (MkWorld ({[worker_file pid]} ∪ names_in w) (<[pid := NWritten]> (procs w)))
| n_read pid names : procs w !! pid = Some NWritten → names ≡ₚ elements (names_in w) →
    Z.of_nat (length names) ≤ 1000000 → nstep w (goto pid (NScan names 0 (running w)) w)
| n_scan pid name names ret seen : procs w !! pid = Some (NScan (name :: names) ret seen) →
    nstep w (goto pid (NScan names
      (match scan_pid name with
       | Some xpid => if alive xpid w then ret + 1 else ret
       | None => ret
       end) seen) w)
| n_remove pid ret seen : procs w !! pid = Some (NScan [] ret seen) →
    worker_file pid ∈ names_in w →
    nstep w (MkWorld (names_in w ∖ {[worker_file pid]}) (<[pid := NRet ret seen]> (procs w)))
| n_panic pid ret seen : procs w !! pid = Some (NScan [] ret seen) →
    worker_file pid ∉ names_in w → nstep w (goto pid NPanic w)
| n_again pid ret seen : procs w !! pid = Some (NRet ret seen) → nstep w (goto pid NOut w)
| n_die pid : is_Some (procs w !! pid) → nstep w (MkWorld (names_in w) (delete pid (procs w))).

(** No file of a worker is left from before. *)
Definition nstart w : Prop :=
  (∀ pid p, procs w !! pid = Some p → p = NOut ∧ 0 ≤ pid < two63) ∧
  (∀ name, name ∈ names_in w → scan_pid name = None).
End nparallel.

(** Map and Reduce around nparallel, which returned [n]; [ts] is the time printed
    with one decimal. *)
Definition mtiming_Map (pid n : Z) (ts : string) : list KeyValue :=
  [KV ("times-" +:+ pretty pid) ts; KV ("parallel-" +:+ pretty pid) (pretty n)].
Definition mtiming_Reduce (key : string) (values : list string) : string :=
  String.concat " " (sort_Strings values).
Definition rtiming_Map (filename contents : string) : list KeyValue :=
  (λ k, KV k "1") <$> ["a"; "b"; "c"; "d"; "e"; "f"; "g"; "h"; "i"; "j"].
Definition rtiming_Reduce (n : Z) (key : string) (values : list string) : string := pretty n.

End MrTest.
