(* ===== verification/MrTestSpec.v ===== *)
(** * The MapReduce tests: properties

    That a test accepts exactly the right output, and that the measuring applications
    measure what they are meant to. *)

From Stdlib Require Import Ascii.
From stdpp Require Import pretty.
From S2P Require Import Prelude MapReduce Daemon MrTest.
Import MapReduce MrTest.

(** ** Lines *)

Definition no_nl (l : list ascii) : Prop := nl ∉ l.

Lemma Split_line l s : no_nl l → Split (l ++ nl :: s) = l :: Split s.
Proof.
  unfold no_nl. induction l as [|c l IH]; intros Hl; simpl.
  - done.
  - rewrite decide_False by set_solver. by rewrite IH by set_solver.
Qed.
Lemma Split_last l : no_nl l → Split l = [l].
Proof.
  unfold no_nl. induction l as [|c l IH]; intros Hl; simpl; [done|].
  rewrite decide_False by set_solver. by rewrite IH by set_solver.
Qed.

(** Lines with a newline between them. *)
Fixpoint joined (ls : list (list ascii)) : list ascii :=
  match ls with [] => [] | [l] => l | l :: ls => l ++ nl :: joined ls end.

Lemma unlines_joined l ls : unlines (l :: ls) = joined (l :: ls) ++ [nl].
Proof.
  unfold unlines. revert l. induction ls as [|l' ls IH]; intros l; [by simpl; rewrite app_nil_r|].
  change (joined (l :: l' :: ls)) with (l ++ nl :: joined (l' :: ls)).
  change ((l ++ [nl]) ++ ((l' :: ls) ≫= λ l, l ++ [nl]) = (l ++ nl :: joined (l' :: ls)) ++ [nl]).
  rewrite IH. by rewrite <-!(assoc_L (++)).
Qed.

Lemma Split_joined l ls : Forall no_nl (l :: ls) → Split (joined (l :: ls)) = l :: ls.
Proof.
  revert l. induction ls as [|l' ls IH]; intros l [Hl Hls]%list.Forall_cons; [by apply Split_last|].
  change (joined (l :: l' :: ls)) with (l ++ nl :: joined (l' :: ls)).
  rewrite Split_line by done. f_equal. by apply IH.
Qed.

(** Text that starts and ends with something else than white space. *)
Definition solid (l : list ascii) : Prop :=
  ∃ c l' d, l = c :: l' ∧ is_space c = false ∧ is_space d = false ∧ ∃ k, l = k ++ [d].

Lemma TrimSpace_solid l : solid l → TrimSpace (l ++ [nl]) = l.
Proof.
  intros (c & l' & d & Hl & Hc & Hd & k & Hk). unfold TrimSpace. rewrite Hl at 1. simpl. rewrite Hc.
  change (c :: l' ++ [nl]) with ((c :: l') ++ [nl]). rewrite <-Hl, rev_app_distr. simpl.
  rewrite Hk at 1. rewrite rev_app_distr. simpl. rewrite Hd.
  change (d :: rev k) with (rev [d] ++ rev k). by rewrite <-rev_app_distr, rev_involutive, Hk.
Qed.

(** A path without white space. *)
Definition clean (l : list ascii) : Prop := l ≠ [] ∧ Forall (λ c, is_space c = false) l.

Lemma clean_no_nl l : clean l → no_nl l.
Proof. intros [_ Hl] Hin. rewrite list.Forall_forall in Hl. by apply Hl in Hin. Qed.

Lemma clean_last l : clean l → ∃ k d, l = k ++ [d] ∧ is_space d = false.
Proof.
  intros [Hne Hl]. destruct (exists_last Hne) as (k & d & ->).
  exists k, d. split; [done|]. rewrite list.Forall_forall in Hl. apply Hl.
  apply elem_of_app. right. by left.
Qed.

Lemma joined_solid l ls : Forall clean (l :: ls) → solid (joined (l :: ls)).
Proof.
  intros Hall. pose proof Hall as [Hl _]%list.Forall_cons.
  assert (∃ k d, joined (l :: ls) = k ++ [d] ∧ is_space d = false) as (k & d & Hk & Hd).
  { clear Hl. revert l Hall. induction ls as [|l' ls IH]; intros l [Hl Hls]%list.Forall_cons;
      [by apply clean_last|]. destruct (IH l' Hls) as (k & d & Hk & Hd).
    exists (l ++ nl :: k), d. split; [|done].
    change (joined (l :: l' :: ls)) with (l ++ nl :: joined (l' :: ls)). rewrite Hk.
    by rewrite <-(assoc_L (++)). }
  destruct l as [|c l]; [by destruct Hl|]. destruct Hl as [_ [Hc _]%list.Forall_cons].
  assert (∃ l', joined ((c :: l) :: ls) = c :: l') as [l' Hl'] by (destruct ls; simpl; eauto).
  exists c, l', d. split_and!; [done..|by exists k].
Qed.

(** findFiles returns the paths that find lists. *)
Lemma findFiles_spec `{CmdLaws} dir pat (fs : files) :
  (∀ p, p ∈ dom fs → name_matches dir pat p = true → clean (chars p)) →
  findFiles dir pat fs ≡ₚ filter (λ p, name_matches dir pat p = true) (elements (dom fs)).
Proof.
  intros Hclean. destruct (find_lists fs dir pat) as (ps & Hps & Hout).
  unfold findFiles. rewrite Hout. rewrite <-Hps.
  assert (Forall clean (chars <$> ps)) as Hall.
  { apply list.Forall_forall. intros l (p & -> & Hp)%list_elem_of_fmap. rewrite Hps in Hp.
    apply list_elem_of_filter in Hp as [Hm Hin%elem_of_elements]. by apply Hclean. }
  destruct ps as [|p ps]; [done|]. rewrite !fmap_cons in *.
  rewrite unlines_joined, TrimSpace_solid by by apply joined_solid.
  destruct (joined_solid _ _ Hall) as (c & l' & _ & Hne & _). rewrite decide_False by by rewrite Hne.
  rewrite Split_joined.
  - rewrite <-fmap_cons, <-list_fmap_compose. rewrite (list_fmap_ext _ id), list_fmap_id; [done|].
    intros _ x _. unfold compose, text, chars. apply String.string_of_list_ascii_of_string.
  - eapply list.Forall_impl; [exact Hall|]. apply clean_no_nl.
Qed.

(** ** The comparison with the sequential run *)

Section compare.
Context `{CmdLaws} (tmp : string).

Definition is_out (p : string) : bool := name_matches tmp "mr-out-[0-9]" p.
(** The contents of the files mr-out-X. *)
Definition out_files (fs : files) : list (list ascii) :=
  (filter (λ x : string * list ascii, is_out x.1 = true) (map_to_list fs)).*2.

Lemma read_all_spec ps fs :
  Forall (λ p, is_Some (fs !! p)) ps → read_all ps fs = Ret (omap (fs !!.) ps).
Proof.
  intros Hps. unfold read_all.
  assert (∀ acc, res_fold (λ acc p, match fs !! p with Some c => Ret (acc ++ [c]) | None => Stop LogFatal end)
    acc ps = Ret (acc ++ omap (fs !!.) ps)) as Hg; [|by rewrite Hg].
  induction Hps as [|p ps [c Hc] _ IH]; intros acc; simpl; [by rewrite app_nil_r|].
  rewrite Hc. cbn [rbind]. rewrite IH. by rewrite <-(assoc_L (++)).
Qed.

Lemma elements_dom (fs : files) : elements (dom fs) ≡ₚ (map_to_list fs).*1.
Proof.
  apply NoDup_Permutation; [apply NoDup_elements|apply NoDup_fst_map_to_list|].
  intros p. rewrite elem_of_elements, elem_of_dom, list_elem_of_fmap. split.
  - intros [c Hc]. exists (p, c). by rewrite elem_of_map_to_list.
  - intros ([p' c] & -> & ?%elem_of_map_to_list). by exists c.
Qed.

Lemma omap_lookup (fs : files) l :
  (∀ x, x ∈ l → fs !! x.1 = Some x.2) →
  omap (fs !!.) (filter (λ p, is_out p = true) l.*1) =
    (filter (λ x : string * list ascii, is_out x.1 = true) l).*2.
Proof.
  induction l as [|[p c] l IH]; intros Hl; [done|]. rewrite fmap_cons, !filter_cons. simpl.
  pose proof (Hl (p, c) ltac:(by left)) as Hp. simpl in Hp.
  specialize (IH ltac:(intros; apply Hl; by right)).
  destruct (is_out p); simpl; [|exact IH]. rewrite Hp. f_equal. exact IH.
Qed.

Lemma omap_insert_ne p0 c0 (fs : files) (ps : list string) :
  p0 ∉ ps → omap (λ p, <[p0 := c0]> fs !! p) ps = omap (fs !!.) ps.
Proof.
  induction ps as [|p ps IH]; intros Hp; [done|]. apply not_elem_of_cons in Hp as [Hne Hp].
  simpl. specialize (IH Hp). rewrite lookup_insert_ne by done. destruct (fs !! p); [f_equal|]; exact IH.
Qed.

Lemma length_omap_lookup (fs : files) (ps : list string) :
  (∀ p, p ∈ ps → is_Some (fs !! p)) → length (omap (fs !!.) ps) = length ps.
Proof.
  induction ps as [|p ps IH]; intros Hps; [done|]. simpl. destruct (Hps p ltac:(by left)) as [c ->].
  simpl. f_equal. apply IH. intros. apply Hps. by right.
Qed.

(** mergeOutput sorts what the workers wrote. *)
Lemma mergeOutput_spec out (fs : files) :
  (∀ p, p ∈ dom fs → is_out p = true → clean (chars p)) → is_out (in_tmp tmp out) = false →
  if decide (out_files fs = []) then mergeOutput tmp out fs = Stop LogFatal
  else mergeOutput tmp out fs = Ret (<[in_tmp tmp out := sort_cmd (out_files fs)]> fs).
Proof.
  intros Hclean Hout. unfold mergeOutput. set (ps := findFiles tmp "mr-out-[0-9]" fs).
  assert (ps ≡ₚ filter (λ p, is_out p = true) (map_to_list fs).*1) as Hps.
  { unfold ps. rewrite findFiles_spec by done. by rewrite elements_dom. }
  assert (omap (fs !!.) ps ≡ₚ out_files fs) as Hom.
  { rewrite Hps, omap_lookup; [done|]. intros [p c] Hx. by apply elem_of_map_to_list in Hx. }
  assert (∀ p, p ∈ ps → is_out p = true ∧ is_Some (fs !! p)) as Hin.
  { intros p Hp. rewrite Hps in Hp. apply list_elem_of_filter in Hp as [? ([p' c] & -> & Hx)%list_elem_of_fmap].
    apply elem_of_map_to_list in Hx. split; [done|by exists c]. }
  rewrite read_all_spec.
  2:{ apply list.Forall_forall. intros p [Hp [c Hc]]%Hin. rewrite lookup_insert_ne; [by exists c|congruence]. }
  rewrite omap_insert_ne by (intros [Hp _]%Hin; congruence).
  assert (length (omap (fs !!.) ps) = length ps) as Hlen
    by (apply length_omap_lookup; intros p ?; by apply Hin).
  case_decide as Hd.
  - rewrite decide_True; [done|]. rewrite <-Hlen, Hom, Hd. simpl. lia.
  - rewrite decide_False.
    + cbn [rbind]. do 2 f_equal. apply sort_det. by rewrite Hom.
    + intros Hlt. apply Hd, Permutation_nil_r. rewrite <-Hom.
      destruct (omap _ ps); [done|]. simpl in Hlen. lia.
Qed.
End compare.

(** C31. A MapReduce test accepts exactly the right output.  Let mkCorrectOutput have
    made the file [correct] from a run of mrsequential that printed [o], and let the
    workers then leave any files, as long as they keep that one.  Then mergeOutput
    and runCmp succeed if and only if there is a file mr-out-X and the lines of these
    files, taken together in whatever files and order, are the lines that
    mrsequential printed, each the same number of times. *)
Theorem compare_accepts `{CmdLaws} tmp o correct out fs0 fs1 fs2 :
  mkCorrectOutput tmp (Ret o) correct fs0 = Ret fs1 →
  fs2 !! in_tmp tmp correct = fs1 !! in_tmp tmp correct →
  (∀ p, p ∈ dom fs2 → is_out tmp p = true → clean (chars p)) →
  is_out tmp (in_tmp tmp out) = false →
  in_tmp tmp correct ≠ in_tmp tmp "mr-out-0" → in_tmp tmp out ≠ in_tmp tmp correct →
  (∃ fs3, mergeOutput tmp out fs2 = Ret fs3 ∧ runCmp tmp out correct fs3 = Ret tt) ↔
    out_files tmp fs2 ≠ [] ∧ out_files tmp fs2 ≫= lines ≡ₚ lines (print_output o).
Proof.
  intros Hmk Hkeep Hclean Hout Hne Hne2.
  unfold mkCorrectOutput, read_all in Hmk. cbn [res_fold] in Hmk.
  rewrite lookup_insert_ne, lookup_insert_eq in Hmk by done. cbn [rbind app] in Hmk. injection Hmk as <-.
  rewrite lookup_delete_ne, lookup_insert_eq in Hkeep by done.
  pose proof (mergeOutput_spec tmp out fs2 Hclean Hout) as Hm. case_decide as Hd.
  { rewrite Hm. split; [by intros (? & ? & _)|by intros []]. }
  rewrite Hm. split.
  - intros (fs3 & [= <-] & Hcmp). split; [done|]. unfold runCmp in Hcmp.
    rewrite lookup_insert_eq, lookup_insert_ne, Hkeep in Hcmp by done.
    destruct (cmp_cmd _ _) eqn:Hc; [|done]. apply cmp_eq in Hc.
    rewrite <-sort_lines, Hc, sort_lines. simpl. by rewrite app_nil_r.
  - intros [_ Hp]. eexists. split; [done|]. unfold runCmp.
    rewrite lookup_insert_eq, lookup_insert_ne, Hkeep by done.
    assert (sort_cmd (out_files tmp fs2) = sort_cmd [print_output o]) as ->.
    { apply sort_det. simpl. by rewrite app_nil_r. }
    assert (cmp_cmd (sort_cmd [print_output o]) (sort_cmd [print_output o]) = true) as ->; [|done].
    by apply cmp_eq.
Qed.

(** *** Programs that obey the laws *)

Lemma Split_no_nl s : Forall no_nl (Split s).
Proof.
  unfold no_nl. induction s as [|c s IH]; simpl; [repeat constructor; set_solver|]. case_decide as Hc.
  - constructor; [set_solver|done].
  - destruct (Split s) as [|w ws]; [repeat constructor; set_solver|].
    apply list.Forall_cons in IH as [? ?]. constructor; [set_solver|done].
Qed.

Lemma lines_no_nl s : Forall no_nl (lines s).
Proof.
  unfold lines. pose proof (Split_no_nl s) as Hs. destruct (reverse (Split s)) as [|[|c l] r] eqn:Hr; try done.
  rewrite <-(reverse_involutive (Split s)), Hr, reverse_cons in Hs. by apply list.Forall_app in Hs as [? _].
Qed.

Lemma lines_unlines ls : Forall no_nl ls → lines (unlines ls) = ls.
Proof.
  intros Hls. assert (Split (unlines ls) = ls ++ [[]]) as Heq.
  { induction Hls as [|l ls Hl _ IH]; [done|]. unfold unlines in *. cbn [mbind list_bind].
    rewrite <-(assoc_L (++)). simpl. rewrite Split_line by done. simpl. f_equal. exact IH. }
  unfold lines. by rewrite Heq, reverse_app, reverse_singleton; simpl; rewrite reverse_involutive.
Qed.

(** sort and find in the order of bytes; the pattern is that of mergeOutput. *)
#[local] Instance byte_cmds : Cmds := {|
  sort_cmd fs := unlines (chars <$> sort_Strings (text <$> (fs ≫= lines)));
  find_cmd fs dir pat :=
    unlines (chars <$> filter (λ p, HasPrefix (dir +:+ "/mr-out-") p = true) (elements (dom fs)));
  cmp_cmd a b := bool_decide (a = b);
  name_matches dir pat p := HasPrefix (dir +:+ "/mr-out-") p
|}.

Lemma chars_text l : chars (text l) = l.
Proof. apply String.list_ascii_of_string_of_list_ascii. Qed.

#[local] Instance byte_laws : CmdLaws.
Proof.
  split.
  - intros fs. simpl. rewrite lines_unlines.
    + unfold sort_Strings. rewrite merge_sort_Permutation, <-list_fmap_compose.
      rewrite (list_fmap_ext _ id), list_fmap_id; [done|]. intros _ l _. apply chars_text.
    + apply list.Forall_forall. intros l (s & -> & Hs)%list_elem_of_fmap. unfold sort_Strings in Hs.
      rewrite merge_sort_Permutation in Hs. apply list_elem_of_fmap in Hs as (l & -> & Hl).
      rewrite chars_text. apply list_elem_of_bind in Hl as (f & Hl & _).
      pose proof (lines_no_nl f) as Hf. rewrite list.Forall_forall in Hf. by apply Hf.
  - intros fs fs' Hp. simpl. do 2 f_equal. apply sort_Strings_perm. by rewrite Hp.
  - intros fs dir pat. by eexists.
  - intros a b. simpl. apply bool_decide_eq_true.
Qed.

(** Two workers wrote one line each. *)
Definition example_seq : list (string * string) := [("a", "1"); ("b", "2")]%string.
Definition after_seq : files :=
  match mkCorrectOutput "t" (Ret example_seq) "correct" ∅ with Ret fs => fs | Stop _ => ∅ end.
Definition after_workers : files :=
  <["t/mr-out-0"%string := print_output [("b", "2")]%string]>
    (<["t/mr-out-1"%string := print_output [("a", "1")]%string]> after_seq).

Lemma compare_accepts_witness :
  ∃ fs3, mergeOutput "t" "all" after_workers = Ret fs3 ∧ runCmp "t" "all" "correct" fs3 = Ret tt.
Proof.
  apply (compare_accepts "t" example_seq "correct" "all" ∅ after_seq after_workers).
  - vm_compute. reflexivity.
  - vm_compute. reflexivity.
  - intros p Hp _. assert (Forall (λ p, clean (chars p)) (elements (dom after_workers))) as Hall.
    { vm_compute elements. repeat constructor; done. }
    rewrite list.Forall_forall in Hall. apply Hall. by apply elem_of_elements.
  - reflexivity.
  - done.
  - done.
  - split; [by vm_compute|].
    assert (out_files "t" after_workers ≫= lines = [chars "b 2"; chars "a 1"] ∨
            out_files "t" after_workers ≫= lines = [chars "a 1"; chars "b 2"]) as [-> | ->]
      by (vm_compute; auto); [apply perm_swap|reflexivity].
Defined.
