(* ===== verification/MrCount.v ===== *)
(** * The measuring applications: properties (mrapps/jobcount.go, mtiming.go, rtiming.go) *)

From Stdlib Require Import Ascii.
From stdpp Require Import pretty.
From S2P Require Import Prelude MapReduce Daemon MrTest.
Import MapReduce Daemon MrTest.

(** ** Decimal numbers in names *)

Lemma digits_chars acc s z : digits acc s = Some z → Forall (λ c, is_Some (digit c)) (chars s).
Proof.
  revert acc. induction s as [|c s IH]; intros acc; simpl; [constructor|].
  destruct (digit c) eqn:Hc; [|done]. intros Hd%IH. constructor; [by rewrite Hc|done].
Qed.

Lemma pretty_chars z : 0 ≤ z → Forall (λ c, is_Some (digit c)) (chars (pretty z)).
Proof.
  intros Hz. destruct z as [|p|p]; [repeat constructor; by eexists| |lia].
  change (pretty (Z.pos p)) with (pretty (N.pos p)). pose proof (unsigned_pretty (N.pos p)) as Hu.
  unfold unsigned in Hu. destruct (pretty (N.pos p)) as [|c s] eqn:Hp; [done|].
  by eapply digits_chars.
Qed.

(** Two names with the same separator after digits. *)
Lemma sep_inj s1 s2 t1 t2 :
  Forall (λ c, is_Some (digit c)) (chars s1) → Forall (λ c, is_Some (digit c)) (chars s2) →
  s1 +:+ "-" +:+ t1 = s2 +:+ "-" +:+ t2 → s1 = s2 ∧ t1 = t2.
Proof.
  revert s2. induction s1 as [|c s1 IH]; intros [|d s2]; simpl; intros H1 H2 Heq.
  - by injection Heq.
  - injection Heq as <- _. apply list.Forall_cons in H2 as [Hd _]. by destruct (digit_sign _ Hd).
  - injection Heq as -> _. apply list.Forall_cons in H1 as [Hd _]. by destruct (digit_sign _ Hd).
  - injection Heq as -> Heq. apply list.Forall_cons in H1 as [_ H1], H2 as [_ H2].
    destruct (IH s2 H1 H2 Heq) as [-> ->]. done.
Qed.

(** ** jobcount *)

Lemma job_file_inj p c p' c' : 0 ≤ p → 0 ≤ p' → job_file p c = job_file p' c' → p = p' ∧ c = c'.
Proof.
  intros Hp Hp' Heq. unfold job_file in Heq. apply (inj (String.append "mr-worker-jobcount-")) in Heq.
  apply sep_inj in Heq as [?%(inj pretty) ?%(inj pretty)]; [done|by apply pretty_chars..].
Qed.

Definition counted (d : gset string) : gset string :=
  filter (λ f, HasPrefix "mr-worker-jobcount" f = true) d.

Lemma foldl_counted (l : list string) n :
  foldl (λ n f, if HasPrefix "mr-worker-jobcount" f then n + 1 else n) n l =
    n + Z.of_nat (length (filter (λ f, HasPrefix "mr-worker-jobcount" f = true) l)).
Proof.
  revert n. induction l as [|f l IH]; intros n; [simpl; lia|]. rewrite filter_cons. simpl. rewrite IH.
  destruct (HasPrefix _ f); simpl; lia.
Qed.

Lemma Reduce_counted key values st :
  jobcount_Reduce key values st = pretty (Z.of_nat (size (counted (dir st)))).
Proof.
  unfold jobcount_Reduce. rewrite foldl_counted, Z.add_0_l. do 2 f_equal.
  unfold size, set_size. apply Permutation_length, NoDup_Permutation.
  - apply list.NoDup_filter, NoDup_elements.
  - apply NoDup_elements.
  - intros f. unfold counted. rewrite list_elem_of_filter, !elem_of_elements, elem_of_filter. done.
Qed.

Definition run_maps (calls : list Z) (st : jobs) : jobs :=
  foldl (λ st p, (jobcount_Map p st).2) st calls.

(** The application jobcount counts the calls of Map: when no file of it is left from
    before, after any calls of Map by any processes Reduce returns their number. *)
Theorem jobcount_counts calls d key values :
  Forall (λ p, 0 ≤ p) calls → counted d = ∅ →
  jobcount_Reduce key values (run_maps calls (MkJobs ∅ d)) = pretty (Z.of_nat (length calls)).
Proof.
  intros Hc Hd. rewrite Reduce_counted. do 2 f_equal.
  assert (∀ st, (∀ p c, 0 ≤ p → job_file p c ∈ dir st → c < mget 0 (count st) p) →
    size (counted (dir (run_maps calls st))) = (size (counted (dir st)) + length calls)%nat) as Hg.
  { induction Hc as [|p calls Hp Hc IH]; intros st Hst; [simpl; lia|].
    change (run_maps (p :: calls) st) with (run_maps calls (jobcount_Map p st).2).
    rewrite IH; simpl.
    - set (f := job_file p (mget 0 (count st) p)).
      assert (f ∉ dir st) as Hf by (intros ?%Hst; [lia|done]).
      assert (counted ({[f]} ∪ dir st) = {[f]} ∪ counted (dir st)) as ->.
      { unfold counted. rewrite filter_union_L, filter_singleton_True_L by (exact eq_refl || apply _). done. }
      rewrite size_union by (unfold counted; set_solver). rewrite size_singleton. lia.
    - intros q c Hq. rewrite elem_of_union, elem_of_singleton. intros [Heq|Hin].
      + apply job_file_inj in Heq as [-> ->]; [|done..]. rewrite mget_insert_eq. lia.
      + specialize (Hst q c Hq Hin). destruct (decide (q = p)) as [->|].
        * rewrite mget_insert_eq. lia.
        * by rewrite mget_insert_ne. }
  rewrite Hg.
  - simpl. rewrite Hd, size_empty. done.
  - simpl. intros p c _ Hin. exfalso. apply (not_elem_of_empty (C := gset string) (job_file p c)).
    rewrite <-Hd. unfold counted. by rewrite elem_of_filter.
Qed.

(** ** nparallel *)

Lemma strip_prefix_app p s : strip_prefix p (p +:+ s) = Some s.
Proof. induction p as [|c p IH]; simpl; [by destruct s|]. by rewrite decide_True. Qed.

Lemma digits_prefix_digits acc s z : digits acc s = Some z → digits_prefix acc s = z.
Proof.
  revert acc. induction s as [|c s IH]; intros acc; simpl; [by intros [= ->]|].
  destruct (digit c) as [d|]; [|done]. intros Hd. apply IH. by rewrite Z.mul_comm.
Qed.

Lemma digit_not_space c : is_Some (digit c) → is_space c = false.
Proof.
  intros [d Hd]. unfold digit in Hd. unfold is_space. case_decide as Hr; [|done].
  destruct (Nat.leb_spec 9 (nat_of_ascii c)), (Nat.leb_spec (nat_of_ascii c) 13),
    (Nat.eqb_spec (nat_of_ascii c) 32); simpl; try done; lia.
Qed.

Lemma scan_d_pretty z : 0 ≤ z < two63 → scan_d (pretty z) = Some z.
Proof.
  intros Hz. assert (∃ x : N, pretty z = pretty x ∧ z = Z.of_N x) as (x & -> & ->).
  { destruct z as [|p|p]; [by exists 0%N|by exists (N.pos p)|lia]. }
  pose proof (unsigned_pretty x) as Hu. destruct (unsigned_head x) as (c & s & Heq & Hd). rewrite Heq in *.
  destruct (digit_sign c Hd) as [Hm Hp]. unfold scan_d. cbn [skip_space]. rewrite digit_not_space by done.
  rewrite !decide_False by done. cbn [scan_number]. unfold unsigned in Hu. cbn [digits] in Hu.
  destruct (digit c) as [d|]; [|done]. cbn [mbind option_bind].
  rewrite (digits_prefix_digits d s (Z.of_N x)) by by rewrite <-Hu.
  unfold int_range. rewrite decide_True; [done|]. split; [|lia]. unfold two63. lia.
Qed.

Lemma string_app_assoc s1 s2 s3 : (s1 +:+ s2) +:+ s3 = s1 +:+ s2 +:+ s3.
Proof.
  induction s1 as [|c s1 IH]; [done|].
  change (String c ((s1 +:+ s2) +:+ s3) = String c (s1 +:+ s2 +:+ s3)). by rewrite IH.
Qed.

Section nparallel.
Context (phase : string).
Implicit Types w : world.

Lemma scan_worker p : 0 ≤ p < two63 → scan_pid phase (worker_file phase p) = Some p.
Proof.
  intros Hp. unfold scan_pid, worker_file.
  replace ("mr-worker-" +:+ phase +:+ "-" +:+ pretty p)
    with (("mr-worker-" +:+ phase +:+ "-") +:+ pretty p).
  - rewrite strip_prefix_app. simpl. by apply scan_d_pretty.
  - by rewrite !string_app_assoc.
Qed.

Lemma elem_of_running w p : p ∈ running w ↔ ∃ pc, procs w !! p = Some pc ∧ in_phase pc = true.
Proof.
  unfold running. rewrite elem_of_dom. split.
  - intros [pc Hpc]. apply map_lookup_filter_Some in Hpc. by exists pc.
  - intros (pc & Hpc & Hi). exists pc. by apply map_lookup_filter_Some.
Qed.

(** The loop of [me] over the names that are left: [C] are the workers counted. *)
Definition scan_ok (al : Z → Prop) (me : Z) (names : list string) (ret : Z) (seen : gset Z) : Prop :=
  NoDup names ∧ me ∈ seen ∧ ∃ C : gset Z, C ⊆ seen ∧ ret = Z.of_nat (size C) ∧
    (∀ p, p ∈ C → worker_file phase p ∉ names) ∧
    (∀ p, p ∈ seen → al p ∨ p = me → p ∈ C ∨ worker_file phase p ∈ names) ∧
    (∀ name p, name ∈ names → scan_pid phase name = Some p → al p →
       p ∈ seen ∧ name = worker_file phase p).
Definition pc_ok (al : Z → Prop) (me : Z) (pc : npc) : Prop :=
  match pc with
  | NScan names ret seen => scan_ok al me names ret seen
  | NRet ret seen => scan_ok al me [] ret seen
  | NPanic => False
  | NOut | NWritten => True
  end.

Record inv w : Prop := {
  i_range p pc : procs w !! p = Some pc → 0 ≤ p < two63;
  i_file p : p ∈ running w → worker_file phase p ∈ names_in w;
  i_dir name p : name ∈ names_in w → scan_pid phase name = Some p → is_Some (procs w !! p) →
    name = worker_file phase p ∧ p ∈ running w;
  i_pc p pc : procs w !! p = Some pc → pc_ok (λ q, is_Some (procs w !! q)) p pc
}.

Lemma pc_ok_mono (al al' : Z → Prop) me pc : (∀ p, al' p → al p) → pc_ok al me pc → pc_ok al' me pc.
Proof.
  intros Hal. destruct pc as [| |names ret seen|ret seen|]; simpl; try done;
    intros (Hnd & Hme & C & HC & Hr & Hno & Hall & Hsc); split_and!; try done; exists C;
    split_and!; naive_solver.
Qed.

(** A process that moves on within nparallel, or outside of it. *)
Lemma ninv_goto w me pc pc' :
  inv w → procs w !! me = Some pc → in_phase pc' = in_phase pc →
  pc_ok (λ q, is_Some (procs w !! q)) me pc' → inv (goto me pc' w).
Proof.
  intros [Hrg Hf Hd Hp] Hme Hph Hok.
  assert (∀ p, is_Some (procs (goto me pc' w) !! p) ↔ is_Some (procs w !! p)) as Hal.
  { intros p. simpl. destruct (decide (p = me)) as [->|].
    - rewrite lookup_insert_eq, Hme. split; by eexists.
    - by rewrite lookup_insert_ne. }
  assert (∀ p, p ∈ running (goto me pc' w) ↔ p ∈ running w) as Hrun.
  { intros p. rewrite !elem_of_running. simpl. destruct (decide (p = me)) as [->|].
    - rewrite lookup_insert_eq, Hme. naive_solver congruence.
    - by rewrite lookup_insert_ne. }
  split.
  - intros p pc0. simpl. rewrite lookup_insert_Some. intros [[<- _]|[_ ?]]; eauto.
  - intros p ?%Hrun. by apply Hf.
  - intros name p Hin Hsc ?%Hal. rewrite Hrun. by apply Hd.
  - intros p pc0. simpl. rewrite lookup_insert_Some.
    intros [[<- <-]|[_ H0]]; (apply (pc_ok_mono (λ q, is_Some (procs w !! q)));
      [intros q Hq; by apply Hal|]); eauto.
Qed.
Lemma worker_file_inj w p p' pc pc' :
  inv w → procs w !! p = Some pc → procs w !! p' = Some pc' →
  worker_file phase p = worker_file phase p' → p = p'.
Proof.
  intros Hw Hp Hp' Heq. pose proof (scan_worker p (i_range w Hw p pc Hp)) as H1.
  pose proof (scan_worker p' (i_range w Hw p' pc' Hp')) as H2. congruence.
Qed.

(** One round of the loop. *)
Lemma scan_step w me name names ret seen :
  inv w → procs w !! me = Some (NScan (name :: names) ret seen) →
  scan_ok (λ q, is_Some (procs w !! q)) me names
    (match scan_pid phase name with
     | Some xpid => if alive xpid w then ret + 1 else ret
     | None => ret
     end) seen.
Proof.
  intros Hw Hme. pose proof (i_pc w Hw me _ Hme) as (Hnd & Hms & C & HC & Hr & Hno & Hall & Hsc).
  apply list.NoDup_cons in Hnd as [Hnn Hnd]. split_and!; [done..|].
  assert (∀ p, is_Some (procs w !! p) ∨ p = me → scan_pid phase (worker_file phase p) = Some p) as Hscan.
  { intros p [[pc Hp]| ->]; [by eapply scan_worker, i_range|by eapply scan_worker, i_range]. }
  assert (scan_pid phase name = None ∨ (∃ x, scan_pid phase name = Some x ∧ alive x w = false) ∨
    ∃ x, scan_pid phase name = Some x ∧ is_Some (procs w !! x)) as [Hn|[(x & Hx & Ha)|(x & Hx & Ha)]].
  { destruct (scan_pid phase name) as [x|]; [right|by left]. unfold alive.
    destruct (decide (is_Some (procs w !! x))); [right|left]; exists x; [done|].
    by rewrite bool_decide_false. }
  - rewrite Hn. exists C. split_and!; [done|done|set_solver| |set_solver].
    intros p Hp Hor. destruct (Hall p Hp Hor) as [?|[Heq|?]%elem_of_cons]; [by left| |by right].
    pose proof (Hscan p Hor) as Hs. congruence.
  - rewrite Hx, Ha. exists C. split_and!; [done|done|set_solver| |set_solver].
    intros p Hp Hor. destruct (Hall p Hp Hor) as [?|[Heq|?]%elem_of_cons]; [by left| |by right].
    pose proof (Hscan p Hor) as Hs. assert (x = p) as -> by congruence. exfalso.
    unfold alive in Ha. apply bool_decide_eq_false in Ha. apply Ha.
    destruct Hor as [?| ->]; [done|by rewrite Hme].
  - unfold alive. rewrite Hx, bool_decide_true by done. destruct (Hsc name x) as [Hxs ->]; [by left|done|done|].
    assert (x ∉ C) as HxC by (intros HxC; apply (Hno x HxC); by left).
    exists ({[x]} ∪ C). split_and!; [set_solver| | | |set_solver].
    + rewrite size_union, size_singleton by set_solver. lia.
    + intros p [->%elem_of_singleton|HpC]%elem_of_union; [done|].
      specialize (Hno p HpC). set_solver.
    + intros p Hp Hor. destruct (Hall p Hp Hor) as [?|[Heq|?]%elem_of_cons]; [set_solver| |by right].
      left. pose proof (Hscan p Hor) as Hs. rewrite Heq in Hs. assert (x = p) as -> by congruence. set_solver.
Qed.

Lemma nstep_inv w w' : inv w → nstep phase w w' → inv w'.
Proof.
  intros Hw Hs. destruct Hs as [me Hme|me names Hme Hnm Hlen|me name names ret seen Hme|
    me ret seen Hme Hin|me ret seen Hme Hin|me ret seen Hme|me Hme].
  - pose proof Hw as [Hrg Hf Hd Hp].
    assert (∀ p, is_Some (<[me := NWritten]> (procs w) !! p) ↔ is_Some (procs w !! p)) as Hal.
    { intros p. destruct (decide (p = me)) as [->|]; [|by rewrite lookup_insert_ne].
      rewrite lookup_insert_eq, Hme. split; by eexists. }
    assert (∀ p, p ∈ running (MkWorld ({[worker_file phase me]} ∪ names_in w) (<[me := NWritten]> (procs w)))
      ↔ p = me ∨ p ∈ running w) as Hrun.
    { intros p. rewrite !elem_of_running. simpl. destruct (decide (p = me)) as [->|].
      - rewrite lookup_insert_eq. naive_solver.
      - rewrite lookup_insert_ne by done. naive_solver. }
    split; simpl.
    + intros p pc. rewrite lookup_insert_Some. intros [[<- _]|[_ ?]]; eauto.
    + intros p [->|?%Hf]%Hrun; set_solver.
    + intros name p. rewrite elem_of_union, elem_of_singleton. intros [->|Hin] Hsc Hp'%Hal.
      * rewrite scan_worker in Hsc by eauto. simplify_eq. split; [done|]. apply Hrun. by left.
      * destruct (Hd name p Hin Hsc Hp') as [-> ?]. split; [done|]. apply Hrun. by right.
    + intros p pc. rewrite lookup_insert_Some. intros [[<- <-]|[_ H0]]; [done|].
      apply (pc_ok_mono (λ q, is_Some (procs w !! q))); [intros q Hq; by apply Hal|eauto].
  - apply (ninv_goto w me NWritten); [done|done|done|]. simpl.
    assert (me ∈ running w) as Hrun by (apply elem_of_running; by eexists).
    assert (∀ f, f ∈ names ↔ f ∈ names_in w) as Hel by (intros f; by rewrite Hnm, elem_of_elements).
    split_and!; [rewrite Hnm; apply NoDup_elements|done|]. exists ∅.
    split_and!; [set_solver|by rewrite size_empty|set_solver| |].
    + intros p Hp _. right. apply Hel. by apply (i_file w Hw).
    + intros name p Hin%Hel Hsc Hp. destruct (i_dir w Hw name p Hin Hsc Hp). done.
  - eapply ninv_goto; [done|done|done|]. by apply scan_step.
  - pose proof Hw as [Hrg Hf Hd Hp]. pose proof (Hp me _ Hme) as Hok. simpl in Hok.
    assert (∀ p, is_Some (<[me := NRet ret seen]> (procs w) !! p) ↔ is_Some (procs w !! p)) as Hal.
    { intros p. destruct (decide (p = me)) as [->|]; [|by rewrite lookup_insert_ne].
      rewrite lookup_insert_eq, Hme. split; by eexists. }
    assert (∀ p, p ∈ running (MkWorld (names_in w ∖ {[worker_file phase me]})
      (<[me := NRet ret seen]> (procs w))) ↔ p ≠ me ∧ p ∈ running w) as Hrun.
    { intros p. rewrite !elem_of_running. simpl. destruct (decide (p = me)) as [->|].
      - rewrite lookup_insert_eq. naive_solver.
      - rewrite lookup_insert_ne by done. naive_solver. }
    split; simpl.
    + intros p pc. rewrite lookup_insert_Some. intros [[<- _]|[_ ?]]; eauto.
    + intros p [Hne Hr]%Hrun. apply elem_of_difference. split; [by apply Hf|].
      rewrite elem_of_singleton. intros Heq. apply Hne. apply elem_of_running in Hr as (pc & Hpc & _).
      by eapply worker_file_inj.
    + intros name p. rewrite elem_of_difference, elem_of_singleton. intros [Hn Hne] Hsc Hp'%Hal.
      destruct (Hd name p Hn Hsc Hp') as [-> ?]. split; [done|]. apply Hrun. split; [congruence|done].
    + intros p pc. rewrite lookup_insert_Some.
      intros [[<- <-]|[_ H0]]; (apply (pc_ok_mono (λ q, is_Some (procs w !! q)));
        [intros q Hq; by apply Hal|]); [done|eauto].
  - destruct Hin. apply (i_file w Hw), elem_of_running. by eexists.
  - eapply ninv_goto; [done|done|done|done].
  - pose proof Hw as [Hrg Hf Hd Hp].
    assert (∀ p, p ∈ running (MkWorld (names_in w) (delete me (procs w))) ↔ p ≠ me ∧ p ∈ running w) as Hrun.
    { intros p. rewrite !elem_of_running. simpl. setoid_rewrite lookup_delete_Some. naive_solver. }
    split; simpl.
    + intros p pc. rewrite lookup_delete_Some. intros [_ ?]. eauto.
    + intros p [_ Hr]%Hrun. by apply Hf.
    + intros name p Hin Hsc [pc Hpc]. apply lookup_delete_Some in Hpc as [Hne Hpc].
      destruct (Hd name p Hin Hsc) as [-> ?]; [by eexists|]. split; [done|]. by apply Hrun.
    + intros p pc. rewrite lookup_delete_Some. intros [_ Hpc].
      apply (pc_ok_mono (λ q, is_Some (procs w !! q))); [|eauto].
      intros q [? [_ Hq]%lookup_delete_Some]. by eexists.
Qed.

Lemma nstart_inv w : nstart phase w → inv w.
Proof.
  intros [Hp Hn]. split.
  - intros p pc Hpc. by apply (Hp p pc).
  - intros p (pc & Hpc & Hph)%elem_of_running. destruct (Hp p pc Hpc) as [-> _]. done.
  - intros name p Hin. by rewrite (Hn name Hin).
  - intros p pc Hpc. by destruct (Hp p pc Hpc) as [-> _].
Qed.
End nparallel.

(** nparallel counts the workers that run at the same time, whatever happens
    concurrently: processes enter and leave it, read the directory and check each
    other in any interleaving, and may die.  When [me] has returned, it has counted
    itself, and only workers that were in nparallel when it read the directory; if
    all of those are still alive it has counted all of them.  Removing the file never
    fails. *)
Theorem nparallel_exact phase w0 w me :
  nstart phase w0 → rtc (nstep phase) w0 w →
  match procs w !! me with
  | Some (NRet ret seen) =>
      me ∈ seen ∧ 1 ≤ ret ≤ Z.of_nat (size seen) ∧
      ((∀ q, q ∈ seen → is_Some (procs w !! q)) → ret = Z.of_nat (size seen))
  | Some NPanic => False
  | _ => True
  end.
Proof.
  intros Hst Hr. assert (inv phase w) as Hw.
  { apply nstart_inv in Hst. induction Hr as [|a b c Hab _ IH]; [done|]. by apply IH, (nstep_inv phase a). }
  destruct (procs w !! me) as [pc|] eqn:Hme; [|done]. pose proof (i_pc phase w Hw me pc Hme) as Hok.
  destruct pc as [| |names ret seen|ret seen|]; try done.
  destruct Hok as (_ & Hms & C & HC & -> & _ & Hall & _).
  assert (∀ p, p ∈ seen → is_Some (procs w !! p) ∨ p = me → p ∈ C) as Hin.
  { intros p Hp Hor. destruct (Hall p Hp Hor) as [?|Hx]; [done|]. by apply not_elem_of_nil in Hx. }
  pose proof (subseteq_size C seen HC) as Hle. split_and!; [done| |lia|].
  - assert (me ∈ C) as HmC by (apply Hin; auto).
    assert (size C ≠ 0)%nat; [|lia]. intros H0%size_empty_inv. set_solver.
  - intros Hal. f_equal. f_equal. apply (anti_symm (⊆)); [done|]. intros p Hp. apply Hin; auto.
Qed.

(** Two workers; the second one reads the directory while the first one runs. *)
Definition example_world : world := MkWorld {["pg-dorian.txt"%string]} {[5 := NOut; 17 := NOut]}.
Lemma example_nstart : nstart "map" example_world.
Proof.
  split.
  - intros pid p. simpl. rewrite lookup_insert_Some. intros [[<- <-]|[_ [<- <-]%lookup_singleton_Some]];
      (split; [done|]); unfold two63; lia.
  - intros name. simpl. rewrite elem_of_singleton. intros ->. reflexivity.
Qed.

(** The loop ends. *)
Lemma nscan_all phase names w me ret seen :
  procs w !! me = Some (NScan names ret seen) → ∃ w' ret', rtc (nstep phase) w w' ∧
    procs w' !! me = Some (NScan [] ret' seen) ∧ names_in w' = names_in w.
Proof.
  revert w ret. induction names as [|name names IH]; intros w ret Hme; [by exists w, ret|].
  pose proof (n_scan phase w me name names ret seen Hme) as Hs.
  match type of Hs with nstep _ _ ?w1 => destruct (IH w1 _ (lookup_insert_eq _ _ _)) as (w' & ret' & Hr & Hme' & Hn) end.
  exists w', ret'. split; [|done]. by eapply rtc_l.
Qed.

Lemma nparallel_exact_witness :
  ∃ w, rtc (nstep "map") example_world w ∧
    match procs w !! 17 with
    | Some (NRet ret seen) => 17 ∈ seen ∧ 1 ≤ ret ≤ Z.of_nat (size seen)
    | _ => False
    end.
Proof.
  set (w1 := MkWorld ({[worker_file "map" 5]} ∪ names_in example_world) (<[5 := NWritten]> (procs example_world))).
  set (w2 := MkWorld ({[worker_file "map" 17]} ∪ names_in w1) (<[17 := NWritten]> (procs w1))).
  set (ns := elements (names_in w2)).
  destruct (nscan_all "map" ns (goto 17 (NScan ns 0 (running w2)) w2) 17 0 (running w2))
    as (w4 & ret & Hr & H4 & Hn); [apply lookup_insert_eq|].
  set (w5 := MkWorld (names_in w4 ∖ {[worker_file "map" 17]}) (<[17 := NRet ret (running w2)]> (procs w4))).
  assert (rtc (nstep "map") example_world w5) as Hrun.
  { eapply rtc_l; [by apply (n_write "map" example_world 5)|].
    eapply rtc_l; [by apply (n_write "map" w1 17)|].
    eapply rtc_l; [apply (n_read "map" w2 17 ns); [done|done|by vm_compute]|].
    eapply rtc_r; [exact Hr|]. apply n_remove; [done|]. rewrite Hn. simpl. set_solver. }
  exists w5. split; [exact Hrun|].
  pose proof (nparallel_exact "map" example_world w5 17 example_nstart Hrun) as Hex.
  assert (procs w5 !! 17 = Some (NRet ret (running w2))) as H5 by apply lookup_insert_eq.
  rewrite H5 in Hex |- *. destruct Hex as (H6 & H7 & _). split; [exact H6|exact H7].
Defined.
