(* ===== verification/MrRun.v ===== *)
(** * Running the MapReduce processes (mr/util.go, mr/mr_test.go)

    [runMRchan] starts the coordinator and [n] workers as processes, waits for the
    coordinator, and reports on the channel [c]: a goroutine per worker sends the number
    of the worker when its process has ended, and runMRchan sends [n] when the coordinator
    has.  The processes may write any files while they run; their programs are in MrLab.v.
    A goroutine of the test receives from [c], which has no buffer: that of
    TestCrashWorker starts a worker again, that of TestEarlyExit counts and merges the
    output once (mergeOutput of MrTest.v).  The step relation has runMRchan, the processes
    with their goroutines, and the receiver. *)

From S2P Require Import Prelude MrTest.

Local Open Scope Z_scope.

Module MrRun.

Section run.
(** [n] workers. *)
Context (n : nat).

(** runMRchan *)
Inductive mpc :=
| StartCoord
| Sleeping
| Spawning (i : nat)     (** the loop over the workers *)
| WaitCoord              (** coord.Wait() *)
| SendDone               (** c <- n *)
| Removing               (** os.Remove(sock) *)
| Returned
| Fatal.                 (** log.Fatalf *)

(** The process of the coordinator; [ok] is whether it exited with 0. *)
Inductive cpc := CNone | CRunning | CExited (ok : bool).

(** A worker's process, and its goroutine: cmd.Wait(), c <- i, done. *)
Inductive wpc := Alive | Sending | Sent.

(** The goroutine that receives: none ([c] is nil), or the one of TestCrashWorker or of
    TestEarlyExit. *)
Inductive rpc :=
| NoChan
| CrashRecv              (** w := <-c *)
| CrashStart (w : nat)   (** startWorker(app, w, c, sock) *)
| CrashDone
| EarlyRecv (i : nat)    (** <-c *)
| EarlyMerge             (** mergeOutput("mr-wc-initial.txt"), when i == 0 *)
| EarlySignal            (** c0 <- true *)
| EarlyDone.             (** TestEarlyExit has received from c0 *)

Record run := MkRun {
  main : mpc; coord : cpc; workers : list (nat * wpc); reader : rpc;
  files : MrTest.files     (** what the test sees of the file system *)
}.
Implicit Types st : run.

Definition set_main m st := MkRun m (coord st) (workers st) (reader st) (files st).
Definition set_coord c st := MkRun (main st) c (workers st) (reader st) (files st).
Definition set_worker k i p st := MkRun (main st) (coord st) (<[k := (i, p)]> (workers st)) (reader st) (files st).
Definition set_reader r st := MkRun (main st) (coord st) (workers st) r (files st).
Definition set_files fs st := MkRun (main st) (coord st) (workers st) (reader st) fs.

(** startWorker *)
Definition startWorker (i : nat) st : run :=
  MkRun (main st) (coord st) (workers st ++ [(i, Alive)]) (reader st) (files st).

Inductive runMRchan st : run → Prop :=
| m_coord : main st = StartCoord → runMRchan st (set_main Sleeping (set_coord CRunning st))
| m_sleep : main st = Sleeping → runMRchan st (set_main (Spawning 0) st)
| m_spawn i : main st = Spawning i → (i < n)%nat →
    runMRchan st (set_main (Spawning (S i)) (startWorker i st))
| m_spawned : main st = Spawning n → runMRchan st (set_main WaitCoord st)
| m_wait : main st = WaitCoord → coord st = CExited true →
    runMRchan st (set_main (match reader st with NoChan => Removing | _ => SendDone end) st)
| m_failed : main st = WaitCoord → coord st = CExited false → runMRchan st (set_main Fatal st)
| m_remove : main st = Removing → runMRchan st (set_main Returned st)
| m_nostart i : main st = StartCoord ∨ main st = Spawning i → runMRchan st (set_main Fatal st).

(** The processes write files and end when they like; a worker's goroutine sends if there
    is a channel. *)
Inductive process st : run → Prop :=
| p_write fs : coord st = CRunning ∨ (∃ k i, workers st !! k = Some (i, Alive)) → process st (set_files fs st)
| p_coord ok : coord st = CRunning → process st (set_coord (CExited ok) st)
| p_worker k i : workers st !! k = Some (i, Alive) →
    process st (set_worker k i (match reader st with NoChan => Sent | _ => Sending end) st).

(** What the receiver does with a number. *)
Definition receive (w : nat) (r : rpc) : option rpc :=
  match r with
  | CrashRecv => Some (if decide (w = n) then CrashDone else CrashStart w)
  | EarlyRecv 0 => Some EarlyMerge
  | EarlyRecv (S i) => Some (if decide (S (S i) < n + 1)%nat then EarlyRecv (S (S i)) else EarlySignal)
  | _ => None
  end.

(** A send and a receive meet. *)
Inductive meet st : run → Prop :=
| c_worker k i r : workers st !! k = Some (i, Sending) → receive i (reader st) = Some r →
    meet st (set_reader r (set_worker k i Sent st))
| c_coord r : main st = SendDone → receive n (reader st) = Some r →
    meet st (set_reader r (set_main Removing st)).

Context `{MrTest.Cmds} (tmp : string).

(** mergeOutput("mr-wc-initial.txt") *)
Definition first_look (fs : MrTest.files) : res MrTest.files := MrTest.mergeOutput tmp "mr-wc-initial.txt" fs.

(** The receiver between two receives: startWorker and mergeOutput may end the test;
    TestEarlyExit receives from c0 after runMRchan. *)
Inductive receiver st : run → Prop :=
| r_start w : reader st = CrashStart w → receiver st (set_reader CrashRecv (startWorker w st))
| r_nostart w : reader st = CrashStart w → receiver st (set_main Fatal st)
| r_merge fs : reader st = EarlyMerge → first_look (files st) = Ret fs →
    receiver st (set_reader (if decide (1 < n + 1)%nat then EarlyRecv 1 else EarlySignal) (set_files fs st))
| r_nomerge f : reader st = EarlyMerge → first_look (files st) = Stop f → receiver st (set_main Fatal st)
| r_signal : reader st = EarlySignal → main st = Returned → receiver st (set_reader EarlyDone st).

Inductive step st st' : Prop :=
| s_main : runMRchan st st' → step st st'
| s_process : process st st' → step st st'
| s_meet : meet st st' → step st st'
| s_receiver : receiver st st' → step st st'.

Definition begin (r : rpc) (fs : MrTest.files) : run := MkRun StartCoord CNone [] r fs.
(** runMR: without a channel. *)
Definition runMR (fs : MrTest.files) : run := begin NoChan fs.
End run.
End MrRun.
