(* ===== verification/MrRunSpec.v ===== *)
(** * Running the MapReduce processes: properties (mr/util.go, mr/mr_test.go) *)

From S2P Require Import Prelude MrTest MrTestSpec MrRun.
Import MrRun.

Local Open Scope Z_scope.

(** A worker whose number the receiver has not got yet. *)
Definition owing (x : nat * wpc) : Z := match x.2 with Sent => 0 | _ => 1 end.

(** ** TestCrashWorker *)

Global Instance mpc_eq_dec : EqDecision mpc.
Proof. solve_decision. Defined.

Global Instance rpc_eq_dec : EqDecision rpc.
Proof. solve_decision. Defined.

Section crash.
Context (n : nat) `{MrTest.Cmds} (tmp : string).
Implicit Types st : run.

(** Processes of worker [i] that run, or have ended and are still to be replaced. *)
Definition active (i : nat) (x : nat * wpc) : Z := if decide (x.1 = i) then owing x else 0.
Definition starting (i : nat) (r : rpc) : Z :=
  match r with CrashStart w => if decide (w = i) then 1 else 0 | _ => 0 end.
Definition incarnations (i : nat) st : Z := sumf (active i) (workers st) + starting i (reader st).

(** Has runMRchan started worker [i]? *)
Definition started (i : nat) (m : mpc) : bool :=
  match m with
  | StartCoord | Sleeping => false
  | Spawning j => bool_decide (i < j)%nat
  | _ => bool_decide (i < n)%nat
  end.

(** The receiver has not received [n] yet. *)
Definition waiting (r : rpc) : Prop :=
  match r with CrashRecv => True | CrashStart w => (w < n)%nat | _ => False end.

(** Where runMRchan, the coordinator and the receiver are. *)
Definition shape (m : mpc) (c : cpc) (r : rpc) : Prop :=
  match m with
  | StartCoord => c = CNone ∧ waiting r
  | Sleeping | WaitCoord => c ≠ CNone ∧ waiting r
  | Spawning i => (i ≤ n)%nat ∧ c ≠ CNone ∧ waiting r
  | SendDone => c = CExited true ∧ waiting r
  | Removing | Returned => c = CExited true ∧ r = CrashDone
  | Fatal => False
  end.

Record crash_inv st : Prop := {
  k_shape : shape (main st) (coord st) (reader st);
  k_index k i p : workers st !! k = Some (i, p) → (i < n)%nat;
  k_one i : reader st ≠ CrashDone → incarnations i st = if started i (main st) then 1 else 0
}.

Lemma active_new i j : active i (j, Alive) = if decide (j = i) then 1 else 0.
Proof. done. Qed.

Lemma fatal_stays st st' : main st = Fatal → step n tmp st st' → main st' = Fatal.
Proof.
  intros Hf [Hs|Hs|Hs|Hs]; destruct Hs; simpl; try congruence.
Qed.

(** runMRchan moves without starting a worker. *)
Lemma crash_main st m c :
  crash_inv st → (m ≠ Fatal → shape m c (reader st)) → (∀ i, started i m = started i (main st)) →
  m = Fatal ∨ crash_inv (set_main m (set_coord c st)).
Proof.
  intros [K1 K2 K3] Hsh Hst. destruct (decide (m = Fatal)) as [|Hf]; [by left|right].
  split; simpl; [by apply Hsh|done|]. intros i Hr. rewrite Hst. by apply K3.
Qed.

(** A worker is started: by runMRchan, or by the receiver instead of one that ended. *)
Lemma incarnations_start i j m c ws r fs :
  incarnations j (MkRun m c (ws ++ [(i, Alive)]) r fs) = incarnations j (MkRun m c ws r fs) + if decide (i = j) then 1 else 0.
Proof.
  unfold incarnations. cbn [workers reader]. rewrite sumf_app, sumf_cons, active_new.
  change (sumf (active j) []) with 0. lia.
Qed.

Lemma waiting_receives i r r' :
  (i < n)%nat → waiting r → receive n i r = Some r' → r = CrashRecv ∧ r' = CrashStart i.
Proof. intros Hi Hw. destruct r; try done. simpl. rewrite decide_False by lia. by intros [= <-]. Qed.

Lemma shape_waiting m c r : shape m c r → r ≠ CrashDone → waiting r ∧ m ≠ Removing ∧ m ≠ Returned.
Proof. destruct m; simpl; intros Hs Hr; naive_solver. Qed.

Lemma crash_chan st st' : crash_inv st → runMRchan n st st' → main st' = Fatal ∨ crash_inv st'.
Proof.
  intros Hinv Hs. pose proof (k_shape _ Hinv) as Hsh. destruct st as [m c ws r fs]. simpl in Hsh.
  destruct Hs as [Hm|Hm|i Hm Hi|Hm|Hm Hc|Hm Hc|Hm|i Hm]; simpl in *; subst; simpl in Hsh.
  - apply (crash_main (MkRun StartCoord c ws r fs) Sleeping CRunning Hinv); [naive_solver|done].
  - apply (crash_main (MkRun Sleeping c ws r fs) (Spawning 0) c Hinv); [|done]. intros _. simpl. split; [lia|done].
  - right. destruct Hinv as [K1 K2 K3]. split; simpl.
    + destruct Hsh as (? & ? & ?). split_and!; [lia|done..].
    + intros k j p. rewrite lookup_snoc_Some. intros [[_ ?]|[_ [= <- <-]]]; [by eapply K2|done].
    + intros j Hr. etrans; [apply (incarnations_start i j (Spawning (S i)) c ws r fs)|]. specialize (K3 j Hr).
      change (incarnations j (MkRun (Spawning i) c ws r fs)) with (incarnations j (MkRun (Spawning (S i)) c ws r fs)) in K3.
      simpl in K3. rewrite K3. repeat case_bool_decide; case_decide; lia.
  - apply (crash_main (MkRun (Spawning n) c ws r fs) WaitCoord c Hinv); [naive_solver|done].
  - destruct Hsh as [_ Hw]. destruct r; try done;
      (apply (crash_main (MkRun WaitCoord (CExited true) ws _ fs) SendDone (CExited true) Hinv); done).
  - by left.
  - apply (crash_main (MkRun Removing c ws r fs) Returned c Hinv); done.
  - by left.
Qed.

Lemma crash_step st st' : crash_inv st → step n tmp st st' → main st' = Fatal ∨ crash_inv st'.
Proof.
  intros Hinv [Hs|Hs|Hs|Hs]; [by eapply crash_chan|..]; pose proof Hinv as [K1 K2 K3];
    destruct st as [m c ws r fs]; simpl in *.
  - right. destruct Hs as [fs' Hw|ok Hc|k i Hk]; simpl in *.
    + by split.
    + subst. split; simpl; [|done|done]. by destruct m; simpl in *; naive_solver.
    + split; simpl; [done| |].
      * intros k' j p. rewrite list_lookup_insert_Some. intros [(_ & [= <- <-] & _)|[_ ?]]; by eapply K2.
      * intros j Hr. rewrite <-K3 by done. unfold incarnations. simpl. rewrite (sumf_insert _ _ _ _ _ Hk).
        destruct (shape_waiting _ _ _ K1 Hr) as [Hw _]. unfold active, owing. simpl. destruct r; try done; case_decide; lia.
  - right. destruct Hs as [k i r' Hk Hrec|r' Hm Hrec]; simpl in *.
    + destruct (decide (r = CrashDone)) as [->|Hr]; [done|]. destruct (shape_waiting _ _ _ K1 Hr) as [Hw _].
      destruct (waiting_receives _ _ _ (K2 _ _ _ Hk) Hw Hrec) as [-> ->]. pose proof (K2 _ _ _ Hk) as Hi. split; simpl.
      * destruct m; simpl in *; naive_solver.
      * intros k' j p. rewrite list_lookup_insert_Some. intros [(_ & [= <- <-] & _)|[_ ?]]; by eapply K2.
      * intros j _. rewrite <-K3 by done. unfold incarnations. simpl. rewrite (sumf_insert _ _ _ _ _ Hk).
        unfold active, owing. simpl. case_decide; lia.
    + subst m. simpl in K1. destruct K1 as [-> Hw]. destruct r; try done. simpl in Hrec.
      rewrite decide_True in Hrec by done. injection Hrec as <-. split; simpl; done.
  - destruct Hs as [w Hr|w Hr|fs' Hr Hl|f Hr Hl|Hr Hm]; simpl in *; subst r; [right|by left|..].
    + assert (waiting (CrashStart w)) as Hw by (by apply (shape_waiting m c)). split; simpl.
      * destruct m; simpl in *; naive_solver.
      * intros k j p. rewrite lookup_snoc_Some. intros [[_ ?]|[_ [= <- <-]]]; [by eapply K2|done].
      * intros j _. etrans; [apply (incarnations_start w j m c ws CrashRecv fs)|]. rewrite <-K3 by done.
        unfold incarnations. simpl. lia.
    + by destruct (shape_waiting _ _ _ K1) as [? _].
    + by left.
    + by destruct (shape_waiting _ _ _ K1) as [? _].
Qed.

(** ** runMRchan goes on *)

(** runMRchan starts the workers that are left. *)
Lemma spawn_all st i :
  main st = Spawning i → (i ≤ n)%nat →
  ∃ ws, rtc (step n tmp) st (MkRun WaitCoord (coord st) (workers st ++ ws) (reader st) (files st)).
Proof.
  remember (n - i)%nat as k eqn:Hk. revert st i Hk. induction k as [|k IH]; intros [m c ws r fs] i Hk Hm Hi; simpl in *; subst m.
  - assert (i = n) as -> by lia. exists []. rewrite (right_id_L [] (++)). by apply rtc_once, s_main, m_spawned.
  - destruct (IH (MkRun (Spawning (S i)) c (ws ++ [(i, Alive)]) r fs) (S i)) as [ws' Hr]; [lia|done|lia|]. simpl in Hr.
    exists ((i, Alive) :: ws'). eapply rtc_l; [apply s_main, (m_spawn n _ i); [done|lia]|].
    by rewrite <-(assoc_L (++)) in Hr.
Qed.

(** It reaches the wait for the coordinator. *)
Lemma reaches_wait st :
  coord st = CExited true → (main st = Sleeping ∨ ∃ i, main st = Spawning i ∧ (i ≤ n)%nat) →
  ∃ ws, rtc (step n tmp) st (MkRun WaitCoord (CExited true) (workers st ++ ws) (reader st) (files st)).
Proof.
  destruct st as [m c ws r fs]. simpl. intros -> [->|(i & -> & Hi)].
  - destruct (spawn_all (MkRun (Spawning 0) (CExited true) ws r fs) 0) as [ws' Hr]; [done|lia|].
    exists ws'. eapply rtc_l; [by apply s_main, m_sleep|]. exact Hr.
  - by apply (spawn_all (MkRun (Spawning i) (CExited true) ws r fs) i).
Qed.

Lemma crash_returns st : crash_inv st → coord st = CExited true → ∃ st', rtc (step n tmp) st st' ∧ main st' = Returned.
Proof.
  intros [K1 _ _] Hc.
  assert (∀ ws fs, ∃ st', rtc (step n tmp) (MkRun SendDone (CExited true) ws CrashRecv fs) st' ∧ main st' = Returned) as Hrecv.
  { intros ws fs. eexists. split.
    - eapply rtc_l; [eapply s_meet, c_coord; [done|]; simpl; by rewrite decide_True|].
      eapply rtc_once, s_main, m_remove. done.
    - done. }
  assert (∀ ws r fs, waiting r → ∃ st', rtc (step n tmp) (MkRun SendDone (CExited true) ws r fs) st' ∧ main st' = Returned) as Hsend.
  { intros ws r fs Hw. destruct r as [| |w| | | | |]; try exact (False_ind _ Hw); [apply Hrecv|].
    destruct (Hrecv (ws ++ [(w, Alive)]) fs) as (st' & Hr & Hm). exists st'. split; [|done].
    eapply rtc_l; [by apply s_receiver, (r_start n _ _ w)|]. exact Hr. }
  assert (∀ ws r fs, waiting r → ∃ st', rtc (step n tmp) (MkRun WaitCoord (CExited true) ws r fs) st' ∧ main st' = Returned) as Hwait.
  { intros ws r fs Hw. destruct (Hsend ws r fs Hw) as (st' & Hr & Hm). exists st'. split; [|done].
    eapply rtc_l; [by apply s_main, m_wait|]. simpl. by destruct r. }
  assert (waiting (reader st) → (main st = Sleeping ∨ ∃ i, main st = Spawning i ∧ (i ≤ n)%nat) →
    ∃ st', rtc (step n tmp) st st' ∧ main st' = Returned) as Hearly.
  { intros Hw Hm. destruct (reaches_wait st Hc Hm) as [ws Hr].
    destruct (Hwait (workers st ++ ws) (reader st) (files st) Hw) as (st' & Hr' & Hm'). exists st'. split; [by etrans|done]. }
  destruct st as [m c ws r fs]. simpl in *. subst c. destruct m; simpl in K1.
  - naive_solver.
  - apply Hearly; [naive_solver|by left].
  - apply Hearly; [naive_solver|right; eexists; naive_solver].
  - apply Hwait. naive_solver.
  - apply Hsend. naive_solver.
  - eexists. split; [by apply rtc_once, s_main, m_remove|done].
  - eexists. split; [apply rtc_refl|done].
  - done.
Qed.

Lemma crash_reach fs st : rtc (step n tmp) (begin CrashRecv fs) st → main st = Fatal ∨ crash_inv st.
Proof.
  intros Hr. revert st Hr. apply rtc_ind_r.
  - right. split; simpl; try done.
  - intros st st' _ Hs [Hf|Hinv]; [left; by eapply fatal_stays|by eapply crash_step].
Qed.
End crash.

(** C23. A crashed worker is always replaced, and the test ends with the coordinator.  In
    every reachable state of TestCrashWorker, unless a process could not be started or the
    coordinator failed: while runMRchan waits for the coordinator, every one of the [n]
    workers has exactly one process that runs, or one that has ended and whose
    replacement is on its way; once the coordinator has exited, however many workers have
    ended in the meantime, runMRchan can still return; and when it has returned, the
    coordinator has exited and the receiver has ended. *)
Theorem crashed_workers_replaced n `{MrTest.Cmds} tmp fs st :
  rtc (step n tmp) (begin CrashRecv fs) st → main st ≠ Fatal →
  (∀ i, main st = WaitCoord ∨ main st = SendDone → (i < n)%nat → incarnations i st = 1) ∧
  (coord st = CExited true → ∃ st', rtc (step n tmp) st st' ∧ main st' = Returned) ∧
  (main st = Returned → coord st = CExited true ∧ reader st = CrashDone).
Proof.
  intros Hr Hf. destruct (crash_reach n tmp fs st Hr) as [|Hinv]; [done|]. split_and!.
  - intros i Hm Hi. pose proof (k_shape _ _ Hinv) as Hsh. rewrite (k_one _ _ Hinv).
    + destruct Hm as [-> | ->]; simpl; by rewrite bool_decide_true.
    + intros Hd. rewrite Hd in Hsh. destruct Hm as [Hm|Hm]; rewrite Hm in Hsh; by destruct Hsh.
  - by apply crash_returns.
  - intros Hm. pose proof (k_shape _ _ Hinv) as Hsh. by rewrite Hm in Hsh.
Qed.

(** ** TestEarlyExit *)

Section early.
Context (n : nat) `{MrTest.Cmds} (tmp : string).
Implicit Types st : run.

Definition sent (x : nat * wpc) : Z := match x.2 with Sent => 1 | _ => 0 end.
Definition told (m : mpc) : Z := match m with Removing | Returned => 1 | _ => 0 end.
(** The messages that the receiver has got. *)
Definition received (r : rpc) : Z :=
  match r with
  | EarlyRecv i => Z.of_nat i
  | EarlyMerge => 1
  | EarlySignal | EarlyDone => Z.of_nat n + 1
  | _ => -1
  end.
Definition spawned (m : mpc) : nat :=
  match m with StartCoord | Sleeping => 0 | Spawning i => i | _ => n end.
Definition coord_ok (m : mpc) (c : cpc) : Prop :=
  match m with
  | StartCoord => c = CNone
  | SendDone | Removing | Returned => c = CExited true
  | _ => c ≠ CNone
  end.

Record early_inv st : Prop := {
  e_fatal : main st ≠ Fatal;
  e_coord : coord_ok (main st) (coord st);
  e_len : length (workers st) = spawned (main st);
  e_spawn : (spawned (main st) ≤ n)%nat;
  e_count : sumf sent (workers st) + told (main st) = received (reader st);
  e_recv i : reader st = EarlyRecv i → (i < n + 1)%nat;
  e_done : reader st = EarlyDone → main st = Returned
}.

Lemma sent_bounds ws : 0 ≤ sumf sent ws ≤ Z.of_nat (length ws).
Proof.
  induction ws as [|[i p] ws IH]; [done|]. rewrite sumf_cons. cbn [length].
  assert (0 ≤ sent (i, p) ≤ 1) by (destruct p; unfold sent; simpl; lia). lia.
Qed.

(** A message is received. *)
Lemma receive_counts w r r' :
  receive n w r = Some r' → 0 ≤ received r → (∀ i, r = EarlyRecv i → (i < n + 1)%nat) →
  received r' = received r + 1 ∧ (∀ i, r' = EarlyRecv i → (i < n + 1)%nat) ∧ r' ≠ EarlyDone.
Proof.
  destruct r as [| | | |[|i]| | |]; simpl; try done; try lia; intros [= <-] _ Hi.
  - done.
  - specialize (Hi _ eq_refl). case_decide; (split_and!; [simpl; lia| |done]); [intros j [= <-]; lia|done].
Qed.

Lemma early_step st st' : early_inv st → step n tmp st st' → main st' = Fatal ∨ early_inv st'.
Proof.
  intros [E1 E2 E3 E4 E5 E6 E7] Hs. destruct st as [m c ws r fs]. simpl in *.
  pose proof (sent_bounds ws) as Hb. destruct Hs as [Hs|Hs|Hs|Hs].
  - destruct Hs as [Hm|Hm|i Hm Hi|Hm|Hm Hc|Hm Hc|Hm|i Hm]; simpl in *; subst; simpl in *.
    + right. split; simpl; try done. intros ->. by specialize (E7 eq_refl).
    + right. split; simpl; try done. intros ->. by specialize (E7 eq_refl).
    + right. split; simpl; try done.
      * rewrite length_app. simpl. lia.
      * rewrite sumf_app, sumf_cons. change (sent (i, Alive)) with 0. change (sumf sent []) with 0. lia.
      * intros ->. by specialize (E7 eq_refl).
    + right. split; simpl; try done. intros ->. by specialize (E7 eq_refl).
    + right. assert (r ≠ NoChan) as Hr by (intros ->; simpl in E5; lia).
      replace (match r with NoChan => Removing | _ => SendDone end) with SendDone by by destruct r.
      split; simpl; try done. intros ->. by specialize (E7 eq_refl).
    + by left.
    + right. split; simpl; try done.
    + by left.
  - right. destruct Hs as [fs' Hw|ok Hc|k i Hk]; simpl in *.
    + by split.
    + subst. split; simpl; try done. by destruct m.
    + assert (r ≠ NoChan) as Hr by (intros ->; simpl in E5; destruct m; simpl in *; lia).
      replace (match r with NoChan => Sent | _ => Sending end) with Sending by by destruct r.
      split; simpl; try done; [by rewrite length_insert|]. rewrite (sumf_insert _ _ _ _ _ Hk).
      change (sent (i, Alive)) with 0. change (sent (i, Sending)) with 0. lia.
  - right. destruct Hs as [k i r' Hk Hrec|r' Hm Hrec]; simpl in *.
    + destruct (receive_counts _ _ _ Hrec) as (Hcnt & Hi & Hd); [destruct m; simpl in *; lia|done|].
      split; simpl; try done; [by rewrite length_insert|]. rewrite (sumf_insert _ _ _ _ _ Hk).
      change (sent (i, Sending)) with 0. change (sent (i, Sent)) with 1. lia.
    + subst m. simpl in *. destruct (receive_counts _ _ _ Hrec) as (Hcnt & Hi & Hd); [lia|done|].
      split; simpl; try done. lia.
  - destruct Hs as [w Hr|w Hr|fs' Hr Hl|f Hr Hl|Hr Hm]; simpl in *; subst r; simpl in E5.
    + exfalso. destruct m; simpl in *; lia.
    + by left.
    + right. split; simpl; try done; case_decide; simpl; try done; try lia. intros i [= <-]. lia.
    + by left.
    + right. subst m. split; simpl; try done.
Qed.

(** What is left to do. *)
Definition wrank (x : nat * wpc) : Z := match x.2 with Alive => 3 | Sending => 2 | Sent => 0 end.
Definition mrank (m : mpc) : Z :=
  match m with
  | StartCoord => 4 * Z.of_nat n + 8
  | Sleeping => 4 * Z.of_nat n + 7
  | Spawning i => 4 * (Z.of_nat n - Z.of_nat i) + 6
  | WaitCoord => 5 | SendDone => 4 | Removing => 2 | Returned => 1 | Fatal => 0
  end.
Definition rrank (r : rpc) : Z := match r with EarlyMerge => 2 | EarlyDone => 0 | _ => 1 end.
Definition rank st : Z := mrank (main st) + sumf wrank (workers st) + rrank (reader st).

Lemma rank_nonneg st : early_inv st → 0 ≤ rank st.
Proof.
  intros Hinv. pose proof (e_spawn _ Hinv) as Hs. unfold rank.
  assert (0 ≤ sumf wrank (workers st)).
  { generalize (workers st). intros l. induction l as [|[i []] l IH]; [done|rewrite sumf_cons; cbn; lia..]. }
  assert (0 ≤ mrank (main st)) by (destruct (main st); simpl in *; lia).
  assert (0 ≤ rrank (reader st)) by (destruct (reader st); simpl; lia). lia.
Qed.

(** The receiver can receive as long as a message is missing. *)
Lemma can_receive r w : 0 ≤ received r < Z.of_nat n + 1 → r ≠ EarlyMerge →
  ∃ r', receive n w r = Some r' ∧ rrank r' ≤ rrank r + 1.
Proof.
  destruct r as [| | | |[|i]| | |]; simpl; try lia; try done; intros _ _; eexists; (split; [done|]); [done|].
  case_decide; simpl; lia.
Qed.

Lemma someone_left ws : sumf sent ws < Z.of_nat (length ws) →
  ∃ k i p, ws !! k = Some (i, p) ∧ p ≠ Sent.
Proof.
  induction ws as [|[i p] ws IH]; [cbn; lia|]. rewrite sumf_cons. cbn [length]. intros Hlt.
  destruct p as [| |]; [by exists 0%nat, i, Alive|by exists 0%nat, i, Sending|].
  change (sent (i, Sent)) with 1 in Hlt. destruct IH as (k & j & p & Hk & Hp); [lia|]. by exists (S k), j, p.
Qed.

Lemma one_sent ws : 0 < sumf sent ws → ∃ k i, ws !! k = Some (i, Sent).
Proof.
  induction ws as [|[i p] ws IH]; [cbn; lia|]. rewrite sumf_cons. intros Hlt.
  destruct p as [| |]; [..|by exists 0%nat, i]; change (sent (i, _)) with 0 in Hlt;
    (destruct IH as (k & j & Hk); [lia|]; by exists (S k), j).
Qed.

Lemma all_sent ws k i p : sumf sent ws = Z.of_nat (length ws) → ws !! k = Some (i, p) → p = Sent.
Proof.
  revert k. induction ws as [|[j q] ws IH]; intros k; [done|]. rewrite sumf_cons. cbn [length]. intros Hs.
  pose proof (sent_bounds ws). assert (sent (j, q) ≤ 1) by (destruct q; unfold sent; simpl; lia).
  destruct k as [|k]; simpl; [|apply IH; lia]. intros [= -> ->].
  destruct p as [| |]; unfold sent in *; simpl in *; [lia|lia|done].
Qed.

(** The first look is over, or there is something to look at. *)
Definition look_ok st : Prop :=
  reader st = EarlyRecv 0 ∨ reader st = EarlyMerge → ∃ fs, first_look tmp (files st) = Ret fs.

Lemma look_ok_receive st w r ws m :
  look_ok st → receive n w (reader st) = Some r → look_ok (MkRun m (coord st) ws r (files st)).
Proof.
  unfold look_ok. simpl. intros Hl Hrec [-> | ->].
  - destruct (reader st) as [| | | |[|i]| | |]; simpl in Hrec; simplify_eq; case_decide; simplify_eq.
  - destruct (reader st) as [| | | |[|i]| | |]; simpl in Hrec; simplify_eq; try (case_decide; done). auto.
Qed.

Lemma early_progress st :
  early_inv st → coord st = CExited true → reader st ≠ EarlyDone → look_ok st →
  ∃ st', step n tmp st st' ∧ main st' ≠ Fatal ∧ coord st' = CExited true ∧ look_ok st' ∧ rank st' < rank st.
Proof.
  intros [E1 E2 E3 E4 E5 E6 E7] Hc Hd Hlook. destruct st as [m c ws r fs]. simpl in *. subst c.
  pose proof (sent_bounds ws) as Hb. unfold rank. simpl.
  destruct (decide (r = EarlyMerge)) as [->|Hm].
  { destruct Hlook as [fs' Hl]; [by right|]. eexists. split; [by eapply s_receiver, r_merge|]. simpl.
    split_and!; [done..|intros [Hx|Hx]; simpl in Hx; by case_decide|]. case_decide; simpl; lia. }
  assert (r ≠ NoChan) as Hr by (intros ->; simpl in E5; destruct m; simpl in *; lia).
  destruct m as [| |i| | | | |]; simpl in *; try done.
  - eexists. split; [by apply s_main, m_sleep|]. simpl. split_and!; [done..|exact Hlook|lia].
  - destruct (decide (i = n)) as [->|Hne].
    + eexists. split; [by apply s_main, m_spawned|]. simpl. split_and!; [done..|exact Hlook|lia].
    + eexists. split; [apply s_main, (m_spawn n _ i); [done|lia]|]. simpl. split_and!; [done..|exact Hlook|].
      rewrite sumf_app, sumf_cons. change (wrank (i, Alive)) with 3. change (sumf wrank []) with 0. lia.
  - eexists. split; [by apply s_main, m_wait|]. simpl.
    replace (match r with NoChan => Removing | _ => SendDone end) with SendDone by by destruct r.
    split_and!; [done..|exact Hlook|simpl; lia].
  - destruct (can_receive r n) as (r' & Hrec & Hrank); [lia|done|].
    eexists. split; [by eapply s_meet, c_coord|]. simpl.
    split_and!; [done..|by apply (look_ok_receive (MkRun SendDone (CExited true) ws r fs) n)|lia].
  - eexists. split; [by apply s_main, m_remove|]. simpl. split_and!; [done..|exact Hlook|lia].
  - destruct (decide (sumf sent ws < Z.of_nat (length ws))) as [Hlt|Hge].
    + destruct (someone_left ws Hlt) as (k & i & p & Hk & Hp). destruct p as [| |]; [| |done].
      * eexists. split; [by apply s_process, (p_worker _ k i)|]. simpl. split_and!; [done..|exact Hlook|].
        rewrite (sumf_insert _ _ _ _ _ Hk).
        replace (match r with NoChan => Sent | _ => Sending end) with Sending by by destruct r.
        change (wrank (i, Alive)) with 3. change (wrank (i, Sending)) with 2. lia.
      * destruct (can_receive r i) as (r' & Hrec & Hrank); [lia|done|].
        eexists. split; [by eapply s_meet, (c_worker _ _ k i)|]. simpl.
        split_and!; [done..|by apply (look_ok_receive (MkRun Returned (CExited true) ws r fs) i)|].
        rewrite (sumf_insert _ _ _ _ _ Hk). change (wrank (i, Sending)) with 2. change (wrank (i, Sent)) with 0. lia.
    + assert (r = EarlySignal) as ->.
      { destruct r as [| | | |i| | |]; simpl in *; try done; try lia. specialize (E6 i eq_refl). lia. }
      eexists. split; [by apply s_receiver, r_signal|]. simpl. split_and!; [done..|intros [?|?]; done|lia].
Qed.

Lemma early_ends st :
  early_inv st → coord st = CExited true → look_ok st → ∃ st', rtc (step n tmp) st st' ∧ reader st' = EarlyDone.
Proof.
  remember (Z.to_nat (rank st)) as k eqn:Hk. revert st Hk. induction (lt_wf k) as [k _ IH]. intros st -> Hinv Hc Hlook.
  destruct (decide (reader st = EarlyDone)) as [Hd|Hd]; [exists st; split; [apply rtc_refl|done]|].
  destruct (early_progress st Hinv Hc Hd Hlook) as (st1 & Hs & Hf & Hc1 & Hlook1 & Hlt).
  destruct (early_step st st1 Hinv Hs) as [|Hinv1]; [done|].
  pose proof (rank_nonneg st1 Hinv1). destruct (IH (Z.to_nat (rank st1))) with st1 as (st' & Hr & Hdone); [lia|done..|].
  exists st'. split; [by eapply rtc_l|done].
Qed.

Lemma early_reach fs st : rtc (step n tmp) (begin (EarlyRecv 0) fs) st → main st = Fatal ∨ early_inv st.
Proof.
  intros Hr. revert st Hr. apply rtc_ind_r.
  - right. split; simpl; try done; try lia. intros i [= <-]. lia.
  - intros st st' _ Hs [Hf|Hinv]; [left; by eapply fatal_stays|by eapply early_step].
Qed.
End early.

(** C11. TestEarlyExit looks at the output when it should.  In every reachable state, unless
    a process could not be started, the coordinator failed, or the first look found no
    output to merge: the first look, in the middle of the run, comes when a process has
    ended; the second look, after the receiver has signalled, comes when the coordinator
    and all [n] workers have ended; and once the coordinator has exited, and the first look
    is over or there is output to merge, the test can still come to its second look: no
    worker waits in vain to report and the receiver does not wait for a message too
    many.  When there is nothing to merge at the first look, the test ends there. *)
Theorem early_exit_looks n `{MrTest.Cmds} tmp fs st :
  rtc (step n tmp) (begin (EarlyRecv 0) fs) st → main st ≠ Fatal →
  (reader st = EarlyMerge → coord st = CExited true ∨ ∃ k i, workers st !! k = Some (i, Sent)) ∧
  (reader st = EarlyDone → coord st = CExited true ∧ main st = Returned ∧ length (workers st) = n ∧
    ∀ k i p, workers st !! k = Some (i, p) → p = Sent) ∧
  (coord st = CExited true →
    (reader st = EarlyRecv 0 ∨ reader st = EarlyMerge →
       ∃ fs', MrTest.mergeOutput tmp "mr-wc-initial.txt" (files st) = Ret fs') →
    ∃ st', rtc (step n tmp) st st' ∧ reader st' = EarlyDone) ∧
  (reader st = EarlyMerge → MrTest.findFiles tmp "mr-out-[0-9]" (files st) = [] →
    ∀ st', receiver n tmp st st' → main st' = Fatal).
Proof.
  intros Hr Hf. destruct (early_reach n tmp fs st Hr) as [|Hinv]; [done|].
  pose proof Hinv as [E1 E2 E3 E4 E5 E6 E7]. split_and!.
  - intros Hm. rewrite Hm in E5. simpl in E5. destruct (decide (told (main st) = 0)) as [Hz|Hnz].
    + right. apply one_sent. lia.
    + left. destruct (main st); simpl in *; done.
  - intros Hd. specialize (E7 Hd). rewrite E7, Hd in *. simpl in *. split_and!; [done..|].
    intros k i p Hk. by apply (all_sent (workers st) k i); [lia|].
  - by apply early_ends.
  - intros Hm Hnone st' Hs. destruct Hs as [w Hr'|w Hr'|fs' Hr' Hl|f Hr' Hl|Hr' Hm']; simpl; try congruence.
    unfold first_look, MrTest.mergeOutput in Hl. rewrite Hnone in Hl. by rewrite decide_True in Hl by (simpl; lia).
Qed.

(** *** Witnesses: one worker.  It crashes and is started again; or it writes an output
    file and everything ends. *)

#[local] Existing Instance MrTestSpec.byte_cmds.
Definition no_files : MrTest.files := ∅.
Definition one_out : MrTest.files := {["t/mr-out-0" := MrTest.chars "a 1"]}.
Definition looked_at : MrTest.files :=
  match first_look "t" one_out with Ret fs => fs | Stop _ => ∅ end.
Lemma looked_at_eq : first_look "t" one_out = Ret looked_at.
Proof. vm_compute. reflexivity. Qed.

Definition crashed_once : run := MkRun WaitCoord CRunning [(0%nat, Sent); (0%nat, Alive)] CrashRecv no_files.
Lemma crashed_once_reached : rtc (step 1 "t") (begin CrashRecv no_files) crashed_once.
Proof.
  eapply rtc_l; [by apply s_main, m_coord|]. eapply rtc_l; [by apply s_main, m_sleep|].
  eapply rtc_l; [apply s_main, (m_spawn 1 _ 0); [done|lia]|]. eapply rtc_l; [by apply s_main, m_spawned|].
  eapply rtc_l; [by apply s_process, (p_worker _ 0 0)|].
  eapply rtc_l; [by eapply s_meet, (c_worker 1 _ 0 0)|].
  eapply rtc_l; [by apply s_receiver, (r_start 1 _ _ 0)|]. apply rtc_refl.
Qed.

Lemma crashed_workers_replaced_witness :
  incarnations 0 crashed_once = 1 ∧ main crashed_once = WaitCoord.
Proof.
  split; [|reflexivity].
  refine (proj1 (crashed_workers_replaced 1 "t" no_files crashed_once crashed_once_reached _) 0%nat _ _);
    [discriminate|left; reflexivity|lia].
Defined.

Definition all_over : run := MkRun Returned (CExited true) [(0%nat, Sent)] EarlyDone looked_at.
Lemma all_over_reached : rtc (step 1 "t") (begin (EarlyRecv 0) no_files) all_over.
Proof.
  eapply rtc_l; [by apply s_main, m_coord|]. eapply rtc_l; [by apply s_main, m_sleep|].
  eapply rtc_l; [apply s_main, (m_spawn 1 _ 0); [done|lia]|]. eapply rtc_l; [by apply s_main, m_spawned|].
  eapply rtc_l; [apply s_process, (p_write _ one_out); by left|].
  eapply rtc_l; [by apply s_process, (p_worker _ 0 0)|].
  eapply rtc_l; [by eapply s_meet, (c_worker 1 _ 0 0)|].
  eapply rtc_l; [eapply s_receiver, r_merge; [done|exact looked_at_eq]|].
  eapply rtc_l; [by apply s_process, (p_coord _ true)|].
  eapply rtc_l; [by apply s_main, m_wait|].
  eapply rtc_l; [by eapply s_meet, c_coord|].
  eapply rtc_l; [by apply s_main, m_remove|].
  eapply rtc_l; [by apply s_receiver, r_signal|]. apply rtc_refl.
Qed.

Lemma early_exit_looks_witness : length (workers all_over) = 1%nat ∧ coord all_over = CExited true.
Proof.
  assert (main all_over ≠ Fatal) as Hf by discriminate.
  destruct (early_exit_looks 1 "t" no_files all_over all_over_reached Hf) as (_ & Hd & _ & _).
  destruct (Hd eq_refl) as (Hc & _ & Hl & _). split; [exact Hl|exact Hc].
Defined.
