(* ===== verification/MrLab.v ===== *)
(** * The skeletons of the MapReduce coordinator and worker

    (mr/coordinator.go, mr/rpc.go, mr/worker.go, main/mrcoordinator.go, main/mrworker.go)

    The processes that MrRun.v runs, before anybody has worked on them: the coordinator
    answers the example RPC and is never done; the worker ends at once.  Listening and
    dialling are the operating system's: whether they succeed is an argument, and so is
    what plugin.Open and Lookup find. *)

From S2P Require Import Prelude MapReduce MrRun.
Import MapReduce.

Local Open Scope Z_scope.

Module MrLab.

Record ExampleArgs := MkExampleArgs { X : Z }.
Record ExampleReply := MkExampleReply { Y : Z }.
Record Coordinator := MkCoordinator {}.

Definition Example (c : Coordinator) (args : ExampleArgs) : Coordinator * ExampleReply :=
  (c, MkExampleReply (i64 (X args + 1))).

(** server: [listens] is whether net.Listen succeeds. *)
Definition server (listens : bool) (c : Coordinator) : res Coordinator :=
  if listens then Ret c else Stop LogFatal.
Definition Done (c : Coordinator) : bool := false.
Definition MakeCoordinator (listens : bool) (files : list string) (nReduce : Z) : res Coordinator :=
  server listens MkCoordinator.

(** worker.go: the connection to the coordinator is [None] when dialling fails; a call on
    it returns a reply or an error. *)
Definition call (conn : option (ExampleArgs → option ExampleReply)) (args : ExampleArgs) (reply : ExampleReply) :
    res (ExampleReply * bool) :=
  match conn with
  | None => Stop LogFatal
  | Some c => Ret (match c args with Some r => (r, true) | None => (reply, false) end)
  end.
(** What CallExample prints: reply.Y, or that the call failed. *)
Definition CallExample (conn : option (ExampleArgs → option ExampleReply)) : res (option Z) :=
  let* '(reply, ok) := call conn (MkExampleArgs 99) (MkExampleReply 0) in
  Ret (if ok : bool then Some (Y reply) else None).
(** Worker only remembers the name of the socket. *)
Definition Worker (sockname : string) : string := sockname.

(** mrcoordinator: poll until [done], at the [k]-th poll; the exit status. *)
Fixpoint poll (fuel : nat) (done : nat → bool) (k : nat) : res nat :=
  match fuel with
  | O => Stop OutOfFuel
  | S fuel => if done k then Ret k else poll fuel done (S k)
  end.
Definition mrcoordinator (fuel : nat) (listens : bool) (done : nat → bool) (args : list string) : res Z :=
  if decide (length args < 3)%nat then Ret 1
  else
    let* _ := MakeCoordinator listens (drop 2 args) 10 in
    let* _ := poll fuel done 0 in Ret 0.

(** mrworker: what a plugin has, [None] if it cannot be opened. *)
Record plugin := MkPlugin { p_Map : option (string → string → list KeyValue); p_Reduce : option (string → list string → string) }.
Definition loadPlugin (p : option plugin) :
    res ((string → string → list KeyValue) * (string → list string → string)) :=
  match p with
  | None => Stop LogFatal
  | Some p =>
      match p_Map p with
      | None => Stop LogFatal
      | Some mapf => match p_Reduce p with None => Stop LogFatal | Some reducef => Ret (mapf, reducef) end
      end
  end.
(** mrsequential.go has the same function. *)
Definition mrsequential_loadPlugin (p : option plugin) := loadPlugin p.
Definition mrworker (p : option plugin) (args : list string) : res Z :=
  if decide (length args ≠ 3%nat) then Ret 1 else let* _ := loadPlugin p in Ret 0.

(** The coordinator exits exactly when it is done at some poll. *)
Lemma poll_ends fuel done k : (∃ j, poll fuel done k = Ret j) ↔ ∃ j, (k ≤ j < k + fuel)%nat ∧ done j = true.
Proof.
  revert k. induction fuel as [|fuel IH]; intros k; simpl.
  - split; [by intros [? ?]|intros (j & ? & _); lia].
  - destruct (done k) eqn:Hd.
    + split; [|by eexists]. intros _. exists k. split; [lia|done].
    + rewrite IH. split; intros (j & Hj & Hdj); exists j; (split; [|done]); [lia|].
      destruct (decide (j = k)) as [->|]; [congruence|lia].
Qed.

Lemma mrcoordinator_exits done args :
  (3 ≤ length args)%nat → (∃ fuel, mrcoordinator fuel true done args = Ret 0) ↔ ∃ j, done j = true.
Proof.
  intros Hl. unfold mrcoordinator, MakeCoordinator, server. cbn [rbind]. split.
  - intros [fuel Hf]. rewrite decide_False in Hf by lia. apply rbind_Ret_inv in Hf as (k & Hp & _).
    destruct (proj1 (poll_ends fuel done 0)) as (j & _ & ?); [by eexists|by exists j].
  - intros [j Hj]. exists (S j). rewrite decide_False by lia. destruct (proj2 (poll_ends (S j) done 0)) as [k ->]; [|done].
    exists j. split; [lia|done].
Qed.

(** The skeleton is never done, so a test that runs it does not come back. *)
Lemma skeleton_never_exits c fuel args :
  (3 ≤ length args)%nat → mrcoordinator fuel true (λ _, Done c) args = Stop OutOfFuel.
Proof.
  intros Hl. unfold mrcoordinator, MakeCoordinator, server. rewrite decide_False by lia. cbn [rbind].
  assert (∀ k, poll fuel (λ _, Done c) k = Stop OutOfFuel) as ->; [|done].
  induction fuel as [|fuel IH]; intros k; [done|apply IH].
Qed.

(** reply.Y is 100, as the comment in CallExample says. *)
Lemma example_100 c : CallExample (Some (λ a, Some (Example c a).2)) = Ret (Some 100).
Proof. done. Qed.
End MrLab.
