(* ===== verification/ShardTest.v ===== *)
(** * The tests of the sharded service (shardkv1/test.go)

    A test runs one server group per shard group, next to group 0 for the controller,
    and keeps the shard configuration in the controller in step with the groups that
    run: [joinGroups] starts a group and adds it to the configuration, [leaveGroups]
    removes it and stops it.  The controller is a lab skeleton: the class [ShardCtrler]
    is its interface, [CtrlerLaws] what shardctrler.go documents for a controller that
    is not superseded by another one. *)

From stdpp Require Import pretty.
From S2P Require Import Prelude Fnv ShardCfg KvService LabRpc Group GroupStart Clnts Config ConfigInv ConfigSpec MapReduce Daemon MrTest MrCount.
Import ShardCfg Config.

Module ShardTest.

Definition NSRV : nat := 3.

Class ShardCtrler (K : Type) := {
  Query : K → K * option ShardConfig;   (** [None] is nil *)
  InitConfig : ShardConfig → K → K;
  ChangeConfigTo : ShardConfig → K → K
}.

(** [held] is the current configuration. *)
Class CtrlerLaws {K} `{ShardCtrler K} (held : K → ShardConfig) := {
  query_held k : (Query k).2 = Some (held k);
  query_same k : held (Query k).1 = held k;
  init_held c k : held (InitConfig c k) = c;
  change_held c k : held (ChangeConfigTo c k) = c
}.

(** ** The text of a configuration, which a controller may keep in its server *)

Section text.
Context `{KvService.Json ShardConfig}.
Definition cfg_String (c : ShardConfig) : res string :=
  match KvService.marshal c with Some s => Ret s | None => Stop LogFatal end.
Definition FromString (s : string) : res ShardConfig :=
  match KvService.unmarshal s with Some c => Ret c | None => Stop LogFatal end.

Lemma String_FromString `{!KvService.JsonLaws ShardConfig} c : ∃ s, cfg_String c = Ret s ∧ FromString s = Ret c.
Proof.
  destruct (KvService.marshal_total c) as [s Hs]. exists s. unfold cfg_String, FromString. rewrite Hs. split; [done|].
  by rewrite (KvService.unmarshal_marshal c s Hs).
Qed.
End text.

Section test.
Context {K : Type} `{ShardCtrler K} (rand : nat → string) (ev : Group.env).

(** The configuration of the tester, the controller of the test and the next group
    number; the options of the daemons (maxraftstate) have no part in the groups. *)
Record Test := MkTest { cfg : Config; sck : K; ngid : Z }.
Implicit Types ts : Test.

Definition newGid ts : Z * Test := (ngid ts, MkTest (cfg ts) (sck ts) (ngid ts + 1)).

Fixpoint groups (n : nat) ts : list Z * Test :=
  match n with
  | O => ([], ts)
  | S n => let (g, ts) := newGid ts in let (l, ts) := groups n ts in (g :: l, ts)
  end.

(** The names of the servers of a group. *)
Definition SrvNames (gid : Z) (c : Config) : res (list string) :=
  match lookupGroup gid c with Some sg => Ret (Group.servernames sg) | None => Stop Panic end.

(** makeShardCtrler: a client, at address [p], for a controller. *)
Definition makeShardCtrler (p : nat) (c : Config) : res Config :=
  let* cs := Clnts.MakeClient p (clnts c) in Ret (set_clnts cs c).

Definition setupKVService (p : nat) ts : res (Z * Test) :=
  let* c := makeShardCtrler p (cfg ts) in
  let* c := MakeGroupStart rand ev Gid1 NSRV c in
  let* srvs := SrvNames Gid1 c in
  let* '(scfg, _) := JoinBalance [(Gid1, srvs)] MakeShardConfig in
  Ret (Gid1, MkTest c (InitConfig scfg (sck ts)) (ngid ts)).

(** sck.Query(), whose result the caller dereferences. *)
Definition query (k : K) : res (K * ShardConfig) :=
  let (k, c) := Query k in match c with Some c => Ret (k, c) | None => Stop Panic end.

Definition checkMember (k : K) (gid : Z) : res (K * bool) :=
  let* '(k, c) := query k in Ret (k, IsMember gid c).

Definition join (k : K) (gid : Z) (srvs : list string) : res K :=
  let* '(k, c) := query k in
  let* '(newcfg, ok) := JoinBalance [(gid, srvs)] (Copy c) in
  if ok : bool then Ret (ChangeConfigTo newcfg k) else Stop LogFatal.

Fixpoint joinGroups (gids : list Z) ts : res (bool * Test) :=
  match gids with
  | [] => Ret (true, ts)
  | gid :: gids =>
      let* c := MakeGroupStart rand ev gid NSRV (cfg ts) in
      let* srvs := SrvNames gid c in
      let* k := join (sck ts) gid srvs in
      let* '(k, ok) := checkMember k gid in
      let ts := MkTest c k (ngid ts) in
      if ok : bool then joinGroups gids ts else Ret (false, ts)
  end.

Definition leave (k : K) (gid : Z) : res K :=
  let* '(k, c) := query k in
  let* '(newcfg, ok) := LeaveBalance [gid] (Copy c) in
  if ok : bool then Ret (ChangeConfigTo newcfg k) else Stop LogFatal.

Fixpoint leaveGroups (gids : list Z) ts : res (bool * Test) :=
  match gids with
  | [] => Ret (true, ts)
  | gid :: gids =>
      let* k := leave (sck ts) gid in
      let* '(k, ok) := checkMember k gid in
      if ok : bool then Ret (false, MkTest (cfg ts) k (ngid ts))
      else
        let* c := ExitGroup ev gid (cfg ts) in
        leaveGroups gids (MkTest c k (ngid ts))
  end.
End test.
Arguments Test : clear implicits.

(** ** The configuration after one group joins or leaves *)

Lemma sumf_occ_all (ks l : list Z) :
  NoDup ks → (∀ x, x ∈ l → x ∈ ks) → sumf (λ k, occ k l) ks = Z.of_nat (length l).
Proof.
  intros Hnd. induction l as [|y l IH]; intros Hin.
  - rewrite (sumf_ext _ (λ k : Z, 0 * 0)), sumf_scale by (intros; by rewrite occ_nil). done.
  - rewrite (sumf_ext _ (λ k, (if decide (k = y) then 1 else 0) + occ k l)) by (intros; by rewrite occ_cons).
    rewrite sumf_add, sumf_point, occ_NoDup, IH; [simpl; lia| |done|apply Hin; by left].
    intros x Hx. apply Hin. by right.
Qed.

(** With at most as many groups as shards, every group has a shard. *)
Lemma everyone_has_a_shard c gid :
  wf c → config_ok (map_keys (Groups c)) c → (size (Groups c) ≤ NShards)%nat → live c gid → IsMember gid c = true.
Proof.
  intros Hwf (_ & _ & Hass & Hbal) Hsz Hl. unfold IsMember. apply existsb_exists. exists gid.
  rewrite bool_decide_eq_true. split; [|done]. apply list_elem_of_In, occ_pos.
  assert (gid ∈ map_keys (Groups c)) as Hg by by apply elem_of_map_keys.
  destruct Hass as [He|Hass]; [rewrite He in Hg; by apply not_elem_of_nil in Hg|].
  destruct (decide (0 < occ gid (Shards c))) as [|Hz]; [done|]. exfalso.
  pose proof (occ_nonneg gid (Shards c)).
  assert (sumf (λ k, occ k (Shards c)) (map_keys (Groups c)) ≤
    sumf (λ k, 1 + (if decide (k = gid) then -1 else 0)) (map_keys (Groups c))) as Hle.
  { apply sumf_le. intros k Hk%elem_of_map_keys. pose proof (Hbal k gid Hk Hl) as Hb. unfold load in Hb.
    case_decide as Hk2; [subst|]; lia. }
  rewrite sumf_occ_all, Hwf in Hle; [|apply NoDup_map_keys|intros x Hx; by apply elem_of_map_keys, Hass].
  rewrite sumf_add, sumf_point, occ_NoDup in Hle; [|apply NoDup_map_keys|done].
  assert (sumf (λ _ : Z, 1) (map_keys (Groups c)) = Z.of_nat (size (Groups c))) as Hone.
  { rewrite <-length_map_keys. generalize (map_keys (Groups c)). intros l.
    induction l as [|x l IH]; [done|]. rewrite sumf_cons, IH. simpl. lia. }
  lia.
Qed.

Lemma Copy_eq c : Copy c = c.
Proof.
  destruct c as [n s g]. unfold Copy. simpl. f_equal. rewrite <-(list_to_map_to_list g) at 2.
  assert (∀ l (m : gmap Z (list string)), NoDup l.*1 → (∀ k, k ∈ l.*1 → m !! k = None) →
    fold_left (λ gs '(k, srvs), <[k:=srvs]> gs) l m = list_to_map l ∪ m) as Hf.
  { induction l as [|[k v] l IH]; intros m Hnd Hm; simpl; [by rewrite (left_id_L ∅ (∪))|].
    simpl in Hnd. apply list.NoDup_cons in Hnd as [Hk Hnd]. rewrite IH; [|done|].
    - rewrite <-insert_union_l, <-insert_union_r; [done|]. by apply not_elem_of_list_to_map_1.
    - intros x Hx. rewrite lookup_insert_ne by (intros ->; done). apply Hm. simpl. by right. }
  rewrite Hf; [by rewrite (right_id_L ∅ (∪))|apply NoDup_fst_map_to_list|done].
Qed.

Definition sound (c : ShardConfig) : Prop := wf c ∧ config_ok (map_keys (Groups c)) c.

Lemma IsMember_In g c : IsMember g c = true ↔ g ∈ Shards c.
Proof.
  unfold IsMember. rewrite existsb_exists. setoid_rewrite <-list_elem_of_In. setoid_rewrite bool_decide_eq_true. naive_solver.
Qed.

(** A group that has a shard is not left without one. *)
Lemma Rebalance_keeps c c' g :
  wf c → live c g → g ∈ Shards c → Rebalance c = Ret c' → g ∈ Shards c'.
Proof.
  intros Hwf Hl Hg Heq. assert (Groups c ≠ ∅) as Hne.
  { intros He. unfold live in Hl. rewrite He, lookup_empty in Hl. by apply is_Some_None in Hl. }
  destruct (Rebalance_ind (λ c, g ∈ Shards c) c) as (c2 & Heq' & _ & _ & _ & H); [done|done| | |congruence].
  - destruct (assign_unassigned_spec c Hwf Hne) as (_ & _ & Hrel). apply list_elem_of_lookup in Hg as [i Hi].
    destruct (Forall2_lookup_l _ _ _ _ _ Hrel Hi) as (g' & Hi' & _ & Hg'). rewrite (Hg' Hl) in Hi'.
    by eapply list_elem_of_lookup_2.
  - intros c1 mg lg s _ Hg1 (_ & _ & _ & Hgap & Hs). apply occ_pos. apply occ_pos in Hg1. simpl.
    rewrite (occ_insert g lg mg) by done. pose proof (occ_nonneg lg (Shards c1)) as H0. unfold load in Hgap.
    repeat case_decide; subst; lia.
Qed.

Lemma join_one c gid srvs :
  wf c → Groups c !! gid = None → (∀ h hs x, Groups c !! h = Some hs → x ∈ hs → x ∉ srvs) →
  ∃ c', JoinBalance [(gid, srvs)] (Copy c) = Ret (c', true) ∧ sound c' ∧ Groups c' = <[gid := srvs]> (Groups c) ∧
    Num c' = i64 (Num c + 1) ∧ ∀ g, live c g → g ∈ Shards c → g ∈ Shards c'.
Proof.
  intros Hwf Hn Hfr. rewrite Copy_eq. unfold JoinBalance. rewrite Join_joinable by done. cbn [rbind negb].
  assert (list_to_map [(gid, srvs)] ∪ Groups c = <[gid := srvs]> (Groups c)) as ->.
  { simpl. rewrite <-insert_union_l. by rewrite (left_id_L ∅ (∪)). }
  set (c1 := ShardCfg.MkConfig _ _ _).
  edestruct (Rebalance_checked c1) as (c' & Hreb & Hsame & Hok); [| |]; [exact Hwf|apply range_order_refl|].
  rewrite Hreb. exists c'. cbn [rbind]. split; [done|]. pose proof (same_groups_wf _ _ Hsame Hwf).
  destruct Hsame as (Hnum & Hgs & _). simpl in Hnum, Hgs, Hok. rewrite <-Hgs in Hok. split_and!; [done..|].
  intros g Hl Hg. apply (Rebalance_keeps c1 c'); [exact Hwf| |exact Hg|exact Hreb].
  unfold live. simpl. rewrite lookup_insert_is_Some'. by right.
Qed.

(** Every shard belongs to a group, or to none (0). *)
Definition owned (c : ShardConfig) : Prop := ∀ g, g ∈ Shards c → g ≠ 0 → live c g.

Lemma sound_owned c : sound c → Groups c ≠ ∅ → owned c.
Proof.
  intros (_ & _ & _ & [He|Hass] & _) Hne g Hg _; [|by apply Hass].
  destruct Hne. apply map_size_empty_inv. by rewrite <-length_map_keys, He.
Qed.

Lemma leave_one c gid :
  wf c → is_Some (Groups c !! gid) →
  ∃ c', LeaveBalance [gid] (Copy c) = Ret (c', true) ∧ sound c' ∧ Groups c' = delete gid (Groups c) ∧
    (gid ≠ 0 → IsMember gid c' = false) ∧
    Num c' = i64 (Num c + 1) ∧ owned c' ∧ ∀ g, g ≠ gid → live c g → g ∈ Shards c → g ∈ Shards c'.
Proof.
  intros Hwf [v Hv]. rewrite Copy_eq. unfold LeaveBalance, Leave. cbn [Leave_loop]. rewrite Hv. cbn [rbind negb].
  set (c1 := set_num _ _).
  destruct (Rebalance_checked c1 (map_keys (Groups c1))) as (c' & Hreb & Hsame & Hok);
    [exact Hwf|apply range_order_refl|]. rewrite Hreb. exists c'. cbn [rbind]. split; [done|].
  pose proof (same_groups_wf _ _ Hsame Hwf) as Hwf'. pose proof Hsame as (Hnum & Hgs & _). simpl in Hnum, Hgs.
  assert (owned c') as Hown.
  { intros g Hin H0. destruct Hok as (_ & _ & [He|Hass] & _); [|by apply Hass].
    assert (Groups c1 = ∅) as He' by (apply map_size_empty_inv; by rewrite <-length_map_keys, He).
    unfold Rebalance in Hreb. rewrite Groups_size, bool_decide_true, unassign_all_eq in Hreb by (by rewrite He').
    injection Hreb as <-. simpl in Hin. apply elem_of_replicate in Hin. naive_solver. }
  split; [split; [done|by rewrite Hgs]|]. split; [done|]. split; [|split; [done|split; [done|]]].
  - intros H0. destruct (IsMember gid c') eqn:Hm; [|done]. apply IsMember_In in Hm.
    pose proof (Hown gid Hm H0) as Hl. unfold live in Hl. rewrite Hgs, lookup_delete_eq in Hl. by apply is_Some_None in Hl.
  - intros g Hne Hl Hg. apply (Rebalance_keeps c1 c'); [exact Hwf| |exact Hg|exact Hreb].
    unfold live. simpl. by rewrite lookup_delete_ne.
Qed.

(** ** The names of the servers *)

Definition names (gid : Z) : list string := (λ i, Group.ServerName gid (Z.of_nat i)) <$> seq 0 NSRV.

Lemma names_disjoint g h x : 0 ≤ g → 0 ≤ h → g ≠ h → x ∈ names g → x ∉ names h.
Proof.
  intros Hg Hh Hne (i & -> & _)%list_elem_of_fmap (j & Heq & _)%list_elem_of_fmap. apply Hne.
  unfold Group.ServerName in Heq. apply (inj (String.append "server-")) in Heq.
  apply sep_inj in Heq as [?%(inj pretty) _]; [done|by apply pretty_chars..].
Qed.

Section names.
Context (rand : nat → string).
Import Group.

(** The names of the servers do not change when they start and connect. *)
Lemma names_fold {A} (f : ServerGrp * tester → A → res (ServerGrp * tester)) l x y :
  (∀ x a y, f x a = Ret y → servernames y.1 = servernames x.1) →
  res_fold f x l = Ret y → servernames y.1 = servernames x.1.
Proof.
  intros Hf. revert x. induction l as [|a l IH]; intros x; cbn [res_fold]; [by intros [= <-]|].
  intros (z & Hz & Hy)%rbind_Ret_inv. rewrite (IH z Hy). by apply (Hf x a).
Qed.

Lemma connect_names i to sg t y : connect i to sg t = Ret y → servernames y.1 = servernames sg.
Proof.
  unfold connect. intros (conn & _ & H1)%rbind_Ret_inv. apply rbind_Ret_inv in H1 as (s & _ & H1).
  apply rbind_Ret_inv in H1 as (t1 & _ & H1). apply rbind_Ret_inv in H1 as (t2 & _ & H1).
  by injection H1 as <-.
Qed.

Lemma StartServer_names ev i sg t sg' t' b :
  StartServer rand ev i sg t = Ret (sg', t', b) → servernames sg' = servernames sg.
Proof.
  unfold StartServer. intros (s & _ & H1)%rbind_Ret_inv. apply rbind_Ret_inv in H1 as ([srv t1] & _ & H1).
  apply rbind_Ret_inv in H1 as (ss & _ & H1). destruct (runDaemon ev) as [d|]; [|by injection H1 as <-].
  apply rbind_Ret_inv in H1 as (d' & _ & H1). apply rbind_Ret_inv in H1 as (ss' & _ & H1).
  by injection H1 as <-.
Qed.

Lemma StartServers_names ev sg t y : StartServers rand ev sg t = Ret y → servernames y.1 = servernames sg.
Proof.
  unfold StartServers. intros ([sg1 t1] & H1 & H2)%rbind_Ret_inv.
  apply (names_fold _ _ (sg1, t1)) in H2.
  - rewrite H2. apply (names_fold _ _ (sg, t)) in H1; [done|]. intros [a ta] i z Hz.
    apply rbind_Ret_inv in Hz as ([[b tb] bb] & Hs & Hz). injection Hz as <-. by eapply StartServer_names.
  - intros [a ta] i z. apply connect_names.
Qed.

Lemma MakeGroupStart_names ev g n c c' :
  MakeGroupStart rand ev g n c = Ret c' → SrvNames g c' = Ret ((λ i, ServerName g (Z.of_nat i)) <$> seq 0 n).
Proof.
  unfold MakeGroupStart. intros (c1 & H1 & H2)%rbind_Ret_inv. unfold MakeGroup in H1.
  apply rbind_Ret_inv in H1 as ([sg t] & Hm & H1). injection H1 as <-.
  unfold makeSrvGrp in Hm. apply rbind_Ret_inv in Hm as ([ss t1] & _ & Hm). injection Hm as <- <-.
  unfold on_group, lookupGroup in H2. simpl in H2. rewrite lookup_insert_eq in H2.
  apply rbind_Ret_inv in H2 as ([sg' t'] & Hs & H2). injection H2 as <-.
  unfold SrvNames, lookupGroup. simpl. rewrite lookup_insert_eq.
  apply StartServers_names in Hs. simpl in Hs. by rewrite Hs.
Qed.

Lemma ExitGroup_grps ev g c c' : ExitGroup ev g c = Ret c' → grps c' = delete g (grps c).
Proof.
  unfold ExitGroup. intros (c1 & H1 & H2)%rbind_Ret_inv. injection H2 as <-. unfold on_group in H1.
  destruct (lookupGroup g c) as [sg|]; [|done]. apply rbind_Ret_inv in H1 as ([sg' t'] & _ & H1).
  injection H1 as <-. simpl. by rewrite delete_insert_eq.
Qed.
End names.
End ShardTest.
