(* ===== verification/ShardTestSpec.v ===== *)
(** * The tests of the sharded service: properties (shardkv1/test.go)

    The groups that run and the groups of the shard configuration stay in step. *)

From stdpp Require Import pretty.
From S2P Require Import Prelude Fnv ShardCfg LabRpc Group Clnts Config ConfigInv ConfigSpec ShardTest.
Import ShardCfg Config ConfigInv ShardTest.

Section sharded.
Context {K : Type} `{ShardCtrler K} (held : K → ShardConfig) `{!CtrlerLaws held}.
Context (rand : nat → string) `{!Inj (=) (=) rand}.
Implicit Types ts : ShardTest.Test K.

(** All servers of a shard group have daemons. *)
Definition all_run (sg : Group.ServerGrp) : Prop :=
  Group.N sg = Z.of_nat NSRV ∧ ∀ i, Group.member sg i → is_Some (Group.srvs sg !! Z.to_nat i ≫= Group.dc).

Lemma up_all_run im sg t : Group.N sg = Z.of_nat NSRV → (∀ a, Group.member sg a → up im (sg, t) a) → all_run sg.
Proof.
  intros HN Hup. split; [done|]. intros i Hi. destruct (Hup i Hi) as (Hdc & _). simpl in Hdc.
  destruct (Group.srvs sg !! Z.to_nat i); simplify_eq/=. rewrite Hdc. by eexists.
Qed.

(** The shard groups are the groups that exist, except group 0, with the names of their
    servers, which all run; the configuration is checked; group numbers are handed out
    once. *)
Record inv ts : Prop := {
  i_ok : ok rand (cfg ts);
  i_clnts : is_Some (clnts (cfg ts));
  i_sound : sound (held (sck ts));
  i_groups g : Groups (held (sck ts)) !! g =
    if decide (g ≠ GRP0 ∧ is_Some (grps (cfg ts) !! g)) then Some (names g) else None;
  i_run g sg : g ≠ GRP0 → grps (cfg ts) !! g = Some sg → all_run sg;
  i_new g : is_Some (grps (cfg ts) !! g) → 0 ≤ g < ngid ts;
  i_pos : 0 < ngid ts
}.

Lemma joining_disjoint ts g h hs x :
  inv ts → 0 ≤ g → grps (cfg ts) !! g = None → Groups (held (sck ts)) !! h = Some hs → x ∈ hs → x ∉ names g.
Proof.
  intros Hinv Hg Hn. rewrite (i_groups _ Hinv). case_decide as Hh; [|done]. intros [= <-].
  destruct Hh as [_ Hh]. pose proof (i_new _ Hinv h Hh) as ?.
  apply names_disjoint; [lia|done|]. intros ->. rewrite Hn in Hh. by apply is_Some_None in Hh.
Qed.

(** The groups after one joins. *)
Lemma joined_groups ts g c sg :
  inv ts → g ≠ GRP0 → grps c = <[g := sg]> (grps (cfg ts)) → ∀ h,
  <[g := names g]> (Groups (held (sck ts))) !! h =
    if decide (h ≠ GRP0 ∧ is_Some (grps c !! h)) then Some (names h) else None.
Proof.
  intros Hinv Hg Hc h. rewrite Hc. destruct (decide (h = g)) as [->|Hne].
  - rewrite !lookup_insert_eq. by rewrite decide_True.
  - rewrite !lookup_insert_ne by done. apply (i_groups _ Hinv).
Qed.

Lemma query_law k : ∃ k', query k = Ret (k', held k) ∧ held k' = held k.
Proof.
  unfold query. pose proof (query_held k) as Hq. pose proof (query_same k) as Hs.
  destruct (Query k) as [k' c]. simpl in Hq, Hs. subst c. by exists k'.
Qed.

Lemma joinGroups_ok gids ts :
  inv ts → NoDup gids → (∀ g, g ∈ gids → 0 < g < ngid ts ∧ grps (cfg ts) !! g = None) →
  (size (Groups (held (sck ts))) + length gids ≤ NShards)%nat →
  ∃ ts', joinGroups rand all_ok gids ts = Ret (true, ts') ∧ inv ts' ∧ ngid ts' = ngid ts ∧
    (∀ g, is_Some (grps (cfg ts') !! g) ↔ g ∈ gids ∨ is_Some (grps (cfg ts) !! g)).
Proof.
  revert ts. induction gids as [|g gids IH]; intros ts Hinv Hnd Hfr Hsz; cbn [joinGroups].
  { exists ts. split_and!; [done..|]. intros g. set_solver. }
  apply list.NoDup_cons in Hnd as [Hg Hnd]. destruct (Hfr g) as [Hpos Hnone]; [by left|].
  destruct (MakeGroupStart_ok rand g NSRV (cfg ts) (i_ok _ Hinv) Hnone) as (c & sg & Hmk & Hok & Hc & HN & Hup).
  rewrite Hmk. cbn [rbind]. rewrite (MakeGroupStart_names rand all_ok g NSRV (cfg ts) c Hmk). cbn [rbind].
  change ((λ i, Group.ServerName g (Z.of_nat i)) <$> seq 0 NSRV) with (names g).
  unfold join. destruct (query_law (sck ts)) as (k1 & -> & _). cbn [rbind].
  assert (Groups (held (sck ts)) !! g = None) as Hng.
  { rewrite (i_groups _ Hinv), decide_False; [done|]. intros [_ Hx]. rewrite Hnone in Hx. by apply is_Some_None in Hx. }
  destruct (join_one (held (sck ts)) g (names g)) as (c2 & Hj & Hs2 & Hg2 & _);
    [apply (i_sound _ Hinv)|done|intros h hs x; apply joining_disjoint; (done || lia)|].
  rewrite Hj. cbn [rbind]. unfold checkMember. destruct (query_law (ChangeConfigTo c2 k1)) as (k2 & -> & Hq3).
  rewrite change_held in Hq3 |- *. cbn [rbind].
  assert (size (Groups c2) = S (size (Groups (held (sck ts))))) as Hsz2.
  { rewrite Hg2. by apply map_size_insert_None. }
  simpl in Hsz. rewrite (everyone_has_a_shard c2 g); [|apply Hs2|apply Hs2|lia|by eexists; rewrite Hg2; apply lookup_insert_eq].
  assert (grps c = <[g := sg]> (grps (cfg ts))) as Hgr by by rewrite Hc.
  destruct (IH (MkTest c k2 (ngid ts))) as (ts' & Heq & Hinv' & Hn & Hall); simpl.
  - split; simpl; rewrite ?Hq3; try done.
    + rewrite Hc. apply (i_clnts _ Hinv).
    + rewrite Hg2. apply (joined_groups ts g c sg); [done|unfold GRP0; lia|done].
    + intros h sg' Hh0. rewrite Hgr. intros [[<- <-]|[_ Hl]]%lookup_insert_Some; [|by apply (i_run _ Hinv h)].
      eapply up_all_run; [done|]. intros a Ha. by apply Hup.
    + intros h. rewrite Hgr, lookup_insert_is_Some'. intros [<-|Hh]; [lia|]. by apply (i_new _ Hinv).
    + apply (i_pos _ Hinv).
  - done.
  - intros h Hh. destruct (Hfr h) as [? Hn]; [by right|]. split; [done|].
    rewrite Hgr, lookup_insert_ne; [done|]. by intros ->.
  - rewrite Hq3. lia.
  - exists ts'. split_and!; [done..|]. intros h. rewrite Hall. simpl. rewrite Hgr, lookup_insert_is_Some', elem_of_cons.
    naive_solver.
Qed.

Lemma leaveGroups_ok gids ts :
  inv ts → NoDup gids → (∀ g, g ∈ gids → g ≠ GRP0 ∧ is_Some (grps (cfg ts) !! g)) →
  ∃ ts', leaveGroups all_ok gids ts = Ret (true, ts') ∧ inv ts' ∧ ngid ts' = ngid ts ∧
    (∀ g, is_Some (grps (cfg ts') !! g) ↔ g ∉ gids ∧ is_Some (grps (cfg ts) !! g)).
Proof.
  revert ts. induction gids as [|g gids IH]; intros ts Hinv Hnd Hin; cbn [leaveGroups].
  { exists ts. split_and!; [done..|]. intros g. set_solver. }
  apply list.NoDup_cons in Hnd as [Hg Hnd]. destruct (Hin g) as [Hg0 Hsome]; [by left|].
  unfold leave. destruct (query_law (sck ts)) as (k1 & -> & _). cbn [rbind].
  destruct (leave_one (held (sck ts)) g) as (c2 & Hl & Hs2 & Hg2 & Hm2 & _);
    [apply (i_sound _ Hinv)|rewrite (i_groups _ Hinv), decide_True by done; by eexists|].
  rewrite Hl. cbn [rbind]. unfold checkMember. destruct (query_law (ChangeConfigTo c2 k1)) as (k2 & -> & Hq3).
  rewrite change_held in Hq3 |- *. cbn [rbind]. rewrite Hm2 by done.
  destruct (ExitGroup_ok rand g (cfg ts) (i_ok _ Hinv) Hsome) as (c & Hex & Hok & Hcl). rewrite Hex. cbn [rbind].
  pose proof (ExitGroup_grps _ _ _ _ Hex) as Hgr.
  destruct (IH (MkTest c k2 (ngid ts))) as (ts' & Heq & Hinv' & Hn & Hall); simpl.
  - split; simpl; rewrite ?Hq3; try done.
    + rewrite Hcl. apply (i_clnts _ Hinv).
    + intros h. rewrite Hg2, Hgr. destruct (decide (h = g)) as [->|Hne].
      * rewrite !lookup_delete_eq, decide_False; [done|]. by intros [_ ?%is_Some_None].
      * rewrite !lookup_delete_ne by done. apply (i_groups _ Hinv).
    + intros h sg' Hh0. rewrite Hgr. intros [_ Hlk]%lookup_delete_Some. by apply (i_run _ Hinv h).
    + intros h. rewrite Hgr, lookup_delete_is_Some. intros [_ Hh]. by apply (i_new _ Hinv).
    + apply (i_pos _ Hinv).
  - done.
  - intros h Hh. destruct (Hin h) as [? Hx]; [by right|]. split; [done|].
    rewrite Hgr, lookup_delete_ne; [done|]. by intros ->.
  - exists ts'. split_and!; [done..|]. intros h. rewrite Hall. simpl.
    rewrite Hgr, lookup_delete_is_Some, elem_of_cons. naive_solver.
Qed.

(** New group numbers. *)
Lemma groups_new n ts gids ts' :
  groups n ts = (gids, ts') →
  cfg ts' = cfg ts ∧ sck ts' = sck ts ∧ ngid ts' = ngid ts + Z.of_nat n ∧ length gids = n ∧
  NoDup gids ∧ (∀ g, g ∈ gids → ngid ts ≤ g < ngid ts').
Proof.
  revert ts gids ts'. induction n as [|n IH]; intros ts gids ts'; cbn [groups].
  - intros [= <- <-]. split_and!; [done|done|lia|done|constructor|]. intros g. set_solver.
  - unfold newGid. destruct (groups n _) as [l ts1] eqn:Hl. intros [= <- <-].
    destruct (IH _ _ _ Hl) as (Hc & Hs & Hn & Hlen & Hnd & Hin). simpl in *.
    split_and!; [done|done|lia|by rewrite Hlen| |].
    + apply list.NoDup_cons. split; [|done]. intros Hx%Hin. lia.
    + intros g [->|Hg]%elem_of_cons; [lia|]. specialize (Hin g Hg). lia.
Qed.

(** What a test does with shard groups. *)
Inductive op := Join (n : nat) | Leave (gids : list Z).
Definition run (o : op) ts : res (bool * ShardTest.Test K) :=
  match o with
  | Join n => let (gids, ts) := groups n ts in joinGroups rand all_ok gids ts
  | Leave gids => leaveGroups all_ok gids ts
  end.
Definition valid (o : op) ts : Prop :=
  match o with
  | Join n => (size (Groups (held (sck ts))) + n ≤ NShards)%nat
  | Leave gids => NoDup gids ∧ ∀ g, g ∈ gids → is_Some (Groups (held (sck ts)) !! g)
  end.

Lemma run_change_ok o ts : inv ts → valid o ts → ∃ ts', run o ts = Ret (true, ts') ∧ inv ts'.
Proof.
  intros Hinv. destruct o as [n|gids]; simpl.
  - intros Hsz. destruct (groups n ts) as [gids ts1] eqn:Hg.
    destruct (groups_new _ _ _ _ Hg) as (Hc & Hs & Hn & Hlen & Hnd & Hin).
    assert (inv ts1) as Hinv1.
    { destruct Hinv as [I1 I1' I2 I3 Ir I4 I5]. split; rewrite ?Hc, ?Hs; try done; [|lia].
      intros g Hx%I4. lia. }
    destruct (joinGroups_ok gids ts1 Hinv1 Hnd) as (ts' & Heq & Hinv' & _); [| |by exists ts'].
    + intros g Hgi. specialize (Hin g Hgi). pose proof (i_pos _ Hinv). split; [lia|]. rewrite Hc.
      destruct (grps (cfg ts) !! g) eqn:Hx; [|done]. pose proof (i_new _ Hinv g) as Hnew.
      rewrite Hx in Hnew. specialize (Hnew ltac:(by eexists)). lia.
    + rewrite Hs, Hlen. done.
  - intros [Hnd Hin]. destruct (leaveGroups_ok gids ts Hinv Hnd) as (ts' & Heq & Hinv' & _); [|by exists ts'].
    intros g Hg. specialize (Hin g Hg). rewrite (i_groups _ Hinv) in Hin. case_decide as Hd; [done|].
    by apply is_Some_None in Hin.
Qed.

(** The start of a test: MakeConfig with the server of the controller, and the first
    shard group. *)
Definition begin (k : nat) (reliable : bool) (now : Z) (p : nat) (ctl : K) : res (Z * ShardTest.Test K) :=
  let* c := MakeConfig rand all_ok k 1 reliable now in
  setupKVService rand all_ok p (MkTest c ctl (Gid1 + 1)).

Lemma begin_ok k reliable now p ctl :
  ∃ ts, begin k reliable now p ctl = Ret (Gid1, ts) ∧ inv ts.
Proof.
  unfold begin. destruct (MakeConfig_ok rand k 1 reliable now) as (c & sg & -> & Hok & Hc & Hg & _). cbn [rbind].
  unfold setupKVService, makeShardCtrler, Clnts.MakeClient. cbn [cfg].
  destruct (ConfigInv.run_ok rand (OMakeClient p None) c Hok) as (c1 & Hrun & Hok1 & Hm1);
    [by rewrite Hc|simpl; rewrite Hc; apply lookup_empty|].
  simpl in Hrun. pose proof Hrun as Hrun'. rewrite Hc in Hrun'. injection Hrun' as Hrun'.
  rewrite Hrun. cbn [rbind].
  assert (grps c1 = {[GRP0 := sg]}) as Hg1 by by rewrite <-Hrun'.
  destruct (MakeGroupStart_ok rand Gid1 NSRV c1 Hok1) as (c2 & sg2 & Hmk & Hok2 & Hc2 & HN2 & Hup2);
    [by rewrite Hg1|]. rewrite Hmk. cbn [rbind].
  rewrite (MakeGroupStart_names rand all_ok Gid1 NSRV c1 c2 Hmk). cbn [rbind].
  change ((λ i, Group.ServerName Gid1 (Z.of_nat i)) <$> seq 0 NSRV) with (names Gid1).
  destruct (join_one MakeShardConfig Gid1 (names Gid1)) as (scfg & Hj & Hs & Hgs & _); [done|done|done|].
  rewrite Copy_eq in Hj. rewrite Hj. cbn [rbind]. eexists. split; [done|].
  assert (grps c2 = <[Gid1 := sg2]> {[GRP0 := sg]}) as Hg2 by by rewrite Hc2, <-Hg1.
  split; cbn [cfg sck ngid]; rewrite ?init_held; [exact Hok2|by rewrite Hc2|exact Hs| | | |unfold Gid1; lia].
  - intros g. rewrite Hgs, Hg2. destruct (decide (g = Gid1)) as [->|Hne].
    + rewrite !lookup_insert_eq, decide_True; [reflexivity|]. split; [discriminate|by eexists].
    + rewrite !lookup_insert_ne by congruence. cbn [Groups MakeShardConfig]. rewrite lookup_empty.
      rewrite decide_False; [reflexivity|]. intros [H0 Hx]. rewrite lookup_singleton_ne in Hx by congruence.
      by apply is_Some_None in Hx.
  - intros g sg' Hg0. rewrite Hg2. intros [[<- <-]|[_ Hl]]%lookup_insert_Some.
    + apply (up_all_run (λ _, Group.no_image) sg2 (tst c2) HN2). intros a Ha. exact (proj1 (Hup2 a Ha)).
    + apply lookup_singleton_Some in Hl as [He _]. by destruct Hg0.
  - intros g. rewrite Hg2, lookup_insert_is_Some'. unfold GRP0, Gid1.
    intros [<-|[x Hx]]; [lia|]. apply lookup_singleton_Some in Hx as [<- _]. lia.
Qed.

Inductive reached k reliable now p ctl : ShardTest.Test K → Prop :=
| r_begin ts : begin k reliable now p ctl = Ret (Gid1, ts) → reached k reliable now p ctl ts
| r_run o ts b ts' : reached k reliable now p ctl ts → valid o ts → run o ts = Ret (b, ts') →
    reached k reliable now p ctl ts'.

Lemma reached_inv k reliable now p ctl ts : reached k reliable now p ctl ts → inv ts.
Proof.
  induction 1 as [ts Hb|o ts b ts' _ IH Hv Hr].
  - destruct (begin_ok k reliable now p ctl) as (ts1 & Heq & ?). congruence.
  - destruct (run_change_ok o ts IH Hv) as (ts1 & Heq & ?). congruence.
Qed.
End sharded.

(** C27. The servers that run and the shard configuration stay in step.  Take a controller that
    does what shardctrler.go documents and is not superseded (the one in the repository is a
    skeleton whose Query returns nil, on which joinGroups panics), and processes that start,
    answer and are killed as they are told to.  A test of the sharded service can always
    begin; and after it has begun and joined any numbers of new groups and let any groups
    leave, with at most as many groups as shards at a time: every further such joinGroups
    and leaveGroups returns true (no group is refused, no server name is taken, and the
    membership checks hold); the configuration in the controller passes CheckConfig; its
    groups are exactly the server groups that exist, except group 0, each with the names of
    its servers; and the processes that run, apart from those of group 0, are those of the
    servers of its groups, NSRV of each, and no other. *)
Theorem groups_in_step {K} `{ShardCtrler K} (held : K → ShardConfig) `{!CtrlerLaws held}
    (rand : nat → string) `{!Inj (=) (=) rand} k reliable now p ctl :
  (∃ ts, begin rand k reliable now p ctl = Ret (Gid1, ts)) ∧
  ∀ ts, reached held rand k reliable now p ctl ts →
    (∀ o, valid held o ts → ∃ ts', run rand o ts = Ret (true, ts')) ∧
    CheckConfig (map_keys (Groups (held (sck ts)))) (held (sck ts)) = Ret tt ∧
    (∀ g, Groups (held (sck ts)) !! g =
      if decide (g ≠ GRP0 ∧ is_Some (grps (cfg ts) !! g)) then Some (names g) else None) ∧
    NoDup (Group.procs (tst (cfg ts))) ∧
    ∀ g i, g ≠ GRP0 → (g, i) ∈ Group.procs (tst (cfg ts)) ↔
      is_Some (Groups (held (sck ts)) !! g) ∧ 0 ≤ i < Z.of_nat NSRV.
Proof.
  split; [destruct (begin_ok held rand k reliable now p ctl) as (ts & Hb & _); by exists ts|].
  intros ts Hrd. pose proof (reached_inv held rand k reliable now p ctl ts Hrd) as Hr. clear Hrd. split_and!.
  - intros o Hv. destruct (run_change_ok held rand o ts Hr Hv) as (ts' & Heq & _). by exists ts'.
  - destruct (i_sound _ _ _ Hr) as [Hwf Hok]. by apply CheckConfig_iff.
  - apply (i_groups _ _ _ Hr).
  - by destruct (ok_processes rand _ (i_ok _ _ _ Hr)).
  - intros g i Hg0. destruct (ok_processes rand _ (i_ok _ _ _ Hr)) as [_ Hp]. rewrite Hp, (i_groups _ _ _ Hr). split.
    + intros (sg & Hsg & Hi & d & Hd). rewrite decide_True by (split; [done|by eexists]). split; [by eexists|].
      destruct (i_run _ _ _ Hr g sg Hg0 Hsg) as [HN _]. apply bind_Some in Hd as (x & Hx & _). apply lookup_lt_Some in Hx.
      unfold Group.N in HN. lia.
    + case_decide as Hc; [|by intros [Hx%is_Some_None _]]. intros [_ Hi]. destruct Hc as [_ [sg Hsg]].
      destruct (i_run _ _ _ Hr g sg Hg0 Hsg) as [HN Hrun]. exists sg. split_and!; [done|lia|]. apply Hrun.
      unfold Group.member. by rewrite HN.
Qed.

(** A controller that is a variable, and names that are numbers. *)
#[export] Instance var_ctrler : ShardCtrler ShardConfig := {|
  Query c := (c, Some c); InitConfig c _ := c; ChangeConfigTo c _ := c |}.
#[export] Instance var_laws : CtrlerLaws (λ c : ShardConfig, c).
Proof. by split. Qed.

Definition first_size : nat :=
  match begin (K:=ShardConfig) (λ n, pretty n) 0 true 0 0 MakeShardConfig with
  | Ret (_, ts) => size (Groups (sck ts))
  | Stop _ => 0
  end.

Lemma groups_in_step_witness :
  ∃ ts ts', begin (λ n, pretty n) 0 true 0 0 MakeShardConfig = Ret (Gid1, ts) ∧
    run (λ n, pretty n) (Join 2) ts = Ret (true, ts') ∧
    CheckConfig (map_keys (Groups (sck ts))) (sck ts) = Ret tt.
Proof.
  destruct (groups_in_step (λ c : ShardConfig, c) (λ n, pretty n) 0 true 0 0 MakeShardConfig) as [[ts Hb] Hall].
  assert (first_size = 1%nat) as Hf by (vm_compute; reflexivity).
  unfold first_size in Hf. rewrite Hb in Hf.
  destruct (Hall ts) as (Hrun & Hc & _); [by apply r_begin|].
  destruct (Hrun (Join 2)) as [ts' Heq].
  - unfold valid. rewrite Hf. apply (bool_decide_unpack _). exact I.
  - exists ts, ts'. split; [exact Hb|]. split; [exact Heq|exact Hc].
Defined.
