(* ===== verification/ShardDown.v ===== *)
(** * The test that the data is sharded (checkShutdownSharding of shardkv1/test.go)

    The tester shuts a group of servers down, reads every key in a goroutine of its own,
    and waits for the results at a channel, until nothing has come for two seconds.  Some
    of the reads must not return, because their shards are at the group that is down; at
    the end the tester starts the group again.

    The goroutines and the tester are a step relation.  Shutdown kills the servers of the
    group one after the other; in the meantime, and at any other time, daemons that run may
    save.  A timer may fire at any time: durations are not modelled.  What the Gets return is
    the parameter [answers], which may depend on the configuration, so on the servers that
    run. *)

From S2P Require Import Prelude LabRpc Group GroupStart Clnts Annotation Config ConfigInv ConfigReach.
Import LabRpc Group GroupStart Config ConfigInv.

Module ShardDown.
Section down.
Context (rand : nat → string) (ev : env).
(** The group, the number of keys, their values, and what the Get of the [i]-th key may
    return. *)
Context (down : Z) (n : nat) (va : nat → string) (answers : Config → nat → string → Prop).

(** A goroutine: not spawned; in Get; with the value; sending an empty message or an
    error; received; or returned, because the tester has finished. *)
Inductive gpc := Unborn | Getting | Got (v : string) | Sending (right : bool) | Received | Returned.

(** The tester: about to shut the group down; with servers of the group still to be shut
    down; spawning; in the select; after the loop; and at the end. *)
Inductive tpc := Begin | Stopping (todo : list Z) | Spawning (i : nat) | Selecting (ndone : Z) | Counting (ndone : Z) | Failed | Passed.

Record state := MkState { cfg : Config; pc : tpc; gs : list gpc; done : bool }.
Implicit Types st : state.
Definition goto (p : tpc) st : state := MkState (cfg st) p (gs st) (done st).
Definition move (i : nat) (g : gpc) st : state := MkState (cfg st) (pc st) (<[i := g]> (gs st)) (done st).
Definition reconf (c : Config) st : state := MkState c (pc st) (gs st) (done st).

(** MakeClerk: a client for the clerk and one for its controller. *)
Definition MakeClerk (p q : nat) (c : Config) : res Config :=
  let* cs := Clnts.MakeClient p (clnts c) in
  let* cs := Clnts.MakeClient q cs in
  Ret (set_clnts cs c).

(** The addresses of new clients are not in use. *)
Definition new_clients (p q : nat) (c : Config) : Prop :=
  client p c = None ∧ client q c = None ∧ p ≠ q.

Inductive tester_step st : state → Prop :=
| t_shutdown sg : pc st = Begin → lookupGroup down (cfg st) = Some sg → tester_step st (goto (Stopping (all sg)) st)
| t_kill i todo c : pc st = Stopping (i :: todo) → on_group down (ShutdownServer ev i) (cfg st) = Ret c →
    tester_step st (goto (Stopping todo) (reconf c st))
| t_killed : pc st = Stopping [] → tester_step st (goto (Spawning 0) st)
| t_spawn i p q c : pc st = Spawning i → (i < n)%nat → new_clients p q (cfg st) → MakeClerk p q (cfg st) = Ret c →
    tester_step st (goto (Spawning (S i)) (move i Getting (reconf c st)))
| t_spawned : pc st = Spawning n → tester_step st (goto (Selecting 0) st)
| t_timeout ndone : pc st = Selecting ndone →
    tester_step st (MkState (cfg st) (Counting ndone) (gs st) true)
| t_toomany ndone : pc st = Counting ndone → ndone >= Z.of_nat n → tester_step st (goto Failed st)
| t_restart ndone c : pc st = Counting ndone → ndone < Z.of_nat n →
    on_group down (StartServers rand ev) (cfg st) = Ret c → tester_step st (goto Passed (reconf c st)).

Inductive goroutine_step (i : nat) st : state → Prop :=
| g_get v : gs st !! i = Some Getting → answers (cfg st) i v → goroutine_step i st (move i (Got v) st)
| g_look v : gs st !! i = Some (Got v) →
    goroutine_step i st (move i (if done st then Returned else Sending (bool_decide (v = va i))) st).

(** A message is received in the select. *)
Inductive receive (i : nat) st : state → Prop :=
| r_ok ndone : pc st = Selecting ndone → gs st !! i = Some (Sending true) →
    receive i st (goto (Selecting (ndone + 1)) (move i Received st))
| r_err ndone : pc st = Selecting ndone → gs st !! i = Some (Sending false) →
    receive i st (goto Failed (move i Received st)).

(** Meanwhile the clerks make and switch ends, other clients come and go, and the daemons
    of this and other groups save. *)
Inductive step st : state → Prop :=
| s_tester st' : tester_step st st' → step st st'
| s_goroutine i st' : goroutine_step i st st' → step st st'
| s_receive i st' : receive i st st' → step st st'
| s_client o c : ConfigReach.client_op o = true → valid o (cfg st) → run rand ev o (cfg st) = Ret c → step st (reconf c st)
| s_persist g i im c : valid (OPersist g i im) (cfg st) → run rand ev (OPersist g i im) (cfg st) = Ret c → step st (reconf c st).

Definition start (c : Config) : state := MkState c Begin (replicate n Unborn) false.
End down.
End ShardDown.
