(* ===== verification/ShardDownSpec.v ===== *)
(** * The test that the data is sharded: properties

    (checkShutdownSharding of shardkv1/test.go) *)

From S2P Require Import Prelude LabRpc Group GroupStart Clnts Annotation Config ConfigInv ConfigSpec ConfigReach ShardDown.
Import LabRpc Group GroupStart Config ConfigInv ShardDown.

Section spec.
Context (rand : nat → string) `{!Inj (=) (=) rand}.
Context (down : Z) (n : nat) (va : nat → string) (answers : Config → nat → string → Prop).
Context (size : Z).
Implicit Types st : state.
Abbreviation step := (step rand all_ok down n va answers).

Global Instance gpc_eq_dec : EqDecision gpc.
Proof. solve_decision. Defined.
Global Instance tpc_eq_dec : EqDecision tpc.
Proof. solve_decision. Defined.

(** ** Making clerks *)

Lemma MakeClerk_ok p q c :
  ok rand c → is_Some (clnts c) → new_clients p q c →
  ∃ c', MakeClerk p q c = Ret c' ∧ ok rand c' ∧ is_Some (clnts c') ∧ grps c' = grps c.
Proof.
  intros Hok [m Hm] (Hp & Hq & Hne).
  destruct (run_ok rand (OMakeClient p None) c Hok) as (c1 & H1 & Hok1 & Hm1); [by eexists|exact Hp|].
  assert (clnts c1 = Some (<[p := Clnts.makeClntTo None]> m) ∧ grps c1 = grps c) as [Hc1 Hg1].
  { simpl in H1. unfold Clnts.MakeClientTo in H1. rewrite Hm in H1. cbn [rbind] in H1. by injection H1 as <-. }
  destruct (run_ok rand (OMakeClient q None) c1 Hok1 Hm1) as (c2 & H2 & Hok2 & Hm2).
  { simpl. rewrite Hc1. simpl. unfold client in Hq. rewrite Hm in Hq. simpl in Hq. by rewrite lookup_insert_ne. }
  exists c2. split_and!; [|done|done|].
  - simpl in H1, H2. unfold MakeClerk, Clnts.MakeClient. destruct (Clnts.MakeClientTo p None (clnts c)) as [cs|] eqn:Hcs; [|done].
    cbn [rbind] in *. injection H1 as <-. exact H2.
  - by rewrite (ConfigReach.client_op_grps rand (OMakeClient q None) c1 c2 eq_refl H2).
Qed.

Lemma new_clients_exist c : ∃ p q, new_clients p q c.
Proof.
  set (m := default ∅ (clnts c)). exists (fresh (dom m)), (fresh ({[fresh (dom m)]} ∪ dom m)).
  assert (∀ p, p ∉ dom m → client p c = None) as Hcl.
  { intros p Hp. unfold client. apply not_elem_of_dom in Hp. unfold m in Hp. by destruct (clnts c). }
  pose proof (is_fresh (dom m)). pose proof (is_fresh ({[fresh (dom m)]} ∪ dom m)).
  split_and!; [by apply Hcl|apply Hcl; set_solver|set_solver].
Qed.

(** ** The invariant *)

(** How many messages the tester has received. *)
Definition got (g : gpc) : Z := if decide (g = Received) then 1 else 0.
Definition received (l : list gpc) : Z := sumf got l.

Lemma received_insert i g g' l :
  l !! i = Some g → received (<[i := g']> l) = received l - got g + got g'.
Proof. intros Hi. unfold received. rewrite (sumf_insert _ _ _ _ _ Hi). lia. Qed.

Lemma got_range g : 0 ≤ got g ≤ 1 ∧ (got g = 1 ↔ g = Received).
Proof. unfold got. case_decide; split; [lia|done|lia|by split]. Qed.

Lemma received_bound l : 0 ≤ received l ≤ Z.of_nat (length l).
Proof.
  unfold received. induction l as [|x l IH]; [done|]. rewrite sumf_cons, length_cons. pose proof (got_range x). lia.
Qed.

Lemma received_some l i g : l !! i = Some g → g ≠ Received → received l < Z.of_nat (length l).
Proof.
  intros Hi Hg. pose proof (received_insert i g Received l Hi) as Hr.
  pose proof (received_bound (<[i := Received]> l)) as Hb. rewrite length_insert in Hb.
  pose proof (got_range g) as [H1 H2]. pose proof (got_range Received) as [_ H3].
  assert (got g ≠ 1) by tauto. assert (got Received = 1) by by apply H3. lia.
Qed.

Lemma received_all l : (∀ i g, l !! i = Some g → g = Received) → received l = Z.of_nat (length l).
Proof.
  unfold received. induction l as [|x l IH]; intros Hl; [done|]. rewrite sumf_cons, IH by (intros i; apply (Hl (S i))).
  rewrite (Hl 0%nat x eq_refl), length_cons. unfold got. rewrite decide_True by done. lia.
Qed.

(** What a goroutine holds was answered by some Get. *)
Definition sound (p : tpc) (i : nat) (g : gpc) : Prop :=
  match g with
  | Got v => ∃ c, answers c i v
  | Sending b => ∃ c v, answers c i v ∧ b = bool_decide (v = va i)
  | Received => p = Failed ∨ ∃ c, answers c i (va i)
  | _ => True
  end.

(** A server that is shut down, and disconnected. *)
Definition halted (sg : ServerGrp) (i : Z) : Prop :=
  ¬ is_conn sg i ∧ (dc <$> srvs sg !! Z.to_nat i) = Some None.

(** The group, of which the servers other than [todo] are shut down. *)
Definition halting (todo : list Z) (c : Config) : Prop :=
  ∃ sg, grps c !! down = Some sg ∧ N sg = size ∧ NoDup todo ∧ Forall (member sg) todo ∧
    ∀ i, member sg i → i ∉ todo → halted sg i.

(** While the tester reads, the group is off; it counts what it has received. *)
Definition phase st : Prop :=
  match pc st with
  | Begin => (∃ sg, grps (cfg st) !! down = Some sg ∧ N sg = size) ∧ gs st = replicate n Unborn
  | Stopping todo => halting todo (cfg st) ∧ gs st = replicate n Unborn
  | Spawning i => halting [] (cfg st) ∧ (i ≤ n)%nat ∧ received (gs st) = 0 ∧
      (∀ j, (i ≤ j < n)%nat → gs st !! j = Some Unborn)
  | Selecting nd | Counting nd => halting [] (cfg st) ∧ received (gs st) = nd
  | Passed => received (gs st) < Z.of_nat n
  | Failed => True
  end.

Record dinv st : Prop := {
  d_ok : ok rand (cfg st);
  d_clnts : is_Some (clnts (cfg st));
  d_len : length (gs st) = n;
  d_sound i g : gs st !! i = Some g → sound (pc st) i g;
  d_phase : phase st
}.

(** ** Stopping and starting the group *)

Lemma shutdown_grp im c sg :
  ok rand c → grps c !! down = Some sg → keeps im (sg, tst c) →
  ∃ c' sg', on_group down (Shutdown all_ok) c = Ret c' ∧ ok rand c' ∧ clnts c' = clnts c ∧
    grps c' !! down = Some sg' ∧ N sg' = N sg ∧ off im sg'.
Proof.
  intros Hok Hg Hk. destruct (ok_groups rand c Hok down sg Hg) as [_ Hgood].
  destruct (Shutdown_off rand im (sg, tst c) Hgood Hk) as (y & Heq & Hy & Hxy & Hoff).
  destruct (on_group_ok rand down (Shutdown all_ok) sg c Hok Hg) as (c' & Heq' & Hok' & Hc); [by exists y|].
  exists c', y.1. split_and!; [done..| |apply (r_N _ _ Hxy)|done]. unfold on_group, lookupGroup in Heq'. simpl in Heq.
  rewrite Hg, Heq in Heq'. destruct y. injection Heq' as <-. apply lookup_insert_eq.
Qed.

Lemma start_grp im c sg :
  ok rand c → grps c !! down = Some sg → off im sg →
  ∃ c' sg', on_group down (StartServers rand all_ok) c = Ret c' ∧ ok rand c' ∧ clnts c' = clnts c ∧
    grps c' !! down = Some sg' ∧ N sg' = N sg ∧
    ∀ a, member sg a → up im (sg', tst c') a ∧ is_conn sg' a ∧ ∀ b, member sg b → linked sg' (tst c') a b = true.
Proof.
  intros Hok Hg Hoff. destruct (ok_groups rand c Hok down sg Hg) as [_ Hgood].
  destruct (StartServers_off rand im (sg, tst c) Hgood Hoff) as (y & Heq & Hy & Hxy & Hup).
  destruct (on_group_ok rand down (StartServers rand all_ok) sg c Hok Hg) as (c' & Heq' & Hok' & Hc); [by exists y|].
  exists c', y.1. unfold on_group, lookupGroup in Heq'. simpl in Heq. rewrite Hg, Heq in Heq'. destruct y as [sg' t'].
  cbn [rbind] in Heq'. injection Heq' as Heq'. pose proof (f_equal tst Heq') as Htst. simpl in Htst. subst t'.
  split_and!; try done.
  - unfold on_group, lookupGroup. rewrite Hg, Heq. simpl. by rewrite Heq'.
  - rewrite <-Heq'. apply lookup_insert_eq.
  - apply (r_N _ _ Hxy).
Qed.

(** A group whose servers are all shut down starts again, with what was saved. *)
Definition saved_im (sg : ServerGrp) (a : Z) : image := default no_image (srvs sg !! Z.to_nat a ≫= saved).

Lemma halting_off c sg : halting [] c → grps c !! down = Some sg → off (saved_im sg) sg.
Proof.
  intros (sg' & Hg' & _ & _ & _ & Hh) Hg i Hi. assert (sg' = sg) as -> by congruence.
  destruct (Hh i Hi) as [Hc Hdc]; [apply not_elem_of_nil|]. split; [done|].
  unfold saved_im. destruct (srvs sg !! Z.to_nat i) as [x|]; [|done]. simpl in Hdc. exists x. split_and!; [done|congruence|done].
Qed.

(** One server of the group is shut down: the others stay as they are. *)
Lemma kill_grp i c sg x :
  ok rand c → grps c !! down = Some sg → member sg i → srvs sg !! Z.to_nat i = Some x →
  ∃ c' sg' x', on_group down (ShutdownServer all_ok i) c = Ret c' ∧ ok rand c' ∧ clnts c' = clnts c ∧
    grps c' !! down = Some sg' ∧ N sg' = N sg ∧ halted sg' i ∧
    (srvs sg' !! Z.to_nat i = Some x' ∧ dc x' = None ∧ default no_image (saved x') = image_of x) ∧
    ∀ j, member sg j → j ≠ i → srvs sg' !! Z.to_nat j = srvs sg !! Z.to_nat j ∧ (is_conn sg' j ↔ is_conn sg j).
Proof.
  intros Hok Hg Hi Hx. destruct (ok_groups rand c Hok down sg Hg) as [_ Hgood].
  destruct (ShutdownServer_safe rand i (sg, tst c) Hgood Hi) as (y & Heq & Hy & Hxy & _).
  destruct (on_group_ok rand down (ShutdownServer all_ok i) sg c Hok Hg) as (c' & Heq' & Hok' & Hc); [by exists y|].
  destruct Hgood as [Hwf _ _ Hd _]. assert (dc x ≠ Some None) as Hdx by by eapply Hd, list_elem_of_lookup_2.
  destruct (shutdownServer_ok x Hdx) as (x' & Hsh & Hen & Hdc).
  destruct (ShutdownServer_gen all_ok i sg (tst c) x x' Hwf Hi Hx Hsh Hen) as (t' & Heq2 & _).
  simpl in Heq. rewrite Heq in Heq2. injection Heq2 as ->. set (sg' := with_srv i x' (set_conn i false sg)) in *.
  assert (grps c' !! down = Some sg') as Hg'.
  { unfold on_group, lookupGroup in Heq'. rewrite Hg, Heq in Heq'. injection Heq' as <-. apply lookup_insert_eq. }
  assert (srvs sg' !! Z.to_nat i = Some x') as Hx' by (apply list_lookup_insert_eq; by eapply lookup_lt_Some).
  exists c', sg', x'. split_and!; try done.
  - apply (r_N _ _ Hxy).
  - split; [|rewrite Hx'; simpl; by rewrite Hdc].
    change (¬ is_conn (set_conn i false sg) i). rewrite is_conn_set_conn by done. by rewrite decide_True.
  - rewrite <-(shutdownServer_image x x' Hsh Hdx). unfold image_of. by rewrite Hdc.
  - intros j Hj Hne. split; [|change (is_conn sg' j) with (is_conn (set_conn i false sg) j); rewrite is_conn_set_conn by done; by rewrite decide_False].
    apply list_lookup_insert_ne. unfold member in *. lia.
Qed.

(** Daemons save: the servers that are shut down do not change. *)
Lemma persist_grp g i im c c' sg :
  ok rand c → is_Some (clnts c) → valid (OPersist g i im) c → run rand all_ok (OPersist g i im) c = Ret c' → grps c !! down = Some sg →
  ok rand c' ∧ is_Some (clnts c') ∧ ∃ sg', grps c' !! down = Some sg' ∧ N sg' = N sg ∧ (∀ j, is_conn sg' j ↔ is_conn sg j) ∧
    ∀ j x, srvs sg !! j = Some x → dc x = None → srvs sg' !! j = Some x.
Proof.
  intros Hok Hm Hv Hr Hg. destruct (run_ok rand _ c Hok Hm Hv) as (c2 & Hr2 & Hok2 & Hm2).
  rewrite Hr in Hr2. injection Hr2 as <-. split; [done|]. split; [done|]. simpl in Hr. unfold on_group in Hr.
  destruct (lookupGroup g c) as [sg0|] eqn:Hg0; [|done]. injection Hr as <-. simpl.
  destruct (decide (g = down)) as [->|Hne]; [|exists sg; rewrite lookup_insert_ne by done; done].
  unfold lookupGroup in Hg0. assert (sg0 = sg) as -> by congruence. exists (persist i im sg). split; [apply lookup_insert_eq|].
  unfold persist. destruct (srvs sg !! Z.to_nat i) as [[sv es [[im0|]|]]|] eqn:Hs; try done.
  split; [unfold N; simpl; by rewrite length_insert|]. split; [done|]. intros j x Hx Hdc. simpl.
  rewrite list_lookup_insert_ne; [done|]. intros <-. rewrite Hs in Hx. by simplify_eq.
Qed.

Lemma halting_persist todo g i im c c' :
  ok rand c → is_Some (clnts c) → valid (OPersist g i im) c → run rand all_ok (OPersist g i im) c = Ret c' →
  halting todo c → halting todo c'.
Proof.
  intros Hok Hm Hv Hr (sg & Hg & HN & Hnd & Hall & Hh).
  destruct (persist_grp g i im c c' sg Hok Hm Hv Hr Hg) as (_ & _ & sg' & Hg' & HN' & Hcn & Hsr).
  assert (∀ j, member sg' j ↔ member sg j) as Hmem by (intros j; unfold member; by rewrite HN').
  exists sg'. split_and!; [done|congruence|done|eapply list.Forall_impl; [done|]; intros j; apply Hmem|].
  intros j Hj%Hmem Hjt. destruct (Hh j Hj Hjt) as [Hnc Hdc]. split; [by rewrite Hcn|].
  destruct (srvs sg !! Z.to_nat j) as [x|] eqn:Hx; [|done]. simpl in Hdc. rewrite (Hsr _ x); [done..|congruence].
Qed.

(** ** Every step keeps the invariant *)

Lemma kill_step i todo c c' :
  ok rand c → halting (i :: todo) c → on_group down (ShutdownServer all_ok i) c = Ret c' →
  ok rand c' ∧ clnts c' = clnts c ∧ halting todo c'.
Proof.
  intros Hok (sg & Hg & HN & [Hit Hnd]%list.NoDup_cons & [Hi Htodo]%list.Forall_cons & Hh) Hr.
  destruct (ok_groups rand c Hok down sg Hg) as [_ Hgood]. destruct (wf_lookup sg i (g_wf _ _ Hgood) Hi) as (x & _ & Hx & _).
  destruct (kill_grp i c sg x Hok Hg Hi Hx) as (c1 & sg' & x' & Hr1 & Hok1 & Hc1 & Hg' & HN' & Hhi & _ & Hothers).
  assert (c1 = c') as -> by congruence. split_and!; [done..|].
  assert (∀ j, member sg' j ↔ member sg j) as Hmem by (intros j; unfold member; by rewrite HN').
  exists sg'. split_and!; [done|congruence|done|eapply list.Forall_impl; [done|]; intros j; apply Hmem|].
  intros j Hj%Hmem Hjt. destruct (decide (j = i)) as [->|Hne]; [done|].
  destruct (Hothers j Hj Hne) as [Hs Hc]. destruct (Hh j Hj) as [Hnc Hdc]; [by apply not_elem_of_cons|].
  split; [by rewrite Hc|by rewrite Hs].
Qed.

Lemma restart_step c c' :
  ok rand c → halting [] c → on_group down (StartServers rand all_ok) c = Ret c' → ok rand c' ∧ clnts c' = clnts c.
Proof.
  intros Hok Hh Hr. pose proof Hh as (sg & Hg & _).
  destruct (start_grp (saved_im sg) c sg Hok Hg (halting_off c sg Hh Hg)) as (c1 & sg' & Hr1 & ? & ? & _).
  by assert (c1 = c') as -> by congruence.
Qed.

Lemma sound_pc p p' i g : (p = Failed → p' = Failed) → sound p i g → sound p' i g.
Proof. destruct g; simpl; naive_solver. Qed.

Lemma tester_step_inv st st' : dinv st → tester_step rand all_ok down n st st' → dinv st'.
Proof.
  intros [Hok Hm Hlen Hs Hph]. unfold phase in Hph.
  destruct 1 as [sg Hpc Hg|i todo c Hpc Hr|Hpc|i p q c Hpc Hi Hnew Hr|Hpc|nd Hpc|nd Hpc Hge|nd c Hpc Hlt Hr]; rewrite Hpc in *;
    (split; [| |try done; try (simpl; by rewrite length_insert)|..]); try done;
    try (intros j g Hl; eapply sound_pc; [|by apply Hs]; done).
  - destruct Hph as [(sg' & Hg' & HN) Hgs]. unfold lookupGroup in Hg. assert (sg' = sg) as -> by congruence.
    split; [|done]. exists sg. simpl. split_and!; [done|done| |apply all_members|].
    + unfold all. apply NoDup_fmap_2; [apply _|apply NoDup_seq].
    + intros i Hi Hn. by destruct Hn; apply elem_of_all.
  - by destruct (kill_step i todo (cfg st) c Hok (proj1 Hph) Hr) as (? & ? & ?).
  - simpl. by destruct (kill_step i todo (cfg st) c Hok (proj1 Hph) Hr) as (? & -> & ?).
  - destruct Hph as [Hh Hgs]. destruct (kill_step i todo (cfg st) c Hok Hh Hr) as (_ & _ & Hh'). by split.
  - destruct Hph as [Hh Hgs]. unfold phase. simpl. split_and!; [done|lia| |].
    + rewrite Hgs. unfold received. clear. induction n; simpl; [done|]. unfold sumf in *. by rewrite IHn0.
    + intros j Hj. rewrite Hgs. apply lookup_replicate_2. lia.
  - destruct (MakeClerk_ok p q (cfg st) Hok Hm Hnew) as (c' & Heq & ? & ? & _). by assert (c' = c) as <- by congruence.
  - destruct (MakeClerk_ok p q (cfg st) Hok Hm Hnew) as (c' & Heq & ? & ? & _). by assert (c' = c) as <- by congruence.
  - intros j g [(-> & <- & _)|[_ Hl]]%list_lookup_insert_Some; [done|]. eapply sound_pc; [|by apply Hs]. done.
  - destruct Hph as (Hh & Hin & Hrec & Hun). destruct (MakeClerk_ok p q (cfg st) Hok Hm Hnew) as (c' & Heq & _ & _ & Hgr).
    rewrite Hr in Heq. injection Heq as <-. pose proof (Hun i ltac:(lia)) as Hi0. unfold phase, halting; simpl.
    split_and!; [by rewrite Hgr|lia|rewrite (received_insert i Unborn) by done; unfold got; simpl; lia|].
    intros j Hj. rewrite list_lookup_insert_ne by lia. apply Hun. lia.
  - destruct Hph as (Hg & _ & Hrec & _). by split.
  - by destruct (restart_step (cfg st) c Hok (proj1 Hph) Hr) as (? & ?).
  - simpl. by destruct (restart_step (cfg st) c Hok (proj1 Hph) Hr) as (? & ->).
  - destruct Hph as [_ Hrec]. unfold phase. simpl. lia.
Qed.

(** A goroutine moves on: the tester's count stays. *)
Lemma move_inv st i g g' :
  dinv st → gs st !! i = Some g → g ≠ Received → g' ≠ Received → g ≠ Unborn → sound (pc st) i g' → dinv (move i g' st).
Proof.
  intros [Hok Hm Hlen Hs Hph] Hl Hg Hg' Hun Hs'.
  assert (received (<[i := g']> (gs st)) = received (gs st)) as Hrec.
  { rewrite (received_insert i g) by done. unfold got. rewrite !decide_False by done. lia. }
  split; simpl; [done|done|by rewrite length_insert| |].
  - intros j x [(-> & <- & _)|[_ Hx]]%list_lookup_insert_Some; [done|by apply Hs].
  - unfold phase in *. simpl. destruct (pc st); try done; rewrite ?Hrec; try done.
    + destruct Hph as [_ Hgs]. rewrite Hgs in Hl. apply lookup_replicate_1 in Hl as [? _]. congruence.
    + destruct Hph as [_ Hgs]. rewrite Hgs in Hl. apply lookup_replicate_1 in Hl as [? _]. congruence.
    + destruct Hph as (? & ? & ? & Hu). split_and!; [done..|]. intros j Hj. rewrite list_lookup_insert_ne; [by apply Hu|].
      intros ->. rewrite Hu in Hl by done. congruence.
Qed.

Lemma step_dinv st st' : dinv st → step st st' → dinv st'.
Proof.
  intros Hd. destruct 1 as [st' Ht|i st' Hg|i st' Hr|o c Ho Hv Hr|g i im c Hv Hr].
  - by eapply tester_step_inv.
  - destruct Hg as [v Hl Ha|v Hl].
    + eapply move_inv; [done|done|done..|]. simpl. by eexists.
    + pose proof (d_sound _ Hd _ _ Hl) as [c Hc]. eapply move_inv; [done|done|done|by destruct (done st)|done|].
      destruct (done st); simpl; [done|]. by exists c, v.
  - destruct Hd as [Hok Hm Hlen Hs Hph]. unfold phase in Hph. destruct Hr as [nd Hpc Hl|nd Hpc Hl]; rewrite Hpc in *.
    + destruct Hph as [Hg Hrec]. split; simpl; [done|done|by rewrite length_insert| |].
      * intros j x [(-> & <- & _)|[_ Hx]]%list_lookup_insert_Some; [|eapply sound_pc; [|by apply Hs]; done].
        destruct (Hs _ _ Hl) as (c & v & Hc & Hb). right. exists c. symmetry in Hb. apply bool_decide_eq_true in Hb. by subst.
      * unfold phase. simpl. split; [done|]. rewrite (received_insert i (Sending true)) by done. unfold got. simpl. lia.
    + split; simpl; [done|done|by rewrite length_insert| |done].
      intros j x [(-> & <- & _)|[_ Hx]]%list_lookup_insert_Some; [by left|]. eapply sound_pc; [|by apply Hs]. done.
  - destruct Hd as [Hok Hm Hlen Hs Hph]. destruct (run_ok rand o (cfg st) Hok Hm Hv) as (c' & Heq & Hok' & Hm').
    rewrite Hr in Heq. injection Heq as <-. split; simpl; [done..|]. unfold phase, halting in *. simpl.
    rewrite (ConfigReach.client_op_grps rand o _ _ Ho Hr). done.
  - destruct Hd as [Hok Hm Hlen Hs Hph]. destruct (run_ok rand _ (cfg st) Hok Hm Hv) as (c' & Heq & Hok' & Hm').
    rewrite Hr in Heq. injection Heq as <-. split; simpl; [done..|]. unfold phase in *. simpl.
    assert (∀ todo, halting todo (cfg st) → halting todo c) as Hhalt by (intros todo; by eapply halting_persist).
    destruct (pc st); try done; try (destruct Hph as [? Hrest]; split; [by apply Hhalt|exact Hrest]).
    destruct Hph as [(sg & Hg & HN) Hgs]. split; [|done].
    destruct (persist_grp g i im (cfg st) c sg Hok Hm Hv Hr Hg) as (_ & _ & sg' & Hg' & HN' & _). exists sg'. split; [done|congruence].
Qed.

Lemma reachable_dinv st st' : dinv st → rtc step st st' → dinv st'.
Proof. intros Hd. induction 1 as [|st st1 st' Hs _ IH]; [done|]. apply IH. by eapply step_dinv. Qed.

Lemma start_dinv c sg :
  ok rand c → is_Some (clnts c) → grps c !! down = Some sg → N sg = size → dinv (start n c).
Proof.
  intros Hok Hm Hg HN. split; simpl; [done|done|by rewrite length_replicate| |].
  - intros i g [-> _]%lookup_replicate_1. done.
  - split; [by exists sg|done].
Qed.

(** ** When the values are right and a key is at the group that is down *)

Definition all_down (c : Config) : Prop := ∃ sg, grps c !! down = Some sg ∧ ∀ s, s ∈ srvs sg → dc s = None.

Lemma halting_all_down c : halting [] c → all_down c.
Proof.
  intros (sg & Hg & _ & _ & _ & Hh). exists sg. split; [done|]. intros x [k Hk]%list_elem_of_lookup.
  destruct (Hh (Z.of_nat k)) as [_ Hdc]; [apply lookup_lt_Some in Hk; unfold member, N; lia|apply not_elem_of_nil|].
  rewrite Nat2Z.id, Hk in Hdc. by simplify_eq/=.
Qed.

(** What was saved of server [a] when it was shut down is kept until the group starts. *)
Definition kept (a : Z) (v : image) st : Prop :=
  let holds := ∃ sg x, grps (cfg st) !! down = Some sg ∧ srvs sg !! Z.to_nat a = Some x ∧ dc x = None ∧
    default no_image (saved x) = v in
  match pc st with
  | Begin => False
  | Stopping todo => a ∉ todo ∧ holds
  | Spawning _ | Selecting _ | Counting _ => holds
  | Failed | Passed => True
  end.

Lemma kept_step a v st st' : dinv st → kept a v st → step st st' → kept a v st'.
Proof.
  intros Hd Hk. pose proof (d_ok _ Hd) as Hok. pose proof (d_phase _ Hd) as Hph. unfold kept, phase in *.
  destruct 1 as [st' Ht|i st' Hg|i st' Hr|o c Ho Hv Hr|g i im c Hv Hr].
  - destruct Ht as [sg Hpc Hg|i todo c Hpc Hr|Hpc|i p q c Hpc Hi Hnew Hr|Hpc|nd Hpc|nd Hpc Hge|nd c Hpc Hlt Hr]; rewrite Hpc in *; simpl; try done.
    + destruct Hph as [(sg & Hg & _ & _ & [Hi _]%list.Forall_cons & _) _].
      destruct Hk as [[Hai Hat]%not_elem_of_cons (sg2 & x & Hg2 & Hx & Hdc & Hsv)]. assert (sg2 = sg) as -> by congruence.
      split; [done|]. destruct (ok_groups rand _ Hok down sg Hg) as [_ Hgood]. destruct (wf_lookup sg i (g_wf _ _ Hgood) Hi) as (y & _ & Hy & _).
      destruct (kill_grp i (cfg st) sg y Hok Hg Hi Hy) as (c1 & sg' & y' & Hr1 & _ & _ & Hg' & _ & _ & (Hy' & Hdy & Hsy) & Hothers).
      assert (c1 = c) as -> by congruence. destruct (decide (Z.to_nat a = Z.to_nat i)) as [He|Hne].
      * exists sg', y'. rewrite He in *. assert (y = x) as -> by congruence. split_and!; [done..|]. rewrite Hsy.
        unfold image_of. by rewrite Hdc.
      * exists sg', x. split_and!; [done| |done..]. rewrite <-Hx. destruct (decide (0 ≤ a)) as [Ha|Ha].
        -- apply Hothers; [|lia]. apply lookup_lt_Some in Hx. unfold member, N. lia.
        -- assert (Z.to_nat a = Z.to_nat 0) as -> by lia. apply Hothers; [|lia]. apply lookup_lt_Some in Hx. unfold member, N. lia.
    + by destruct Hk.
    + destruct (MakeClerk_ok p q (cfg st) Hok (d_clnts _ Hd) Hnew) as (c' & Heq & _ & _ & Hgr). rewrite Hr in Heq. injection Heq as <-.
      by rewrite Hgr.
  - by destruct Hg.
  - destruct Hr as [nd Hpc Hl|nd Hpc Hl]; rewrite Hpc in *; done.
  - simpl. by rewrite (ConfigReach.client_op_grps rand o _ _ Ho Hr).
  - simpl. assert (∀ sg x, grps (cfg st) !! down = Some sg → srvs sg !! Z.to_nat a = Some x → dc x = None →
      ∃ sg', grps c !! down = Some sg' ∧ srvs sg' !! Z.to_nat a = Some x) as Hkeep.
    { intros sg x Hg Hx Hdc. destruct (persist_grp g i im (cfg st) c sg Hok (d_clnts _ Hd) Hv Hr Hg) as (_ & _ & sg' & Hg' & _ & _ & Hsr).
      exists sg'. split; [done|]. by apply Hsr. }
    destruct (pc st); try done; [destruct Hk as [Hat Hk]; split; [done|]|..];
      destruct Hk as (sg & x & Hg & Hx & Hdc & Hsv); destruct (Hkeep sg x Hg Hx Hdc) as (sg' & ? & ?); by exists sg', x.
Qed.

Lemma kept_steps a v st st' : dinv st → kept a v st → rtc step st st' → kept a v st'.
Proof.
  intros Hd Hk Hr. revert Hd Hk. induction Hr as [|st st1 st' Hs _ IH]; intros Hd Hk; [done|].
  apply IH; [by eapply step_dinv|by eapply kept_step].
Qed.

(** The step that shuts server [a] down. *)
Lemma kill_keeps a todo st st' sg x :
  dinv st → pc st = Stopping (a :: todo) → step st st' → pc st' = Stopping todo →
  grps (cfg st) !! down = Some sg → srvs sg !! Z.to_nat a = Some x → kept a (image_of x) st'.
Proof.
  intros Hd Hpc Hs Hpc' Hg Hx. pose proof (d_ok _ Hd) as Hok. pose proof (d_phase _ Hd) as Hph. unfold phase in Hph. rewrite Hpc in Hph.
  destruct Hph as [(sg2 & Hg2 & _ & [Hat _]%list.NoDup_cons & [Ha _]%list.Forall_cons & _) _]. assert (sg2 = sg) as -> by congruence.
  assert (∀ l : list Z, a :: l ≠ l) as Hlen by (intros l Hl; apply (f_equal length) in Hl; simpl in Hl; lia).
  destruct Hs as [st' Ht|i st' Hgr|i st' Hr|o c _ _ _|g i im c _ _]; simpl in Hpc'; [|destruct Hgr; simpl in Hpc'; congruence|
    destruct Hr; congruence|rewrite Hpc in Hpc'; injection Hpc' as Hpc'; by destruct (Hlen todo)..].
  destruct Ht as [|i todo' c Hpc2 Hr| | | | | |]; simpl in Hpc'; try congruence. rewrite Hpc in Hpc2. injection Hpc2 as <- <-.
  destruct (kill_grp a (cfg st) sg x Hok Hg Ha Hx) as (c1 & sg' & x' & Hr1 & _ & _ & Hg' & _ & _ & (Hx' & Hdx & Hsx) & _).
  assert (c1 = c) as -> by congruence. unfold kept. simpl. split; [done|]. by exists sg', x'.
Qed.

(** ** What it means to pass, and what the restart does *)

Lemma passed_means st : dinv st → pc st = Passed →
  (∃ i, (i < n)%nat ∧ gs st !! i ≠ Some Received) ∧ ∀ i, gs st !! i = Some Received → ∃ c, answers c i (va i).
Proof.
  intros Hd Hpc. pose proof (d_phase _ Hd) as Hph. unfold phase in Hph. rewrite Hpc in Hph. split.
  - destruct (decide (Forall (λ g, g = Received) (gs st))) as [Hall|Hne].
    + exfalso. rewrite received_all, (d_len _ Hd) in Hph; [lia|].
      intros i g Hl. rewrite list.Forall_forall in Hall. apply Hall. by eapply list_elem_of_lookup_2.
    + apply not_Forall_Exists, list.Exists_exists in Hne as (g & Hin & Hg'); [|intros ?; apply _].
      apply list_elem_of_lookup in Hin as [i Hl]. exists i. split; [|congruence].
      rewrite <-(d_len _ Hd). by eapply lookup_lt_Some.
  - intros i Hl. pose proof (d_sound _ Hd i _ Hl) as [Hf|?]; [congruence|done].
Qed.

Lemma restarted nd st st' : dinv st → pc st = Counting nd → step st st' → pc st' = Passed →
  ∃ sg sg', grps (cfg st) !! down = Some sg ∧ N sg = size ∧ grps (cfg st') !! down = Some sg' ∧
    ∀ a, member sg a → up (saved_im sg) (sg', tst (cfg st')) a ∧ is_conn sg' a ∧
      ∀ b, member sg b → linked sg' (tst (cfg st')) a b = true.
Proof.
  intros Hd Hpc Hs Hpc'. pose proof (d_phase _ Hd) as Hph. unfold phase in Hph. rewrite Hpc in Hph.
  destruct Hph as [Hh _]. pose proof Hh as (sg & Hg & HN & _).
  destruct (start_grp _ (cfg st) sg (d_ok _ Hd) Hg (halting_off _ sg Hh Hg)) as (c' & sg' & Hst & _ & _ & Hg' & _ & Hup).
  destruct Hs as [st' Ht|i st' Hgr|i st' Hrc|o c2 _ _ _|g i im c2 _ _]; [|destruct Hgr; simpl in Hpc'; congruence|destruct Hrc; congruence|
    simpl in Hpc'; congruence..].
  destruct Ht; simpl in Hpc'; try congruence. assert (c = c') as -> by congruence. by exists sg, sg'.
Qed.

Section alarm.
Context (Hright : ∀ c i v, answers c i v → v = va i).
Context (i0 : nat) (Hi0 : (i0 < n)%nat) (Hdead : ∀ c v, all_down c → ¬ answers c i0 v).

Record einv st : Prop := {
  e_dinv : dinv st;
  e_pc : pc st ≠ Failed;
  e_dead : pc st = Passed ∨ gs st !! i0 = Some Unborn ∨ gs st !! i0 = Some Getting
}.

Lemma einv_received st nd : einv st → pc st = Selecting nd ∨ pc st = Counting nd → nd < Z.of_nat n.
Proof.
  intros [Hd _ Hdd] Hpc. pose proof (d_phase _ Hd) as Hph. unfold phase in Hph.
  assert (received (gs st) = nd) as <- by (destruct Hpc as [Hpc|Hpc]; rewrite Hpc in Hph; by destruct Hph).
  rewrite <-(d_len _ Hd). destruct Hdd as [Hp|[Hl|Hl]]; [destruct Hpc; congruence|by eapply received_some..].
Qed.

Lemma einv_getting st : einv st → pc st ≠ Passed → gs st !! i0 = Some Getting → all_down (cfg st).
Proof.
  intros [Hd Hf _] Hpc Hl. pose proof (d_phase _ Hd) as Hph. unfold phase in Hph. destruct (pc st); try done;
    try (apply halting_all_down, Hph); destruct Hph as [_ Hgs]; rewrite Hgs in Hl; by apply lookup_replicate_1 in Hl as [[=] _].
Qed.

Lemma step_einv st st' : einv st → step st st' → einv st'.
Proof.
  intros He Hs. pose proof (step_dinv _ _ (e_dinv _ He) Hs) as Hd'. pose proof He as [Hd Hf Hdd].
  assert (∀ i g, i ≠ i0 → pc st = Passed ∨ <[i := g]> (gs st) !! i0 = Some Unborn ∨ <[i := g]> (gs st) !! i0 = Some Getting)
    as Hother by (intros i g Hne; by rewrite list_lookup_insert_ne).
  destruct Hs as [st' Ht|i st' Hg|i st' Hr|o c Ho Hv Hr|g i im c Hv Hr].
  - destruct Ht as [sg Hpc Hr|i todo c Hpc Hr|Hpc|i p q c Hpc Hi Hnew Hr|Hpc|nd Hpc|nd Hpc Hge|nd c Hpc Hlt Hr]; rewrite Hpc in Hdd;
      (split; [done|try done|]); simpl; try (destruct Hdd as [|]; [done|by right]).
    + right. destruct (decide (i = i0)) as [->|Hne].
      * right. apply list_lookup_insert_eq. by rewrite (d_len _ Hd).
      * destruct (Hother i Getting Hne) as [Hp|]; [congruence|done].
    + exfalso. pose proof (einv_received st nd He (or_intror Hpc)). lia.
  - split; [done|by destruct Hg|]. destruct Hg as [v Hl Ha|v Hl]; simpl.
    + destruct (decide (i = i0)) as [->|Hne]; [|by apply Hother].
      destruct (decide (pc st = Passed)) as [|Hp]; [by left|]. by destruct (Hdead (cfg st) v (einv_getting st He Hp Hl)).
    + destruct (decide (i = i0)) as [->|Hne]; [|by apply Hother].
      destruct Hdd as [?|[Hl'|Hl']]; [by left|congruence..].
  - destruct Hr as [nd Hpc Hl|nd Hpc Hl].
    + split; [done|done|]. simpl. right. destruct Hdd as [Hp|Hdd]; [congruence|].
      rewrite list_lookup_insert_ne; [done|]. intros ->. naive_solver.
    + exfalso. destruct (d_sound _ Hd _ _ Hl) as (c & v & Ha & Hb). rewrite (Hright _ _ _ Ha) in Hb.
      symmetry in Hb. by apply bool_decide_eq_false in Hb.
  - by split.
  - by split.
Qed.

Lemma reachable_einv st st' : einv st → rtc step st st' → einv st'.
Proof. intros Hd. induction 1 as [|st st1 st' Hs _ IH]; [done|]. apply IH. by eapply step_einv. Qed.

Lemma tester_passes st : einv st → ∃ st', rtc step st st' ∧ pc st' = Passed.
Proof.
  assert (∀ nd st, einv st → pc st = Counting nd → ∃ st', rtc step st st' ∧ pc st' = Passed) as Hcount.
  { intros nd st0 He Hpc. pose proof (einv_received st0 nd He (or_intror Hpc)) as Hlt.
    pose proof (d_phase _ (e_dinv _ He)) as Hph. unfold phase in Hph. rewrite Hpc in Hph. destruct Hph as [Hh _]. pose proof Hh as (sg & Hg & _).
    destruct (start_grp _ (cfg st0) sg (d_ok _ (e_dinv _ He)) Hg (halting_off _ sg Hh Hg)) as (c & _ & Heq & _).
    eexists. split; [apply rtc_once, s_tester; by eapply t_restart|done]. }
  assert (∀ nd st, einv st → pc st = Selecting nd → ∃ st', rtc step st st' ∧ pc st' = Passed) as Hsel.
  { intros nd st0 He Hpc. assert (step st0 (MkState (cfg st0) (Counting nd) (gs st0) true)) as Hs by (apply s_tester; by apply t_timeout).
    destruct (Hcount nd _ (step_einv _ _ He Hs) eq_refl) as (st' & ? & ?). exists st'. split; [by eapply rtc_l|done]. }
  assert (∀ m i st, einv st → pc st = Spawning i → (i + m = n)%nat → ∃ st', rtc step st st' ∧ pc st' = Passed) as Hspawn.
  { induction m as [|m IH]; intros i st0 He Hpc Hm.
    - assert (step st0 (goto (Selecting 0) st0)) as Hs by (apply s_tester, t_spawned; rewrite Hpc; f_equal; lia).
      destruct (Hsel 0 _ (step_einv _ _ He Hs) eq_refl) as (st' & ? & ?). exists st'. split; [by eapply rtc_l|done].
    - destruct (new_clients_exist (cfg st0)) as (p & q & Hnew).
      destruct (MakeClerk_ok p q (cfg st0) (d_ok _ (e_dinv _ He)) (d_clnts _ (e_dinv _ He)) Hnew) as (c & Heq & _).
      assert (step st0 (goto (Spawning (S i)) (move i Getting (reconf c st0)))) as Hs
        by (apply s_tester; eapply t_spawn; [done|lia|done|done]).
      destruct (IH (S i) _ (step_einv _ _ He Hs) eq_refl) as (st' & ? & ?); [lia|]. exists st'. split; [by eapply rtc_l|done]. }
  assert (∀ todo st, einv st → pc st = Stopping todo → ∃ st', rtc step st st' ∧ pc st' = Passed) as Hstop.
  { induction todo as [|i todo IH]; intros st0 He Hpc.
    - assert (step st0 (goto (Spawning 0) st0)) as Hs by (apply s_tester; by apply t_killed).
      destruct (Hspawn n 0%nat _ (step_einv _ _ He Hs) eq_refl) as (st' & ? & ?); [done|]. exists st'. split; [by eapply rtc_l|done].
    - pose proof (d_phase _ (e_dinv _ He)) as Hph. pose proof (d_ok _ (e_dinv _ He)) as Hok. unfold phase in Hph. rewrite Hpc in Hph.
      destruct Hph as [(sg & Hg & _ & _ & [Hi _]%list.Forall_cons & _) _].
      destruct (ok_groups rand _ Hok down sg Hg) as [_ Hgood]. destruct (wf_lookup sg i (g_wf _ _ Hgood) Hi) as (x & _ & Hx & _).
      destruct (kill_grp i (cfg st0) sg x Hok Hg Hi Hx) as (c & _ & _ & Hr & _).
      assert (step st0 (goto (Stopping todo) (reconf c st0))) as Hs by (apply s_tester; by eapply t_kill).
      destruct (IH _ (step_einv _ _ He Hs) eq_refl) as (st' & ? & ?). exists st'. split; [by eapply rtc_l|done]. }
  intros He. pose proof (d_phase _ (e_dinv _ He)) as Hph. unfold phase in Hph. destruct (pc st) eqn:Hpc.
  - destruct Hph as [(sg & Hg & _) _].
    assert (step st (goto (Stopping (all sg)) st)) as Hs by (apply s_tester; by apply t_shutdown).
    destruct (Hstop _ _ (step_einv _ _ He Hs) eq_refl) as (st' & ? & ?). exists st'. split; [by eapply rtc_l|done].
  - by eapply Hstop.
  - destruct Hph as (_ & Hle & _). apply (Hspawn (n - i)%nat i st He Hpc). lia.
  - by eapply Hsel.
  - by eapply Hcount.
  - by destruct (e_pc _ He).
  - by exists st.
Qed.
End alarm.
End spec.

(** C38. checkShutdownSharding judges rightly and leaves the group as it found it.  Let a
    configuration be reached by a test, with any group to be shut down, and let the
    goroutines and the tester run in any order, with any answers to the Gets, while
    clients come and go and daemons save, also those of the group while others of it are
    being killed.  Processes start, answer and are killed as they are told to.  If the
    tester passes, some Get did not deliver its value, and every value that was delivered
    was the expected one.  When the tester restarts the group, every server runs again,
    connected to all others, and with what it had saved when it was killed.  And there is no
    false alarm: if Gets return only right values, and one of the Gets does not return while
    the group is down, then the tester never fails, and from every reachable state it can
    still pass. *)
Theorem shutdown_sharding rand `{!Inj (=) (=) rand} down n va answers k m reliable now os c0 c sg st :
  MakeConfig rand all_ok k m reliable now = Ret c0 → runs rand all_ok os c0 c → grps c !! down = Some sg →
  rtc (step rand all_ok down n va answers) (start n c) st →
  (pc st = Passed → (∃ i, (i < n)%nat ∧ gs st !! i ≠ Some Received) ∧
     ∀ i, gs st !! i = Some Received → ∃ c, answers c i (va i)) ∧
  (∀ nd st', pc st = Counting nd → step rand all_ok down n va answers st st' → pc st' = Passed →
     ∃ sg', grps (cfg st') !! down = Some sg' ∧ ∀ a, 0 ≤ a < N sg →
       is_Some (srvs sg' !! Z.to_nat a ≫= dc) ∧ is_conn sg' a ∧
       ∀ b, 0 ≤ b < N sg → linked sg' (tst (cfg st')) a b = true) ∧
  (∀ a todo sg1 x st1 nd st2 st3, pc st = Stopping (a :: todo) →
     grps (cfg st) !! down = Some sg1 → srvs sg1 !! Z.to_nat a = Some x →
     step rand all_ok down n va answers st st1 → pc st1 = Stopping todo →
     rtc (step rand all_ok down n va answers) st1 st2 → pc st2 = Counting nd →
     step rand all_ok down n va answers st2 st3 → pc st3 = Passed →
     ∃ sg', grps (cfg st3) !! down = Some sg' ∧
       (dc <$> srvs sg' !! Z.to_nat a) = Some (Some (Some (image_of x)))) ∧
  ((∀ c i v, answers c i v → v = va i) →
   (∃ i, (i < n)%nat ∧ ∀ c v, all_down down c → ¬ answers c i v) →
   pc st ≠ Failed ∧ ∃ st', rtc (step rand all_ok down n va answers) st st' ∧ pc st' = Passed).
Proof.
  intros Hmk Hrs Hg Hr. destruct (MakeConfig_ok rand k m reliable now) as (c1 & sg1 & Heq & Hok1 & Hc1 & _).
  rewrite Heq in Hmk. injection Hmk as ->. destruct (runs_ok rand os c0 c Hrs Hok1) as [Hok Hm]; [by eexists|].
  assert (dinv rand down n va answers (N sg) (start n c)) as Hd0 by by eapply start_dinv.
  pose proof (reachable_dinv _ _ _ _ _ _ _ _ Hd0 Hr) as Hd. split_and!.
  - intros Hpc. by apply (passed_means rand down n va answers (N sg)).
  - intros nd st' Hpc Hs Hpc'. destruct (restarted _ _ _ _ _ _ nd st st' Hd Hpc Hs Hpc') as (sgo & sg' & Hgo & HN & Hg' & Hup).
    exists sg'. split; [done|]. intros a Ha. rewrite <-HN in Ha. destruct (Hup a Ha) as ((Hdc & _) & Hcn & Hlk).
    split_and!; [|done|intros b Hb; apply Hlk; by rewrite <-HN in Hb].
    simpl in Hdc. destruct (srvs sg' !! Z.to_nat a); simplify_eq/=. rewrite Hdc. by eexists.
  - intros a todo sg2 x st1 nd st2 st3 Hpc Hg2 Hx Hs1 Hpc1 Hr12 Hpc2 Hs2 Hpc3.
    pose proof (kill_keeps _ _ _ _ _ _ a todo st st1 sg2 x Hd Hpc Hs1 Hpc1 Hg2 Hx) as Hk.
    pose proof (step_dinv _ _ _ _ _ _ _ _ Hd Hs1) as Hd1. pose proof (reachable_dinv _ _ _ _ _ _ _ _ Hd1 Hr12) as Hd2.
    pose proof (kept_steps _ _ _ _ _ _ _ _ _ _ Hd1 Hk Hr12) as Hk2. unfold kept in Hk2. rewrite Hpc2 in Hk2.
    destruct (restarted _ _ _ _ _ _ nd st2 st3 Hd2 Hpc2 Hs2 Hpc3) as (sgo & sg' & Hgo & HN & Hg' & Hup).
    destruct Hk2 as (sgo' & y & Hgo' & Hy & _ & Hsv). assert (sgo' = sgo) as -> by congruence.
    exists sg'. split; [done|]. destruct (Hup (Z.of_nat (Z.to_nat a))) as ((Hdc & _) & _).
    { apply lookup_lt_Some in Hy. unfold member, N. lia. }
    simpl in Hdc. rewrite Nat2Z.id in Hdc. rewrite Hdc. unfold saved_im. rewrite Nat2Z.id, Hy. simpl. by rewrite Hsv.
  - intros Hright (i0 & Hi0 & Hdead).
    assert (einv rand down n va answers (N sg) i0 (start n c)) as He0.
    { split; [done|done|]. right. left. by apply lookup_replicate_2. }
    pose proof (reachable_einv _ _ _ _ _ _ Hright i0 Hi0 Hdead _ _ He0 Hr) as He. split; [apply He|].
    by eapply (tester_passes _ _ _ _ _ (N sg)).
Qed.

(** *** A witness: three servers and two keys; the Get of the second key never returns *)

Definition one_answer (c : Config) (i : nat) (v : string) : Prop := i = 0%nat ∧ v = "v".

Lemma shutdown_sharding_witness :
  ∃ st, rtc (step decimal all_ok GRP0 2 (λ _, "v") one_answer) (start 2 example_start) st ∧ pc st = Passed ∧
    ∃ i, (i < 2)%nat ∧ gs st !! i ≠ Some Received.
Proof.
  assert (MakeConfig decimal all_ok 0 3 true 0 = Ret example_start) as Hmk by (vm_compute; reflexivity).
  destruct (grps example_start !! GRP0) as [sg|] eqn:Hg; [|vm_compute in Hg; discriminate].
  assert (∀ st, rtc (step decimal all_ok GRP0 2 (λ _, "v") one_answer) (start 2 example_start) st → _) as Hall
    by (intros st; exact (shutdown_sharding decimal GRP0 2 (λ _, "v") one_answer 0 3 true 0 [] example_start example_start
      sg st Hmk (runs_nil _ _ _) Hg)).
  destruct (Hall (start 2 example_start) (rtc_refl _ _)) as (_ & _ & _ & H3). destruct H3 as (_ & st & Hr & Hp).
  - intros c i v [_ ->]. reflexivity.
  - exists 1%nat. split; [lia|]. intros c v _ [H1 _]. discriminate H1.
  - exists st. split; [exact Hr|]. split; [exact Hp|]. destruct (Hall st Hr) as (H1 & _). exact (proj1 (H1 Hp)).
Defined.
