(* ===== verification/ShardConcur.v ===== *)
(** * Controllers that run concurrently (concurCtrler of shardkv1/test.go)

    Goroutines join and leave groups, each with a new controller every time, until the
    tester tells them to stop.  The controllers compete: a configuration that one of them
    is asked to change to takes effect only if it follows the current one, and it may take
    effect late (another controller recovers the change) or never.  This is what
    shardctrler.go documents of the controllers, which are the student's: Query returns
    the current configuration, [held], and the configurations that were passed to
    ChangeConfigTo are the [pool] from which the next one comes.

    The goroutines and the tester are a step relation.  A call of the tester's
    configuration is one step; durations are not modelled. *)

From S2P Require Import Prelude ShardCfg LabRpc Group GroupStart Clnts Annotation Config ConfigInv ConfigReach ShardTest.
Import ShardCfg Config ConfigReach ShardTest.

Module ShardConcur.
Section concur.
Context (rand : nat → string) (ev : Group.env) (n : nat).

(** A goroutine: at its select; with a new group number; with a controller; with the group
    started; after the join, before and after the check in joinGroups; knowing that the
    group is a member; after the leave; knowing that it has left; returned; or stopped by
    log.Fatalf. *)
Inductive gpc :=
| Select | Numbered (g : Z) | WithCtrler (g : Z) | Started (g : Z) | Joined (g : Z) | Checked (g : Z)
| Member (g : Z) | Left (g : Z) | Gone (g : Z) | Returned | Fatal.

(** The tester: asleep; after [k] messages; and at the reads of the keys. *)
Inductive tpc := Asleep | Stopping (k : nat) | Reading.

Record state := MkState {
  cfg : Config; ngid : Z; held : ShardConfig; pool : list ShardConfig; pcs : list gpc; tester : tpc }.
Implicit Types st : state.
Definition goto (i : nat) (p : gpc) st : state :=
  MkState (cfg st) (ngid st) (held st) (pool st) (<[i := p]> (pcs st)) (tester st).
Definition reconf (c : Config) st : state := MkState c (ngid st) (held st) (pool st) (pcs st) (tester st).
(** ChangeConfigTo. *)
Definition propose (c : ShardConfig) st : state :=
  MkState (cfg st) (ngid st) (held st) (c :: pool st) (pcs st) (tester st).
Definition newGid st : Z * state :=
  (ngid st, MkState (cfg st) (ngid st + 1) (held st) (pool st) (pcs st) (tester st)).

Inductive goroutine (i : nat) st : state → Prop :=
| g_new g st' : pcs st !! i = Some Select → newGid st = (g, st') → goroutine i st (goto i (Numbered g) st')
| g_ctrler g p c : pcs st !! i = Some (Numbered g) → ConfigInv.client p (cfg st) = None →
    makeShardCtrler p (cfg st) = Ret c → goroutine i st (goto i (WithCtrler g) (reconf c st))
| g_start g c : pcs st !! i = Some (WithCtrler g) → MakeGroupStart rand ev g NSRV (cfg st) = Ret c →
    goroutine i st (goto i (Started g) (reconf c st))
| g_join g srvs c : pcs st !! i = Some (Started g) → SrvNames g (cfg st) = Ret srvs →
    JoinBalance [(g, srvs)] (Copy (held st)) = Ret (c, true) → goroutine i st (goto i (Joined g) (propose c st))
| g_nojoin g srvs c : pcs st !! i = Some (Started g) → SrvNames g (cfg st) = Ret srvs →
    JoinBalance [(g, srvs)] (Copy (held st)) = Ret (c, false) → goroutine i st (goto i Fatal st)
| g_check g : pcs st !! i = Some (Joined g) → goroutine i st (goto i (Checked g) st)
| g_member g : pcs st !! i = Some (Checked g) →
    goroutine i st (goto i (if IsMember g (held st) then Member g else Select) st)
| g_leave g c : pcs st !! i = Some (Member g) → LeaveBalance [g] (Copy (held st)) = Ret (c, true) →
    goroutine i st (goto i (Left g) (propose c st))
| g_noleave g c : pcs st !! i = Some (Member g) → LeaveBalance [g] (Copy (held st)) = Ret (c, false) →
    goroutine i st (goto i Fatal st)
| g_left g : pcs st !! i = Some (Left g) →
    goroutine i st (goto i (if IsMember g (held st) then Select else Gone g) st)
| g_exit g c : pcs st !! i = Some (Gone g) → ExitGroup ev g (cfg st) = Ret c →
    goroutine i st (goto i Select (reconf c st)).

Definition at_tester (t : tpc) st : state := MkState (cfg st) (ngid st) (held st) (pool st) (pcs st) t.

Inductive step st : state → Prop :=
| s_goroutine i st' : goroutine i st st' → step st st'
| s_wake : tester st = Asleep → step st (at_tester (Stopping 0) st)
| s_stop k i : tester st = Stopping k → (k < n)%nat → pcs st !! i = Some Select →
    step st (at_tester (Stopping (S k)) (goto i Returned st))
| s_read : tester st = Stopping n → step st (at_tester Reading st)
| s_held c : c ∈ pool st → Num c = Num (held st) + 1 →
    step st (MkState (cfg st) (ngid st) c (pool st) (pcs st) (tester st))
| s_client o c : client_op o = true → Config.valid o (cfg st) → Config.run rand ev o (cfg st) = Ret c →
    step st (reconf c st).

Definition start (c : Config) (next : Z) (h : ShardConfig) : state :=
  MkState c next h [] (replicate n Select) Asleep.
End concur.
End ShardConcur.
