(* ===== verification/ShardConcurSpec.v ===== *)
(** * Controllers that run concurrently: properties (concurCtrler of shardkv1/test.go) *)

From stdpp Require Import pretty.
From S2P Require Import Prelude Fnv ShardCfg LabRpc Group GroupStart Clnts Annotation Config ConfigInv ConfigSpec ConfigReach ShardTest ShardTestSpec ShardConcur.
Import ShardCfg Config ConfigInv ShardTest ShardConcur.

Section spec.
Context (rand : nat → string) `{!Inj (=) (=) rand} (n : nat).
Implicit Types st : state.
Abbreviation step := (step rand all_ok n).

(** ** The invariant *)

Definition group_of (p : gpc) : option Z :=
  match p with
  | Numbered g | WithCtrler g | Started g | Joined g | Checked g | Member g | Left g | Gone g => Some g
  | Select | Returned | Fatal => None
  end.

(** A configuration of the controller that may be the current one: its groups run. *)
Record good_cfg (next : Z) (gs : gmap Z Group.ServerGrp) (c : ShardConfig) : Prop := {
  gc_sound : sound c;
  gc_owned : owned c;
  gc_num : - two63 ≤ Num c < two63;
  gc_group h srvs : Groups c !! h = Some srvs → srvs = names h ∧ 0 < h < next ∧ is_Some (gs !! h)
}.

(** [held] may become [c]: groups that have shards keep one. *)
Definition keeps_shards (h c : ShardConfig) : Prop := ∀ g, live h g → live c g → g ∈ Shards h → g ∈ Shards c.

Definition pending st (c : ShardConfig) : Prop := c ∈ pool st ∧ Num c = Num (held st) + 1.

(** What a goroutine may rely on. *)
Definition pc_ok st (p : gpc) : Prop :=
  match p with
  | Numbered g | WithCtrler g =>
      grps (cfg st) !! g = None ∧ ¬ live (held st) g ∧ ∀ c, pending st c → ¬ live c g
  | Started g =>
      is_Some (grps (cfg st) !! g) ∧ SrvNames g (cfg st) = Ret (names g) ∧ ¬ live (held st) g ∧ ∀ c, pending st c → ¬ live c g
  | Joined g | Checked g =>
      is_Some (grps (cfg st) !! g) ∧ ∀ c, pending st c → live (held st) g → live c g
  | Member g =>
      is_Some (grps (cfg st) !! g) ∧ live (held st) g ∧ g ∈ Shards (held st) ∧ ∀ c, pending st c → live c g
  | Left g =>
      is_Some (grps (cfg st) !! g) ∧ (live (held st) g → g ∈ Shards (held st)) ∧ ∀ c, pending st c → live c g → live (held st) g
  | Gone g =>
      is_Some (grps (cfg st) !! g) ∧ ¬ live (held st) g ∧ ∀ c, pending st c → ¬ live c g
  | Select | Returned => True
  | Fatal => False
  end.

Definition ended (p : gpc) : Z := match p with Returned => 1 | _ => 0 end.
Definition tester_ok st : Prop :=
  match tester st with
  | Asleep => ∀ i, pcs st !! i ≠ Some Returned
  | Stopping k => sumf ended (pcs st) = Z.of_nat k
  | Reading => ∀ i p, pcs st !! i = Some p → p = Returned
  end.

Lemma ended_bound l : 0 ≤ sumf ended l ≤ Z.of_nat (length l).
Proof. induction l as [|p l IH]; [done|]. rewrite sumf_cons, length_cons. destruct p; simpl; lia. Qed.

Record cinv st : Prop := {
  c_ok : ok rand (cfg st);
  c_clnts : is_Some (clnts (cfg st));
  c_pos : 0 < ngid st;
  c_new g : is_Some (grps (cfg st) !! g) → g < ngid st;
  c_held : good_cfg (ngid st) (grps (cfg st)) (held st);
  c_pool c : c ∈ pool st → - two63 ≤ Num c ≤ Num (held st) + 1;
  c_pending c : pending st c → good_cfg (ngid st) (grps (cfg st)) c ∧ keeps_shards (held st) c;
  c_len : length (pcs st) = n;
  c_pc i p : pcs st !! i = Some p → pc_ok st p;
  c_range i p g : pcs st !! i = Some p → group_of p = Some g → 0 < g < ngid st;
  c_uniq i j p q g : pcs st !! i = Some p → pcs st !! j = Some q → group_of p = Some g → group_of q = Some g → i = j;
  c_tester : tester_ok st
}.

(** ** What a step of a goroutine keeps *)

Lemma good_cfg_mono next next' gs gs' c :
  good_cfg next gs c → next ≤ next' → (∀ g, live c g → is_Some (gs !! g) → is_Some (gs' !! g)) → good_cfg next' gs' c.
Proof.
  intros [H1 H2 H3 H4] Hn Hg. split; [done..|]. intros h srvs Hh. destruct (H4 h srvs Hh) as (? & ? & ?).
  split_and!; [done|lia|lia|]. apply Hg; [by eexists|done].
Qed.

(** A change elsewhere does not disturb a goroutine. *)
Lemma pc_ok_frame st st' p :
  pc_ok st p → held st' = held st →
  (∀ g, group_of p = Some g → grps (cfg st') !! g = grps (cfg st) !! g) →
  (∀ g c, group_of p = Some g → pending st' c → pending st c ∨ (live c g ↔ live (held st) g)) → pc_ok st' p.
Proof.
  intros Hp Hh Hg Hc. destruct p as [|g|g|g|g|g|g|g|g| |]; simpl in *; try done; unfold SrvNames, lookupGroup in *;
    rewrite ?Hh, ?(Hg g eq_refl); repeat match goal with H : _ ∧ _ |- _ => destruct H end;
    (split_and!; [done..|]); intros c Hpc; destruct (Hc g c eq_refl Hpc) as [Ho|Ho]; eauto; rewrite Ho; tauto.
Qed.

(** A goroutine moves from [p] to [p']. *)
Lemma move_cinv st i p p' cfg' ngid' pool' :
  cinv st → pcs st !! i = Some p →
  ok rand cfg' → is_Some (clnts cfg') → ngid st ≤ ngid' → (∀ g, is_Some (grps cfg' !! g) → g < ngid') →
  (∀ g, group_of p ≠ Some g → g < ngid st → grps cfg' !! g = grps (cfg st) !! g) →
  (∀ g, group_of p = Some g → live (held st) g ∨ (∃ c, pending st c ∧ live c g) → is_Some (grps cfg' !! g)) →
  (∀ c, c ∈ pool' → c ∈ pool st ∨ - two63 ≤ Num c ≤ Num (held st) + 1 ∧
     (Num c = Num (held st) + 1 → good_cfg ngid' (grps cfg') c ∧ keeps_shards (held st) c ∧
        ∀ g, group_of p ≠ Some g → live c g ↔ live (held st) g)) →
  (∀ g, group_of p' = Some g → group_of p = Some g ∨ ngid st ≤ g < ngid') → p ≠ Returned → p' ≠ Returned →
  let st' := MkState cfg' ngid' (held st) pool' (<[i := p']> (pcs st)) (tester st) in pc_ok st' p' → cinv st'.
Proof.
  intros [Hok Hm Hpos Hnew Hheld Hpool Hpend Hlen Hpc Hrange Huniq Ht] Hi Hok' Hm' Hn Hnew' Hframe Hrun Hp' Hg' Hr Hr' st' Hpc'.
  assert (∀ c, good_cfg (ngid st) (grps (cfg st)) c → c = held st ∨ pending st c → good_cfg ngid' (grps cfg') c) as Hgood.
  { intros c Hc Hor. eapply good_cfg_mono; [done|done|]. intros g Hl Hs. destruct (decide (group_of p = Some g)) as [Hgp|Hgp].
    - apply Hrun; [done|]. destruct Hor as [->|Hor]; [by left|right; by exists c].
    - rewrite Hframe; [done|done|by apply Hnew]. }
  split; simpl; try done.
  - lia.
  - by apply Hgood; [|left].
  - intros c Hc. destruct (Hp' c Hc) as [Hc'|[? _]]; [by apply Hpool|done].
  - intros c [Hc Hnum]. simpl in Hc, Hnum. destruct (Hp' c Hc) as [Hc'|[_ Hx]].
    + destruct (Hpend c) as [? ?]; [done|]. split; [|done]. apply Hgood; [done|by right].
    + by destruct (Hx Hnum) as (? & ? & _).
  - by rewrite length_insert.
  - intros j q [(<- & <- & _)|[Hne Hj]]%list_lookup_insert_Some; [done|]. apply (pc_ok_frame st); [by eapply Hpc|done| |].
    + intros g Hg. simpl. apply Hframe; [|by apply (Hrange j q g)]. intros Hgp. by eapply Hne, Huniq.
    + intros g c Hg [Hc Hnum]. simpl in Hc, Hnum. destruct (Hp' c Hc) as [Hc'|[_ Hx]]; [by left|right].
      apply (Hx Hnum). intros Hgp. by eapply Hne, Huniq.
  - intros j q g [(<- & <- & _)|[Hne Hj]]%list_lookup_insert_Some Hg.
    + destruct (Hg' g Hg) as [Hgp|?]; [|lia]. pose proof (Hrange i p g Hi Hgp). lia.
    + pose proof (Hrange j q g Hj Hg). lia.
  - assert (∀ j q g, i ≠ j → pcs st !! j = Some q → group_of p' = Some g → group_of q = Some g → False) as Hno.
    { intros j q g Hne Hj Hgp' Hgq. destruct (Hg' g Hgp') as [Hgp|?]; [by eapply Hne, Huniq|].
      pose proof (Hrange j q g Hj Hgq). lia. }
    intros j k q r g [(<- & <- & _)|[Hj' Hj]]%list_lookup_insert_Some [(<- & <- & _)|[Hk' Hk]]%list_lookup_insert_Some; intros Hq Hr0;
      [done|by destruct (Hno k r g)|by destruct (Hno j q g)|by eapply Huniq].
  - unfold tester_ok in *. simpl. destruct (tester st) as [|k|].
    + intros j [(_ & ? & _)|[_ Hj]]%list_lookup_insert_Some; [done|]. by apply (Ht j).
    + rewrite <-Ht. rewrite (sumf_insert _ _ _ _ _ Hi). destruct p, p'; try done; simpl; lia.
    + pose proof (Ht i p Hi). done.
Qed.

(** A step that changes neither the configuration of the test nor the pool. *)
Lemma goto_cinv st i p p' :
  cinv st → pcs st !! i = Some p → (∀ g, group_of p' = Some g → group_of p = Some g) → p ≠ Returned → p' ≠ Returned →
  pc_ok st p' → cinv (goto i p' st).
Proof.
  intros Hinv Hi Hg Hr Hr' Hpc. pose proof Hinv as [Hok Hm Hpos Hnew Hheld Hpool Hpend Hlen Hpcs Hrange Huniq Ht].
  eapply (move_cinv st i p p' (cfg st) (ngid st) (pool st) Hinv); try done.
  - intros g Hgp [Hl|(c & Hc & Hl)].
    + destruct Hl as [srvs Hl]. by destruct (gc_group _ _ _ Hheld g srvs Hl) as (_ & _ & ?).
    + destruct Hl as [srvs Hl]. by destruct (gc_group _ _ _ (proj1 (Hpend c Hc)) g srvs Hl) as (_ & _ & ?).
  - intros c Hc. by left.
  - intros g Hgp. left. by apply Hg.
Qed.

(** A step that proposes a configuration. *)
Lemma propose_cinv st i p p' g c :
  cinv st → pcs st !! i = Some p → group_of p = Some g → (∀ g', group_of p' = Some g' → g' = g) → p ≠ Returned → p' ≠ Returned →
  sound c → owned c → Num c = i64 (Num (held st) + 1) →
  (∀ h srvs, Groups c !! h = Some srvs → srvs = names h ∧ 0 < h < ngid st ∧ is_Some (grps (cfg st) !! h)) →
  keeps_shards (held st) c → (∀ h, h ≠ g → live c h ↔ live (held st) h) →
  pc_ok (propose c st) p' → cinv (goto i p' (propose c st)).
Proof.
  intros Hinv Hi Hgp Hg Hr Hr' Hs Hown Hnum Hgr Hk Hl Hpc. pose proof Hinv as [Hok Hm Hpos Hnew Hheld Hpool Hpend Hlen Hpcs Hrange Huniq Ht].
  eapply (move_cinv st i p p' (cfg st) (ngid st) (c :: pool st) Hinv); try done.
  - intros h Hhp [[srvs Hl']|(c0 & Hc0 & [srvs Hl'])].
    + by destruct (gc_group _ _ _ Hheld h srvs Hl') as (_ & _ & ?).
    + by destruct (gc_group _ _ _ (proj1 (Hpend c0 Hc0)) h srvs Hl') as (_ & _ & ?).
  - pose proof (gc_num _ _ _ Hheld) as Hrg. intros c0 [->|Hc0]%elem_of_cons; [right|by left].
    assert (- two63 ≤ Num c ≤ Num (held st) + 1 ∧ Num c < two63) as [? ?].
    { rewrite Hnum. unfold i64, two63, two64 in *. pose proof (Z.mod_pos_bound (Num (held st) + 1 + 9223372036854775808) 18446744073709551616).
      pose proof (Z.mod_le (Num (held st) + 1 + 9223372036854775808) 18446744073709551616). lia. }
    split; [done|]. intros _. split; [split; try done; lia|]. split; [done|]. intros h Hh. apply Hl. congruence.
  - intros h Hh. left. rewrite Hgp. f_equal. symmetry. by apply Hg.
Qed.

(** A step that changes only the configuration of the test. *)
Lemma reconf_cinv st i p p' c g :
  cinv st → pcs st !! i = Some p → group_of p = Some g → (∀ g', group_of p' = Some g' → g' = g) → p ≠ Returned → p' ≠ Returned →
  ok rand c → is_Some (clnts c) → (∀ h, h ≠ g → grps c !! h = grps (cfg st) !! h) →
  is_Some (grps c !! g) ∨ (¬ live (held st) g ∧ ∀ c, pending st c → ¬ live c g) →
  pc_ok (reconf c st) p' → cinv (goto i p' (reconf c st)).
Proof.
  intros Hinv Hi Hgp Hg Hr Hr' Hok' Hm' Hgr Hrun Hpc. pose proof Hinv as [Hok Hm Hpos Hnew Hheld Hpool Hpend Hlen Hpcs Hrange Huniq Ht].
  eapply (move_cinv st i p p' c (ngid st) (pool st) Hinv); try done.
  - intros h Hh. destruct (decide (h = g)) as [->|Hne]; [by apply (Hrange i p g)|]. apply Hnew. by rewrite <-Hgr.
  - intros h Hh _. apply Hgr. congruence.
  - intros h Hh Hl. assert (h = g) as -> by congruence. destruct Hrun as [?|[H1 H2]]; [done|].
    destruct Hl as [?|(c0 & Hc0 & ?)]; [by destruct H1|by destruct (H2 c0 Hc0)].
  - intros c0 Hc0. by left.
  - intros h Hh. left. rewrite Hgp. f_equal. symmetry. by apply Hg.
Qed.

Lemma held_disjoint st g h hs x :
  cinv st → 0 < g → ¬ live (held st) g → Groups (held st) !! h = Some hs → x ∈ hs → x ∉ names g.
Proof.
  intros Hinv Hg Hn Hh. destruct (gc_group _ _ _ (c_held _ Hinv) h hs Hh) as (-> & ? & _).
  apply names_disjoint; [lia|lia|]. intros ->. apply Hn. by eexists.
Qed.

Lemma join_cinv st i g :
  cinv st → pcs st !! i = Some (Started g) → ∃ c, JoinBalance [(g, names g)] (Copy (held st)) = Ret (c, true) ∧
    cinv (goto i (Joined g) (propose c st)).
Proof.
  intros Hinv Hi. pose proof (c_pc _ Hinv _ _ Hi) as (Hrun & _ & Hnl & Hpd). pose proof (c_range _ Hinv i _ g Hi eq_refl) as Hrg.
  pose proof (c_held _ Hinv) as [Hs _ _ Hgr].
  assert (Groups (held st) !! g = None) as Hng by (by apply eq_None_not_Some).
  destruct (join_one (held st) g (names g)) as (c & Heq & Hsc & Hgc & Hnum & Hk);
    [apply Hs|done|intros h hs x; apply held_disjoint; (done || lia)|].
  exists c. split; [done|]. eapply (propose_cinv st i (Started g) (Joined g) g c); try done; simpl.
  - by intros g' [= ->].
  - apply sound_owned; [done|]. rewrite Hgc. apply insert_non_empty.
  - intros h srvs. rewrite Hgc. intros [[<- <-]|[_ Hh]]%lookup_insert_Some; [done|by apply Hgr].
  - intros h Hl _. by apply Hk.
  - intros h Hne. unfold live. by rewrite Hgc, lookup_insert_ne.
Qed.

Lemma leave_cinv st i g :
  cinv st → pcs st !! i = Some (Member g) → ∃ c, LeaveBalance [g] (Copy (held st)) = Ret (c, true) ∧
    cinv (goto i (Left g) (propose c st)).
Proof.
  intros Hinv Hi. pose proof (c_pc _ Hinv _ _ Hi) as (Hrun & Hl & Hsh & Hpd). pose proof (c_range _ Hinv i _ g Hi eq_refl) as Hrg.
  pose proof (c_held _ Hinv) as [Hs _ _ Hgr].
  destruct (leave_one (held st) g) as (c & Heq & Hsc & Hgc & _ & Hnum & Hown & Hk); [apply Hs|done|].
  exists c. split; [done|]. eapply (propose_cinv st i (Member g) (Left g) g c); try done; simpl.
  - by intros g' [= ->].
  - intros h srvs. rewrite Hgc. intros [_ Hh]%lookup_delete_Some. by apply Hgr.
  - intros h Hl' Hlc. apply Hk; [|done]. intros ->. unfold live in Hlc. rewrite Hgc, lookup_delete_eq in Hlc. by apply is_Some_None in Hlc.
  - intros h Hne. unfold live. by rewrite Hgc, lookup_delete_ne.
Qed.

Lemma makeShardCtrler_ok p c :
  ok rand c → is_Some (clnts c) → client p c = None →
  ∃ c', makeShardCtrler p c = Ret c' ∧ ok rand c' ∧ is_Some (clnts c') ∧ grps c' = grps c.
Proof.
  intros Hok Hm Hp. destruct (run_ok rand (OMakeClient p None) c Hok Hm Hp) as (c1 & H1 & Hok1 & Hm1).
  exists c1. split_and!; [exact H1|done|done|]. by apply (ConfigReach.client_op_grps rand (OMakeClient p None)).
Qed.

Lemma start_cinv st i g :
  cinv st → pcs st !! i = Some (WithCtrler g) → ∃ c, MakeGroupStart rand all_ok g NSRV (cfg st) = Ret c ∧
    cinv (goto i (Started g) (reconf c st)).
Proof.
  intros Hinv Hi. pose proof (c_pc _ Hinv _ _ Hi) as (Hnone & Hnl & Hpd).
  destruct (MakeGroupStart_ok rand g NSRV (cfg st) (c_ok _ Hinv) Hnone) as (c & sg & Hmk & Hok & Hc & _).
  exists c. split; [done|]. assert (grps c = <[g := sg]> (grps (cfg st)) ∧ clnts c = clnts (cfg st)) as [Hgr Hcl] by by rewrite Hc.
  eapply (reconf_cinv st i (WithCtrler g) (Started g) c g); try done.
  - by intros g' [= ->].
  - rewrite Hcl. apply (c_clnts _ Hinv).
  - intros h Hne. by rewrite Hgr, lookup_insert_ne.
  - left. rewrite Hgr, lookup_insert_eq. by eexists.
  - simpl. split_and!; [by rewrite Hgr, lookup_insert_eq; eexists|by eapply MakeGroupStart_names|done|done].
Qed.

Lemma exit_cinv st i g :
  cinv st → pcs st !! i = Some (Gone g) → ∃ c, ExitGroup all_ok g (cfg st) = Ret c ∧
    cinv (goto i Select (reconf c st)).
Proof.
  intros Hinv Hi. pose proof (c_pc _ Hinv _ _ Hi) as (Hrun & Hnl & Hpd).
  destruct (ExitGroup_ok rand g (cfg st) (c_ok _ Hinv) Hrun) as (c & Hex & Hok & Hcl). exists c. split; [done|].
  eapply (reconf_cinv st i (Gone g) Select c g); try done.
  - rewrite Hcl. apply (c_clnts _ Hinv).
  - intros h Hne. rewrite (ExitGroup_grps _ _ _ _ Hex). by rewrite lookup_delete_ne.
  - by right.
Qed.

Lemma goroutine_cinv st i st' : cinv st → goroutine rand all_ok i st st' → cinv st'.
Proof.
  intros Hinv Hg. pose proof Hinv as [Hok Hm Hpos Hnew Hheld Hpool Hpend Hlen Hpcs Hrange Huniq Ht].
  destruct Hg as [g st' Hi Hn|g p c Hi Hp Hr|g c Hi Hr|g srvs c Hi Hs Hr|g srvs c Hi Hs Hr|g Hi|g Hi|g c Hi Hr|g c Hi Hr|g Hi|g c Hi Hr].
  - injection Hn as <- <-. eapply (move_cinv st i Select (Numbered (ngid st)) (cfg st) (ngid st + 1) (pool st) Hinv); try done.
    + lia.
    + intros g Hx. specialize (Hnew g Hx). lia.
    + intros c Hc. by left.
    + intros g [= <-]. right. lia.
    + simpl. split_and!.
      * destruct (grps (cfg st) !! ngid st) eqn:Hx; [|done]. specialize (Hnew (ngid st) ltac:(by rewrite Hx; eexists)). lia.
      * intros [srvs Hl]. destruct (gc_group _ _ _ Hheld _ _ Hl) as (_ & ? & _). lia.
      * intros c Hc [srvs Hl]. destruct (gc_group _ _ _ (proj1 (Hpend c Hc)) _ _ Hl) as (_ & ? & _). lia.
  - destruct (makeShardCtrler_ok p (cfg st) Hok Hm Hp) as (c1 & Heq & Hok1 & Hm1 & Hg1). rewrite Hr in Heq. injection Heq as <-.
    pose proof (Hpcs _ _ Hi) as (Hnone & Hnl & Hpd).
    eapply (reconf_cinv st i (Numbered g) (WithCtrler g) c g); try done.
    + by intros g' [= ->].
    + intros h _. by rewrite Hg1.
    + by right.
    + simpl. by rewrite Hg1.
  - destruct (start_cinv st i g Hinv Hi) as (c1 & Heq & ?). rewrite Hr in Heq. by injection Heq as <-.
  - pose proof (Hpcs _ _ Hi) as (_ & Hsn & _). rewrite Hs in Hsn. injection Hsn as ->.
    destruct (join_cinv st i g Hinv Hi) as (c1 & Heq & ?). rewrite Hr in Heq. by injection Heq as <-.
  - pose proof (Hpcs _ _ Hi) as (_ & Hsn & _). rewrite Hs in Hsn. injection Hsn as ->.
    destruct (join_cinv st i g Hinv Hi) as (c1 & Heq & ?). congruence.
  - eapply goto_cinv; [done..|by apply (Hpcs i (Joined g))].
  - pose proof (Hpcs _ _ Hi) as (Hrun & Hpd). destruct (IsMember g (held st)) eqn:Hmem; (eapply goto_cinv; [done|done| |done|done|]); try done.
    apply IsMember_In in Hmem. assert (live (held st) g) by (apply (gc_owned _ _ _ Hheld); [done|pose proof (Hrange i _ g Hi eq_refl); lia]).
    simpl. split_and!; [done|done|done|]. intros c Hc. by apply Hpd.
  - destruct (leave_cinv st i g Hinv Hi) as (c1 & Heq & ?). rewrite Hr in Heq. by injection Heq as <-.
  - destruct (leave_cinv st i g Hinv Hi) as (c1 & Heq & ?). congruence.
  - pose proof (Hpcs _ _ Hi) as (Hrun & Hsh & Hpd). destruct (IsMember g (held st)) eqn:Hmem; (eapply goto_cinv; [done|done| |done|done|]); try done.
    assert (¬ live (held st) g) by (intros Hl%Hsh%IsMember_In; congruence). simpl. split_and!; [done|done|]. intros c Hc Hl. by apply H, (Hpd c).
  - destruct (exit_cinv st i g Hinv Hi) as (c1 & Heq & ?). rewrite Hr in Heq. by injection Heq as <-.
Qed.

(** ** Every step *)

Lemma pc_ok_client st c p : grps c = grps (cfg st) → pc_ok st p → pc_ok (reconf c st) p.
Proof. intros Hg Hp. apply (pc_ok_frame st); [done|done|intros; simpl; by rewrite Hg|intros; by left]. Qed.

Lemma held_cinv st c :
  cinv st → c ∈ pool st → Num c = Num (held st) + 1 →
  cinv (MkState (cfg st) (ngid st) c (pool st) (pcs st) (tester st)).
Proof.
  intros [Hok Hm Hpos Hnew Hheld Hpool Hpend Hlen Hpcs Hrange Huniq Ht] Hc Hnum.
  destruct (Hpend c (conj Hc Hnum)) as [Hgood Hk].
  assert (∀ c', pending (MkState (cfg st) (ngid st) c (pool st) (pcs st) (tester st)) c' → False) as Hno.
  { intros c' [Hc' Hn']. simpl in *. specialize (Hpool c' Hc'). lia. }
  split; simpl; try done.
  - intros c' Hc'. specialize (Hpool c' Hc'). lia.
  - intros c' Hc'. by destruct (Hno c').
  - intros i p Hi. specialize (Hpcs i p Hi). pose proof (conj Hc Hnum : pending st c) as Hpc.
    destruct p as [|g|g|g|g|g|g|g|g| |]; simpl in *; try done; repeat match goal with H : _ ∧ _ |- _ => destruct H end;
      split_and!; eauto; try (intros c' Hc'; by destruct (Hno c' Hc')).
Qed.

Lemma step_cinv st st' : cinv st → step st st' → cinv st'.
Proof.
  intros Hinv Hs. pose proof Hinv as [Hok Hm Hpos Hnew Hheld Hpool Hpend Hlen Hpcs Hrange Huniq Ht].
  destruct Hs as [i st' Hg|Hp|k i Hp Hk Hi|Hp|c Hc Hnum|o c Ho Hv Hr].
  - by eapply goroutine_cinv.
  - split; simpl; try done. unfold tester_ok in *. simpl. rewrite Hp in Ht. revert Ht. generalize (pcs st). intros l Hl.
    induction l as [|p l IH]; [done|]. rewrite sumf_cons, IH by (intros i; apply (Hl (S i))).
    pose proof (Hl 0%nat). destruct p; try done.
  - unfold tester_ok in Ht. rewrite Hp in Ht. split; simpl; try done.
    + by rewrite length_insert.
    + intros j q [(_ & <- & _)|[_ Hj]]%list_lookup_insert_Some; [done|by apply Hpcs in Hj].
    + intros j q g [(_ & <- & _)|[_ Hj]]%list_lookup_insert_Some; [done|by apply (Hrange j)].
    + intros j j' q r g [(_ & <- & _)|[_ Hj]]%list_lookup_insert_Some [(_ & <- & _)|[_ Hj']]%list_lookup_insert_Some; try done. by apply Huniq.
    + unfold tester_ok. simpl. rewrite (sumf_insert _ _ _ _ _ Hi). rewrite Ht. simpl. lia.
  - unfold tester_ok in Ht. rewrite Hp in Ht. split; simpl; try done. unfold tester_ok. simpl.
    rewrite <-Hlen in Ht. revert Ht. generalize (pcs st). intros l Hl i p Hi.
    destruct p; try done; exfalso.
    all: pose proof (ended_bound (<[i := Returned]> l)) as Hx; rewrite (sumf_insert _ _ _ _ _ Hi), length_insert, Hl in Hx; simpl in Hx; lia.
  - by apply held_cinv.
  - destruct (run_ok rand o (cfg st) Hok Hm Hv) as (c' & Heq & Hok' & Hm'). rewrite Hr in Heq. injection Heq as <-.
    pose proof (ConfigReach.client_op_grps rand o _ _ Ho Hr) as Hg. split; simpl; rewrite ?Hg; try done.
    intros i p Hi. apply pc_ok_client; [done|by apply (Hpcs i)].
Qed.

Lemma reachable_cinv st st' : cinv st → rtc step st st' → cinv st'.
Proof. intros Hd. induction 1 as [|st st1 st' Hs _ IH]; [done|]. apply IH. by eapply step_cinv. Qed.

(** ** The tester can always come to an end *)

(** The steps of a goroutine to its select. *)
Definition rank (p : gpc) : nat :=
  match p with
  | Numbered _ => 8 | WithCtrler _ => 7 | Started _ => 6 | Joined _ => 5 | Checked _ => 4 | Member _ => 3 | Left _ => 2
  | Gone _ => 1 | Select | Returned | Fatal => 0
  end.

Lemma goroutine_advances st i p :
  cinv st → pcs st !! i = Some p → p ≠ Select → p ≠ Returned →
  ∃ st' p', goroutine rand all_ok i st st' ∧ pcs st' = <[i := p']> (pcs st) ∧ tester st' = tester st ∧
    p' ≠ Returned ∧ (rank p' < rank p)%nat.
Proof.
  intros Hinv Hi Hs Hr. pose proof (c_pc _ Hinv i p Hi) as Hpc. destruct p as [|g|g|g|g|g|g|g|g| |]; try done.
  - pose proof (is_fresh (dom (default ∅ (clnts (cfg st))))) as Hf. set (q := fresh _) in *.
    assert (client q (cfg st) = None) as Hq.
    { unfold client. apply not_elem_of_dom in Hf. by destruct (clnts (cfg st)). }
    destruct (makeShardCtrler_ok q (cfg st) (c_ok _ Hinv) (c_clnts _ Hinv) Hq) as (c & Hc & _).
    eexists _, (WithCtrler g). split; [by eapply g_ctrler|]. simpl. split_and!; [done..|lia].
  - destruct (start_cinv st i g Hinv Hi) as (c & Hc & _). eexists _, (Started g). split; [by eapply g_start|].
    simpl. split_and!; [done..|lia].
  - destruct (join_cinv st i g Hinv Hi) as (c & Hc & _). destruct Hpc as (_ & Hsn & _).
    eexists _, (Joined g). split; [by eapply g_join|]. simpl. split_and!; [done..|lia].
  - eexists _, (Checked g). split; [by eapply g_check|]. simpl. split_and!; [done..|lia].
  - eexists _, _. split; [by eapply g_member|]. simpl. split_and!; [done..| |]; destruct (IsMember g (held st)); simpl; (done || lia).
  - destruct (leave_cinv st i g Hinv Hi) as (c & Hc & _). eexists _, (Left g). split; [by eapply g_leave|].
    simpl. split_and!; [done..|lia].
  - eexists _, _. split; [by eapply g_left|]. simpl. split_and!; [done..| |]; destruct (IsMember g (held st)); simpl; (done || lia).
  - destruct (exit_cinv st i g Hinv Hi) as (c & Hc & _). eexists _, Select. split; [by eapply g_exit|].
    simpl. split_and!; [done..|lia].
Qed.

Lemma come_to_select m st i p :
  cinv st → pcs st !! i = Some p → p ≠ Returned → (rank p ≤ m)%nat → ∃ st', rtc step st st' ∧ cinv st' ∧
    pcs st' !! i = Some Select ∧ tester st' = tester st.
Proof.
  revert st p. induction m as [|m IH]; intros st p Hinv Hi Hr Hm.
  - exists st. pose proof (c_pc _ Hinv i p Hi) as Hpc. destruct p; simpl in Hm; try lia; done.
  - destruct (decide (rank p = 0%nat)) as [H0|Hn0]; [apply (IH st p); [done..|lia]|].
    destruct (goroutine_advances st i p Hinv Hi) as (st' & p' & Hg & Hp & Ht & Hr' & Hlt); [by intros ->|done|].
    pose proof (goroutine_cinv st i st' Hinv Hg) as Hinv'.
    destruct (IH st' p') as (st2 & Hrtc & Hinv2 & Hs & Ht2); [done| |done|lia|].
    + rewrite Hp. apply list_lookup_insert_eq. by eapply lookup_lt_Some.
    + exists st2. split_and!; [|done|done|congruence]. eapply rtc_l; [by eapply s_goroutine|done].
Qed.

Lemma some_running l k :
  sumf ended l = Z.of_nat k → (k < length l)%nat →
  ∃ i p, l !! i = Some p ∧ p ≠ Returned.
Proof.
  revert k. induction l as [|p l IH]; intros k Hk Hlt; simpl in Hlt; [lia|]. rewrite sumf_cons in Hk.
  destruct (decide (ended p = 1)) as [Hp|Hp]; [|exists 0%nat, p; split; [done|by intros ->]].
  pose proof (ended_bound l). destruct k as [|k]; [lia|].
  destruct (IH k) as (i & q & ? & ?); [lia..|]. by exists (S i), q.
Qed.

Lemma can_end st : cinv st → ∃ st', rtc step st st' ∧ tester st' = Reading.
Proof.
  assert (∀ m k st, cinv st → tester st = Stopping k → (k + m = n)%nat → ∃ st', rtc step st st' ∧ tester st' = Reading) as Hstop.
  { induction m as [|m IH]; intros k st0 Hinv Ht Hm.
    { eexists. split; [apply rtc_once, s_read; rewrite Ht; f_equal; lia|done]. }
    pose proof (c_tester _ Hinv) as Hk. unfold tester_ok in Hk. rewrite Ht in Hk.
    destruct (some_running _ _ Hk) as (i & p & Hi & Hp); [rewrite (c_len _ Hinv); lia|].
    destruct (come_to_select _ st0 i p Hinv Hi Hp (le_n _)) as (st1 & Hr1 & Hinv1 & Hs1 & Ht1).
    rewrite Ht in Ht1. assert (k < n)%nat as Hkn by lia. pose proof (s_stop rand all_ok n st1 k i Ht1 Hkn Hs1) as Hst.
    destruct (IH (S k) _ (step_cinv _ _ Hinv1 Hst) eq_refl) as (st2 & Hr2 & ?); [lia|].
    exists st2. split; [|done]. etrans; [done|]. by eapply rtc_l. }
  intros Hinv. destruct (tester st) as [|k|] eqn:Ht.
  - pose proof (s_wake rand all_ok n st Ht) as Hw. destruct (Hstop n 0%nat _ (step_cinv _ _ Hinv Hw) eq_refl) as (st' & ? & ?); [done|].
    exists st'. split; [by eapply rtc_l|done].
  - destruct (decide (k ≤ n)%nat) as [Hle|Hgt]; [apply (Hstop (n - k)%nat k st Hinv Ht); lia|]. exfalso.
    pose proof (c_tester _ Hinv) as Hk. unfold tester_ok in Hk. rewrite Ht in Hk. pose proof (c_len _ Hinv) as Hl.
    pose proof (ended_bound (pcs st)). lia.
  - by exists st.
Qed.

Lemma begin_cinv c next h :
  ok rand c → is_Some (clnts c) → 0 < next → (∀ g, is_Some (grps c !! g) → g < next) → good_cfg next (grps c) h →
  cinv (start n c next h).
Proof.
  intros Hok Hm Hpos Hnew Hh.
  assert (∀ i p, replicate n Select !! i = Some p → p = Select) as Hsel by (intros i p [-> _]%lookup_replicate_1; done).
  split; simpl; try done.
  - intros c0 Hc. by apply not_elem_of_nil in Hc.
  - intros c0 [Hc _]. by apply not_elem_of_nil in Hc.
  - by rewrite length_replicate.
  - by intros i p ->%Hsel.
  - by intros i p g ->%Hsel.
  - by intros i j p q g ->%Hsel ->%Hsel.
  - by intros i Hx%Hsel.
Qed.
End spec.

(** C34. Competing controllers do not confuse the test.  Let the goroutines of concurCtrler run
    in any order from any point of a test of the sharded service with shard groups, whose
    controller does what shardctrler.go documents and whose processes start and answer,
    while the configuration changes only along the proposals, late or never, and clients
    come and go.  Then no goroutine is stopped by log.Fatalf: a group that it joins is never
    present already, and a group that it lets leave is; no two goroutines work on the same
    group; every group of the current configuration is a server group of the test, with the
    names of its servers, and the configuration passes CheckConfig; and from every reachable
    state the tester can stop all goroutines and come to its reads, and when it reads, they
    have returned. *)
Theorem concurrent_controllers {K} `{ShardCtrler K} (ctl : K → ShardConfig) `{!CtrlerLaws ctl}
    (rand : nat → string) `{!Inj (=) (=) rand} k reliable now p c n ts st :
  reached ctl rand k reliable now p c ts → Groups (ctl (sck ts)) ≠ ∅ → - two63 ≤ Num (ctl (sck ts)) < two63 →
  rtc (step rand all_ok n) (start n (ShardTest.cfg ts) (ShardTest.ngid ts) (ctl (sck ts))) st →
  (∀ i, pcs st !! i ≠ Some Fatal) ∧
  (∀ i j q r g, pcs st !! i = Some q → pcs st !! j = Some r → group_of q = Some g → group_of r = Some g → i = j) ∧
  CheckConfig (map_keys (Groups (held st))) (held st) = Ret tt ∧
  (∀ g srvs, Groups (held st) !! g = Some srvs → srvs = names g ∧ is_Some (grps (cfg st) !! g)) ∧
  (∃ st', rtc (step rand all_ok n) st st' ∧ tester st' = Reading) ∧
  (tester st = Reading → ∀ i q, pcs st !! i = Some q → q = Returned).
Proof.
  intros Hts Hne Hnum Hr. pose proof (reached_inv ctl rand k reliable now p c ts Hts) as Hinv.
  assert (cinv rand n (start n (ShardTest.cfg ts) (ShardTest.ngid ts) (ctl (sck ts)))) as Hd0.
  { apply begin_cinv; [apply (i_ok _ _ _ Hinv)|apply (i_clnts _ _ _ Hinv)|apply (i_pos _ _ _ Hinv)| |].
    - intros g Hg. by apply (i_new _ _ _ Hinv).
    - split; [apply Hinv|by apply sound_owned; [apply Hinv|]|done|]. intros h srvs. rewrite (i_groups _ _ _ Hinv).
      case_decide as Hh; [|done]. intros [= <-]. destruct Hh as [H0 Hh]. pose proof (i_new _ _ _ Hinv h Hh).
      unfold GRP0 in H0. split_and!; [done|lia|lia|done]. }
  pose proof (reachable_cinv _ _ _ _ Hd0 Hr) as Hd. split_and!.
  - intros i Hi. by apply (c_pc _ _ _ Hd i Fatal).
  - apply (c_uniq _ _ _ Hd).
  - destruct (gc_sound _ _ _ (c_held _ _ _ Hd)) as [Hwf Hok]. by apply CheckConfig_iff.
  - intros g srvs Hg. by destruct (gc_group _ _ _ (c_held _ _ _ Hd) g srvs Hg) as (? & _ & ?).
  - by apply can_end.
  - intros Ht i q. pose proof (c_tester _ _ _ Hd) as Hx. unfold tester_ok in Hx. rewrite Ht in Hx. apply Hx.
Qed.

(** A controller that is a variable, four goroutines. *)
Definition first_config : ShardConfig :=
  match begin (K:=ShardConfig) (λ n, pretty n) 0 true 0 0 MakeShardConfig with
  | Ret (_, ts) => sck ts
  | Stop _ => MakeShardConfig
  end.

Lemma concurrent_controllers_witness :
  ∃ ts st', begin (λ n, pretty n) 0 true 0 0 MakeShardConfig = Ret (Gid1, ts) ∧
    rtc (step (λ n, pretty n) all_ok 4) (start 4 (ShardTest.cfg ts) (ShardTest.ngid ts) (sck ts)) st' ∧
    tester st' = Reading ∧ ∀ i q, pcs st' !! i = Some q → q = Returned.
Proof.
  destruct (begin (K:=ShardConfig) (λ n, pretty n) 0 true 0 0 MakeShardConfig) as [[g ts]|] eqn:Hb;
    [|vm_compute in Hb; discriminate].
  assert (g = Gid1) as ->.
  { assert (match begin (K:=ShardConfig) (λ n, pretty n) 0 true 0 0 MakeShardConfig with Ret (g, _) => g = Gid1 | Stop _ => False end)
      as Hx by (vm_compute; reflexivity). rewrite Hb in Hx. exact Hx. }
  assert (sck ts = first_config) as Hsck by (unfold first_config; rewrite Hb; reflexivity).
  assert (reached (λ c : ShardConfig, c) (λ n, pretty n) 0 true 0 0 MakeShardConfig ts) as H1 by exact (r_begin _ _ _ _ _ _ _ _ Hb).
  assert (Groups (sck ts) ≠ ∅) as H2.
  { rewrite Hsck. intros He. assert (size (Groups first_config) = 1%nat) as Hx by (vm_compute; reflexivity).
    rewrite He in Hx. discriminate. }
  assert (- two63 ≤ Num (sck ts) < two63) as H3 by (rewrite Hsck; vm_compute; split; [discriminate|reflexivity]).
  pose proof (λ st, concurrent_controllers (λ c : ShardConfig, c) (λ n, pretty n) 0 true 0 0 MakeShardConfig 4 ts st H1 H2 H3) as Hall.
  destruct (Hall _ (rtc_refl _ _)) as (_ & _ & _ & _ & (st' & Hr & Ht) & _).
  exists ts, st'. split; [reflexivity|]. split; [exact Hr|]. split; [exact Ht|].
  destruct (Hall st' Hr) as (_ & _ & _ & _ & _ & Hend). exact (Hend Ht).
Defined.
