(* ===== verification/ShardPart.v ===== *)
(** * A controller that is cut off (partitionCtrler of shardkv1/test.go)

    A goroutine joins and leaves groups with a controller of its own.  The tester shuts a
    group of servers down, so that this controller gets stuck in a change, cuts its client
    off, starts the group again, and makes a second controller, whose InitController must
    finish the change.  Then the tester compares the configuration with the variables
    [ngid] and [state] of the goroutine, removes the group if it has joined, and may connect
    the first controller again.

    The controllers are the student's; shardctrler.go and the comments of the test say what
    they do.  Query returns the current configuration, [held].  ChangeConfigTo of the
    configuration that follows it records the change, [begun], and later completes it;
    of any other configuration it has no effect, because the controller is superseded.
    InitController completes a recorded change.  A controller whose client is cut off does
    not come back from its calls.

    The goroutine and the tester are a step relation.  How long the tester sleeps before it
    cuts the client off decides what the goroutine is doing then: the parameter
    [cut_when]. *)

From S2P Require Import Prelude ShardCfg LabRpc Group GroupStart Clnts Annotation Config ConfigInv ConfigReach ShardTest.
Import ShardCfg Config ConfigReach ShardTest.

Module ShardPart.

Definition JOIN : Z := 1.
Definition LEAVE : Z := 2.

(** The goroutine: not started; about to draw a group number; with a number; with
    [state = JOIN]; with the group started; in ChangeConfigTo of a join or a leave; after
    it; after joinGroups; knowing that the group is a member; with [state = LEAVE]; knowing
    that the group has left; returned; or stopped by log.Fatalf. *)
Inductive gpc :=
| Unborn | New | Numbered | Joining | Started | Changing (leaving : bool) (c : ShardConfig) | Changed (leaving : bool)
| Joined | Member | Leaving | Gone | Returned | Fatal.

(** The tester: at the start; with a controller; asleep twice; with the first controller cut
    off; the group up again; a second controller; after InitController; with a
    configuration from Query, whose number is right; after the checks; in leaveGroups of a
    group, twice; before connecting the first client again; at the reads; deleting the two
    clients; and at the end. *)
Inductive tpc :=
| Begin | WithCtrler | Running | Down | Cut | Up | WithCtrler0 | Recovered | Queried (c : ShardConfig)
| Numbers (c : ShardConfig) | Right (present : bool) | Left (g : Z) | Exiting (g : Z) | Healing | Reading | Deleting | Deleting0
| Passed | Failed.

Record state := MkState {
  cfg : Config;
  next : Z;                       (** ts.ngid *)
  held : ShardConfig; begun : option ShardConfig;
  ngid : Z; statev : Z; num : Z;  (** the variables ngid, state and num *)
  clnt : option nat; clnt0 : option nat;
  conn : bool;                    (** whether [clnt] is connected *)
  go : gpc; tester : tpc }.
Implicit Types st : state.

Definition at_go (p : gpc) st : state :=
  MkState (cfg st) (next st) (held st) (begun st) (ngid st) (statev st) (num st) (clnt st) (clnt0 st) (conn st) p (tester st).
Definition at_tester (p : tpc) st : state :=
  MkState (cfg st) (next st) (held st) (begun st) (ngid st) (statev st) (num st) (clnt st) (clnt0 st) (conn st) (go st) p.
Definition reconf (c : Config) st : state :=
  MkState c (next st) (held st) (begun st) (ngid st) (statev st) (num st) (clnt st) (clnt0 st) (conn st) (go st) (tester st).
Definition set_held (c : ShardConfig) (b : option ShardConfig) st : state :=
  MkState (cfg st) (next st) c b (ngid st) (statev st) (num st) (clnt st) (clnt0 st) (conn st) (go st) (tester st).
Definition set_state (v : Z) st : state :=
  MkState (cfg st) (next st) (held st) (begun st) (ngid st) v (num st) (clnt st) (clnt0 st) (conn st) (go st) (tester st).
Definition set_num (v : Z) st : state :=
  MkState (cfg st) (next st) (held st) (begun st) (ngid st) (statev st) v (clnt st) (clnt0 st) (conn st) (go st) (tester st).
Definition set_conn (b : bool) st : state :=
  MkState (cfg st) (next st) (held st) (begun st) (ngid st) (statev st) (num st) (clnt st) (clnt0 st) b (go st) (tester st).
(** [ngid = ts.newGid()] *)
Definition newGid st : state :=
  MkState (cfg st) (next st + 1) (held st) (begun st) (next st) (statev st) (num st) (clnt st) (clnt0 st) (conn st) (go st) (tester st).
Definition set_clnt (p : nat) st : state :=
  MkState (cfg st) (next st) (held st) (begun st) (ngid st) (statev st) (num st) (Some p) (clnt0 st) true (go st) (tester st).
Definition set_clnt0 (p : nat) st : state :=
  MkState (cfg st) (next st) (held st) (begun st) (ngid st) (statev st) (num st) (clnt st) (Some p) (conn st) (go st) (tester st).

(** Does [c] follow the current configuration? *)
Definition follows st (c : ShardConfig) : Prop := Num c = i64 (Num (held st) + 1).

Section part.
Context (rand : nat → string) (ev : Group.env) (down : Z) (partition : bool) (cut_when : state → Prop).

Inductive goroutine st : state → Prop :=
| g_new : go st = New → goroutine st (at_go Numbered (newGid st))
| g_join_state : go st = Numbered → goroutine st (at_go Joining (set_state JOIN st))
| g_start c : go st = Joining → MakeGroupStart rand ev (ngid st) NSRV (cfg st) = Ret c →
    goroutine st (at_go Started (reconf c st))
| g_join srvs c : go st = Started → conn st = true → SrvNames (ngid st) (cfg st) = Ret srvs →
    JoinBalance [(ngid st, srvs)] (Copy (held st)) = Ret (c, true) → goroutine st (at_go (Changing false c) st)
| g_nojoin srvs c : go st = Started → conn st = true → SrvNames (ngid st) (cfg st) = Ret srvs →
    JoinBalance [(ngid st, srvs)] (Copy (held st)) = Ret (c, false) → goroutine st (at_go Fatal st)
| g_begin l c : go st = Changing l c → conn st = true → begun st = None → follows st c →
    goroutine st (set_held (held st) (Some c) st)
| g_complete l c : go st = Changing l c → conn st = true → begun st = Some c →
    goroutine st (at_go (Changed l) (set_held c None st))
| g_superseded l c : go st = Changing l c → conn st = true → begun st = None → ¬ follows st c →
    goroutine st (at_go (Changed l) st)
| g_checked : go st = Changed false → conn st = true → goroutine st (at_go Joined st)
| g_member : go st = Joined → conn st = true →
    goroutine st (at_go (if IsMember (ngid st) (held st) then Member else Returned) st)
| g_leave_state : go st = Member → goroutine st (at_go Leaving (set_state LEAVE st))
| g_leave c : go st = Leaving → conn st = true → LeaveBalance [ngid st] (Copy (held st)) = Ret (c, true) →
    goroutine st (at_go (Changing true c) st)
| g_noleave c : go st = Leaving → conn st = true → LeaveBalance [ngid st] (Copy (held st)) = Ret (c, false) →
    goroutine st (at_go Fatal st)
| g_left : go st = Changed true → conn st = true →
    goroutine st (at_go (if IsMember (ngid st) (held st) then New else Gone) st)
| g_exit c : go st = Gone → ExitGroup ev (ngid st) (cfg st) = Ret c → goroutine st (at_go New (reconf c st)).

(** A method of one of the two clients of the test. *)
Definition clnt_run (o : nat → op) (p : option nat) st (c : Config) : Prop :=
  ∃ q, p = Some q ∧ run rand ev (o q) (cfg st) = Ret c.

Inductive tester_step st : state → Prop :=
| t_ctrler p c : tester st = Begin → ConfigInv.client p (cfg st) = None → makeShardCtrler p (cfg st) = Ret c →
    tester_step st (at_tester WithCtrler (set_clnt p (reconf c st)))
| t_spawn : tester st = WithCtrler → tester_step st (at_tester Running (at_go New (set_num (Num (held st)) st)))
| t_shutdown c : tester st = Running → on_group down (Group.Shutdown ev) (cfg st) = Ret c →
    tester_step st (at_tester Down (reconf c st))
| t_cut c : tester st = Down → cut_when st → clnt_run OClntDisconnectAll (clnt st) st c →
    tester_step st (at_tester Cut (set_conn false (reconf c st)))
| t_start c : tester st = Cut → on_group down (Group.StartServers rand ev) (cfg st) = Ret c →
    tester_step st (at_tester Up (reconf c st))
| t_ctrler0 p c : tester st = Up → ConfigInv.client p (cfg st) = None → makeShardCtrler p (cfg st) = Ret c →
    tester_step st (at_tester WithCtrler0 (set_clnt0 p (reconf c st)))
| t_recover : tester st = WithCtrler0 →
    tester_step st (at_tester Recovered (set_held (default (held st) (begun st)) None st))
| t_query : tester st = Recovered → tester_step st (at_tester (Queried (held st)) st)
| t_number c : tester st = Queried c →
    tester_step st (at_tester (if bool_decide (Num c <= num st) then Failed else Numbers c) st)
| t_present c present : tester st = Numbers c → present = IsMember (ngid st) c →
    tester_step st (at_tester (if (bool_decide (statev st = JOIN) && negb present) || (bool_decide (statev st = LEAVE) && present)
                               then Failed else Right present) st)
| t_nothing present : tester st = Right present → bool_decide (statev st = JOIN) && present = false →
    tester_step st (at_tester Healing st)
| t_leave present c : tester st = Right present → bool_decide (statev st = JOIN) && present = true →
    LeaveBalance [ngid st] (Copy (held st)) = Ret (c, true) →
    tester_step st (at_tester (Left (ngid st)) (set_held c (begun st) st))
| t_noleave present c : tester st = Right present → bool_decide (statev st = JOIN) && present = true →
    LeaveBalance [ngid st] (Copy (held st)) = Ret (c, false) → tester_step st (at_tester Failed st)
| t_left g : tester st = Left g →
    tester_step st (at_tester (if IsMember g (held st) then Healing else Exiting g) st)
| t_exit g c : tester st = Exiting g → ExitGroup ev g (cfg st) = Ret c → tester_step st (at_tester Healing (reconf c st))
| t_heal c : tester st = Healing → partition = true → clnt_run OClntConnectAll (clnt st) st c →
    tester_step st (at_tester Reading (set_conn true (reconf c st)))
| t_noheal : tester st = Healing → partition = false → tester_step st (at_tester Reading st)
| t_read : tester st = Reading → tester_step st (at_tester Deleting st)
| t_delete c : tester st = Deleting → clnt_run ODeleteClient (clnt st) st c →
    tester_step st (at_tester Deleting0 (set_conn false (reconf c st)))
| t_delete0 c : tester st = Deleting0 → clnt_run ODeleteClient (clnt0 st) st c →
    tester_step st (at_tester Passed (reconf c st)).

(** Meanwhile clients make ends, come and go; only the tester deletes its two clients. *)
Inductive step st : state → Prop :=
| s_goroutine st' : goroutine st st' → step st st'
| s_tester st' : tester_step st st' → step st st'
| s_client o c : client_op o = true → valid o (cfg st) → run rand ev o (cfg st) = Ret c →
    (∀ p, clnt st = Some p ∨ clnt0 st = Some p → o ≠ ODeleteClient p) → step st (reconf c st).

Definition start (c : Config) (g : Z) (h : ShardConfig) : state :=
  MkState c g h None 0 0 0 None None false Unborn Begin.
End part.

(** The goroutine is in the middle of a change. *)
Definition in_change st : Prop := ∃ l c, go st = Changing l c ∧ begun st = Some c ∧ num st < Num c.
End ShardPart.
