(* ===== verification/ShardPartSpec.v ===== *)
(** * A controller that is cut off: properties (partitionCtrler of shardkv1/test.go) *)

From stdpp Require Import pretty.
From S2P Require Import Prelude Fnv ShardCfg LabRpc Group GroupStart Clnts Annotation Config ConfigInv ConfigSpec ConfigReach ShardTest ShardTestSpec ShardPart.
Import ShardCfg Config ConfigInv ConfigReach ShardTest ShardPart.

Section spec.
Context (rand : nat → string) `{!Inj (=) (=) rand} (down : Z) (partition : bool).
(** The groups of the configuration at the start, which the goroutine leaves alone, and the
    first new number. *)
Context (base : gmap Z (list string)) (g0 : Z).
Hypothesis base_names : ∀ h srvs, base !! h = Some srvs → srvs = names h ∧ 0 < h < g0.
Hypothesis base_size : (size base < NShards)%nat.
Hypothesis base_down : is_Some (base !! down).
Implicit Types st : state.
Abbreviation step := (step rand all_ok down partition in_change).

(** ** The invariant *)

(** The current configuration is the one of the start, or has the new group. *)
Definition without st : Prop := sound (held st) ∧ Groups (held st) = base.
Definition within st : Prop := sound (held st) ∧ Groups (held st) = <[ngid st := names (ngid st)]> base.
Definition runs st : Prop := is_Some (grps (cfg st) !! ngid st).

Definition target st (l : bool) (c : ShardConfig) : Prop :=
  sound c ∧ Groups c = if l then base else <[ngid st := names (ngid st)]> base.

(** What the goroutine relies on; a change that does not follow the current configuration
    has been superseded. *)
Definition go_ok st : Prop :=
  match go st with
  | Unborn | New => without st
  | Numbered | Joining => without st ∧ grps (cfg st) !! ngid st = None
  | Started => without st ∧ runs st ∧ SrvNames (ngid st) (cfg st) = Ret (names (ngid st))
  | Changing false c => without st ∧ (follows st c → target st false c ∧ runs st)
  | Changing true c => runs st ∧ (within st ∧ target st true c ∧ follows st c ∨ without st ∧ ¬ follows st c)
  | Changed false | Joined => without st ∨ within st ∧ runs st
  | Member | Leaving => within st ∧ runs st
  | Changed true | Gone => without st ∧ runs st
  | Returned => without st
  | Fatal => False
  end.

(** Before the client is cut off, nothing is superseded. *)
Definition timely st : Prop :=
  match go st with
  | Changing _ c => follows st c
  | Changed false | Joined => within st
  | Returned => False
  | _ => True
  end.

Definition numbered (p : gpc) : bool := match p with Unborn | New => false | _ => true end.
Definition state_ok st : Prop :=
  match go st with
  | Joining | Started | Changing false _ | Changed false | Joined | Member => statev st = JOIN
  | Leaving | Changing true _ | Changed true | Gone => statev st = LEAVE
  | _ => True
  end.

Definition begun_ok st : Prop := ∀ c, begun st = Some c → follows st c ∧ ∃ l, go st = Changing l c.

(** The second controller has made the change of the goroutine. *)
Definition recovered st : Prop :=
  conn st = false ∧ begun st = None ∧ runs st ∧ num st < Num (held st) ∧
  ∃ l, go st = Changing l (held st) ∧ statev st = (if l then LEAVE else JOIN) ∧ if l then without st else within st.

Definition tester_ok st : Prop :=
  match tester st with
  | Begin | WithCtrler => go st = Unborn ∧ go_ok st ∧ begun st = None ∧ (tester st = WithCtrler → conn st = true)
  | Running | Down => conn st = true ∧ go_ok st ∧ begun_ok st ∧ timely st ∧ go st ≠ Unborn
  | Cut | Up | WithCtrler0 => conn st = false ∧ go_ok st ∧ begun_ok st ∧ in_change st
  | Recovered => recovered st
  | Queried c | Numbers c => recovered st ∧ c = held st
  | Right present => recovered st ∧ present = IsMember (ngid st) (held st)
  | Left g | Exiting g => conn st = false ∧ begun st = None ∧ g = ngid st ∧ without st ∧ runs st ∧
      ∃ c, go st = Changing false c ∧ ¬ follows st c
  | Healing => conn st = false ∧ go_ok st ∧ begun st = None ∧ ∃ l c, go st = Changing l c ∧ ¬ follows st c
  | Reading | Deleting | Deleting0 | Passed => go_ok st ∧ begun_ok st
  | Failed => False
  end.

(** The clients that the tester still needs exist. *)
Definition clnts_ok st : Prop :=
  (match tester st with Begin | Deleting0 | Passed | Failed => True | _ => ∃ p, clnt st = Some p ∧ is_Some (client p (cfg st)) end) ∧
  (match tester st with
   | Begin | WithCtrler | Running | Down | Cut | Up | Passed | Failed => True
   | _ => ∃ p, clnt0 st = Some p
   end).

Record pinv st : Prop := {
  p_ok : ok rand (cfg st);
  p_clnts : is_Some (clnts (cfg st));
  p_next : 0 < g0 ≤ next st;
  p_ngid : ngid st < next st ∧ (numbered (go st) = true → g0 ≤ ngid st);
  p_new g : is_Some (grps (cfg st) !! g) → g < next st;
  p_base g : is_Some (base !! g) → is_Some (grps (cfg st) !! g);
  p_state : state_ok st;
  p_tester : tester_ok st;
  p_two : clnts_ok st
}.

(** ** The configurations of the change *)

Lemma base_wf_size g : 
  base !! g = None → (size (<[g := names g]> base) ≤ NShards)%nat.
Proof. intros Hg. rewrite map_size_insert_None by done. lia. Qed.

Lemma fresh_base st : g0 ≤ ngid st → base !! ngid st = None.
Proof.
  intros Hg. destruct (base !! ngid st) as [srvs|] eqn:Hb; [|done]. destruct (base_names _ _ Hb). lia.
Qed.

Lemma base_not_empty : base ≠ ∅.
Proof. intros He. rewrite He in base_down. by apply is_Some_None in base_down. Qed.

Lemma has_member c g : sound c → g0 ≤ g → Groups c = <[g := names g]> base → IsMember g c = true.
Proof.
  intros [Hwf Hc] Hg Hgs. apply everyone_has_a_shard; [done|done| |].
  - rewrite Hgs. apply base_wf_size. destruct (base !! g) as [srvs|] eqn:Hb; [|done]. destruct (base_names _ _ Hb). lia.
  - unfold live. rewrite Hgs, lookup_insert_eq. by eexists.
Qed.

Lemma no_member c g : sound c → 0 < g0 ≤ g → Groups c = base → IsMember g c = false.
Proof.
  intros Hs Hg Hgs. destruct (IsMember g c) eqn:Hm; [|done]. apply IsMember_In in Hm.
  destruct (sound_owned c Hs) with (g := g) as [srvs Hl]; [rewrite Hgs; apply base_not_empty|done|lia|].
  rewrite Hgs in Hl. destruct (base_names _ _ Hl). lia.
Qed.

Lemma join_target st :
  without st → 0 < g0 ≤ ngid st →
  ∃ c, JoinBalance [(ngid st, names (ngid st))] (Copy (held st)) = Ret (c, true) ∧ target st false c ∧ follows st c.
Proof.
  intros [Hs Hgs] Hg. destruct (join_one (held st) (ngid st) (names (ngid st))) as (c & Heq & Hsc & Hgc & Hn & _).
  - apply Hs.
  - rewrite Hgs. apply fresh_base. lia.
  - intros h hs x. rewrite Hgs. intros Hh. destruct (base_names _ _ Hh) as [-> ?]. apply names_disjoint; lia.
  - exists c. split; [done|]. split; [|done]. split; [done|]. by rewrite Hgc, Hgs.
Qed.

Lemma leave_target st :
  within st → 0 < g0 ≤ ngid st →
  ∃ c, LeaveBalance [ngid st] (Copy (held st)) = Ret (c, true) ∧ target st true c ∧ follows st c.
Proof.
  intros [Hs Hgs] Hg. destruct (leave_one (held st) (ngid st)) as (c & Heq & Hsc & Hgc & _ & Hn & _).
  - apply Hs.
  - rewrite Hgs, lookup_insert_eq. by eexists.
  - exists c. split; [done|]. split; [|done]. split; [done|]. rewrite Hgc, Hgs. apply delete_insert_id, fresh_base. lia.
Qed.

(** A configuration does not follow one that is as new. *)
Lemma not_follows c n : n = Num c ∨ n = i64 (Num c + 1) → Num c ≠ i64 (n + 1).
Proof.
  unfold i64, two63, two64. pose proof (Z.mod_pos_bound (n + 1 + 9223372036854775808) 18446744073709551616 ltac:(lia)).
  intros [Hn | Hn] He; subst n.
  - pose proof (Z_div_mod_eq_full (Num c + 1 + 9223372036854775808) 18446744073709551616). lia.
  - pose proof (Z_div_mod_eq_full (Num c + 1 + 9223372036854775808) 18446744073709551616).
    match type of He with _ = ?x mod ?y - _ => pose proof (Z_div_mod_eq_full x y) end. lia.
Qed.

(** ** Operations of the tester on its configuration *)

Lemma on_down' (f : Group.ServerGrp → Group.tester → res (Group.ServerGrp * Group.tester)) c sg :
  safe rand (f sg (tst c)) (sg, tst c) → ok rand c → grps c !! down = Some sg →
  ∃ c', on_group down f c = Ret c' ∧ ok rand c' ∧ clnts c' = clnts c ∧
    (∀ h, h ≠ down → grps c' !! h = grps c !! h) ∧ ∀ h, is_Some (grps c' !! h) ↔ is_Some (grps c !! h).
Proof.
  intros Hf Hok Hsg. destruct (on_group_ok rand down f sg c Hok Hsg Hf) as (c' & Heq & Hok' & Hc). exists c'.
  split; [done|]. split; [done|]. split; [done|]. unfold on_group, lookupGroup in Heq. rewrite Hsg in Heq.
  apply rbind_Ret_inv in Heq as ([sg' t'] & _ & [= <-]). simpl. split; [intros h Hh; by rewrite lookup_insert_ne|].
  intros h. rewrite lookup_insert_is_Some'. split; [intros [<-|?]; [by eexists|done]|by right].
Qed.

Lemma on_down (f : Group.ServerGrp → Group.tester → res (Group.ServerGrp * Group.tester)) c :
  (∀ x, good rand x → safe rand (f x.1 x.2) x) → ok rand c → is_Some (grps c !! down) →
  ∃ c', on_group down f c = Ret c' ∧ ok rand c' ∧ clnts c' = clnts c ∧
    (∀ h, h ≠ down → grps c' !! h = grps c !! h) ∧ ∀ h, is_Some (grps c' !! h) ↔ is_Some (grps c !! h).
Proof.
  intros Hf Hok [sg Hsg]. destruct (ok_groups rand c Hok down sg Hsg) as [_ Hgood].
  by apply (on_down' f c sg (Hf (sg, tst c) Hgood)).
Qed.

(** No server of the group that the tester shuts down has a daemon. *)
Definition stopped (c : Config) : Prop :=
  ∃ sg, grps c !! down = Some sg ∧ ∀ x, x ∈ Group.srvs sg → Group.dc x = None.

Lemma shutdown_down c : ok rand c → is_Some (grps c !! down) →
  ∃ c', on_group down (Group.Shutdown all_ok) c = Ret c' ∧ ok rand c' ∧ clnts c' = clnts c ∧
    ((∀ h, h ≠ down → grps c' !! h = grps c !! h) ∧ stopped c') ∧ ∀ h, is_Some (grps c' !! h) ↔ is_Some (grps c !! h).
Proof.
  intros Hok [sg Hsg]. destruct (on_down (Group.Shutdown all_ok) c) as (c' & Hr & ? & ? & ? & ?); [|done|by exists sg|].
  { intros x Hx. destruct (Shutdown_safe rand x Hx) as (y & ? & ? & ? & _). by exists y. }
  exists c'. split_and!; [done..| |done].
  destruct (shutdown_group rand down sg c Hok Hsg) as (c2 & sg2 & Hr2 & _ & Hc2 & _ & _ & Hd & _).
  assert (c2 = c') as -> by congruence. exists sg2. split; [|exact Hd]. rewrite Hc2. apply lookup_insert_eq.
Qed.

Lemma start_down c : ok rand c → stopped c →
  ∃ c', on_group down (Group.StartServers rand all_ok) c = Ret c' ∧ ok rand c' ∧ clnts c' = clnts c ∧
    (∀ h, h ≠ down → grps c' !! h = grps c !! h) ∧ ∀ h, is_Some (grps c' !! h) ↔ is_Some (grps c !! h).
Proof.
  intros Hok (sg & Hsg & Hd). destruct (ok_groups rand c Hok down sg Hsg) as [_ Hgood].
  apply (on_down' (Group.StartServers rand all_ok) c sg); [|done|done].
  destruct (StartServers_tame rand (sg, tst c) Hgood) as (y & ? & ? & ? & _); [|by exists y].
  intros i Hi. destruct (Group.wf_lookup sg i (g_wf _ _ Hgood) Hi) as (x & _ & Hx & _). unfold idle. simpl. rewrite Hx. simpl.
  f_equal. apply Hd. by eapply list_elem_of_lookup_2.
Qed.

Lemma clnts_client c c' p : clnts c' = clnts c → client p c' = client p c.
Proof. unfold client. by intros ->. Qed.

Lemma on_clnt_stays q f c c' p : on_clnt q f c = Ret c' → is_Some (client p c) → is_Some (client p c').
Proof.
  unfold on_clnt, client. destruct (clnts c ≫= (.!! q)); [|done]. intros ([c1 t1] & _ & [= <-])%rbind_Ret_inv Hp. simpl.
  destruct (clnts c) as [m|]; [|done]. simpl in *. rewrite lookup_insert_is_Some'. by right.
Qed.

(** Only ODeleteClient removes a client. *)
Lemma client_stays o c c' p :
  client_op o = true → valid o c → run rand all_ok o c = Ret c' → o ≠ ODeleteClient p → is_Some (client p c) → is_Some (client p c').
Proof.
  intros Ho Hv Hr Hne Hp. destruct o; try done; simpl in Hr; unfold client in *.
  - unfold Clnts.MakeClientTo in Hr. destruct (clnts c) as [m|] eqn:Hm; [|done]. injection Hr as <-. simpl in *.
    rewrite lookup_insert_is_Some'. by right.
  - apply rbind_Ret_inv in Hr as ([cs t] & Hd & [= <-]). simpl. unfold Clnts.DeleteClient in Hd.
    destruct (clnts c ≫= (.!! p0)); [|by injection Hd as <- <-]. apply rbind_Ret_inv in Hd as (? & _ & [= <- <-]).
    destruct (clnts c) as [m|]; [|done]. simpl in *. rewrite lookup_delete_ne; [done|congruence].
  - by eapply on_clnt_stays.
  - by eapply on_clnt_stays.
  - by eapply on_clnt_stays.
  - by eapply on_clnt_stays.
  - by eapply on_clnt_stays.
Qed.

Lemma fresh_client c : ∃ p, client p c = None.
Proof.
  exists (fresh (dom (default ∅ (clnts c)))). pose proof (is_fresh (dom (default ∅ (clnts c)))) as Hf.
  unfold client. destruct (clnts c) as [m|]; [|done]. simpl in *. by apply not_elem_of_dom.
Qed.

Lemma run_clnt (o : nat → op) p c :
  ok rand c → is_Some (clnts c) → client_op (o p) = true → valid (o p) c →
  ∃ c', run rand all_ok (o p) c = Ret c' ∧ ok rand c' ∧ is_Some (clnts c') ∧ grps c' = grps c.
Proof.
  intros Hok Hm Ho Hv. destruct (run_ok rand (o p) c Hok Hm Hv) as (c' & Hr & ? & ?). exists c'.
  split_and!; [done..|]. by eapply client_op_grps.
Qed.

Lemma new_ctrler p c :
  ok rand c → is_Some (clnts c) → client p c = None →
  ∃ c', makeShardCtrler p c = Ret c' ∧ ok rand c' ∧ is_Some (clnts c') ∧ grps c' = grps c ∧ is_Some (client p c') ∧
    ∀ q, is_Some (client q c) → is_Some (client q c').
Proof.
  intros Hok Hm Hp. destruct (run_clnt (λ p, OMakeClient p None) p c Hok Hm eq_refl Hp) as (c' & Hr & Hok' & Hm' & Hg).
  exists c'. split; [exact Hr|]. split_and!; [done..| |].
  - simpl in Hr. unfold Clnts.MakeClientTo in Hr. destruct (clnts c); [|done]. injection Hr as <-.
    unfold client. simpl. rewrite lookup_insert_eq. by eexists.
  - intros q. by apply (client_stays (OMakeClient p None) c c' q).
Qed.

(** ** Every step keeps the invariant *)

(** The goroutine does not notice what happens to other groups. *)
Lemma go_ok_frame st st' :
  go st' = go st → held st' = held st → ngid st' = ngid st →
  (numbered (go st) = true → grps (cfg st') !! ngid st = grps (cfg st) !! ngid st) → go_ok st → go_ok st'.
Proof.
  intros Hg Hh Hn Hgr. unfold go_ok, without, within, runs, target, follows, SrvNames, lookupGroup. rewrite Hg, Hh, Hn.
  destruct (go st) as [| | | | |[] c|[]| | | | | |]; try rewrite (Hgr eq_refl); done.
Qed.

Lemma timely_frame st st' : go st' = go st → held st' = held st → ngid st' = ngid st → timely st → timely st'.
Proof. intros Hg Hh Hn. unfold timely, within, follows. by rewrite Hg, Hh, Hn. Qed.

Lemma state_frame st st' : go st' = go st → statev st' = statev st → state_ok st → state_ok st'.
Proof. intros Hg Hs. unfold state_ok. by rewrite Hg, Hs. Qed.

Lemma recovered_frame st st' :
  go st' = go st → held st' = held st → begun st' = begun st → ngid st' = ngid st → num st' = num st → statev st' = statev st →
  conn st' = conn st → (numbered (go st) = true → grps (cfg st') !! ngid st = grps (cfg st) !! ngid st) →
  recovered st → recovered st'.
Proof.
  intros Hg Hh Hb Hn Hm Hs Hc Hgr (H1 & H2 & H3 & H4 & l & H5 & H6 & H7). unfold recovered, runs, without, within in *.
  rewrite H5 in Hgr. rewrite Hg, Hh, Hb, Hn, Hm, Hs, Hc, (Hgr eq_refl). eauto 10.
Qed.

Lemma tester_frame st st' :
  go st' = go st → held st' = held st → begun st' = begun st → ngid st' = ngid st → num st' = num st → statev st' = statev st →
  conn st' = conn st → tester st' = tester st →
  (numbered (go st) = true → grps (cfg st') !! ngid st = grps (cfg st) !! ngid st) → tester_ok st → tester_ok st'.
Proof.
  intros Hg Hh Hb Hn Hm Hs Hc Ht Hgr Hok. pose proof (go_ok_frame st st' Hg Hh Hn Hgr) as Hgo.
  pose proof (timely_frame st st' Hg Hh Hn) as Htm. pose proof (recovered_frame st st' Hg Hh Hb Hn Hm Hs Hc Hgr) as Hrec.
  assert (begun_ok st → begun_ok st') as Hbo by (unfold begun_ok, follows; by rewrite Hg, Hh, Hb).
  assert (in_change st → in_change st') as Hin by (unfold in_change; by rewrite Hg, Hb, Hm).
  unfold tester_ok in *. rewrite Ht. rewrite ?Hc, ?Hb, ?Hg, ?Hn, ?Hh.
  destruct (tester st); try done;
    try solve [repeat match goal with H : _ ∧ _ |- _ => destruct H end; repeat match goal with |- _ ∧ _ => split end; auto].
  3:{ destruct Hok as (H1 & H2 & H3 & l & c & H4 & H5). split; [done|]. split; [auto|]. split; [done|]. exists l, c. split; [done|].
    unfold follows in *. by rewrite Hh. }
  all: destruct Hok as (H1 & H2 & H3 & H4 & H5 & c & H6 & H7); split_and!; try done.
  all: try (unfold without in *; by rewrite Hh).
  all: try (unfold runs in *; rewrite Hn, Hgr; [done|by rewrite H6]).
  all: exists c; split; [done|]; unfold follows in *; by rewrite Hh.
Qed.

(** Steps that only change the configuration of the test, and no group of the goroutine. *)
Lemma reconf_inv st c :
  pinv st → ok rand c → is_Some (clnts c) → (numbered (go st) = true → grps c !! ngid st = grps (cfg st) !! ngid st) →
  (∀ h, is_Some (grps c !! h) ↔ is_Some (grps (cfg st) !! h)) →
  (∀ p, clnt st = Some p → is_Some (client p (cfg st)) → is_Some (client p c)) → pinv (reconf c st).
Proof.
  intros [Hok Hm Hnx Hng Hnew Hbase Hst Ht [H1 H2]] Hok' Hm' Hgr Hall Hcl. split; simpl; try done.
  - intros g Hg%Hall. by apply Hnew.
  - intros g Hg%Hbase. by apply Hall.
  - by apply (tester_frame st).
  - split; simpl; [|done]. destruct (tester st); try done; destruct H1 as (p & Hp & Hs); exists p; auto.
Qed.

(** The goroutine is not stuck in a call. *)
Definition free st : Prop := ∀ l c, go st = Changing l c → conn st = true.

Lemma free_ok st : tester_ok st → free st → go_ok st ∧ begun_ok st.
Proof.
  intros Ht Hf. unfold tester_ok in Ht.
  assert (∀ P : Prop, begun st = None → P → P ∧ begun_ok st) as Hnone.
  { intros P Hb HP. split; [done|]. intros c. by rewrite Hb. }
  assert (recovered st → go_ok st ∧ begun_ok st) as Hr.
  { intros (Hc & _ & _ & _ & l & Hg & _). specialize (Hf _ _ Hg). congruence. }
  assert (∀ P : Prop, conn st = false → (∃ l c, go st = Changing l c) → P) as Hc.
  { intros P Hc (l & c & Hg). specialize (Hf _ _ Hg). congruence. }
  destruct (tester st).
  1-2: destruct Ht as (_ & ? & ? & _); by apply Hnone.
  1-2: destruct Ht as (_ & ? & ? & _); done.
  1-3: destruct Ht as (? & _ & _ & l & c & ? & _); apply Hc; [done|by exists l, c].
  - by apply Hr.
  - apply Hr, Ht.
  - apply Hr, Ht.
  - apply Hr, Ht.
  - destruct Ht as (? & _ & _ & _ & _ & c & ? & _); apply Hc; [done|by exists false, c].
  - destruct Ht as (? & _ & _ & _ & _ & c & ? & _); apply Hc; [done|by exists false, c].
  - destruct Ht as (? & _ & _ & l & c & ? & _); apply Hc; [done|by exists l, c].
  - done.
  - done.
  - done.
  - done.
  - done.
Qed.

Lemma move_ok st st' :
  tester_ok st → free st → tester st' = tester st → conn st' = conn st → go st ≠ Unborn → go st' ≠ Unborn →
  go_ok st' → begun_ok st' → (timely st → timely st') → (conn st = false → begun st' = begun st) → tester_ok st'.
Proof.
  intros Ht Hf Heq Hcn Hu Hu' Hgo Hb Htm Hbe. unfold tester_ok in *. rewrite Heq, Hcn.
  assert (∀ P : Prop, recovered st → P) as Hr.
  { intros P (Hc & _ & _ & _ & l & Hg & _). specialize (Hf _ _ Hg). congruence. }
  assert (∀ P : Prop, conn st = false → (∃ l c, go st = Changing l c) → P) as Hc.
  { intros P Hc (l & c & Hg). specialize (Hf _ _ Hg). congruence. }
  destruct (tester st).
  1-2: by destruct Ht as (? & _).
  1-2: destruct Ht as (? & _ & _ & ? & _); auto 10.
  1-3: destruct Ht as (? & _ & _ & l & c & ? & _); apply Hc; [done|by exists l, c].
  - by apply Hr.
  - apply Hr, Ht.
  - apply Hr, Ht.
  - apply Hr, Ht.
  - destruct Ht as (? & _ & _ & _ & _ & c & ? & _); apply Hc; [done|by exists false, c].
  - destruct Ht as (? & _ & _ & _ & _ & c & ? & _); apply Hc; [done|by exists false, c].
  - destruct Ht as (? & _ & _ & l & c & ? & _); apply Hc; [done|by exists l, c].
  - done.
  - done.
  - done.
  - done.
  - done.
Qed.

Lemma no_begun st : begun_ok st → (∀ l c, go st ≠ Changing l c) → begun st = None.
Proof. intros Hb Hg. destruct (begun st) as [c|] eqn:He; [|done]. destruct (Hb c He) as (_ & l & Hl). by destruct (Hg l c). Qed.

Lemma none_begun st : begun st = None → begun_ok st.
Proof. intros Hb c. by rewrite Hb. Qed.

(** A step of the goroutine. *)
Lemma part_move_inv st st' :
  pinv st → free st → go st ≠ Unborn → go st' ≠ Unborn →
  ok rand (cfg st') → clnts (cfg st') = clnts (cfg st) → next st ≤ next st' →
  ngid st' < next st' ∧ (numbered (go st') = true → g0 ≤ ngid st') →
  (∀ g, is_Some (grps (cfg st') !! g) → g < next st') → (∀ g, is_Some (base !! g) → is_Some (grps (cfg st') !! g)) →
  tester st' = tester st → conn st' = conn st → clnt st' = clnt st → clnt0 st' = clnt0 st →
  state_ok st' → go_ok st' → begun_ok st' → (timely st → timely st') → (conn st = false → begun st' = begun st) → pinv st'.
Proof.
  intros Hinv Hf Hu Hu' Hok' Hcl Hnx Hng Hnew Hbase Htt Hcn Hc1 Hc0 Hs Hgo Hb Htm Hbe. split; auto.
  - rewrite Hcl. apply (p_clnts _ Hinv).
  - pose proof (p_next _ Hinv). lia.
  - eapply move_ok; try done. apply (p_tester _ Hinv).
  - pose proof (p_two _ Hinv) as Htwo. unfold clnts_ok, client in *. by rewrite Htt, Hc1, Hc0, Hcl.
Qed.

(** A step that leaves the groups of the test alone. *)
Lemma quiet_inv st st' :
  pinv st → free st → go st ≠ Unborn → go st' ≠ Unborn →
  cfg st' = cfg st → next st' = next st → ngid st' = ngid st → tester st' = tester st → conn st' = conn st →
  clnt st' = clnt st → clnt0 st' = clnt0 st → (numbered (go st') = true → numbered (go st) = true) →
  state_ok st' → go_ok st' → begun_ok st' → (timely st → timely st') → (conn st = false → begun st' = begun st) → pinv st'.
Proof.
  intros Hinv Hf Hu Hu' Hc Hx Hn Htt Hcn Hc1 Hc0 Hnum Hs Hgo Hb Htm Hbe. pose proof (p_ngid _ Hinv) as [Hn1 Hn2].
  apply (part_move_inv st); rewrite ?Hc, ?Hx, ?Hn; auto; [apply Hinv|lia|apply Hinv..].
Qed.

Definition quiet (p : gpc) : bool := match p with New | Joining | Gone => false | _ => true end.

(** What is left to show about a quiet step: the program counter's part. *)
Ltac quiet_step st Hp :=
  apply (quiet_inv st); simpl; rewrite ?Hp; try done; unfold state_ok, go_ok, timely; simpl; rewrite ?Hp; try done;
  try (by apply none_begun); try congruence; eauto.

Lemma goroutine_quiet st st' :
  pinv st → goroutine rand all_ok st st' → quiet (go st) = true → pinv st'.
Proof.
  intros Hinv Hg Hq. pose proof Hinv as [Hok Hm Hn0 [Hn1 Hn2] Hnew Hbase Hst Ht Htwo].
  assert (free st) as Hf.
  { intros l c Hl. inversion Hg; congruence. }
  destruct (free_ok st Ht Hf) as [Hgo Hb]. pose proof (no_begun st Hb) as Hnb.
  assert (go st ≠ Unborn) as Hu by (inversion Hg; congruence).
  assert (numbered (go st) = true → 0 < g0 ≤ ngid st) as Hnum by (intros ?%Hn2; lia).
  unfold go_ok, state_ok in Hgo, Hst.
  destruct Hg as [Hp|Hp|c Hp Hr|srvs c Hp Hcn Hs Hr|srvs c Hp Hcn Hs Hr|l c Hp Hcn Hn Hfl|l c Hp Hcn Hbc|l c Hp Hcn Hn Hfl|Hp Hcn|Hp Hcn|Hp|c Hp Hcn Hr|c Hp Hcn Hr|Hp Hcn|c Hp Hr];
    rewrite Hp in *; try done; try specialize (Hnum eq_refl); try (specialize (Hnb ltac:(done))).
  - quiet_step st Hp.
  - destruct Hgo as (Hw & Hrn & Hsn). rewrite Hsn in Hs. injection Hs as <-.
    destruct (join_target st Hw Hnum) as (c' & Heq & Htg & Hfl). rewrite Hr in Heq. injection Heq as <-.
    quiet_step st Hp.
  - destruct Hgo as (Hw & Hrn & Hsn). rewrite Hsn in Hs. injection Hs as <-.
    destruct (join_target st Hw Hnum) as (c' & Heq & _). congruence.
  - quiet_step st Hp. intros c' [= <-]. by eauto.
  - destruct (Hb c Hbc) as [Hfl _]. destruct l; simpl in Hgo.
    + destruct Hgo as [Hrn [(_ & [? ?] & _)|[_ Hno]]]; [|done]. quiet_step st Hp.
    + destruct Hgo as [_ Hgo]. destruct (Hgo Hfl) as [[? ?] Hrn].
      quiet_step st Hp.
  - destruct l; simpl in Hgo.
    + destruct Hgo as [Hrn [(_ & _ & ?)|[Hw _]]]; [done|]. quiet_step st Hp.
    + destruct Hgo as [Hw _]. quiet_step st Hp.
  - quiet_step st Hp.
  - destruct Hgo as [[Hs Hgs]|[[Hs Hgs] Hrn]].
    + rewrite (no_member (held st) (ngid st)) by (done || lia). quiet_step st Hp.
      intros [_ Hgs']. rewrite Hgs in Hgs'. pose proof (fresh_base st ltac:(lia)) as Hfb. rewrite Hgs', lookup_insert_eq in Hfb. done.
    + rewrite (has_member (held st) (ngid st)) by (done || lia). quiet_step st Hp.
  - quiet_step st Hp.
  - destruct Hgo as [Hw Hrn]. destruct (leave_target st Hw Hnum) as (c' & Heq & Htg & Hfl). rewrite Hr in Heq. injection Heq as <-.
    quiet_step st Hp.
  - destruct Hgo as [Hw Hrn]. destruct (leave_target st Hw Hnum) as (c' & Heq & _). congruence.
  - destruct Hgo as [[Hs Hgs] Hrn]. rewrite (no_member (held st) (ngid st)) by (done || lia). quiet_step st Hp.
Qed.

Lemma unfrozen st : (∀ l c, go st ≠ Changing l c) → free st.
Proof. intros Hg l c Hl. by destruct (Hg l c). Qed.

Lemma new_inv st : pinv st → go st = New → pinv (at_go Numbered (newGid st)).
Proof.
  intros Hinv Hp. pose proof Hinv as [Hok Hm Hn0 [Hn1 Hn2] Hnew Hbase Hst Ht Htwo].
  assert (free st) as Hf by (apply unfrozen; by rewrite Hp). destruct (free_ok st Ht Hf) as [Hgo Hb].
  unfold go_ok in Hgo. rewrite Hp in Hgo.
  apply (part_move_inv st); simpl; try done; try (by rewrite Hp); try lia.
  - intros g Hg%Hnew. lia.
  - unfold go_ok. simpl. split; [done|]. destruct (grps (cfg st) !! next st) eqn:Hg; [|done].
    assert (next st < next st); [|lia]. apply Hnew. by rewrite Hg.
  - apply none_begun. simpl. apply no_begun; [done|by rewrite Hp].
Qed.

Lemma part_start_inv st : pinv st → go st = Joining →
  ∃ c, MakeGroupStart rand all_ok (ngid st) NSRV (cfg st) = Ret c ∧ pinv (at_go Started (reconf c st)).
Proof.
  intros Hinv Hp. pose proof Hinv as [Hok Hm Hn0 [Hn1 Hn2] Hnew Hbase Hst Ht Htwo].
  assert (free st) as Hf by (apply unfrozen; by rewrite Hp). destruct (free_ok st Ht Hf) as [Hgo Hb].
  unfold go_ok, state_ok in Hgo, Hst. rewrite Hp in *. destruct Hgo as [Hw Hnone].
  destruct (MakeGroupStart_ok rand (ngid st) NSRV (cfg st) Hok Hnone) as (c & sg & Hmk & Hok' & Hc & _).
  exists c. split; [done|]. assert (grps c = <[ngid st := sg]> (grps (cfg st)) ∧ clnts c = clnts (cfg st)) as [Hgr Hcl] by by rewrite Hc.
  apply (part_move_inv st); simpl; try done; try (by rewrite Hp).
  - intros g. rewrite Hgr, lookup_insert_is_Some'. intros [<-|?]; [done|by apply Hnew].
  - intros g ?%Hbase. rewrite Hgr, lookup_insert_is_Some'. by right.
  - unfold go_ok, runs. simpl. split; [done|]. split; [rewrite Hgr, lookup_insert_eq; by eexists|by eapply MakeGroupStart_names].
  - apply none_begun. simpl. apply no_begun; [done|by rewrite Hp].
Qed.

Lemma exit_inv st : pinv st → go st = Gone →
  ∃ c, ExitGroup all_ok (ngid st) (cfg st) = Ret c ∧ pinv (at_go New (reconf c st)).
Proof.
  intros Hinv Hp. pose proof Hinv as [Hok Hm Hn0 [Hn1 Hn2] Hnew Hbase Hst Ht Htwo].
  assert (free st) as Hf by (apply unfrozen; by rewrite Hp). destruct (free_ok st Ht Hf) as [Hgo Hb].
  unfold go_ok in Hgo. rewrite Hp in *. destruct Hgo as [Hw Hrn].
  destruct (ExitGroup_ok rand (ngid st) (cfg st) Hok Hrn) as (c & Hex & Hok' & Hcl). exists c. split; [done|].
  pose proof (ExitGroup_grps _ _ _ _ Hex) as Hgr.
  apply (part_move_inv st); simpl; try done; try (by rewrite Hp).
  - intros g. rewrite Hgr, lookup_delete_is_Some. intros [_ ?]. by apply Hnew.
  - intros g Hg. rewrite Hgr, lookup_delete_ne; [by apply Hbase|]. intros <-.
    rewrite (fresh_base st) in Hg by (by apply Hn2). by apply is_Some_None in Hg.
  - apply none_begun. simpl. apply no_begun; [done|by rewrite Hp].
Qed.

Lemma goroutine_inv st st' : pinv st → goroutine rand all_ok st st' → pinv st'.
Proof.
  intros Hinv Hg. destruct (quiet (go st)) eqn:Hq; [by eapply goroutine_quiet|].
  destruct Hg as [Hp|Hp|c Hp Hr|srvs c Hp _ _ _|srvs c Hp _ _ _|l c Hp _ _ _|l c Hp _ _|l c Hp _ _ _|Hp _|Hp _|Hp|c Hp _ _|c Hp _ _|Hp _|c Hp Hr];
    try (by rewrite Hp in Hq).
  - by apply new_inv.
  - destruct (part_start_inv st Hinv Hp) as (c' & Heq & ?). rewrite Hr in Heq. by injection Heq as <-.
  - destruct (exit_inv st Hinv Hp) as (c' & Heq & ?). rewrite Hr in Heq. by injection Heq as <-.
Qed.

(** *** The tester *)

Lemma at_inv st st' :
  pinv st → ok rand (cfg st') → is_Some (clnts (cfg st')) → next st' = next st → ngid st' = ngid st →
  (∀ h, is_Some (grps (cfg st') !! h) → is_Some (grps (cfg st) !! h)) →
  (∀ h, is_Some (base !! h) → is_Some (grps (cfg st) !! h) → is_Some (grps (cfg st') !! h)) →
  (numbered (go st') = true → numbered (go st) = true) → state_ok st' → tester_ok st' → clnts_ok st' → pinv st'.
Proof.
  intros [Hok Hm Hnx [Hn1 Hn2] Hnew Hbase Hst Ht Htwo] Hok' Hm' Hx Hn Hg1 Hg2 Hnum Hs Ht' Htwo'.
  split; rewrite ?Hx, ?Hn; auto.
Qed.

Lemma ngid_not_down st : pinv st → numbered (go st) = true → ngid st ≠ down.
Proof.
  intros Hinv Hg He. destruct (p_ngid _ Hinv) as [_ Hn2]. specialize (Hn2 Hg). rewrite He in Hn2. destruct base_down as [srvs Hb].
  destruct (base_names _ _ Hb). lia.
Qed.

Lemma ctrler_inv st p : pinv st → tester st = Begin → client p (cfg st) = None →
  ∃ c, makeShardCtrler p (cfg st) = Ret c ∧ pinv (at_tester WithCtrler (set_clnt p (reconf c st))).
Proof.
  intros Hinv Hp Hcl. destruct (new_ctrler p (cfg st)) as (c & Hr & Hok & Hm & Hg & Hcp & _); [apply Hinv..|done|].
  exists c. split; [done|]. pose proof (p_tester _ Hinv) as Ht. unfold tester_ok in Ht. rewrite Hp in Ht.
  destruct Ht as (Hgo & Hok0 & Hb & _).
  apply (at_inv st); simpl; rewrite ?Hg; try done.
  - by eapply state_frame; [| |apply (p_state _ Hinv)].
  - unfold tester_ok. simpl. split; [done|]. split; [|done]. by apply (go_ok_frame st); simpl; rewrite ?Hg.
  - split; simpl; [by exists p|done].
Qed.

Lemma part_spawn_inv st : pinv st → tester st = WithCtrler →
  pinv (at_tester Running (at_go New (set_num (Num (held st)) st))).
Proof.
  intros Hinv Hp. pose proof (p_tester _ Hinv) as Ht. unfold tester_ok in Ht. rewrite Hp in Ht. destruct Ht as (Hgo & Hok & Hb & Hcn).
  unfold go_ok in Hok. rewrite Hgo in Hok. apply (at_inv st); simpl; try done; try apply Hinv.
  - unfold tester_ok. simpl. split; [by apply Hcn|]. split; [done|]. split; [by apply none_begun|done].
  - pose proof (p_two _ Hinv) as Htwo. unfold clnts_ok in *. rewrite Hp in Htwo. simpl. tauto.
Qed.

(** The tester stops or starts the group. *)
Lemma group_inv st p' c :
  pinv st → ok rand c → clnts c = clnts (cfg st) → (∀ h, h ≠ down → grps c !! h = grps (cfg st) !! h) →
  (∀ h, is_Some (grps c !! h) ↔ is_Some (grps (cfg st) !! h)) →
  (tester_ok (reconf c st) → tester_ok (at_tester p' (reconf c st))) →
  (clnts_ok (reconf c st) → clnts_ok (at_tester p' (reconf c st))) → pinv (at_tester p' (reconf c st)).
Proof.
  intros Hinv Hok Hc Hg Hall Ht Htwo.
  assert (pinv (reconf c st)) as Hinv'.
  { apply reconf_inv; [done|done|rewrite Hc; apply Hinv| |done|]; [|intros p _; by rewrite (clnts_client (cfg st) c)].
    intros Hnum. apply Hg. by apply ngid_not_down. }
  apply (at_inv (reconf c st)); simpl; try done; [rewrite Hc; apply Hinv|apply (p_state _ Hinv')|apply Ht, Hinv'|apply Htwo, Hinv'].
Qed.

Lemma down_runs st : pinv st → is_Some (grps (cfg st) !! down).
Proof. intros Hinv. by apply (p_base _ Hinv). Qed.

(** While the group is down. *)
Definition off_inv st : Prop := tester st = Down ∨ tester st = Cut → stopped (cfg st).

Lemma shutdown_inv st : pinv st → tester st = Running →
  ∃ c, on_group down (Group.Shutdown all_ok) (cfg st) = Ret c ∧ pinv (at_tester Down (reconf c st)) ∧ stopped c.
Proof.
  intros Hinv Hp. destruct (shutdown_down (cfg st)) as (c & Hr & Hok & Hc & [Hg Hst] & Hall); [apply Hinv|by apply down_runs|].
  exists c. split; [done|]. split; [|done]. apply group_inv; try done; unfold tester_ok, clnts_ok; simpl; by rewrite Hp.
Qed.

Lemma part_restart_inv st : pinv st → off_inv st → tester st = Cut →
  ∃ c, on_group down (Group.StartServers rand all_ok) (cfg st) = Ret c ∧ pinv (at_tester Up (reconf c st)).
Proof.
  intros Hinv Hoff Hp. destruct (start_down (cfg st)) as (c & Hr & Hok & Hc & Hg & Hall); [apply Hinv|apply Hoff; by right|].
  exists c. split; [done|]. apply group_inv; try done; unfold tester_ok, clnts_ok; simpl; by rewrite Hp.
Qed.

Lemma ctrler0_inv st p : pinv st → tester st = Up → client p (cfg st) = None →
  ∃ c, makeShardCtrler p (cfg st) = Ret c ∧ pinv (at_tester WithCtrler0 (set_clnt0 p (reconf c st))).
Proof.
  intros Hinv Hp Hcl. destruct (new_ctrler p (cfg st)) as (c & Hr & Hok & Hm & Hg & Hcp & Hkeep); [apply Hinv..|done|].
  exists c. split; [done|]. pose proof (p_tester _ Hinv) as Ht. unfold tester_ok in Ht. rewrite Hp in Ht.
  destruct Ht as (Hcn & Hgo & Hb & Hin). pose proof (p_two _ Hinv) as [Htwo _]. rewrite Hp in Htwo.
  apply (at_inv st); simpl; rewrite ?Hg; try done; try apply Hinv.
  - unfold tester_ok. simpl. split; [done|]. split; [|done]. by apply (go_ok_frame st); simpl; rewrite ?Hg.
  - split; simpl; [|by exists p]. destruct Htwo as (q & ? & ?). exists q. auto.
Qed.

(** The client of the goroutine is cut off, or connected again. *)
Lemma clnt_inv (o : nat → op) st p' b :
  pinv st → (∃ p, clnt st = Some p ∧ is_Some (client p (cfg st))) → (∀ p, client_op (o p) = true ∧ o p ≠ ODeleteClient p) →
  (∀ p, is_Some (client p (cfg st)) → valid (o p) (cfg st)) →
  (∀ c, grps c = grps (cfg st) → tester_ok (at_tester p' (set_conn b (reconf c st)))) →
  (∀ c, (∃ p, clnt st = Some p ∧ is_Some (client p c)) → clnts_ok (at_tester p' (set_conn b (reconf c st)))) →
  ∃ c, clnt_run rand all_ok o (clnt st) st c ∧ pinv (at_tester p' (set_conn b (reconf c st))).
Proof.
  intros Hinv (p & Hp & Hs) Ho Hv Ht Htwo. destruct (Ho p) as [Ho1 Ho2].
  destruct (run_clnt o p (cfg st)) as (c & Hr & Hok & Hm & Hg); [apply Hinv..|done|by apply Hv|].
  exists c. split; [by exists p|]. apply (at_inv st); simpl; rewrite ?Hg; try done; try apply Hinv; [by apply Ht|].
  apply Htwo. exists p. split; [done|]. eapply client_stays; [exact Ho1|by apply Hv|done|done|done].
Qed.

Lemma cut_inv st : pinv st → tester st = Down → in_change st →
  ∃ c, clnt_run rand all_ok OClntDisconnectAll (clnt st) st c ∧ pinv (at_tester Cut (set_conn false (reconf c st))).
Proof.
  intros Hinv Hp Hin. pose proof (p_tester _ Hinv) as Ht. unfold tester_ok in Ht. rewrite Hp in Ht. destruct Ht as (Hcn & Hgo & Hb & _).
  pose proof (p_two _ Hinv) as [Htwo _]. rewrite Hp in Htwo.
  apply clnt_inv; [done|done|done|done| |].
  - intros c Hg. unfold tester_ok. simpl. split; [done|]. split; [|done]. by apply (go_ok_frame st); simpl; rewrite ?Hg.
  - intros c Hc. by split.
Qed.

(** A step of the tester on its own variables or on the controller. *)
Lemma calm_inv st st' :
  pinv st → cfg st' = cfg st → next st' = next st → ngid st' = ngid st → go st' = go st → statev st' = statev st →
  tester_ok st' → clnts_ok st' → pinv st'.
Proof.
  intros Hinv Hc Hx Hn Hg Hs Ht Htwo. apply (at_inv st); rewrite ?Hc, ?Hg; try done; try apply Hinv.
  eapply state_frame; [done|done|apply Hinv].
Qed.

Lemma recover_inv st : pinv st → tester st = WithCtrler0 →
  pinv (at_tester Recovered (set_held (default (held st) (begun st)) None st)).
Proof.
  intros Hinv Hp. pose proof (p_tester _ Hinv) as Ht. unfold tester_ok in Ht. rewrite Hp in Ht.
  destruct Ht as (Hcn & Hgo & Hb & l & c & Hg & Hbc & Hnum). pose proof (p_two _ Hinv) as Htwo. unfold clnts_ok in Htwo. rewrite Hp in Htwo.
  apply (calm_inv st); [done..| |exact Htwo]. destruct (Hb c Hbc) as [Hfl _]. pose proof (p_state _ Hinv) as Hst.
  unfold go_ok, state_ok in *. rewrite Hg in *. change (recovered (at_tester Recovered (set_held (default (held st) (begun st)) None st))).
  unfold recovered. rewrite Hbc. simpl. split; [done|]. split; [done|]. destruct l.
  - destruct Hgo as [Hrn [(_ & [? ?] & _)|[_ Hno]]]; [|done]. split; [done|]. split; [done|]. exists true. done.
  - destruct Hgo as [_ Hgo]. destruct (Hgo Hfl) as [[? ?] Hrn]. split; [done|]. split; [done|]. exists false. done.
Qed.

Lemma recovered_at st p : recovered (at_tester p st) ↔ recovered st.
Proof. done. Qed.

Lemma number_inv st c : pinv st → tester st = Queried c → Num c > num st ∧ pinv (at_tester (Numbers c) st).
Proof.
  intros Hinv Hp. pose proof (p_tester _ Hinv) as Ht. pose proof (p_two _ Hinv) as Htwo. unfold tester_ok, clnts_ok in *. rewrite Hp in *.
  destruct Ht as [Hr ->]. split; [|by apply (calm_inv st)]. destruct Hr as (_ & _ & _ & ? & _). lia.
Qed.

(** The checks pass: the group has joined, or it has left. *)
Lemma recovered_member st : pinv st → recovered st →
  (statev st = JOIN ∧ IsMember (ngid st) (held st) = true ∧ within st ∧ go st = Changing false (held st)) ∨
  (statev st = LEAVE ∧ IsMember (ngid st) (held st) = false ∧ without st ∧ go st = Changing true (held st)).
Proof.
  intros Hinv (_ & _ & Hrn & _ & l & Hg & Hs & Hw). destruct (p_ngid _ Hinv) as [_ Hn2]. rewrite Hg in Hn2. specialize (Hn2 eq_refl).
  pose proof (p_next _ Hinv). destruct l; [right|left].
  - split; [done|]. split; [|done]. destruct Hw as [? ?]. apply no_member; [done|lia|done].
  - split; [done|]. split; [|done]. destruct Hw as [? ?]. apply has_member; [done|lia|done].
Qed.

Definition present_fails st (present : bool) : bool :=
  (bool_decide (statev st = JOIN) && negb present) || (bool_decide (statev st = LEAVE) && present).

Lemma present_inv st c : pinv st → tester st = Numbers c →
  present_fails st (IsMember (ngid st) c) = false ∧ pinv (at_tester (Right (IsMember (ngid st) c)) st).
Proof.
  intros Hinv Hp. pose proof (p_tester _ Hinv) as Ht. pose proof (p_two _ Hinv) as Htwo. unfold tester_ok, clnts_ok in *. rewrite Hp in *.
  destruct Ht as [Hr ->]. split; [|by apply (calm_inv st)]. unfold present_fails.
  destruct (recovered_member st Hinv Hr) as [(-> & -> & _)|(-> & -> & _)]; done.
Qed.

(** The change that the second controller has made is not made again by the first. *)
Lemma superseded st l : go st = Changing l (held st) → ¬ follows st (held st).
Proof. intros _. apply not_follows. by left. Qed.

Lemma nothing_inv st present : pinv st → tester st = Right present → bool_decide (statev st = JOIN) && present = false →
  pinv (at_tester Healing st).
Proof.
  intros Hinv Hp Hj. pose proof (p_tester _ Hinv) as Ht. pose proof (p_two _ Hinv) as Htwo. unfold tester_ok, clnts_ok in *. rewrite Hp in *.
  destruct Ht as [Hr ->]. apply (calm_inv st); [done..| |done].
  destruct (recovered_member st Hinv Hr) as [(Hs & Hm & _)|(Hs & Hm & Hw & Hg)].
  { by rewrite Hs, Hm in Hj. }
  destruct Hr as (Hcn & Hb & Hrn & _). unfold tester_ok. simpl. split; [done|].
  split; [unfold go_ok; simpl; rewrite Hg; split; [done|]; right; split; [done|]; exact (superseded st true Hg)|].
  split; [done|]. exists true, (held st). split; [done|]. exact (superseded st true Hg).
Qed.

Lemma leave_inv st present : pinv st → tester st = Right present → bool_decide (statev st = JOIN) && present = true →
  ∃ c, LeaveBalance [ngid st] (Copy (held st)) = Ret (c, true) ∧
    pinv (at_tester (ShardPart.Left (ngid st)) (set_held c (begun st) st)).
Proof.
  intros Hinv Hp Hj. pose proof (p_tester _ Hinv) as Ht. pose proof (p_two _ Hinv) as Htwo. unfold tester_ok, clnts_ok in *. rewrite Hp in *.
  destruct Ht as [Hr ->]. destruct (recovered_member st Hinv Hr) as [(Hs & Hm & Hw & Hg)|(Hs & Hm & _)].
  2:{ by rewrite Hs, Hm in Hj. }
  pose proof (p_ngid _ Hinv) as [_ Hn2]. rewrite Hg in Hn2. pose proof (p_next _ Hinv).
  destruct (leave_target st Hw) as (c & Heq & [Hsc Hgc] & Hfl); [specialize (Hn2 eq_refl); lia|]. exists c. split; [done|].
  apply (calm_inv st); [done..| |done]. destruct Hr as (Hcn & Hb & Hrn & _). unfold tester_ok. simpl.
  split; [done|]. split; [done|]. split; [done|]. split; [done|]. split; [done|]. exists (held st). split; [done|].
  unfold follows. simpl. apply not_follows. right. exact Hfl.
Qed.

Lemma left_inv st g : pinv st → tester st = ShardPart.Left g →
  IsMember g (held st) = false ∧ pinv (at_tester (Exiting g) st).
Proof.
  intros Hinv Hp. pose proof (p_tester _ Hinv) as Ht. pose proof (p_two _ Hinv) as Htwo. unfold tester_ok, clnts_ok in *. rewrite Hp in *.
  split; [|by apply (calm_inv st)]. destruct Ht as (_ & _ & -> & [Hs Hgs] & _ & c & Hg & _).
  pose proof (p_ngid _ Hinv) as [_ Hn2]. rewrite Hg in Hn2. pose proof (p_next _ Hinv).
  apply no_member; [done| |done]. specialize (Hn2 eq_refl). lia.
Qed.

Lemma exiting_inv st g : pinv st → tester st = Exiting g →
  ∃ c, ExitGroup all_ok g (cfg st) = Ret c ∧ pinv (at_tester Healing (reconf c st)).
Proof.
  intros Hinv Hp. pose proof (p_tester _ Hinv) as Ht. pose proof (p_two _ Hinv) as Htwo. unfold tester_ok, clnts_ok in *. rewrite Hp in *.
  destruct Ht as (Hcn & Hb & -> & Hw & Hrn & c0 & Hg & Hfl).
  destruct (ExitGroup_ok rand (ngid st) (cfg st) (p_ok _ Hinv) Hrn) as (c & Hex & Hok' & Hcl). exists c. split; [done|].
  pose proof (ExitGroup_grps _ _ _ _ Hex) as Hgr.
  apply (at_inv st); simpl; try done; try apply Hinv.
  - rewrite Hcl. apply Hinv.
  - intros h. rewrite Hgr, lookup_delete_is_Some. by intros [_ ?].
  - intros h Hh Hs. rewrite Hgr, lookup_delete_ne; [done|]. intros <-. rewrite (fresh_base st) in Hh; [by apply is_Some_None in Hh|].
    apply (p_ngid _ Hinv). by rewrite Hg.
  - unfold tester_ok. simpl. split; [done|]. split; [unfold go_ok; simpl; rewrite Hg; by split|]. split; [done|]. by exists false, c0.
  - unfold clnts_ok in *. simpl. by rewrite (clnts_client (cfg st) c) || (setoid_rewrite (clnts_client (cfg st) c); done).
Qed.

Lemma heal_inv st : pinv st → tester st = Healing →
  ∃ c, clnt_run rand all_ok OClntConnectAll (clnt st) st c ∧ pinv (at_tester Reading (set_conn true (reconf c st))).
Proof.
  intros Hinv Hp. pose proof (p_tester _ Hinv) as Ht. pose proof (p_two _ Hinv) as [Htwo Htwo0]. unfold tester_ok in Ht. rewrite Hp in *.
  destruct Ht as (Hcn & Hgo & Hb & _). apply clnt_inv; [done|done|done|done| |].
  - intros c Hg. unfold tester_ok. simpl. split; [|by apply none_begun]. by apply (go_ok_frame st); simpl; rewrite ?Hg.
  - intros c Hc. by split.
Qed.

Lemma noheal_inv st : pinv st → tester st = Healing → pinv (at_tester Reading st).
Proof.
  intros Hinv Hp. pose proof (p_tester _ Hinv) as Ht. pose proof (p_two _ Hinv) as Htwo. unfold tester_ok, clnts_ok in *. rewrite Hp in *.
  destruct Ht as (Hcn & Hgo & Hb & _). apply (calm_inv st); [done..| |done]. unfold tester_ok. simpl. split; [done|by apply none_begun].
Qed.

Lemma read_inv st : pinv st → tester st = Reading → pinv (at_tester Deleting st).
Proof.
  intros Hinv Hp. pose proof (p_tester _ Hinv) as Ht. pose proof (p_two _ Hinv) as Htwo. unfold tester_ok, clnts_ok in *. rewrite Hp in *.
  by apply (calm_inv st).
Qed.

(** The tester deletes one of its clients. *)
Lemma delete_inv st p' b :
  pinv st → go_ok st → begun_ok st → p' = Deleting0 ∧ is_Some (clnt0 st) ∨ p' = Passed → ∀ p, is_Some p → ∃ c, clnt_run rand all_ok ODeleteClient p st c ∧
    pinv (at_tester p' (set_conn b (reconf c st))).
Proof.
  intros Hinv Hgo Hb Hp' p [q ->].
  destruct (run_clnt ODeleteClient q (cfg st)) as (c & Hr & Hok & Hm & Hg); [apply Hinv..|done|done|].
  exists c. split; [by exists q|]. apply (at_inv st); simpl; rewrite ?Hg; try done; try apply Hinv.
  - assert (go_ok (at_tester p' (set_conn b (reconf c st))) ∧ begun_ok (at_tester p' (set_conn b (reconf c st)))) as H'.
    { split; [|done]. by apply (go_ok_frame st); simpl; rewrite ?Hg. }
    unfold tester_ok. simpl. by destruct Hp' as [[-> _]| ->].
  - destruct Hp' as [[-> [q0 Hq0]]| ->]; (split; [done|]); [by exists q0|done].
Qed.

Lemma part_tester_inv st st' : pinv st → off_inv st → tester_step rand all_ok down partition in_change st st' → pinv st'.
Proof.
  intros Hinv Hoff Hs. pose proof (p_tester _ Hinv) as Ht. pose proof (p_two _ Hinv) as [H1 H2]. unfold tester_ok in Ht.
  destruct Hs as [p c Hp Hn Hr|Hp|c Hp Hr|c Hp Hw Hr|c Hp Hr|p c Hp Hn Hr|Hp|Hp|c Hp|c present Hp ->|present Hp Hj|present c Hp Hj Hr|
    present c Hp Hj Hr|g Hp|g c Hp Hr|c Hp Hpt Hr|Hp Hpt|Hp|c Hp Hr|c Hp Hr]; rewrite Hp in *.
  - destruct (ctrler_inv st p Hinv Hp Hn) as (c' & Heq & ?). rewrite Hr in Heq. by injection Heq as <-.
  - by apply part_spawn_inv.
  - destruct (shutdown_inv st Hinv Hp) as (c' & Heq & ? & _). rewrite Hr in Heq. by injection Heq as <-.
  - destruct (cut_inv st Hinv Hp Hw) as (c' & Heq & ?). destruct Hr as (q & Hq & Hr), Heq as (q' & Hq' & Heq). congruence.
  - destruct (part_restart_inv st Hinv Hoff Hp) as (c' & Heq & ?). rewrite Hr in Heq. by injection Heq as <-.
  - destruct (ctrler0_inv st p Hinv Hp Hn) as (c' & Heq & ?). rewrite Hr in Heq. by injection Heq as <-.
  - by apply recover_inv.
  - apply (calm_inv st); [done..|by split|by split].
  - destruct (number_inv st c Hinv Hp) as [? ?]. by rewrite bool_decide_false by lia.
  - destruct (present_inv st c Hinv Hp) as [Hf ?]. unfold present_fails in Hf. by rewrite Hf.
  - by eapply nothing_inv.
  - destruct (leave_inv st present Hinv Hp Hj) as (c' & Heq & ?). rewrite Hr in Heq. by injection Heq as <-.
  - destruct (leave_inv st present Hinv Hp Hj) as (c' & Heq & ?). congruence.
  - destruct (left_inv st g Hinv Hp) as [-> ?]. done.
  - destruct (exiting_inv st g Hinv Hp) as (c' & Heq & ?). rewrite Hr in Heq. by injection Heq as <-.
  - destruct (heal_inv st Hinv Hp) as (c' & Heq & ?). destruct Hr as (q & Hq & Hr), Heq as (q' & Hq' & Heq). congruence.
  - by apply noheal_inv.
  - by apply read_inv.
  - destruct H2 as [q0 Hq0]. destruct (delete_inv st Deleting0 false Hinv) with (p := clnt st) as (c' & Heq & ?); [apply Ht..| | |].
    + left. split; [done|by eexists].
    + destruct H1 as (q & -> & _). by eexists.
    + destruct Hr as (q & Hq & Hr), Heq as (q' & Hq' & Heq). congruence.
  - destruct (delete_inv st Passed (conn st) Hinv) with (p := clnt0 st) as (c' & Heq & Hi); [apply Ht..|by right| |].
    + destruct H2 as (q & ->). by eexists.
    + destruct Hr as (q & Hq & Hr), Heq as (q' & Hq' & Heq). assert (c' = c) as -> by congruence. exact Hi.
Qed.

(** The group stays down until the tester starts it. *)
Lemma off_same st st' :
  tester st' = tester st → grps (cfg st') !! down = grps (cfg st) !! down → off_inv st → off_inv st'.
Proof. intros Ht Hg Hoff. unfold off_inv, stopped in *. by rewrite Ht, Hg. Qed.

Lemma clnt_run_grps o q st c : client_op (o 0%nat) = true → (∀ p, client_op (o p) = client_op (o 0%nat)) →
  clnt_run rand all_ok o q st c → grps c = grps (cfg st).
Proof. intros Ho Hall (p & _ & Hr). eapply client_op_grps; [|exact Hr]. by rewrite Hall. Qed.

Lemma part_step_off st st' : pinv st → off_inv st → step st st' → off_inv st'.
Proof.
  intros Hinv Hoff [st1 Hs|st1 Hs|o c Ho Hv Hr Hne].
  - destruct Hs as [Hp|Hp|c Hp Hr|srvs c Hp _ _ _|srvs c Hp _ _ _|l c Hp _ _ _|l c Hp _ _|l c Hp _ _ _|Hp _|Hp _|Hp|c Hp _ _|c Hp _ _|Hp _|c Hp Hr];
      (apply (off_same st); [try (by destruct (IsMember _ _))|try (by destruct (IsMember _ _))|done]); try done; simpl.
    + assert (ngid st ≠ down) as Hnd by (apply ngid_not_down; [done|by rewrite Hp]).
      pose proof (p_tester _ Hinv) as Ht. destruct (free_ok st Ht) as [Hgo _]; [apply unfrozen; by rewrite Hp|].
      unfold go_ok in Hgo. rewrite Hp in Hgo. destruct Hgo as [_ Hnone].
      destruct (MakeGroupStart_ok rand (ngid st) NSRV (cfg st) (p_ok _ Hinv) Hnone) as (c' & sg & Hmk & _ & Hc & _).
      rewrite Hr in Hmk. injection Hmk as <-. rewrite Hc. simpl. by rewrite lookup_insert_ne.
    + assert (ngid st ≠ down) as Hnd by (apply ngid_not_down; [done|by rewrite Hp]).
      rewrite (ExitGroup_grps _ _ _ _ Hr). by rewrite lookup_delete_ne.
  - destruct Hs as [p c Hp Hn Hr|Hp|c Hp Hr|c Hp Hw Hr|c Hp Hr|p c Hp Hn Hr|Hp|Hp|c Hp|c present Hp ->|present Hp Hj|present c Hp Hj Hr|
      present c Hp Hj Hr|g Hp|g c Hp Hr|c Hp Hpt Hr|Hp Hpt|Hp|c Hp Hr|c Hp Hr]; intros Hpc; simpl in *; try (by destruct Hpc);
      try (exfalso; revert Hpc; repeat (case_bool_decide || destruct (IsMember _ _) || destruct (_ || _)); by intros []).
    + destruct (shutdown_inv st Hinv Hp) as (c' & Heq & _ & Hst). congruence.
    + unfold stopped. rewrite (clnt_run_grps OClntDisconnectAll _ _ _ eq_refl (λ _, eq_refl) Hr). apply Hoff. by left.
  - apply (off_same st); [done| |done]. simpl. by rewrite (client_op_grps rand o _ _ Ho Hr).
Qed.

Lemma part_step_inv st st' : pinv st → off_inv st → step st st' → pinv st'.
Proof.
  intros Hinv Hoff [st1 Hs|st1 Hs|o c Ho Hv Hr Hne]; [by eapply goroutine_inv|by eapply part_tester_inv|].
  destruct (run_ok rand o (cfg st) (p_ok _ Hinv) (p_clnts _ Hinv) Hv) as (c' & Heq & Hok' & Hm'). rewrite Hr in Heq. injection Heq as <-.
  pose proof (client_op_grps rand o _ _ Ho Hr) as Hg. apply reconf_inv; [done..|by rewrite Hg|by rewrite Hg|].
  intros p Hp. apply (client_stays o); [done..|]. apply Hne. by left.
Qed.

Lemma steps_inv st st' : pinv st → off_inv st → rtc step st st' → pinv st' ∧ off_inv st'.
Proof.
  intros Hd Hoff. induction 1 as [|st st1 st' Hs _ IH]; [done|].
  apply IH; [by eapply part_step_inv|by eapply part_step_off].
Qed.

(** ** The tester can always come to its end *)

(** The steps of the goroutine to its next change. *)
Definition go_rank (p : gpc) : nat :=
  match p with
  | Changed true => 6 | Gone => 5 | New => 4 | Numbered => 3 | Joining => 2 | Started => 1
  | Changed false => 4 | Joined => 3 | Member => 2 | Leaving => 1
  | Changing _ _ | Unborn | Returned | Fatal => 0
  end.

(** What a step leaves as it is, on the way to the next change. *)
Definition same_round st st' : Prop :=
  held st' = held st ∧ num st' = num st ∧ tester st' = tester st ∧ (go_rank (go st') < go_rank (go st))%nat.

Lemma goroutine_to_change st : pinv st → tester st = Down → go_rank (go st) ≠ 0%nat →
  ∃ st', goroutine rand all_ok st st' ∧ same_round st st'.
Proof.
  intros Hinv Hp Hrk. pose proof (p_tester _ Hinv) as Ht. unfold tester_ok in Ht. rewrite Hp in Ht. destruct Ht as (Hcn & Hgo & Hb & Htm & Hu).
  pose proof (p_ngid _ Hinv) as [_ Hn2]. pose proof (p_next _ Hinv) as Hnx. unfold go_ok, timely in Hgo, Htm. unfold same_round.
  destruct (go st) as [| | | | |l c|[]| | | | | |] eqn:Hg; try done; try specialize (Hn2 eq_refl); simpl in Hn2.
  - eexists. split; [by apply g_new|]. simpl. split_and!; [done..|lia].
  - eexists. split; [by apply g_join_state|]. simpl. split_and!; [done..|lia].
  - destruct (part_start_inv st Hinv Hg) as (c & Hr & _). eexists. split; [by eapply g_start|]. simpl. split_and!; [done..|lia].
  - destruct Hgo as (Hw & _ & Hs). destruct (join_target st Hw) as (c & Hr & _); [lia|].
    eexists. split; [by eapply g_join|]. simpl. split_and!; [done..|lia].
  - destruct Hgo as [[Hs Hgs] _]. eexists. split; [by apply g_left|]. rewrite (no_member (held st) (ngid st)) by (done || lia).
    simpl. split_and!; [done..|lia].
  - eexists. split; [by apply g_checked|]. simpl. split_and!; [done..|lia].
  - destruct Htm as [Hs Hgs]. eexists. split; [by apply g_member|]. rewrite (has_member (held st) (ngid st)) by (done || lia).
    simpl. split_and!; [done..|lia].
  - eexists. split; [by apply g_leave_state|]. simpl. split_and!; [done..|lia].
  - destruct Hgo as (Hw & _). destruct (leave_target st Hw) as (c & Hr & _); [lia|].
    eexists. split; [by eapply g_leave|]. simpl. split_and!; [done..|lia].
  - destruct (exit_inv st Hinv Hg) as (c & Hr & _). eexists. split; [by eapply g_exit|]. simpl. split_and!; [done..|lia].
Qed.

(** The numbers of the configurations do not wrap around before the cut. *)
Definition room st : Prop :=
  match tester st with
  | Begin | WithCtrler => - two63 ≤ Num (held st) < two63 - 1
  | Running | Down => - two63 ≤ Num (held st) < two63 - 1 ∧ num st ≤ Num (held st)
  | _ => True
  end.

Lemma can_change m st : pinv st → off_inv st → tester st = Down → room st → (go_rank (go st) ≤ m)%nat →
  ∃ st', rtc step st st' ∧ (pinv st' ∧ off_inv st') ∧ tester st' = Down ∧ in_change st'.
Proof.
  revert st. induction m as [|m IH]; intros st Hinv Hoff Hp Hroom Hm.
  - pose proof (p_tester _ Hinv) as Ht. unfold tester_ok in Ht. rewrite Hp in Ht. destruct Ht as (Hcn & Hgo & Hb & Htm & Hu).
    unfold room in Hroom. rewrite Hp in Hroom. unfold go_ok, timely in Hgo, Htm.
    destruct (go st) as [| | | | |l c|[]| | | | | |] eqn:Hg; simpl in Hm; try lia; try done.
    assert (num st < Num c) as Hnum.
    { rewrite Htm, i64_id; [lia|]. unfold two63 in *. lia. }
    destruct (begun st) as [c'|] eqn:Hbc.
    + destruct (Hb c' Hbc) as (_ & l' & Hl'). rewrite Hg in Hl'. injection Hl' as <- <-. exists st. split; [done|]. split; [done|]. split; [done|].
      by exists l, c.
    + pose proof (g_begin rand all_ok st l c Hg Hcn Hbc Htm) as Hs. eexists. split; [by apply rtc_once, s_goroutine|].
      split; [split; [by eapply goroutine_inv|by eapply part_step_off, s_goroutine]|]. split; [done|]. by exists l, c.
  - destruct (decide (go_rank (go st) = 0%nat)) as [H0|Hn0]; [apply IH; [done..|lia]|].
    destruct (goroutine_to_change st Hinv Hp Hn0) as (st1 & Hs & Hh & Hn & Ht & Hlt).
    destruct (IH st1) as (st2 & Hr & ?); [by eapply goroutine_inv|by eapply part_step_off, s_goroutine|congruence| |lia|].
    + unfold room in *. rewrite Ht, Hh, Hn. done.
    + exists st2. split; [|done]. eapply rtc_l; [by eapply s_goroutine|done].
Qed.

Definition tester_rank (p : tpc) : nat :=
  match p with
  | Begin => 17 | WithCtrler => 16 | Running => 15 | Down => 14 | Cut => 13 | Up => 12 | WithCtrler0 => 11 | Recovered => 10
  | Queried _ => 9 | Numbers _ => 8 | Right _ => 7 | ShardPart.Left _ => 6 | Exiting _ => 5 | Healing => 4 | Reading => 3 | Deleting => 2
  | Deleting0 => 1 | Passed | Failed => 0
  end.

Lemma tester_advances st : pinv st → off_inv st → room st → tester st ≠ Passed → tester st ≠ Down →
  ∃ st', tester_step rand all_ok down partition in_change st st' ∧ room st' ∧ (tester_rank (tester st') < tester_rank (tester st))%nat.
Proof.
  intros Hinv Hoff Hroom Hne Hnd. pose proof (p_tester _ Hinv) as Ht. pose proof (p_two _ Hinv) as [H1 H2]. destruct (fresh_client (cfg st)) as [p Hf].
  unfold room in Hroom. unfold tester_ok in Ht. destruct (tester st) as [| | | | | | | |c|c|present|g|g| | | | | |] eqn:Hp; try done.
  - destruct (ctrler_inv st p Hinv Hp Hf) as (c & Hr & _). eexists. split; [by eapply t_ctrler|]. simpl. split; [done|lia].
  - eexists. split; [by apply t_spawn|]. unfold room. simpl. split; [split; [done|lia]|lia].
  - destruct (shutdown_inv st Hinv Hp) as (c & Hr & _). eexists. split; [by eapply t_shutdown|]. simpl. split; [done|lia].
  - destruct (part_restart_inv st Hinv Hoff Hp) as (c & Hr & _). eexists. split; [by eapply t_start|]. simpl. split; [done|lia].
  - destruct (ctrler0_inv st p Hinv Hp Hf) as (c & Hr & _). eexists. split; [by eapply t_ctrler0|]. simpl. split; [done|lia].
  - eexists. split; [by apply t_recover|]. simpl. split; [done|lia].
  - eexists. split; [by apply t_query|]. simpl. split; [done|lia].
  - destruct (number_inv st c Hinv Hp) as [? _]. eexists. split; [by eapply t_number|]. rewrite bool_decide_false by lia. simpl. split; [done|lia].
  - destruct (present_inv st c Hinv Hp) as [Hpf _]. unfold present_fails in Hpf. eexists. split; [by eapply t_present|]. rewrite Hpf. simpl. split; [done|lia].
  - destruct (bool_decide (statev st = JOIN) && present) eqn:Hj.
    + destruct (leave_inv st present Hinv Hp Hj) as (c & Hr & _). eexists. split; [by eapply t_leave|]. simpl. split; [done|lia].
    + eexists. split; [by eapply t_nothing|]. simpl. split; [done|lia].
  - destruct (left_inv st g Hinv Hp) as [Hm _]. eexists. split; [by eapply t_left|]. rewrite Hm. simpl. split; [done|lia].
  - destruct (exiting_inv st g Hinv Hp) as (c & Hr & _). eexists. split; [by eapply t_exit|]. simpl. split; [done|lia].
  - destruct partition eqn:Hpt.
    + destruct (heal_inv st Hinv Hp) as (c & Hr & _). eexists. split; [by eapply t_heal|]. simpl. split; [done|lia].
    + eexists. split; [by eapply t_noheal|]. simpl. split; [done|lia].
  - eexists. split; [by apply t_read|]. simpl. split; [done|lia].
  - destruct H1 as (q & Hq & _), H2 as [q0 Hq0].
    destruct (delete_inv st Deleting0 false Hinv) with (p := clnt st) as (c & Hr & _); [apply Ht..|left; split; [done|by eexists]|by rewrite Hq; eexists|].
    eexists. split; [by eapply t_delete|]. simpl. split; [done|lia].
  - destruct H2 as [q0 Hq0].
    destruct (delete_inv st Passed false Hinv) with (p := clnt0 st) as (c & Hr & _); [apply Ht..|by right|by rewrite Hq0; eexists|].
    eexists. split; [by eapply t_delete0|]. simpl. split; [done|lia].
Qed.

Lemma can_pass m st : pinv st → off_inv st → room st → (tester_rank (tester st) ≤ m)%nat → ∃ st', rtc step st st' ∧ tester st' = Passed.
Proof.
  revert st. induction m as [|m IH]; intros st Hinv Hoff Hroom Hm.
  - exists st. split; [done|]. pose proof (p_tester _ Hinv) as Ht. unfold tester_ok in Ht. destruct (tester st); simpl in Hm; (lia || done).
  - destruct (decide (tester_rank (tester st) = 0%nat)) as [H0|Hn0]; [apply IH; [done..|lia]|].
    assert (tester st ≠ Passed) as Hne by (intros He; by rewrite He in Hn0).
    assert (∃ st1, rtc step st st1 ∧ (pinv st1 ∧ off_inv st1) ∧ room st1 ∧ (tester_rank (tester st1) < tester_rank (tester st))%nat) as (st1 & Hr1 & [Hinv1 Hoff1] & Hroom1 & Hlt).
    { destruct (decide (tester_rank (tester st) = 14%nat)) as [Hd|Hd].
      - assert (tester st = Down) as Hp by (destruct (tester st); simpl in Hd; (lia || done)).
        destruct (can_change _ st Hinv Hoff Hp Hroom (le_n _)) as (st1 & Hr1 & [Hinv1 Hoff1] & Hp1 & Hin).
        destruct (cut_inv st1 Hinv1 Hp1 Hin) as (c & Hrc & Hinv2). assert (step st1 (at_tester Cut (set_conn false (reconf c st1)))) as Hcut by by eapply s_tester, t_cut.
        eexists. split; [eapply rtc_r; [exact Hr1|exact Hcut]|].
        split; [split; [exact Hinv2|exact (part_step_off _ _ Hinv1 Hoff1 Hcut)]|]. rewrite Hp. simpl. split; [done|lia].
      - destruct (tester_advances st Hinv Hoff Hroom Hne) as (st1 & Hs & Hroom1 & Hlt); [by intros He; rewrite He in Hd|].
        exists st1. split; [by apply rtc_once, s_tester|]. split; [|done].
        split; [by eapply part_tester_inv|by eapply part_step_off, s_tester]. }
    destruct (IH st1 Hinv1 Hoff1 Hroom1) as (st2 & Hr2 & ?); [lia|]. exists st2. split; [by etrans|done].
Qed.

(** ** The start, and what the first controller does in the end *)

Lemma start_pinv c h :
  ok rand c → is_Some (clnts c) → 0 < g0 → (∀ g, is_Some (grps c !! g) → g < g0) →
  (∀ g, is_Some (base !! g) → is_Some (grps c !! g)) → sound h → Groups h = base → pinv (start c g0 h).
Proof. intros Hok Hm H0 Hnew Hbase Hs Hg. by split. Qed.

Lemma pinv_groups st g srvs :
  pinv st → Groups (held st) !! g = Some srvs → sound (held st) ∧ srvs = names g ∧ is_Some (grps (cfg st) !! g).
Proof.
  intros Hinv Hg.
  assert (without st ∨ within st ∧ runs st) as Hw.
  { pose proof (p_tester _ Hinv) as Ht. unfold tester_ok in Ht.
    assert (go_ok st → without st ∨ within st ∧ runs st) as Hgo.
    { unfold go_ok. destruct (go st) as [| | | | |[] c|[]| | | | | |]; tauto. }
    assert (recovered st → without st ∨ within st ∧ runs st) as Hr.
    { intros (_ & _ & ? & _ & [] & _ & _ & ?); tauto. }
    destruct (tester st); tauto. }
  destruct Hw as [[Hs Hgs]|[[Hs Hgs] Hrn]]; rewrite Hgs in Hg.
  - split; [done|]. split; [by apply base_names|]. apply (p_base _ Hinv). by eexists.
  - apply lookup_insert_Some in Hg as [[<- <-]|[_ Hg]]; [done|]. split; [done|]. split; [by apply base_names|].
    apply (p_base _ Hinv). by eexists.
Qed.

(** The goroutine, connected again in the middle of a leave, starts another group. *)
Lemma goes_on_after_leave st : pinv st → tester st = Healing → partition = true → statev st = LEAVE →
  ∃ st', rtc step st st' ∧ tester st' = Reading ∧ go st' = Started ∧ ngid st' = next st ∧ is_Some (grps (cfg st') !! next st).
Proof.
  intros Hinv Hp Hpt Hs. pose proof (p_tester _ Hinv) as Ht. unfold tester_ok in Ht. rewrite Hp in Ht.
  destruct Ht as (_ & Hgo & Hb & l & c & Hg & Hfl). pose proof (p_state _ Hinv) as Hst. unfold state_ok in Hst. rewrite Hg in Hst.
  destruct l; [|by rewrite Hs in Hst]. destruct (heal_inv st Hinv Hp) as (c1 & Hr1 & Hi1). set (s1 := at_tester _ _) in Hi1.
  assert (goroutine rand all_ok s1 (at_go (Changed true) s1)) as Hs2 by by eapply g_superseded.
  pose proof (goroutine_inv _ _ Hi1 Hs2) as Hi2. set (s2 := at_go _ s1) in *.
  assert (IsMember (ngid s2) (held s2) = false) as Hm2.
  { pose proof (p_tester _ Hi2) as Ht2. destruct Ht2 as [Hgo2 _]. destruct Hgo2 as [[Hsd Hgs] _]. pose proof (p_ngid _ Hi2) as [_ Hn2].
    pose proof (p_next _ Hi2). apply no_member; [done| |done]. specialize (Hn2 eq_refl). lia. }
  assert (goroutine rand all_ok s2 (at_go Gone s2)) as Hs3.
  { pose proof (g_left rand all_ok s2 eq_refl eq_refl) as Hx. by rewrite Hm2 in Hx. }
  pose proof (goroutine_inv _ _ Hi2 Hs3) as Hi3. set (s3 := at_go _ s2) in *.
  destruct (exit_inv s3 Hi3 eq_refl) as (c4 & Hr4 & Hi4). pose proof (g_exit rand all_ok s3 c4 eq_refl Hr4) as Hs4. set (s4 := at_go _ _) in Hi4, Hs4.
  pose proof (g_new rand all_ok s4 eq_refl) as Hs5. pose proof (new_inv s4 Hi4 eq_refl) as Hi5. set (s5 := at_go _ _) in Hi5, Hs5.
  pose proof (g_join_state rand all_ok s5 eq_refl) as Hs6. pose proof (goroutine_inv _ _ Hi5 Hs6) as Hi6. set (s6 := at_go _ _) in Hi6, Hs6.
  destruct (part_start_inv s6 Hi6 eq_refl) as (c7 & Hr7 & Hi7). pose proof (g_start rand all_ok s6 c7 eq_refl Hr7) as Hs7. set (s7 := at_go _ _) in Hi7, Hs7.
  exists s7. split.
  - eapply rtc_l; [eapply s_tester, t_heal; done|]. eapply rtc_l; [apply s_goroutine, Hs2|]. eapply rtc_l; [apply s_goroutine, Hs3|].
    eapply rtc_l; [apply s_goroutine, Hs4|]. eapply rtc_l; [apply s_goroutine, Hs5|]. eapply rtc_l; [apply s_goroutine, Hs6|].
    apply rtc_once, s_goroutine, Hs7.
  - split; [done|]. split; [done|]. split; [done|]. pose proof (p_tester _ Hi7) as Ht7. destruct Ht7 as [(_ & Hrn & _) _]. exact Hrn.
Qed.

(** Cut off before the goroutine has begun a change, the test fails. *)
Lemma fails_if_early st : pinv st → st = start (cfg st) g0 (held st) →
  ∃ st', rtc (ShardPart.step rand all_ok down partition (λ _, True)) st st' ∧ tester st' = Failed.
Proof.
  intros Hinv He. assert (tester st = Begin) as Hp by by rewrite He. destruct (fresh_client (cfg st)) as [p Hf].
  destruct (ctrler_inv st p Hinv Hp Hf) as (c1 & Hr1 & Hi1). set (s1 := at_tester _ _) in Hi1.
  pose proof (part_spawn_inv s1 Hi1 eq_refl) as Hi2. set (s2 := at_tester _ _) in Hi2.
  destruct (shutdown_inv s2 Hi2 eq_refl) as (c3 & Hr3 & Hi3 & Hst3). set (s3 := at_tester _ _) in Hi3.
  destruct (p_two _ Hi3) as [(q & Hq & Hqs) _].
  destruct (run_clnt OClntDisconnectAll q (cfg s3)) as (c4 & Hr4 & Hok4 & Hm4 & Hg4); [apply Hi3..|done|done|].
  set (s4 := at_tester Cut (set_conn false (reconf c4 s3))).
  destruct (start_down (cfg s4)) as (c5 & Hr5 & Hok5 & Hc5 & _); [done|unfold stopped; simpl; by rewrite Hg4|].
  set (s5 := at_tester Up (reconf c5 s4)). destruct (fresh_client (cfg s5)) as [p6 Hf6].
  destruct (new_ctrler p6 (cfg s5)) as (c6 & Hr6 & _); [done|simpl; by rewrite Hc5|done|].
  assert (begun st = None) as Hb by by rewrite He.
  eexists. split.
  - eapply rtc_l; [eapply s_tester, t_ctrler; done|]. eapply rtc_l; [apply s_tester; by apply (t_spawn _ _ _ _ _ s1)|].
    eapply rtc_l; [apply s_tester; by apply (t_shutdown _ _ _ _ _ s2 c3)|].
    eapply rtc_l; [apply s_tester; apply (t_cut _ _ _ _ _ s3 c4); [done|done|by exists q]|].
    eapply rtc_l; [apply s_tester; by apply (t_start _ _ _ _ _ s4 c5)|].
    eapply rtc_l; [apply s_tester; by apply (t_ctrler0 _ _ _ _ _ s5 p6 c6)|].
    eapply rtc_l; [apply s_tester; by apply t_recover|]. eapply rtc_l; [apply s_tester; by apply t_query|].
    apply rtc_once, s_tester. by eapply t_number.
  - simpl. rewrite Hb. simpl. by rewrite bool_decide_true by lia.
Qed.
End spec.

(** The state in which partitionCtrler is called. *)
Definition called {K} (ctl : K → ShardConfig) (ts : ShardTest.Test K) : state :=
  start (ShardTest.cfg ts) (ShardTest.ngid ts) (ctl (sck ts)).

Lemma called_pinv {K} `{ShardCtrler K} (ctl : K → ShardConfig) `{!CtrlerLaws ctl}
    (rand : nat → string) `{!Inj (=) (=) rand} k reliable now p c ts :
  reached ctl rand k reliable now p c ts →
  (∀ h srvs, Groups (ctl (sck ts)) !! h = Some srvs → srvs = names h ∧ 0 < h < ShardTest.ngid ts) ∧
  pinv rand (Groups (ctl (sck ts))) (ShardTest.ngid ts) (called ctl ts).
Proof.
  intros Hts. pose proof (reached_inv ctl rand k reliable now p c ts Hts) as Hinv.
  assert (∀ h srvs, Groups (ctl (sck ts)) !! h = Some srvs → srvs = names h ∧ 0 < h < ShardTest.ngid ts ∧ is_Some (grps (ShardTest.cfg ts) !! h)) as Hb.
  { intros h srvs. rewrite (i_groups _ _ _ Hinv). case_decide as Hh; [|done]. intros [= <-]. destruct Hh as [H0 Hh].
    pose proof (i_new _ _ _ Hinv h Hh). unfold GRP0 in H0. split_and!; [done|lia|lia|done]. }
  split; [intros h srvs Hh; by destruct (Hb h srvs Hh) as (? & ? & _)|].
  apply start_pinv; [apply Hinv|apply Hinv|apply (i_pos _ _ _ Hinv)| | |apply Hinv|done].
  - intros g Hg. by apply (i_new _ _ _ Hinv).
  - intros g [srvs Hg]. by apply (Hb g srvs).
Qed.

(** partitionCtrler judges rightly.  Call it at any point of a test of the sharded service, with
    fewer groups than shards, on a group of the configuration; let clients come and go.
    Suppose that the tester cuts the first controller off while it is in the middle of a
    change, and that the numbers of the configurations have not wrapped around.  Then the
    test does not fail and no goroutine is stopped by log.Fatalf; after InitController the
    current configuration is the one to which the first controller was changing; every group
    of the current configuration runs, with the names of its servers, and CheckConfig accepts
    it; and the tester can always come to its end.  But a controller that is connected again
    in the middle of a leave does not bail out: its goroutine can go on to start another
    group.  And if the tester may cut the controller off at any time, it fails in some run:
    the pauses of the test are needed. *)
Theorem cut_controller_recovered {K} `{ShardCtrler K} (ctl : K → ShardConfig) `{!CtrlerLaws ctl}
    (rand : nat → string) `{!Inj (=) (=) rand} k reliable now p c ts down partition :
  reached ctl rand k reliable now p c ts → is_Some (Groups (ctl (sck ts)) !! down) → (size (Groups (ctl (sck ts))) < NShards)%nat →
  (∀ st, rtc (step rand all_ok down partition in_change) (called ctl ts) st →
     tester st ≠ Failed ∧ go st ≠ Fatal ∧
     (tester st = Recovered → ∃ l, go st = Changing l (held st)) ∧
     (∀ g srvs, Groups (held st) !! g = Some srvs →
        srvs = names g ∧ is_Some (grps (cfg st) !! g) ∧ CheckConfig (map_keys (Groups (held st))) (held st) = Ret tt) ∧
     (room st → ∃ st', rtc (step rand all_ok down partition in_change) st st' ∧ tester st' = Passed) ∧
     (tester st = Healing → partition = true → statev st = LEAVE →
        ∃ st', rtc (step rand all_ok down partition in_change) st st' ∧ tester st' = Reading ∧ go st' = Started ∧
          ngid st' = next st ∧ is_Some (grps (cfg st') !! next st))) ∧
  ∃ st, rtc (step rand all_ok down partition (λ _, True)) (called ctl ts) st ∧ tester st = Failed.
Proof.
  intros Hts Hdown Hsize. destruct (called_pinv ctl rand k reliable now p c ts Hts) as [Hnames Hinv0].
  split; [|by eapply (fails_if_early rand down partition _ _ Hnames Hsize Hdown)].
  intros st Hr. assert (off_inv down (called ctl ts)) as Hoff0 by (by intros []).
  destruct (steps_inv rand down partition _ _ Hnames Hsize Hdown _ _ Hinv0 Hoff0 Hr) as [Hinv Hoff].
  pose proof (p_tester _ _ _ _ Hinv) as Ht. split; [intros He; unfold tester_ok in Ht; by rewrite He in Ht|].
  split.
  { intros He. destruct (free_ok _ _ Ht) as [Hgo _]; [by intros l c0; rewrite He|]. unfold go_ok in Hgo. by rewrite He in Hgo. }
  split.
  { intros He. unfold tester_ok in Ht. rewrite He in Ht. destruct Ht as (_ & _ & _ & _ & l & Hg & _). by exists l. }
  split; [|split].
  - intros g srvs Hg. destruct (pinv_groups rand _ _ Hnames st g srvs Hinv Hg) as ([Hwf Hok] & ? & ?).
    split; [done|]. split; [done|]. by apply CheckConfig_iff.
  - intros Hroom. by eapply (can_pass rand down partition _ _ Hnames Hsize Hdown).
  - by eapply (goes_on_after_leave rand down partition _ _ Hnames Hsize Hdown).
Qed.

Lemma cut_controller_recovered_witness :
  ∃ ts, begin (λ n, pretty n) 0 true 0 0 MakeShardConfig = Ret (Gid1, ts) ∧
    (∃ st, rtc (step (λ n, pretty n) all_ok Gid1 true in_change) (called (λ c, c) ts) st ∧ tester st = Passed) ∧
    (∃ st, rtc (step (λ n, pretty n) all_ok Gid1 true (λ _, True)) (called (λ c, c) ts) st ∧ tester st = Failed).
Proof.
  destruct (begin (K:=ShardConfig) (λ n, pretty n) 0 true 0 0 MakeShardConfig) as [[g ts]|] eqn:Hb;
    [|vm_compute in Hb; discriminate].
  assert (match begin (K:=ShardConfig) (λ n, pretty n) 0 true 0 0 MakeShardConfig with
    | Ret (g, ts) => g = Gid1 ∧ is_Some (Groups (sck ts) !! Gid1) ∧ size (Groups (sck ts)) = 1%nat ∧ Num (sck ts) = 1
    | Stop _ => False end) as Hx.
  { vm_compute. split; [reflexivity|]. split; [eexists; reflexivity|]. split; reflexivity. }
  rewrite Hb in Hx. destruct Hx as (-> & Hdown & Hsize & Hnum). exists ts. split; [reflexivity|].
  destruct (cut_controller_recovered (λ c : ShardConfig, c) (λ n, pretty n) 0 true 0 0 MakeShardConfig ts Gid1 true) as [Hall Hearly].
  - exact (r_begin _ _ _ _ _ _ _ _ Hb).
  - exact Hdown.
  - rewrite Hsize. unfold NShards. lia.
  - split; [|exact Hearly]. destruct (Hall _ (rtc_refl _ _)) as (_ & _ & _ & _ & Hpass & _). apply Hpass.
    unfold room, called. simpl. rewrite Hnum. unfold two63. lia.
Defined.
