(* ===== verification/RaftLab.v ===== *)
(** * The skeleton of Raft (raft1/raft.go)

    What raft.go does before anybody has worked on it: an instance of the class [Raft] of
    Proxy.v that the tester of raft1 can be run on. *)

From S2P Require Import Prelude LabRpc Persister KvTest Proxy.
Import Proxy.

Local Open Scope Z_scope.

Module RaftLab.
Record Raft := MkRaft { peers : list string; persister : Persister.Persister; me : Z }.

Definition GetState (rf : Raft) : Z * bool := (0, false).
Definition persist (rf : Raft) (s : Persister.store) : Persister.store := s.
(** Both branches end without having changed anything. *)
Definition readPersist (data : bytes) (rf : Raft) : Raft :=
  if decide (length data < 1)%nat then rf else rf.
Definition PersistBytes (rf : Raft) (s : Persister.store) : Z := Persister.RaftStateSize (persister rf) s.
Definition Snapshot (index : Z) (snapshot : bytes) (rf : Raft) : Raft := rf.

Record RequestVoteArgs := MkRequestVoteArgs {}.
Record RequestVoteReply := MkRequestVoteReply {}.
Definition RequestVote (args : RequestVoteArgs) (reply : RequestVoteReply) (rf : Raft) :
  Raft * RequestVoteReply := (rf, reply).
(** [call] is Call of the end with a name. *)
Definition sendRequestVote (call : string → string → RequestVoteArgs → option RequestVoteReply)
    (server : Z) (args : RequestVoteArgs) (reply : RequestVoteReply) (rf : Raft) : res (RequestVoteReply * bool) :=
  let* e := slice_get (peers rf) server in
  Ret (match call e "Raft.RequestVote" args with Some r => (r, true) | None => (reply, false) end).

Definition Start {C} (command : option C) (rf : Raft) : Raft * (Z * Z * bool) := (rf, (-1, -1, true)).

(** The pause of a round of ticker, in milliseconds, for a result of rand.Int63. *)
Definition ticker_pause (r : Z) : Z := 50 + r `rem` 300.

Definition Make (peers : list string) (me : Z) (persister : Persister.Persister) (s : Persister.store) :
    Raft * Persister.store :=
  let rf := MkRaft peers persister me in
  let (data, s) := Persister.ReadRaftState persister s in
  (readPersist (Persister.contents s data) rf, s).

#[global] Instance raft_lab {C} : Proxy.Raft C Raft := {|
  raft_Start rf c := Start c rf; raft_GetState := GetState |}.
End RaftLab.
