(* ===== verification/KvSrvLab.v ===== *)
(** * The skeletons of the key/value server and of the lock

    (kvsrv1/client.go, kvsrv1/server.go, kvsrv1/rpc/rpc.go, kvsrv1/lock/lock.go)

    The clerk and the lock are instances of [IKVClerk] and [LockService], so that the
    tests can be run on them. *)

From S2P Require Import Prelude Clnts KvTest KvService KvSpawn LockTest.
Import KvTest.

Local Open Scope Z_scope.

Module KvSrvLab.
Record Clerk := MkClerk { clnt : Clnts.Clnt; server : string }.
Definition MakeClerk (clnt : Clnts.Clnt) (server : string) : Clerk := MkClerk clnt server.
Definition Get (ck : Clerk) (key : string) : string * Z * string := ("", 0, ErrNoKey).
Definition Put (ck : Clerk) (key value : string) (version : Z) : string := ErrNoKey.
#[global] Instance clerk : IKVClerk Clerk := {|
  ck_Get ck key := (ck, Get ck key); ck_Put ck key value version := (ck, Put ck key value version) |}.

Record GetArgs := MkGetArgs { G_Key : string }.
Record GetReply := MkGetReply { GR_Value : string; GR_Version : Z; GR_Err : string }.
Record PutArgs := MkPutArgs { P_Key : string; P_Value : string; P_Version : Z }.
Record PutReply := MkPutReply { PR_Err : string }.
Record KVServer := MkKVServer {}.
Definition MakeKVServer : KVServer := MkKVServer.
Definition srv_Get (kv : KVServer) (args : GetArgs) (reply : GetReply) : KVServer * GetReply := (kv, reply).
Definition srv_Put (kv : KVServer) (args : PutArgs) (reply : PutReply) : KVServer * PutReply := (kv, reply).
Definition StartKVServer : list KVServer := [MakeKVServer].
End KvSrvLab.

Module LockLab.
(** [CK] is the type of the clerk that the test passes in. *)
Record Lock {CK : Type} := MkLock { ck : CK }.
#[global] Arguments Lock : clear implicits.
Definition MakeLock {CK} (ck : CK) (lockname : string) : Lock CK := MkLock CK ck.
Definition Acquire {CK} (lk : Lock CK) : Lock CK := lk.
Definition Release {CK} (lk : Lock CK) : Lock CK := lk.
#[global] Instance lock {CK} : LockTest.LockService (Lock CK) := {|
  LockTest.lk_acquire _ l l' := l' = Acquire l; LockTest.lk_release _ l l' := l' = Release l;
  LockTest.lk_run l l' := False |}.
End LockLab.
