(* ===== verification/KvRaftLab.v ===== *)
(** * The skeletons of the replicated state machine and of the server on it

    (kvraft1/rsm/rsm.go, kvraft1/client.go, kvraft1/server.go) *)

From S2P Require Import Prelude LabRpc Persister Clnts KvTest KvSpawn LockTest Proxy RaftLab KvSrvLab.
Import KvTest Proxy.

Local Open Scope Z_scope.

Module RsmLab.
(** Op has no fields yet. *)
Record Op := MkOp {}.
(** The fields that the skeleton reads; applyCh and sm are stored for the student's code. *)
Record RSM := MkRSM { me : Z; maxraftstate : Z; rf : option RaftLab.Raft }.
(** [useRSM] is tester.UseRaftStateMachine. *)
Definition MakeRSM (useRSM : bool) (servers : list string) (me : Z) (persister : Persister.Persister)
    (maxraftstate : Z) (s : Persister.store) : RSM * Persister.store :=
  if useRSM then (MkRSM me maxraftstate None, s)
  else let (rf, s) := RaftLab.Make servers me persister s in (MkRSM me maxraftstate (Some rf), s).
Definition Raft (rsm : RSM) : option RaftLab.Raft := rf rsm.
Definition ErrWrongLeader : string := "ErrWrongLeader".
Definition Submit (rsm : RSM) (req : rsm_any) : string * rsm_any := (ErrWrongLeader, Nil).
#[global] Instance rsm_lab : Rsm RSM := λ m req, (m, Submit m req).
End RsmLab.

Module KvRaftLab.
Record Clerk := MkClerk { clnt : Clnts.Clnt; servers : list string; leader : Z }.
Definition MakeClerk (clnt : Clnts.Clnt) (servers : list string) : Clerk := MkClerk clnt servers 0.
Definition Leader (ck : Clerk) : Z := leader ck.
Definition Get (ck : Clerk) (key : string) : string * Z * string := ("", 0, "").
Definition Put (ck : Clerk) (key value : string) (version : Z) : string := "".
#[global] Instance clerk : IKVClerk Clerk := {|
  ck_Get ck key := (ck, Get ck key); ck_Put ck key value version := (ck, Put ck key value version) |}.

Record KVServer := MkKVServer { me : Z; rsm : RsmLab.RSM }.
Definition DoOp {A} (kv : KVServer) (req : A) : KVServer * option A := (kv, None).
Definition Snapshot (kv : KVServer) : option bytes := None.
Definition Restore (data : bytes) (kv : KVServer) : KVServer := kv.
Definition srv_Get (kv : KVServer) (args : KvSrvLab.GetArgs) (reply : KvSrvLab.GetReply) :
  KVServer * KvSrvLab.GetReply := (kv, reply).
Definition srv_Put (kv : KVServer) (args : KvSrvLab.PutArgs) (reply : KvSrvLab.PutReply) :
  KVServer * KvSrvLab.PutReply := (kv, reply).
(** The server and its Raft, which are the services of the daemon. *)
Definition StartKVServer (useRSM : bool) (servers : list string) (me : Z) (persister : Persister.Persister)
    (maxraftstate : Z) (s : Persister.store) : KVServer * option RaftLab.Raft * Persister.store :=
  let (rsm, s) := RsmLab.MakeRSM useRSM servers me persister maxraftstate s in
  (MkKVServer me rsm, RsmLab.Raft rsm, s).
(** [maxraftstate] is tester.MaxRaftState. *)
Definition NewServer (useRSM : bool) (maxraftstate : Z) (ends : list string) (grp srv : Z)
    (persister : Persister.Persister) (s : Persister.store) : KVServer * option RaftLab.Raft * Persister.store :=
  StartKVServer useRSM ends srv persister maxraftstate s.
End KvRaftLab.
