(* ===== verification/ShardLab.v ===== *)
(** * The skeleton of the sharded service

    (shardkv1/client.go, shardkv1/shardctrler/shardctrler.go, shardkv1/shardgrp/client.go,
    server.go and shardrpc/shardrpc.go)

    The controller is an instance of the class of ShardTest.v. *)

From S2P Require Import Prelude Fnv ShardCfg LabRpc Persister Group Clnts KvTest KvSpawn LockTest Proxy ShardTest RaftLab KvSrvLab KvRaftLab.
Import KvTest.

Local Open Scope Z_scope.

Module ShardLab.
Import ShardCfg.
Record ShardCtrler := MkShardCtrler { clnt : Clnts.Clnt; ck : KvSrvLab.Clerk; killed : Z }.
Definition MakeShardCtrler (clnt : Clnts.Clnt) : ShardCtrler :=
  MkShardCtrler clnt (KvSrvLab.MakeClerk clnt (Group.ServerName 0 0)) 0.
Definition InitController (sck : ShardCtrler) : ShardCtrler := sck.
Definition InitConfig (cfg : ShardConfig) (sck : ShardCtrler) : ShardCtrler := sck.
Definition ChangeConfigTo (new : ShardConfig) (sck : ShardCtrler) : ShardCtrler := sck.
Definition Query (sck : ShardCtrler) : option ShardConfig := None.
#[global] Instance ctrler : ShardTest.ShardCtrler ShardCtrler := {|
  ShardTest.Query sck := (sck, Query sck);
  ShardTest.InitConfig := InitConfig;
  ShardTest.ChangeConfigTo := ChangeConfigTo |}.

(** shardgrp/client.go *)
Record GrpClerk := MkGrpClerk { gclnt : Clnts.Clnt; servers : list string; leader : Z }.
Definition MakeGrpClerk (clnt : Clnts.Clnt) (servers : list string) : GrpClerk := MkGrpClerk clnt servers 0.
Definition Leader (ck : GrpClerk) : Z := leader ck.
Definition grp_Get (ck : GrpClerk) (key : string) : string * Z * string := ("", 0, "").
Definition grp_Put (ck : GrpClerk) (key value : string) (version : Z) : string := "".
Definition FreezeShard (ck : GrpClerk) (s num : Z) : option bytes * string := (None, "").
Definition InstallShard (ck : GrpClerk) (s : Z) (state : bytes) (num : Z) : string := "".
Definition DeleteShard (ck : GrpClerk) (s num : Z) : string := "".

(** client.go *)
Record Clerk := MkClerk { cclnt : Clnts.Clnt; sck : ShardCtrler; rcks : gmap Z GrpClerk }.
Definition MakeClerk (clnt : Clnts.Clnt) (sck : ShardCtrler) : Clerk := MkClerk clnt sck ∅.
Definition GetClerk (ck : Clerk) (gid : Z) : option GrpClerk := rcks ck !! gid.
Definition Get (ck : Clerk) (key : string) : string * Z * string := ("", 0, "").
Definition Put (ck : Clerk) (key value : string) (version : Z) : string := "".
#[global] Instance clerk : IKVClerk Clerk := {|
  ck_Get ck key := (ck, Get ck key); ck_Put ck key value version := (ck, Put ck key value version) |}.

(** shardgrp/server.go and shardrpc *)
Record FreezeShardArgs := MkFreezeArgs { F_Shard : Z; F_Num : Z }.
Record FreezeShardReply := MkFreezeReply { F_State : bytes; FR_Num : Z; F_Err : string }.
Record InstallShardArgs := MkInstallArgs { I_Shard : Z; I_State : bytes; I_Num : Z }.
Record InstallShardReply := MkInstallReply { I_Err : string }.
Record DeleteShardArgs := MkDeleteArgs { D_Shard : Z; D_Num : Z }.
Record DeleteShardReply := MkDeleteReply { D_Err : string }.
Record KVServer := MkKVServer { me : Z; rsm : RsmLab.RSM; gid : Z }.
Definition DoOp {A} (kv : KVServer) (req : A) : KVServer * option A := (kv, None).
Definition Snapshot (kv : KVServer) : option bytes := None.
Definition Restore (data : bytes) (kv : KVServer) : KVServer := kv.
Definition srv_Get (kv : KVServer) (args : KvSrvLab.GetArgs) (reply : KvSrvLab.GetReply) :
  KVServer * KvSrvLab.GetReply := (kv, reply).
Definition srv_Put (kv : KVServer) (args : KvSrvLab.PutArgs) (reply : KvSrvLab.PutReply) :
  KVServer * KvSrvLab.PutReply := (kv, reply).
Definition srv_FreezeShard (kv : KVServer) (args : FreezeShardArgs) (reply : FreezeShardReply) :
  KVServer * FreezeShardReply := (kv, reply).
Definition srv_InstallShard (kv : KVServer) (args : InstallShardArgs) (reply : InstallShardReply) :
  KVServer * InstallShardReply := (kv, reply).
Definition srv_DeleteShard (kv : KVServer) (args : DeleteShardArgs) (reply : DeleteShardReply) :
  KVServer * DeleteShardReply := (kv, reply).
Definition StartServerShardGrp (useRSM : bool) (servers : list string) (gid me : Z)
    (persister : Persister.Persister) (maxraftstate : Z) (s : Persister.store) :
    KVServer * option RaftLab.Raft * Persister.store :=
  let (rsm, s) := RsmLab.MakeRSM useRSM servers me persister maxraftstate s in
  (MkKVServer me rsm gid, RsmLab.Raft rsm, s).
Definition NewServer (useRSM : bool) (maxraftstate : Z) (ends : list string) (grp srv : Z)
    (persister : Persister.Persister) (s : Persister.store) : KVServer * option RaftLab.Raft * Persister.store :=
  StartServerShardGrp useRSM ends grp srv persister maxraftstate s.
End ShardLab.
