(* ===== verification/LabSpec.v ===== *)
(** * What the tests report on the skeletons

    A test is of use only if it can fail.  Here the tests run on the code of the labs as
    the repository has it (RaftLab.v, KvSrvLab.v, KvRaftLab.v, ShardLab.v), and the first
    test of the key/value server also on any server as documented. *)

From S2P Require Import Prelude Fnv ShardCfg LabRpc Wire Persister Group Clnts Config Models KvTest KvDoc KvService KvSpawn LockTest LockTestSpec RaftTest RaftSpec RaftOne Proxy RsmTest RsmTestSpec ShardTest RaftLab KvSrvLab KvRaftLab ShardLab.
Import KvTest KvDoc KvService Proxy Config.

Local Open Scope Z_scope.

(** ** TestReliablePut (kvsrv1/kvsrv_test.go) *)

Section reliable_put.
Context {W : Type} `{IKVClerk W}.
Implicit Types w : W.

Definition Val : string := "6.5840".

Definition TestReliablePut w : W * res () :=
  let (w, err) := ck_Put w "k" Val 0 in
  if decide (err ≠ OK) then (w, Stop FailNow)
  else
    let '(w, (val, ver, err)) := ck_Get w "k" in
    if decide (err ≠ OK) then (w, Stop FailNow)
    else if decide (val ≠ Val) then (w, Stop FailNow)
    else if decide (ver ≠ 0 + 1) then (w, Stop FailNow)
    else
      let (w, err) := ck_Put w "k" Val 0 in
      if decide (err ≠ ErrVersion) then (w, Stop FailNow)
      else
        let (w, err) := ck_Put w "y" Val 1 in
        if decide (err ≠ ErrNoKey) then (w, Stop FailNow)
        else
          let '(w, (_, _, err)) := ck_Get w "y" in
          if decide (err ≠ ErrNoKey) then (w, Stop FailNow) else (w, Ret tt).
End reliable_put.

(** A clerk of such a server, on a reliable network. *)
Class DocumentedClerk {W} `{IKVClerk W} (stored : W → gmap string (string * Z)) := {
  documented_get w key : stored (ck_Get w key).1 = stored w ∧ doc_Get (stored w) key (ck_Get w key).2;
  documented_put w key value version :
    (stored (ck_Put w key value version).1, (ck_Put w key value version).2) = doc_Put (stored w) key value version
}.

(** TestReliablePut accepts a documented server. *)
Lemma reliable_put_accepted {W} `{IKVClerk W} (stored : W → gmap string (string * Z))
    `{!DocumentedClerk stored} (w : W) :
  stored w = ∅ → ∃ w', TestReliablePut w = (w', Ret tt) ∧ stored w' = {["k" := (Val, 1)]}.
Proof.
  intros Hw. unfold TestReliablePut.
  pose proof (documented_put w "k" Val 0) as H1. destruct (ck_Put w "k" Val 0) as [w1 e1]. rewrite Hw in H1.
  change (doc_Put ∅ "k" Val 0) with ({["k" := (Val, 1)]} : gmap string (string * Z), OK) in H1.
  injection H1 as H1 ->. simpl in H1. rewrite decide_False by (by intros []).
  destruct (documented_get w1 "k") as [H2 H2']. destruct (ck_Get w1 "k") as [w2 r2]. simpl in H2, H2'.
  rewrite H1 in H2, H2'. unfold doc_Get in H2'. rewrite lookup_singleton_eq in H2'. subst r2.
  rewrite !decide_False by (by intros []).
  pose proof (documented_put w2 "k" Val 0) as H3. destruct (ck_Put w2 "k" Val 0) as [w3 e3]. rewrite H2 in H3.
  unfold doc_Put in H3. rewrite lookup_singleton_eq, decide_False in H3 by done. injection H3 as H3 ->. simpl in H3.
  rewrite decide_False by (by intros []).
  pose proof (documented_put w3 "y" Val 1) as H4. destruct (ck_Put w3 "y" Val 1) as [w4 e4]. rewrite H3 in H4.
  unfold doc_Put in H4. rewrite lookup_singleton_ne, decide_False in H4 by done. injection H4 as H4 ->. simpl in H4.
  rewrite decide_False by (by intros []).
  destruct (documented_get w4 "y") as [H5 H5']. destruct (ck_Get w4 "y") as [w5 [[v5 n5] e5]]. simpl in H5, H5'.
  rewrite H4 in H5, H5'. unfold doc_Get in H5'. rewrite lookup_singleton_ne in H5' by done. simpl in H5'. subst e5.
  rewrite decide_False by (by intros []). by exists w5.
Qed.

(** ** Raft *)

Section raft.
Context {C : Type} `{EqDecision C}.

(** A cluster of skeletons, all connected; only sleeping takes time, and nothing is ever
    applied. *)
Record cluster := MkCluster { clock : Z; rafts : list RaftLab.Raft }.
#[export] Instance cluster_world : RaftOne.World C cluster := {|
  RaftOne.w_now w := (w, clock w);
  RaftOne.w_sleep d w := MkCluster (clock w + d) (rafts w);
  RaftOne.w_finished w := (w, false);
  RaftOne.w_start i c w :=
    match rafts w !! Z.to_nat i with
    | Some rf => let (rf, r) := raft_Start rf c in (MkCluster (clock w) (<[Z.to_nat i := rf]> (rafts w)), Some r)
    | None => (w, None)
    end;
  RaftOne.w_test w := (w, RaftTest.makeTest (length (rafts w)));
  RaftOne.w_state i w :=
    (w, match rafts w !! Z.to_nat i with Some rf => raft_GetState (C:=C) rf | None => (0, false) end)
|}.

(** The answer of every skeleton has index -1, which one takes for no leader. *)
Lemma skeleton_try n k starts (cmd : option C) acc (w : cluster) :
  ∃ acc' s, RaftOne.try_servers n k starts cmd acc w = (w, acc', -1, s).
Proof.
  revert starts. induction k as [|k IH]; intros starts; cbn [RaftOne.try_servers]; [by eexists _, _|].
  cbn [RaftOne.w_start cluster_world]. destruct (rafts w !! _) as [rf|] eqn:Hrf; [|apply IH]. simpl.
  rewrite list_insert_id by done. destruct w. by eexists _, _.
Qed.

Lemma skeleton_one_loop n fuel t0 starts expected (cmd : option C) retry acc (w : cluster) :
  (1 ≤ fuel)%nat → 10000 - (clock w - t0) = 50 * (Z.of_nat fuel - 1) →
  ∃ w' acc', RaftOne.one_loop n fuel t0 starts expected cmd retry acc w = (w', acc', Ret None).
Proof.
  revert starts acc w. induction fuel as [|fuel IH]; intros starts acc w Hf Ht; [lia|]. cbn [RaftOne.one_loop].
  cbn [RaftOne.w_now cluster_world]. destruct (decide (clock w - t0 < 10000)); [|by eexists _, _].
  cbn [RaftOne.w_finished cluster_world]. destruct (skeleton_try n n starts cmd acc w) as (acc' & s & ->).
  rewrite decide_False by (intros Hx; by apply Hx). apply IH; [lia|]. simpl. lia.
Qed.

Lemma skeleton_one n (cmd : option C) expected retry (w : cluster) :
  (RaftOne.one n cmd expected retry w).2 = Stop FailNow.
Proof.
  unfold RaftOne.one. cbn [RaftOne.w_now cluster_world].
  destruct (skeleton_one_loop n RaftOne.outer_fuel (clock w) 0 expected cmd retry [] w) as (w' & acc & ->);
    [unfold RaftOne.outer_fuel; lia|unfold RaftOne.outer_fuel; lia|]. done.
Qed.
End raft.

(** The states that the tester sees in a round. *)
Definition seen (w : cluster) : list (Z * (Z * bool)) :=
  imap (λ i rf, (Z.of_nat i, raft_GetState (C:=nat) rf)) (rafts w).

Lemma skeleton_leaders (w : cluster) : RaftTest.leaders_map (seen w) = ∅.
Proof.
  unfold seen, RaftTest.leaders_map. generalize 0%nat. generalize (rafts w). intros l.
  assert (∀ (f : nat → RaftLab.Raft → Z * (Z * bool)) (m : gmap Z (list Z)), (∀ i rf, (f i rf).2.2 = false) →
    fold_left (λ ls '(i, (term, leader)), if (leader : bool) then <[term := mget [] ls term ++ [i]]> ls else ls)
      (imap f l) m = m) as Hx; [|intros _; by apply Hx].
  induction l as [|rf l IH]; intros f m Hf; [done|]. simpl. pose proof (Hf 0%nat rf) as H0.
  destruct (f 0%nat rf) as [i [term leader]]. simpl in H0. subst leader. apply IH. intros i' rf'. apply Hf.
Qed.

Lemma skeleton_no_leader (w : cluster) order rounds :
  (∀ m, range_order m (order m)) → Forall (λ r, r = seen w) rounds →
  RaftTest.checkOneLeader rounds order = Stop FailNow.
Proof.
  intros Ho. induction 1 as [|r rounds -> _ IH]; [done|]. cbn [RaftTest.checkOneLeader].
  rewrite skeleton_leaders. pose proof (Ho ∅) as He. unfold range_order in He.
  assert (order ∅ = []) as -> by (apply Permutation_nil_r; rewrite He; done). done.
Qed.

(** ** The replicated state machine *)

Section rsm.
Context {D W : Type} `{RsmTest.World D W} (time : W → Z) `{!RsmTestSpec.WorldLaws time}.
Implicit Types w : W.

(** The servers run the skeleton: whatever is submitted is answered by its Submit. *)
Definition skeleton_servers : Prop :=
  ∀ d req w, ∃ rsm, (RsmTest.w_submit d req w).2 = RsmLab.Submit rsm req.

Lemma skeleton_refuses k index p req acc w w' acc' rep :
  skeleton_servers → RsmTest.try_servers k index p req acc w ≠ (w', acc', Ret (Some rep)).
Proof.
  intros Hsk. revert index acc w. induction k as [|k IH]; intros index acc w; cbn [RsmTest.try_servers]; [done|].
  destruct (decide _); [done|]. destruct (if decide _ then _ else _) as [w1 conn].
  destruct (if conn then _ else _) as [w2 [d|]]; [|apply IH].
  destruct (RsmTest.inPartition index p); [|apply IH].
  destruct (Hsk d req w2) as [rsm Hr]. destruct (RsmTest.w_submit d req w2) as [w3 [err rep']].
  simpl in Hr. injection Hr as -> ->. rewrite decide_False by done. apply IH.
Qed.

Lemma skeleton_nil p req w w' acc rep :
  skeleton_servers → RsmTest.onePartition p req w = (w', acc, Ret rep) → rep = Nil.
Proof.
  intros Hsk. unfold RsmTest.onePartition. destruct (RsmTest.w_now w) as [w1 t0].
  generalize RsmTest.rounds, (@nil (Z * string)), w1. clear w1. intros fuel. induction fuel as [|fuel IH]; intros l w1;
    cbn [RsmTest.one_loop]; [done|]. destruct (RsmTest.w_now w1) as [w2 now].
  destruct (decide _); [|by intros [= _ _ <-]]. destruct (RsmTest.w_getLeader w2) as [w3 index].
  destruct (RsmTest.try_servers _ index p req l w3) as [[w4 acc4] [[rep4|]|e]] eqn:Ht; [|apply IH|done].
  by apply skeleton_refuses in Ht.
Qed.

Lemma skeleton_basic ninc w : skeleton_servers → (RsmTest.TestBasic4A (S ninc) w).2 = Stop FailNow.
Proof.
  intros Hsk. unfold RsmTest.TestBasic4A. cbn [RsmTest.basic_loop]. unfold RsmTest.oneInc.
  pose proof (RsmTestSpec.rsm_one_loop time RsmTest.rounds) as _.
  destruct (RsmTest.onePartition None Inc w) as [[w' acc] [rep|e]] eqn:Ho.
  - by rewrite (skeleton_nil _ _ _ _ _ _ Hsk Ho).
  - exfalso. unfold RsmTest.onePartition in Ho. pose proof (RsmTestSpec.now_time w) as Hn.
    pose proof (RsmTestSpec.now_mono w) as Hm. destruct (RsmTest.w_now w) as [w1 t0]. simpl in Hn, Hm.
    pose proof (RsmTestSpec.rsm_one_loop time RsmTest.rounds t0 None Inc [] w1) as Hl.
    rewrite Ho in Hl. apply Hl; [unfold RsmTest.rounds; lia|unfold RsmTest.rounds; lia|done].
Qed.
End rsm.

(** ** The sharded service *)

Lemma skeleton_join rand ev g gids (ts : ShardTest.Test ShardLab.ShardCtrler) c :
  MakeGroupStart rand ev g ShardTest.NSRV (ShardTest.cfg ts) = Ret c →
  ShardTest.joinGroups rand ev (g :: gids) ts = Stop Panic.
Proof.
  intros Hc. cbn [ShardTest.joinGroups]. rewrite Hc. cbn [rbind].
  by rewrite (ShardTest.MakeGroupStart_names rand ev g _ _ _ Hc).
Qed.

(** ** The lock *)

Section lock.
Import LockTest.
Context {CK : Type} (ck : CK).
Notation wrld := (world memory (LockLab.Lock CK)).

(** Two clients. *)
Definition two_clients : wrld := lock_start (LockLab.MakeLock ck "l") 2.

Lemma two_started : rtc (KvSpawn.step 2) (KvSpawn.begin two_clients)
  (KvSpawn.MkSpawn two_clients KvSpawn.Sleeping [KvSpawn.Running; KvSpawn.Running] ({[1%nat]} ∪ ({[0%nat]} ∪ ∅))).
Proof.
  eapply rtc_l; [eapply KvSpawn.s_tester, (KvSpawn.t_spawn _ _ 0); [done|lia]|].
  eapply rtc_l; [eapply KvSpawn.s_tester, (KvSpawn.t_spawn _ _ 1); [done|lia]|].
  eapply rtc_l; [by eapply KvSpawn.s_tester, KvSpawn.t_spawned|].
  eapply rtc_l; [by eapply KvSpawn.s_client, (KvSpawn.r_make 0)|].
  eapply rtc_l; [by eapply KvSpawn.s_client, (KvSpawn.r_make 1)|]. apply rtc_refl.
Qed.

Abbreviation works c := (λ a b : wrld, KvSpawn.fn_work c a b ∨ KvSpawn.fn_env a b).
Ltac tidy := cbn [goto set_svc set_lk1 set_lk2 add_sent svc lk1 lk2 clients sent sections m_cur m_att m_perf fst snd];
  unfold LockLab.Acquire, LockLab.Release.
Tactic Notation "act" uconstr(k) := eapply rtc_l; [left; eapply k; [reflexivity|reflexivity]|]; tidy.
Tactic Notation "put" uconstr(k) := eapply rtc_l; [left; eapply k; [reflexivity|split; reflexivity]|]; tidy.

Definition mem1 : memory := MkMem ("", 1) {[0%nat := ("", 0)]} ({[0%nat]} ∪ ∅).
Definition mem2 : memory :=
  MkMem (itoa 0, 2) (<[1%nat := (itoa 0, 1)]> {[0%nat := ("", 0)]}) ({[1%nat]} ∪ ({[0%nat]} ∪ ∅)).
Definition mem3 : memory := MkMem (itoa 0, 2) (<[2%nat := ("", 0)]> (m_att mem2)) (m_perf mem2).

(** Client 0 comes to its select; it goes on until its number is in the key; then client
    1 comes to its select, and into the section. *)
Lemma phase1 : ∃ w, rtc (works 0%nat) two_clients w ∧ svc w = mem1 ∧ clients w = [Select 1; Acquire1].
Proof.
  eexists. split.
  - unfold two_clients, lock_start. act s_acquire1. act s_acquire2. act s_release1. act s_release2.
    put (s_init 0%nat _ _ 0%nat).
    eapply rtc_l; [right; apply e_svc; exists 0%nat, ""; split; reflexivity|]; tidy.
    eapply rtc_l; [left; eapply (s_inited 0%nat _ _ _ OK); [reflexivity|]|]; tidy; [|apply rtc_refl].
    split; [reflexivity|]. left. split; [|reflexivity]. cbn. set_solver.
  - by split.
Qed.

Lemma phase2 (w : wrld) : svc w = mem1 → clients w = [Acquire 1; Acquire1] →
  ∃ w', rtc (works 0%nat) w w' ∧ svc w' = mem2 ∧ clients w' = [Wait1 1 1 1; Acquire1].
Proof.
  destruct w as [s l l2 cl st sec]. simpl. intros -> ->. eexists. split.
  - act s_acquire. put (s_get 0%nat _ 1 _ ("", 1, OK)).
    unfold after_get. rewrite decide_True, decide_False by (done || by intros Hx). tidy.
    put (s_put1 0%nat _ 1 1 _ 1%nat).
    eapply rtc_l; [right; apply e_svc; exists 1%nat, (itoa 0); split; reflexivity|]; tidy. apply rtc_refl.
  - by split.
Qed.

Lemma phase3 (w : wrld) : svc w = mem2 → clients w = [Wait1 1 1 1; Acquire1] →
  ∃ w', rtc (works 1%nat) w w' ∧ svc w' = mem3 ∧ clients w' = [Wait1 1 1 1; Select 1].
Proof.
  destruct w as [s l l2 cl st sec]. simpl. intros -> ->. eexists. split.
  - act s_acquire1. act s_acquire2. act s_release1. act s_release2. put (s_init 1%nat _ _ 2%nat).
    eapply rtc_l; [left; eapply (s_inited 1%nat _ _ _ ErrVersion); [reflexivity|]|]; tidy; [|apply rtc_refl].
    split; [reflexivity|]. right. split; [cbn; set_solver|]. split; [done|]. eexists _, _.
    split; [reflexivity|cbn; lia].
  - by split.
Qed.

Lemma phase4 (w : wrld) : svc w = mem3 → clients w = [Wait1 1 1 1; Acquire 1] →
  ∃ w', rtc (works 1%nat) w w' ∧ clients w' = [Wait1 1 1 1; Fatal].
Proof.
  destruct w as [s l l2 cl st sec]. simpl. intros -> ->. eexists. split.
  - act s_acquire. put (s_get 1%nat _ 1 _ (itoa 0, 2, OK)). apply rtc_refl.
  - done.
Qed.

(** A client is spawned, not told to end yet, and at its select. *)
Lemma go_on c i (w : wrld) k :
  clients w !! c = Some (Select i) → (c < 2)%nat →
  KvSpawn.step 2 (KvSpawn.MkSpawn w KvSpawn.Sleeping [KvSpawn.Running; KvSpawn.Running] k)
    (KvSpawn.MkSpawn (goto c (Acquire i) w) KvSpawn.Sleeping [KvSpawn.Running; KvSpawn.Running] k).
Proof.
  intros Hc Hlt. apply (KvSpawn.s_client _ _ _ c), (KvSpawn.r_default c (KvSpawn.MkSpawn w _ _ _)); simpl.
  - destruct c as [|[|c]]; [done..|lia].
  - by intros [].
  - by exists i.
Qed.

Lemma run_on c (w w' : wrld) k :
  rtc (works c) w w' → (c < 2)%nat →
  rtc (KvSpawn.step 2) (KvSpawn.MkSpawn w KvSpawn.Sleeping [KvSpawn.Running; KvSpawn.Running] k)
    (KvSpawn.MkSpawn w' KvSpawn.Sleeping [KvSpawn.Running; KvSpawn.Running] k).
Proof.
  intros Hr Hlt. eapply (KvSpawn.run_alone 2 c (KvSpawn.MkSpawn w _ _ _)); [|done].
  destruct c as [|[|c]]; [done..|lia].
Qed.

Lemma skeleton_lock_caught : ∃ st, rtc (KvSpawn.step 2) (KvSpawn.begin two_clients) st ∧
  clients (KvSpawn.world st) !! 1%nat = Some Fatal.
Proof.
  destruct phase1 as (w1 & Hr1 & Hs1 & Hc1).
  destruct (phase2 (goto 0%nat (Acquire 1) w1)) as (w2 & Hr2 & Hs2 & Hc2); [done|by simpl; rewrite Hc1|].
  destruct (phase3 w2 Hs2 Hc2) as (w3 & Hr3 & Hs3 & Hc3).
  destruct (phase4 (goto 1%nat (Acquire 1) w3)) as (w4 & Hr4 & Hc4); [done|by simpl; rewrite Hc3|].
  eexists. split.
  - etrans; [apply two_started|]. etrans; [apply (run_on 0); [exact Hr1|lia]|].
    eapply rtc_l; [apply (go_on 0 1); [by rewrite Hc1|lia]|]. etrans; [apply (run_on 0); [exact Hr2|lia]|].
    etrans; [apply (run_on 1); [exact Hr3|lia]|].
    eapply rtc_l; [apply (go_on 1 1); [by rewrite Hc3|lia]|]. apply (run_on 1); [exact Hr4|lia].
  - simpl. by rewrite Hc4.
Qed.
End lock.

(** C16. The tests tell the skeletons from solutions.  On the code of the labs as it is,
    one ends in Fatalf, for any command and any number of servers, since every server
    accepts at index -1; so does checkOneLeader after any number of rounds;
    TestReliablePut ends in Fatalf, whereas a server as documented passes; TestBasic4A
    of the replicated state machine ends in Fatalf on servers that run the skeleton;
    joinGroups stops the test at the configuration that the controller does not have;
    and the lock test with two clients has a run in which one of them ends in Fatalf, on
    a correct key/value service. *)
Theorem skeletons_rejected {C} `{EqDecision C} :
  (∀ n (cmd : option C) expected retry (w : cluster), (RaftOne.one n cmd expected retry w).2 = Stop FailNow) ∧
  (∀ (w : cluster) order rounds, (∀ m, range_order m (order m)) → Forall (λ r, r = seen w) rounds →
    RaftTest.checkOneLeader rounds order = Stop FailNow) ∧
  (∀ ck : KvSrvLab.Clerk, (TestReliablePut ck).2 = Stop FailNow) ∧
  (∀ W (HW : IKVClerk W) (stored : W → gmap string (string * Z)) (Hd : DocumentedClerk stored) (w : W),
    stored w = ∅ → (TestReliablePut w).2 = Ret tt) ∧
  (∀ D W (HW : RsmTest.World D W) (time : W → Z) (Ht : RsmTestSpec.WorldLaws time) ninc (w : W),
    skeleton_servers (D:=D) (W:=W) → (RsmTest.TestBasic4A (S ninc) w).2 = Stop FailNow) ∧
  (∀ rand ev g gids (ts : ShardTest.Test ShardLab.ShardCtrler) c,
    MakeGroupStart rand ev g ShardTest.NSRV (ShardTest.cfg ts) = Ret c →
    ShardTest.joinGroups rand ev (g :: gids) ts = Stop Panic) ∧
  (∀ CK (ck : CK), ∃ st, rtc (KvSpawn.step 2) (KvSpawn.begin (two_clients ck)) st ∧
    LockTest.clients (KvSpawn.world st) !! 1%nat = Some LockTest.Fatal).
Proof.
  split_and!.
  - apply skeleton_one.
  - apply skeleton_no_leader.
  - done.
  - intros W HW stored Hd w Hw. by destruct (reliable_put_accepted stored w Hw) as (w' & -> & _).
  - intros D W HW time Ht ninc w. by apply (skeleton_basic time).
  - apply skeleton_join.
  - intros CK ck. apply skeleton_lock_caught.
Qed.

(** *** A witness: three skeletons of Raft; a store as documented; three servers that run
    the skeleton of the replicated state machine *)

Local Abbreviation store := (gmap string (string * Z)).
#[local] Instance store_clerk : IKVClerk store := {|
  ck_Get m key := (m, match m !! key with Some (val, ver) => (val, ver, OK) | None => ("", 0, ErrNoKey) end);
  ck_Put := doc_Put |}.
#[local] Instance store_documented : DocumentedClerk (λ m : store, m).
Proof.
  split.
  - intros m key. split; [done|]. unfold doc_Get. simpl. by destruct (m !! key) as [[]|].
  - intros m key value version. simpl. by destruct (doc_Put m key value version).
Qed.

Record dead := MkDead { dead_time : Z; dead_leader : Z }.
#[local] Instance dead_world : RsmTest.World RsmLab.RSM dead := {|
  RsmTest.w_now w := (w, dead_time w);
  RsmTest.w_sleep d w := MkDead (dead_time w + Z.max 0 d) (dead_leader w);
  RsmTest.w_getLeader w := (w, dead_leader w `mod` RsmTest.NSRV);
  RsmTest.w_setLeader i w := MkDead (dead_time w) i;
  RsmTest.w_connected i w := (w, true);
  RsmTest.w_getRSM i w := (w, Some (RsmLab.MkRSM i (-1) None));
  RsmTest.w_submit d req w := (w, RsmLab.Submit d req);
  RsmTest.w_OpInc w := w;
  RsmTest.w_counter i w := (w, Ret 0) |}.
#[local] Instance dead_laws : RsmTestSpec.WorldLaws dead_time.
Proof.
  split; simpl; try done; try lia.
  - intros w. by apply Z.mod_pos_bound.
  - intros i w ?. by apply Z.mod_small.
Qed.

Definition three : cluster :=
  MkCluster 0 ((λ i, RaftLab.MkRaft ["a"; "b"; "c"] Persister.MakePersister i) <$> [0; 1; 2]).

Lemma skeletons_rejected_witness :
  (RaftOne.one 3 (Some 7%nat) 3 true three).2 = Stop FailNow ∧
  RaftTest.checkOneLeader [seen three; seen three] map_keys = Stop FailNow ∧
  (TestReliablePut (∅ : store)).2 = Ret tt ∧
  (RsmTest.TestBasic4A (D:=RsmLab.RSM) 10 (MkDead 0 0)).2 = Stop FailNow.
Proof.
  destruct (skeletons_rejected (C:=nat)) as (H1 & H2 & _ & H4 & H5 & _). split_and!.
  - apply H1.
  - apply (H2 three map_keys); [intros m; apply range_order_refl|]. repeat constructor.
  - apply (H4 store _ (λ m, m) _); reflexivity.
  - apply (H5 _ _ _ dead_time _). intros d req w. exists d. reflexivity.
Defined.
