(* ===== verification/KvTesters.v ===== *)
(** * The tests of the key/value servers on their groups

    (kvtest1/kvtest.go, kvsrv1/test.go, kvraft1/test.go, shardkv1/test.go)

    A test makes and deletes clerks, each with a client of its own, kills all servers and
    starts them again.  A clerk of the test is the address of its client and what the
    MakeClerk of the lab makes of the client and the names of the servers, the parameter
    [lab_clerk].  The annotations and the options of the
    daemons are not modelled. *)

From stdpp Require Import pretty.
From S2P Require Import Prelude ShardCfg LabRpc Group GroupStart Clnts Annotation Config ConfigInv ConfigSpec ConfigReach ShardTest ShardDown ShardDownSpec.
Import LabRpc Group GroupStart Config ConfigInv ConfigReach.

Module KvTesters.

Record TestClerk (K : Type) := MkTestClerk { IKVClerk : K; Clnt : nat }.
Arguments MkTestClerk {K}.
Arguments IKVClerk {K}.
Arguments Clnt {K}.

Section tests.
Context {K : Type} (rand : nat → string) (ev : env) (lab_clerk : nat → list string → K).

(** ** kvtest1/kvtest.go *)

Definition Cleanup (now : Z) (order : list Z)
    (vis : bool → string → Annotation.Annotation → Annotation.Annotation * option (list Annotation.PAnn))
    (x : Annotation.Annotation) (c : Config) : res Config :=
  let* _ := End_ now c in
  let* '(c, _) := Config.Cleanup ev order vis x c in Ret c.

Definition ConnectClnts (l : list nat) (c : Config) : res Config :=
  res_fold (λ c p, on_clnt p (λ cl t, Ret (Clnts.ConnectAll cl t)) c) c l.

(** MakeClient, at address [p], and the clerk. *)
Definition clerk_on (p : nat) (to : option (list string)) (servers : list string) (c : Config) : res (TestClerk K * Config) :=
  let* cs := Clnts.MakeClientTo p to (clnts c) in
  Ret (MkTestClerk (lab_clerk p servers) p, set_clnts cs c).
Definition DeleteClerk (ck : TestClerk K) (c : Config) : res Config :=
  let* '(cs, t) := Clnts.DeleteClient (Clnt ck) (clnts c) (tst c) in
  Ret (set_tst t (set_clnts cs c)).

(** ** kvsrv1/test.go *)

Record TestKV := MkTestKV { kv_cfg : Config; reliable : bool }.
Definition MakeTestKV (k : nat) (reliable : bool) (now : Z) : res TestKV :=
  let* c := MakeConfig rand ev k 1 reliable now in Ret (MkTestKV c reliable).
Definition kv_MakeClerk (p : nat) (ts : TestKV) : res (TestClerk K * TestKV) :=
  let* '(ck, c) := clerk_on p None [ServerName GRP0 0] (kv_cfg ts) in Ret (ck, MkTestKV c (reliable ts)).
Definition kv_DeleteClerk (ck : TestClerk K) (ts : TestKV) : res TestKV :=
  let* c := DeleteClerk ck (kv_cfg ts) in Ret (MkTestKV c (reliable ts)).

(** ** kvraft1/test.go *)

Definition Gid : Z := GRP0.
Record Test := MkTest {
  cfg : Config; part : string; nclients : Z; nservers : nat; crash : bool; partitions : bool; maxraftstate : Z; randomkeys : bool }.
Implicit Types ts : Test.
Definition set_cfg (c : Config) ts : Test :=
  MkTest c (part ts) (nclients ts) (nservers ts) (crash ts) (partitions ts) (maxraftstate ts) (randomkeys ts).

Definition makeTitle ts : string :=
  let title := "Test: " in
  let title := if crash ts then title +:+ "restarts, " else title in
  let title := if partitions ts then title +:+ "partitions, " else title in
  let title := if decide (maxraftstate ts = -1) then title else title +:+ "snapshots, " in
  let title := if randomkeys ts then title +:+ "random keys, " else title in
  let title := if decide (nclients ts > 1) then title +:+ "many clients" else title +:+ "one client" in
  title +:+ " (" +:+ part ts +:+ ")".

(** The daemons get the option --max-raft-state. *)
Definition MakeTest (k : nat) (part : string) (nclients : Z) (nservers : nat) (reliable crash partitions : bool)
    (maxraftstate : Z) (randomkeys : bool) (now now' : Z) : res (string * Test) :=
  let* c := MakeConfig rand ev k nservers reliable now in
  let ts := MkTest c part nclients nservers crash partitions maxraftstate randomkeys in
  let (line, c) := Begin (makeTitle ts) now' c in
  Ret (line, set_cfg c ts).

Definition killall ts : res Test :=
  let* c := on_group Gid (Shutdown ev) (cfg ts) in Ret (set_cfg c ts).
Definition restartall ts : res Test :=
  let* c := on_group Gid (StartServers rand ev) (cfg ts) in Ret (set_cfg c ts).

Definition MakeClerk (p : nat) ts : res (TestClerk K * Test) :=
  let* names := ShardTest.SrvNames Gid (cfg ts) in
  let* '(ck, c) := clerk_on p None names (cfg ts) in Ret (ck, set_cfg c ts).
Definition MakeClerkTo (p : nat) (to : list Z) ts : res (TestClerk K * Test) :=
  match lookupGroup Gid (cfg ts) with
  | None => Stop Panic
  | Some sg =>
      let* ns := SrvNamesTo to sg in
      let* '(ck, c) := clerk_on p (Some ns) (servernames sg) (cfg ts) in Ret (ck, set_cfg c ts)
  end.
Definition raft_DeleteClerk (ck : TestClerk K) ts : res Test :=
  let* c := DeleteClerk ck (cfg ts) in Ret (set_cfg c ts).
Definition cleanup (now : Z) (order : list Z)
    (vis : bool → string → Annotation.Annotation → Annotation.Annotation * option (list Annotation.PAnn))
    (x : Annotation.Annotation) ts : res Test :=
  let* c := Cleanup now order vis x (cfg ts) in Ret (set_cfg c ts).

(** ** shardkv1/test.go *)

(** [Leader ck gid] is what GetClerk and Leader of the lab's clerk answer. *)
Definition shutdownLeader (Leader : K → Z → option Z) (ck : TestClerk K) (gid : Z) (c : Config) : res (Config * Z) :=
  match Leader (IKVClerk ck) gid with
  | None => Stop LogFatal
  | Some l => let* c := on_group gid (ShutdownServer ev l) c in Ret (c, l)
  end.
(** ngid starts after Gid1; Begin prints the part. *)
Definition MakeTestMaxRaft {C} (sck : C) (k : nat) (part : string) (reliable : bool) (now now' : Z) :
    res (string * ShardTest.Test C) :=
  let* c := MakeConfig rand ev k 1 reliable now in
  let (line, c) := Begin part now' c in
  Ret (line, ShardTest.MkTest c sck (ShardCfg.Gid1 + 1)).
(** The settings [partition] and [maxraftstate] of a test are kept next to it. *)
Definition shard_MakeTest {C} (sck : C) (k : nat) (part : string) (reliable : bool) (now now' : Z) :
    res (string * ShardTest.Test C * bool * Z) :=
  let* '(line, ts) := MakeTestMaxRaft sck k part reliable now now' in Ret (line, ts, false, -1).
Definition MakeTestLeases {C} (sck : C) (k : nat) (part : string) (reliable : bool) (now now' : Z) :
    res (string * ShardTest.Test C * bool * Z) :=
  let* '(line, ts) := MakeTestMaxRaft sck k part reliable now now' in Ret (line, ts, true, -1).
Definition makeKVClerk (p : nat) (c : Config) : res (TestClerk K * Config) := clerk_on p None [ServerName GRP0 0] c.
(** MakeClerk makes two clients (ShardDown.v); DeleteClerk deletes that of the clerk. *)
Definition shard_DeleteClerk (ck : TestClerk K) (c : Config) : res Config := DeleteClerk ck c.

(** ** What a test does *)

Inductive op :=
| KMakeClerk (p : nat) | KMakeClerkTo (p : nat) (to : list Z) | KDeleteClerk (ck : TestClerk K)
| KConnectClnts (l : list nat) | KKillall | KRestartall
| KCall (p : nat) (server : string).  (** a clerk makes an end to a server *)

Definition run (o : op) ts : res Test :=
  match o with
  | KMakeClerk p => let* '(_, ts) := MakeClerk p ts in Ret ts
  | KMakeClerkTo p to => let* '(_, ts) := MakeClerkTo p to ts in Ret ts
  | KDeleteClerk ck => raft_DeleteClerk ck ts
  | KConnectClnts l => let* c := ConnectClnts l (cfg ts) in Ret (set_cfg c ts)
  | KKillall => killall ts
  | KRestartall => restartall ts
  | KCall p server => let* c := Config.run rand ev (OMakeEnd p server) (cfg ts) in Ret (set_cfg c ts)
  end.

(** All servers are restarted when none of them runs. *)
Definition all_idle ts : Prop :=
  match lookupGroup Gid (cfg ts) with
  | Some sg => Forall (λ s, Group.dc s = None) (Group.srvs sg)
  | None => False
  end.
Definition valid (o : op) ts : Prop :=
  match o with
  | KMakeClerk p => client p (cfg ts) = None
  | KMakeClerkTo p to => client p (cfg ts) = None ∧ Forall (λ i, 0 ≤ i < Z.of_nat (nservers ts)) to
  | KConnectClnts l => Forall (λ p, is_Some (client p (cfg ts))) l
  | KCall p _ => is_Some (client p (cfg ts))
  | KRestartall => all_idle ts
  | _ => True
  end.

#[global] Instance kv_valid_dec o ts : Decision (valid o ts).
Proof. destruct o; simpl; unfold all_idle; try apply _. destruct (lookupGroup _ _); apply _. Defined.

Inductive runs : list op → Test → Test → Prop :=
| runs_nil ts : runs [] ts ts
| runs_cons o os ts ts1 ts2 : valid o ts → run o ts = Ret ts1 → runs os ts1 ts2 → runs (o :: os) ts ts2.

(** The servers to which each clerk is confined; [None] is all of them. *)
Definition confine (m : gmap nat (option (list string))) (o : op) : gmap nat (option (list string)) :=
  match o with
  | KMakeClerk p => <[p := None]> m
  | KMakeClerkTo p to => <[p := Some (ServerName Gid <$> to)]> m
  | KDeleteClerk ck => delete (Clnt ck) m
  | KConnectClnts l => foldl (λ m p, alter (λ _, None) p m) m l
  | _ => m
  end.
End tests.
Arguments op : clear implicits.
End KvTesters.
