(* ===== verification/KvTestersSpec.v ===== *)
(** * The tests of the key/value servers: properties of their clerks *)

From S2P Require Import Prelude LabRpc Group GroupStart Clnts Annotation Config ConfigInv ConfigSpec ConfigReach ShardTest ShardDown ShardDownSpec KvTesters.
Import LabRpc Group GroupStart Config ConfigInv ConfigReach KvTesters.

(** DeleteClerk of the sharded tests leaves the client of the clerk's controller. *)
Lemma DeleteClerk_leaves_controller {K} (ck : K) p q c c1 c2 :
  is_Some (clnts c) → ShardDown.new_clients p q c → ShardDown.MakeClerk p q c = Ret c1 → shard_DeleteClerk (MkTestClerk ck p) c1 = Ret c2 →
  client p c2 = None ∧ is_Some (client q c2).
Proof.
  intros [m Hm] (_ & _ & Hne). unfold ShardDown.MakeClerk, Clnts.MakeClient, Clnts.MakeClientTo. rewrite Hm. cbn [rbind].
  intros [= <-]. unfold shard_DeleteClerk, DeleteClerk, Clnts.DeleteClient. cbn [Clnt clnts set_clnts].
  intros ([cs t] & Hd & [= <-])%rbind_Ret_inv. destruct (_ ≫= _) as [cl|] eqn:Hcl.
  - apply rbind_Ret_inv in Hd as (t' & _ & [= <- <-]). unfold client. simpl. split; [by rewrite lookup_delete_eq|].
    rewrite lookup_delete_ne, lookup_insert_eq by done. by eexists.
  - simpl in Hcl. by rewrite lookup_insert_ne, lookup_insert_eq in Hcl.
Qed.

Section spec.
Context {K : Type} (rand : nat → string) `{!Inj (=) (=) rand} (lab_clerk : nat → list string → K).
Implicit Types ts : Test.
Abbreviation run := (run rand all_ok lab_clerk).
Abbreviation runs := (runs rand all_ok lab_clerk).

(** ** The names of the servers stay *)

Lemma Shutdown_names sg t y : Shutdown all_ok sg t = Ret y → servernames y.1 = servernames sg.
Proof.
  unfold Shutdown, Kill. apply (ShardTest.names_fold _ _ (sg, t)). intros [a ta] i z Hz. unfold ShutdownServer in Hz.
  apply rbind_Ret_inv in Hz as ([sg1 t1] & Hd & Hz). apply rbind_Ret_inv in Hz as (s & _ & Hz).
  apply rbind_Ret_inv in Hz as (s' & _ & Hz). apply rbind_Ret_inv in Hz as (ss & _ & Hz). injection Hz as <-. simpl.
  unfold disconnect in Hd. apply rbind_Ret_inv in Hd as (conn & _ & Hd). apply rbind_Ret_inv in Hd as (s0 & _ & Hd).
  apply rbind_Ret_inv in Hd as (t0 & _ & Hd). apply rbind_Ret_inv in Hd as (t2 & _ & Hd). by injection Hd as <- _.
Qed.

Definition names (n : nat) : list string := (λ i, ServerName Gid (Z.of_nat i)) <$> seq 0 n.

Lemma SrvNamesTo_names to n sg :
  servernames sg = names n → Forall (λ i, 0 ≤ i < Z.of_nat n) to → SrvNamesTo to sg = Ret (ServerName Gid <$> to).
Proof.
  intros Hsg Hto. unfold SrvNamesTo.
  assert (∀ acc, res_fold (λ ns i, let* n := slice_get (servernames sg) i in Ret (ns ++ [n])) acc to =
    Ret (acc ++ (ServerName Gid <$> to))) as Hacc; [|by apply (Hacc [])].
  induction Hto as [|i to Hi _ IH]; intros acc; cbn [res_fold fmap list_fmap]; [by rewrite (right_id_L [] (++))|].
  rewrite (slice_get_Some _ _ (ServerName Gid i)); [|lia|].
  - cbn [rbind]. rewrite IH. by rewrite <-(assoc_L (++)).
  - rewrite Hsg. unfold names. rewrite list_lookup_fmap, lookup_seq_lt by lia. simpl. do 2 f_equal. lia.
Qed.

(** ** Every operation returns, and confines its clerks *)

Record kinv ts (vs : gmap nat view) (m : gmap nat (option (list string))) : Prop := {
  ki_rinv : rinv rand (cfg ts) vs;
  ki_group : ∃ sg, grps (cfg ts) !! Gid = Some sg ∧ servernames sg = names (nservers ts);
  ki_dom p : is_Some (vs !! p) ↔ is_Some (m !! p);
  ki_view p v to s : vs !! p = Some v → m !! p = Some to → reaches v s = allows to s
}.

(** An operation on a client is one of Config.v. *)
Lemma kinv_client o ts c vs m m' :
  kinv ts vs m → client_op o = true → widens vs o → Config.valid o (cfg ts) → Config.run rand all_ok o (cfg ts) = Ret c →
  (∀ p, is_Some (see vs o !! p) ↔ is_Some (m' !! p)) →
  (∀ p v to s, see vs o !! p = Some v → m' !! p = Some to → reaches v s = allows to s) →
  kinv (set_cfg c ts) (see vs o) m'.
Proof.
  intros [Hri Hg _ _] Ho Hw Hv Hr Hd Hs. split; [by eapply run_rinv| |done|done]. simpl.
  by rewrite (client_op_grps rand o _ _ Ho Hr).
Qed.

Lemma client_run o ts vs m :
  kinv ts vs m → Config.valid o (cfg ts) → ∃ c, Config.run rand all_ok o (cfg ts) = Ret c.
Proof.
  intros [[Hok Hm _ _] _ _ _] Hv. destruct (run_ok rand o (cfg ts) Hok Hm Hv) as (c & ? & _). by exists c.
Qed.

Lemma clerk_on_kinv p to servers ts vs m :
  kinv ts vs m → client p (cfg ts) = None → ∃ ck c, clerk_on lab_clerk p to servers (cfg ts) = Ret (ck, c) ∧
    kinv (set_cfg c ts) (see vs (OMakeClient p to)) (<[p := to]> m).
Proof.
  intros Hk Hp. destruct (client_run (OMakeClient p to) ts vs m Hk Hp) as (c & Hr). pose proof Hr as Hr'. simpl in Hr'.
  apply rbind_Ret_inv in Hr' as (cs & Hcs & [= Hc]). exists (MkTestClerk (lab_clerk p servers) p), c.
  split; [unfold clerk_on; rewrite Hcs; simpl; by rewrite Hc|].
  eapply kinv_client; [done..| |]; destruct Hk as [_ _ Hd Hv]; simpl.
  - intros q. destruct (decide (p = q)) as [->|Hne]; [rewrite !lookup_insert_eq|by rewrite !lookup_insert_ne].
    split; intros _; by eexists.
  - intros q v to' s. destruct (decide (p = q)) as [->|Hne]; [rewrite !lookup_insert_eq; by intros [= <-] [= <-]|].
    rewrite !lookup_insert_ne by done. apply Hv.
Qed.

Lemma ConnectClnts_kinv l ts vs m :
  kinv ts vs m → Forall (λ p, is_Some (client p (cfg ts))) l → ∃ c vs', ConnectClnts l (cfg ts) = Ret c ∧
    kinv (set_cfg c ts) vs' (foldl (λ m p, alter (λ _, None) p m) m l).
Proof.
  rewrite list.Forall_forall. unfold ConnectClnts. revert ts vs m. induction l as [|p l IH]; intros ts vs m Hk Hl.
  { exists (cfg ts), vs. split; [done|]. by destruct ts. }
  assert (Config.valid (OClntConnectAll p) (cfg ts)) as Hv by (apply Hl; by left).
  destruct (client_run (OClntConnectAll p) ts vs m Hk Hv) as (c & Hr).
  assert (kinv (set_cfg c ts) (see vs (OClntConnectAll p)) (alter (λ _, None) p m)) as Hk1.
  { eapply kinv_client; [done..| |]; destruct Hk as [_ _ Hd Hvw]; simpl.
    - intros q. rewrite !lookup_alter. case_decide; [|done]. by rewrite !fmap_is_Some.
    - intros q v to s. rewrite !lookup_alter. case_decide; [|apply Hvw].
      intros (v0 & _ & ->)%fmap_Some (to0 & _ & ->)%fmap_Some. done. }
  destruct (IH (set_cfg c ts) _ _ Hk1) as (c' & vs' & Heq & Hk').
  { intros q Hq. apply (rinv_dom _ _ _ _ (ki_rinv _ _ _ Hk1)). simpl. rewrite lookup_alter.
    case_decide; [rewrite fmap_is_Some|]; apply (rinv_dom _ _ _ _ (ki_rinv _ _ _ Hk)), Hl; subst; by (right || left). }
  exists c', vs'. simpl in Hr. cbn [res_fold]. rewrite Hr. cbn [rbind]. by split.
Qed.

Lemma group_kinv f ts vs m :
  kinv ts vs m →
  (∀ sg, grps (cfg ts) !! Gid = Some sg → good rand (sg, tst (cfg ts)) → tame rand (f sg (tst (cfg ts))) (sg, tst (cfg ts))) → (∀ sg t y, f sg t = Ret y → servernames y.1 = servernames sg) →
  ∃ c, on_group Gid f (cfg ts) = Ret c ∧ kinv (set_cfg c ts) vs m.
Proof.
  intros [Hri (sg & Hg & Hn) Hd Hv] Hf Hnm. destruct (ok_groups _ _ (ri_ok _ _ _ Hri) Gid sg Hg) as [_ Hgood].
  destruct (on_group_rinv rand Gid f sg (cfg ts) vs Hri Hg (Hf _ Hg Hgood)) as (c & sg' & Heq & Hri' & Hgs & _).
  exists c. split; [done|]. split; [done| |done|done]. exists sg'. simpl. rewrite Hgs, lookup_insert_eq. split; [done|].
  unfold on_group, lookupGroup in Heq. rewrite Hg in Heq. destruct (f sg (tst (cfg ts))) as [[sg1 t1]|] eqn:Hfe; [|done].
  injection Heq as <-. simpl in Hgs. apply (f_equal (.!! Gid)) in Hgs. rewrite !lookup_insert_eq in Hgs. injection Hgs as <-.
  pose proof (Hnm _ _ _ Hfe) as Hx. simpl in Hx. congruence.
Qed.

Lemma run_kinv o ts vs m :
  kinv ts vs m → valid o ts → ∃ ts' vs', run o ts = Ret ts' ∧ kinv ts' vs' (confine m o) ∧ nservers ts' = nservers ts.
Proof.
  intros Hk Hv. pose proof Hk as [Hri (sg & Hg & Hn) Hd Hvw]. destruct o as [p|p to|ck|l| | |p server]; simpl in *.
  - unfold MakeClerk, ShardTest.SrvNames, lookupGroup. rewrite Hg. cbn [rbind].
    destruct (clerk_on_kinv p None (servernames sg) ts vs m Hk Hv) as (ck & c & -> & ?). eexists _, _; split_and!; done.
  - destruct Hv as [Hp Hto]. unfold MakeClerkTo, lookupGroup. rewrite Hg, (SrvNamesTo_names to _ sg Hn Hto). cbn [rbind].
    destruct (clerk_on_kinv p (Some (ServerName Gid <$> to)) (servernames sg) ts vs m Hk Hp) as (ck & c & -> & ?). eexists _, _; split_and!; done.
  - destruct (client_run (ODeleteClient (Clnt ck)) ts vs m Hk I) as (c & Hr). unfold raft_DeleteClerk, DeleteClerk.
    pose proof Hr as Hr'. simpl in Hr'. rewrite Hr'. cbn [rbind]. eexists _, _. split; [done|]. split; [|done].
    eapply (kinv_client (ODeleteClient (Clnt ck))); [done..| |]; simpl.
    + intros q. rewrite !lookup_delete. by case_decide.
    + intros q v to s. rewrite !lookup_delete. case_decide; [done|]. apply Hvw.
  - destruct (ConnectClnts_kinv l ts vs m Hk Hv) as (c & vs' & -> & ?). eexists _, _; split_and!; done.
  - destruct (group_kinv (Shutdown all_ok) ts vs m Hk) as (c & Heq & ?); [intros sg' _ Hgd; by apply (Shutdown_tame rand (sg', _))|apply Shutdown_names|].
    unfold killall. rewrite Heq. eexists _, _; split_and!; done.
  - destruct (group_kinv (StartServers rand all_ok) ts vs m Hk) as (c & Heq & ?);
      [|intros sg0 t y; apply ShardTest.StartServers_names|].
    { intros sg' Hg' Hgd. assert (sg' = sg) as -> by congruence. apply (StartServers_tame rand (sg, _)); [done|].
      unfold all_idle, lookupGroup in Hv. rewrite Hg in Hv. intros i Hi. destruct (wf_lookup sg i (g_wf _ _ Hgd) Hi) as (s & _ & Hs & _). unfold idle. simpl.
      rewrite Hs. simpl. f_equal. rewrite list.Forall_forall in Hv. apply Hv. by eapply list_elem_of_lookup_2. }
    unfold restartall. rewrite Heq. eexists _, _; split_and!; done.
  - destruct (client_run (OMakeEnd p server) ts vs m Hk Hv) as (c & Hr). simpl in Hr. rewrite Hr. eexists _, _. split; [done|].
    split; [|done]. eapply (kinv_client (OMakeEnd p server)); [done..| |]; simpl.
    + intros q. rewrite lookup_alter, <-Hd. case_decide; [|done]. subst; by rewrite fmap_is_Some.
    + intros q v to s. rewrite lookup_alter. case_decide; [|apply Hvw]. intros (v0 & Hv0 & ->)%fmap_Some. subst. intros Hm. simpl. by apply (Hvw q v0 to s).
Qed.

Lemma runs_kinv os ts ts' vs m :
  runs os ts ts' → kinv ts vs m → ∃ vs', kinv ts' vs' (foldl confine m os) ∧ nservers ts' = nservers ts.
Proof.
  intros Hr. revert vs m. induction Hr as [ts|o os ts ts1 ts2 Hv Ho Hr IH]; intros vs m Hk; [by exists vs|].
  destruct (run_kinv o ts vs m Hk Hv) as (ts1' & vs1 & Heq & Hk1 & Hn). rewrite Ho in Heq. injection Heq as <-.
  destruct (IH _ _ Hk1) as (vs' & ? & ?). exists vs'. split; [done|congruence].
Qed.

Lemma MakeTest_kinv k part nclients n reliable crash partitions maxraftstate randomkeys now now' :
  ∃ line ts, MakeTest rand all_ok k part nclients n reliable crash partitions maxraftstate randomkeys now now' = Ret (line, ts) ∧
    kinv ts ∅ ∅ ∧ nservers ts = n.
Proof.
  destruct (MakeConfig_ok rand k n reliable now) as (c & sg & Heq & Hok & Hc & Hg & _).
  pose proof (start_rinv rand k n reliable now c Heq) as [_ Hm Hfar Hv]. pose proof Heq as Hnm. unfold MakeTest. rewrite Heq. cbn [rbind].
  eexists _, _. split; [done|]. split; [|done].
  assert (∃ sg, grps c !! Gid = Some sg ∧ servernames sg = names n) as Hnames.
  { exists sg. assert (grps c !! Gid = Some sg) as Hl by (rewrite Hg; apply lookup_singleton_eq). split; [done|].
    unfold MakeConfig in Hnm. destruct (Randstring rand _) as [e t].
    apply rbind_Ret_inv in Hnm as (c1 & Hmk & [= Hc1]). pose proof (ShardTest.MakeGroupStart_names rand all_ok GRP0 n _ c1 Hmk) as Hsn.
    unfold ShardTest.SrvNames, lookupGroup in Hsn. assert (grps c1 !! GRP0 = Some sg) as Hl1 by (rewrite <-Hl, <-Hc1; done).
    rewrite Hl1 in Hsn. by injection Hsn. }
  split; simpl; [|exact Hnames|intros p; rewrite !lookup_empty; split; by intros [? ?]|intros p v to s; by rewrite lookup_empty].
  split; simpl; [|done|exact Hfar|exact Hv]. by destruct Hok.
Qed.
End spec.

(** The clerks of a key/value test are where the test put them.  After MakeTest and any
    sequence of making clerks (for all servers, or for some), deleting them, connecting
    them, killing and restarting all servers, and calls of the clerks: every further such
    step returns; the clients that exist are those of the clerks that were made and not
    deleted; a clerk made by MakeClerkTo reaches exactly the servers it was made for, until
    ConnectClnts, and every other clerk all of them, whatever the servers went through; and
    killing and restarting all servers brings every server back with the state it had, and
    connected to all others. *)
Theorem clerks_confined {K} rand `{!Inj (=) (=) rand} (lab_clerk : nat → list string → K)
    k part nclients n reliable crash partitions maxraftstate randomkeys now now' line ts0 os ts :
  MakeTest rand all_ok k part nclients n reliable crash partitions maxraftstate randomkeys now now' = Ret (line, ts0) →
  runs rand all_ok lab_clerk os ts0 ts →
  (∀ o, valid o ts → ∃ ts', run rand all_ok lab_clerk o ts = Ret ts') ∧
  (∀ p, is_Some (client p (cfg ts)) ↔ is_Some (foldl confine ∅ os !! p)) ∧
  (∀ p c to s, client p (cfg ts) = Some c → foldl confine ∅ os !! p = Some to →
     Clnts.reach c (tst (cfg ts)) s = allows to s) ∧
  ∃ sg ts1 ts2 sg', grps (cfg ts) !! Gid = Some sg ∧ killall all_ok ts = Ret ts1 ∧ restartall rand all_ok ts1 = Ret ts2 ∧
    grps (cfg ts2) !! Gid = Some sg' ∧ ∀ a s, 0 ≤ a → srvs sg !! Z.to_nat a = Some s →
      (dc <$> srvs sg' !! Z.to_nat a) = Some (Some (Some (image_of s))) ∧ is_conn sg' a ∧
      ∀ b, member sg b → linked sg' (tst (cfg ts2)) a b = true.
Proof.
  intros Hmk Hrs. destruct (MakeTest_kinv rand k part nclients n reliable crash partitions maxraftstate randomkeys now now')
    as (line1 & ts1 & Heq & Hk0 & Hn0).
  rewrite Hmk in Heq. injection Heq as <- <-. destruct (runs_kinv rand lab_clerk os ts0 ts ∅ ∅ Hrs Hk0) as (vs & Hk & _).
  pose proof Hk as [Hri (sg & Hg & _) Hd Hv]. split_and!.
  - intros o Ho. destruct (run_kinv rand lab_clerk o ts vs _ Hk Ho) as (ts' & _ & ? & _). by exists ts'.
  - intros p. rewrite <-Hd. by eapply rinv_dom.
  - intros p c to s Hp Hm. pose proof (ri_view _ _ _ Hri p) as Hvp. rewrite Hp in Hvp.
    destruct (vs !! p) as [v|] eqn:Hvs; [|done]. destruct Hvp as [_ ->]. by apply (Hv p).
  - set (im := λ a, default no_image (image_of <$> srvs sg !! Z.to_nat a)). pose proof (ri_ok _ _ _ Hri) as Hok.
    destruct (shutdown_grp rand Gid im (cfg ts) sg Hok Hg) as (c1 & sg1 & Hsh & Hok1 & _ & Hg1 & HN1 & Hoff).
    { intros j s _ Hl. simpl in Hl. unfold im. by rewrite Hl. }
    destruct (start_grp rand Gid im c1 sg1 Hok1 Hg1 Hoff) as (c2 & sg2 & Hst & _ & _ & Hg2 & _ & Hup).
    exists sg, (set_cfg c1 ts), (set_cfg c2 (set_cfg c1 ts)), sg2. unfold killall, restartall. rewrite Hsh. simpl. rewrite Hst.
    split_and!; [done..|]. intros a s Ha Hl.
    assert (∀ b, member sg1 b ↔ member sg b) as Hmem by (intros b; unfold member; by rewrite HN1).
    destruct (Hup a) as ((Hdc & _) & Hcn & Hlk).
    { apply Hmem. apply lookup_lt_Some in Hl. unfold member, N. lia. }
    split_and!; [|done|intros b Hb; by apply Hlk, Hmem]. simpl in Hdc. rewrite Hdc. unfold im. by rewrite Hl.
Qed.

(** *** A witness: a clerk for one server of three, while all servers die and come back *)

Definition kv_clerk (p : nat) (servers : list string) : nat := p.
Definition kv_ops : list (op nat) :=
  [KMakeClerkTo 5 [1]; KMakeClerk 6; KCall 5 "server-0-1"; KKillall; KRestartall; KDeleteClerk (MkTestClerk 6%nat 6)].
Definition kv_end : res Test :=
  let* '(_, ts) := MakeTest decimal all_ok 0 "4B" 2 3 true true false (-1) false 0 0 in
  res_fold (λ ts o, run decimal all_ok kv_clerk o ts) ts kv_ops.

Fixpoint kv_valid_all (os : list (op nat)) ts : bool :=
  match os with
  | [] => true
  | o :: os => bool_decide (valid o ts) &&
      match run decimal all_ok kv_clerk o ts with Ret ts => kv_valid_all os ts | Stop _ => false end
  end.
Lemma kv_runs_fold os ts ts' :
  kv_valid_all os ts = true → res_fold (λ ts o, run decimal all_ok kv_clerk o ts) ts os = Ret ts' →
  runs decimal all_ok kv_clerk os ts ts'.
Proof.
  revert ts. induction os as [|o os IH]; intros ts; simpl; [intros _ [= ->]; constructor|].
  intros [Hv%bool_decide_eq_true Hr]%andb_prop. destruct (run decimal all_ok kv_clerk o ts) as [ts1|] eqn:Ho; [|done].
  cbn [rbind]. intros Heq. econstructor; [done|done|]. by apply IH.
Qed.

Definition kv_start : res (string * Test) := MakeTest decimal all_ok 0 "4B" 2 3 true true false (-1) false 0 0.

Lemma clerks_confined_witness :
  ∃ ts c, kv_end = Ret ts ∧ client 5 (cfg ts) = Some c ∧ client 6 (cfg ts) = None ∧
    Clnts.reach c (tst (cfg ts)) "server-0-1" = true ∧ Clnts.reach c (tst (cfg ts)) "server-0-0" = false.
Proof.
  destruct kv_start as [[line ts0]|] eqn:Hmk; [|vm_compute in Hmk; discriminate].
  destruct (res_fold (λ ts o, run decimal all_ok kv_clerk o ts) ts0 kv_ops) as [ts|] eqn:Hfold.
  2:{ exfalso. assert (match kv_start with Ret (_, ts0) => match res_fold (λ ts o, run decimal all_ok kv_clerk o ts) ts0 kv_ops with
        Ret _ => True | Stop _ => False end | Stop _ => False end) as Hx by (vm_compute; exact I).
      rewrite Hmk, Hfold in Hx. exact Hx. }
  assert (kv_valid_all kv_ops ts0 = true) as Hv.
  { assert (match kv_start with Ret (_, ts0) => kv_valid_all kv_ops ts0 | Stop _ => false end = true) as Hx by (vm_compute; reflexivity).
    rewrite Hmk in Hx. exact Hx. }
  destruct (clerks_confined decimal kv_clerk 0 "4B" 2 3 true true false (-1) false 0 0 line ts0 kv_ops ts Hmk
    (kv_runs_fold kv_ops ts0 ts Hv Hfold)) as (_ & Hex & Hre & _).
  assert (foldl confine ∅ kv_ops !! 5%nat = Some (Some ["server-0-1"]) ∧ foldl confine ∅ kv_ops !! 6%nat = None) as [H5 H6]
    by (split; vm_compute; reflexivity).
  destruct (proj2 (Hex 5%nat)) as [c Hc]; [rewrite H5; by eexists|].
  exists ts, c. split_and!; [unfold kv_end; change (MakeTest _ _ _ _ _ _ _ _ _ _ _ _ _) with kv_start; rewrite Hmk; exact Hfold|exact Hc| | |].
  - destruct (client 6 (cfg ts)) eqn:H6'; [|reflexivity]. destruct (proj1 (Hex 6%nat)) as [? Hx]; [rewrite H6'; by eexists|].
    rewrite H6 in Hx. discriminate.
  - rewrite (Hre 5%nat c _ "server-0-1" Hc H5). reflexivity.
  - rewrite (Hre 5%nat c _ "server-0-0" Hc H5). reflexivity.
Defined.
