(* ===== verification/Cmds.v ===== *)
(** * The command-line programs (main)

    A program is a function of its arguments (with its own name first, as os.Args): the
    call it makes, or the exit status after a line on how to use it.  The packages
    lockservice, pbservice, viewservice and diskv that some of them call are not in the
    repository: the result is the call.  What the servers do after they have started
    (sleep, until they are killed) is not modelled. *)

From stdpp Require Import pretty.
From Stdlib Require Import Strings.Ascii.
From S2P Require Import Prelude LabRpc Persister Clnts Daemon DaemonSpec Proxy RaftLab KvSrvLab KvRaftLab ShardLab.
Import Daemon.

Local Open Scope Z_scope.

Module Cmds.

(** Calls and exits. *)
Inductive outcome A := Exit (status : Z) | Calls (a : A).
Arguments Exit {A}.
Arguments Calls {A}.

(** ** diskvd *)

(** strconv.ParseInt(s, 10, 64) and strconv.Atoi, when the error is ignored: 0 for what is
    not a number, the nearest value for what is out of range. *)
Definition ParseInt (s : string) : Z :=
  match signed s with
  | Some z => if decide (z < - two63) then - two63 else if decide (two63 <= z) then two63 - 1 else z
  | None => 0
  end.
(** strconv.ParseBool, when the error is ignored. *)
Definition ParseBool (s : string) : bool :=
  bool_decide (s ∈ ["1"; "t"; "T"; "TRUE"; "true"; "True"]).

Record Diskvd := MkDiskvd {
  gid : Z; masters : list string; replicas : list string; me : Z; unreliable : bool; dir : string; restart : bool }.

Definition diskvd_defaults : Diskvd := MkDiskvd (-1) [] [] (-1) false "" false.

(** One pair of arguments; [None] is the call of usage, which exits. *)
Definition diskvd_option (a0 a1 : string) (d : Diskvd) : option Diskvd :=
  if decide (a0 = "-g") then Some (MkDiskvd (ParseInt a1) (masters d) (replicas d) (me d) (unreliable d) (dir d) (restart d))
  else if decide (a0 = "-m") then Some (MkDiskvd (gid d) (masters d ++ [a1]) (replicas d) (me d) (unreliable d) (dir d) (restart d))
  else if decide (a0 = "-s") then Some (MkDiskvd (gid d) (masters d) (replicas d ++ [a1]) (me d) (unreliable d) (dir d) (restart d))
  else if decide (a0 = "-i") then Some (MkDiskvd (gid d) (masters d) (replicas d) (ParseInt a1) (unreliable d) (dir d) (restart d))
  else if decide (a0 = "-u") then Some (MkDiskvd (gid d) (masters d) (replicas d) (me d) (ParseBool a1) (dir d) (restart d))
  else if decide (a0 = "-d") then Some (MkDiskvd (gid d) (masters d) (replicas d) (me d) (unreliable d) a1 (restart d))
  else if decide (a0 = "-r") then Some (MkDiskvd (gid d) (masters d) (replicas d) (me d) (unreliable d) (dir d) (ParseBool a1))
  else None.

(** The loop takes the arguments by twos: one that is left over is not looked at. *)
Fixpoint diskvd_loop (args : list string) (d : Diskvd) : option Diskvd :=
  match args with
  | a0 :: a1 :: args => match diskvd_option a0 a1 d with Some d => diskvd_loop args d | None => None end
  | _ => Some d
  end.

Definition diskvd_bad (d : Diskvd) : bool :=
  bool_decide (gid d < 0 ∨ me d < 0 ∨ Z.of_nat (length (masters d)) < 1 ∨ me d >= Z.of_nat (length (replicas d)) ∨ dir d = "").

Definition diskvd (args : list string) : outcome Diskvd :=
  match diskvd_loop (drop 1 args) diskvd_defaults with
  | None => Exit 1
  | Some d => if diskvd_bad d then Exit 1 else Calls d
  end.

(** ** The clients and servers of other packages *)

Inductive lock_call := Lock (primary backup name : string) | Unlock (primary backup name : string).
Definition lockc (args : list string) : outcome lock_call :=
  match args with
  | [_; a1; a2; a3; a4] =>
      if decide (a1 = "-l") then Calls (Lock a2 a3 a4) else if decide (a1 = "-u") then Calls (Unlock a2 a3 a4) else Exit 1
  | _ => Exit 1
  end.

(** StartServer(primary, backup, am_primary) *)
Definition lockd (args : list string) : outcome (string * string * bool) :=
  match args with
  | [_; a1; a2; a3] =>
      if decide (a1 = "-p") then Calls (a2, a3, true) else if decide (a1 = "-b") then Calls (a2, a3, false) else Exit 1
  | _ => Exit 1
  end.

Inductive pb_call := PbGet (view key : string) | PbPut (view key value : string).
Definition pbc (args : list string) : outcome pb_call :=
  match args with
  | [_; a1; a2] => Calls (PbGet a1 a2)
  | [_; a1; a2; a3] => Calls (PbPut a1 a2 a3)
  | _ => Exit 1
  end.
Definition pbd (args : list string) : outcome (string * string) :=
  match args with [_; a1; a2] => Calls (a1, a2) | _ => Exit 1 end.
Definition viewd (args : list string) : outcome string :=
  match args with [_; a1] => Calls a1 | _ => Exit 1 end.

(** ** The daemons

    InitDaemon, when the Init RPC has brought the persister [p] in the store [s]: what the
    function that makes the server is called with. *)
Definition daemon_main {Svc} (mks : list string → Z → Z → Persister.Persister → Persister.store → Svc)
    (p : Persister.Persister) (s : Persister.store) (args : list string) : res (outcome Svc) :=
  let* d := parse_args (drop 1 args) in
  Ret (match d with
       | None => Exit 1
       | Some d => Calls (mks (a_ends d) (a_gid d) (a_sid d) p s)
       end).

Section daemons.
Context (useRSM : bool) (maxraftstate : Z) (p : Persister.Persister) (s : Persister.store).

(** NewRfsrv is the part of raft1/server.go in RaftRestart.v, around the student's Raft. *)
Definition raft1d {Svc} (NewRfsrv : list string → Z → Z → Persister.Persister → Persister.store → Svc) :=
  daemon_main NewRfsrv p s.
Definition kvsrv1d := daemon_main (λ _ _ _ _ _, KvSrvLab.StartKVServer) p s.
(** NewRSMSrv: the server, around the RSM that MakeRSM makes. *)
Definition NewRSMSrv (ends : list string) (grp srv : Z) (p : Persister.Persister) (s : Persister.store) :
    Proxy.rsmSrv RsmLab.RSM * option RaftLab.Raft * Persister.store :=
  let (rsm, s) := RsmLab.MakeRSM useRSM ends srv p maxraftstate s in
  (Proxy.newRSMSrv rsm, RsmLab.Raft rsm, s).
Definition rsm1d := daemon_main NewRSMSrv p s.
Definition kvraft1d := daemon_main (KvRaftLab.NewServer useRSM maxraftstate) p s.
Definition shardgrp1d := daemon_main (ShardLab.NewServer useRSM maxraftstate) p s.
End daemons.

(** ** Properties *)

Definition bool_arg (b : bool) : string := if b then "true" else "false".

(** A command line for diskvd. *)
Definition diskvd_args (d : Diskvd) : list string :=
  ["-g"; Itoa (gid d)] ++ (masters d ≫= λ m, ["-m"; m]) ++ (replicas d ≫= λ r, ["-s"; r]) ++
  ["-i"; Itoa (me d); "-u"; bool_arg (unreliable d); "-d"; dir d; "-r"; bool_arg (restart d)].

Lemma ParseInt_Itoa z : - two63 <= z < two63 → ParseInt (Itoa z) = z.
Proof.
  intros Hz. unfold ParseInt. pose proof (Atoi_Itoa z) as Ha. unfold Atoi in Ha. unfold two63 in *.
  destruct (signed (Itoa z)) as [y|]; [|by specialize (Ha Hz)]. specialize (Ha Hz).
  case_decide as Hy; [|done]. injection Ha as ->. by rewrite !decide_False by lia.
Qed.

Lemma ParseBool_arg b : ParseBool (bool_arg b) = b.
Proof. by destruct b. Qed.

Lemma diskvd_loop_app xs ys d :
  Nat.Even (length xs) → diskvd_loop (xs ++ ys) d = diskvd_loop xs d ≫= diskvd_loop ys.
Proof.
  intros [k Hk]. revert xs d Hk. induction k as [|k IH]; intros [|a0 [|a1 xs]] d Hk; simplify_eq/=; [done|lia|].
  destruct (diskvd_option a0 a1 d); [|done]. simpl. apply IH. lia.
Qed.

Lemma diskvd_masters l d :
  diskvd_loop (l ≫= λ m, ["-m"; m]) d =
    Some (MkDiskvd (gid d) (masters d ++ l) (replicas d) (me d) (unreliable d) (dir d) (restart d)).
Proof.
  revert d. induction l as [|m l IH]; intros d; simpl; [rewrite (right_id_L [] (++)); by destruct d|].
  rewrite IH. simpl. by rewrite <-(assoc_L (++)).
Qed.
Lemma diskvd_replicas l d :
  diskvd_loop (l ≫= λ r, ["-s"; r]) d =
    Some (MkDiskvd (gid d) (masters d) (replicas d ++ l) (me d) (unreliable d) (dir d) (restart d)).
Proof.
  revert d. induction l as [|m l IH]; intros d; simpl; [rewrite (right_id_L [] (++)); by destruct d|].
  rewrite IH. simpl. by rewrite <-(assoc_L (++)).
Qed.
Lemma pairs_even (f : string) l : Nat.Even (length (l ≫= λ m : string, [f; m])).
Proof. induction l as [|m l [k Hk]]; [by exists 0%nat|]. exists (S k). cbn [mbind list_bind app length] in *. rewrite Hk. lia. Qed.

(** The options of a server that can be started. *)
Definition diskvd_fits (d : Diskvd) : Prop :=
  0 <= gid d < two63 ∧ 0 <= me d < Z.of_nat (length (replicas d)) ∧ me d < two63 ∧ masters d ≠ [] ∧ dir d ≠ "".

Lemma diskvd_bad_iff d : diskvd_bad d = false ↔
  0 <= gid d ∧ 0 <= me d < Z.of_nat (length (replicas d)) ∧ masters d ≠ [] ∧ dir d ≠ "".
Proof.
  unfold diskvd_bad. rewrite bool_decide_eq_false. assert (masters d ≠ [] ↔ 1 <= Z.of_nat (length (masters d))) as ->.
  { destruct (masters d); simpl; [split; [done|lia]|split; [lia|done]]. }
  split; [intros Hn; split_and!; try lia; intros ?; apply Hn; tauto|]. intros (? & ? & ? & ?) Hn.
  decompose [or] Hn; try lia; done.
Qed.
End Cmds.
Import Cmds.

(** The command line of diskvd is read back as it was written, and only sensible options
    start a server.  A command line with the options [d], which gives every master and
    replica, starts the server with exactly these options, also with one more argument at
    the end, which is ignored.  And whatever the arguments are, if diskvd starts a server,
    its group number and index are not negative, the index is that of one of the
    replicas, and there is a master and a directory. *)
Theorem diskvd_roundtrip (d : Diskvd) prog :
  diskvd_fits d →
  diskvd (prog :: diskvd_args d) = Calls d ∧ (∀ x, diskvd (prog :: diskvd_args d ++ [x]) = Calls d) ∧
  ∀ args d', diskvd args = Calls d' →
    0 <= gid d' ∧ 0 <= me d' < Z.of_nat (length (replicas d')) ∧ masters d' ≠ [] ∧ dir d' ≠ "".
Proof.
  intros (Hg & Hm & Hm63 & Hma & Hd).
  assert (∀ rest, diskvd_loop (diskvd_args d ++ rest) diskvd_defaults = diskvd_loop rest d) as Hloop.
  { intros rest. unfold diskvd_args. rewrite <-!(assoc_L (++)). rewrite diskvd_loop_app by by exists 1%nat.
    change (diskvd_loop ["-g"; Itoa (gid d)] diskvd_defaults)
      with (Some (MkDiskvd (ParseInt (Itoa (gid d))) [] [] (-1) false "" false)).
    rewrite ParseInt_Itoa by (unfold two63 in *; lia). cbn [mbind option_bind].
    rewrite diskvd_loop_app by apply pairs_even. rewrite diskvd_masters. cbn [mbind option_bind].
    rewrite diskvd_loop_app by apply pairs_even. rewrite diskvd_replicas. cbn [mbind option_bind].
    cbn [gid masters replicas me unreliable dir restart].
    change (diskvd_loop (_ ++ rest) _) with (diskvd_loop rest (MkDiskvd (gid d) (masters d) (replicas d) (ParseInt (Itoa (me d)))
      (ParseBool (bool_arg (unreliable d))) (dir d) (ParseBool (bool_arg (restart d))))).
    rewrite ParseInt_Itoa by (unfold two63 in *; lia). rewrite !ParseBool_arg. by destruct d. }
  assert (diskvd_bad d = false) as Hbad by (apply diskvd_bad_iff; split_and!; try done; lia).
  split_and!.
  - unfold diskvd. change (drop 1 (prog :: diskvd_args d)) with (diskvd_args d).
    rewrite <-(app_nil_r (diskvd_args d)), Hloop. cbn [diskvd_loop]. by rewrite Hbad.
  - intros x. unfold diskvd. change (drop 1 (prog :: diskvd_args d ++ [x])) with (diskvd_args d ++ [x]).
    rewrite Hloop. cbn [diskvd_loop]. by rewrite Hbad.
  - intros args d'. unfold diskvd. destruct (diskvd_loop _ _) as [d0|]; [|done].
    destruct (diskvd_bad d0) eqn:Hb; [done|]. intros [= ->]. by apply diskvd_bad_iff.
Qed.

Lemma diskvd_roundtrip_witness :
  diskvd ["diskvd"; "-g"; "100"; "-m"; "m0"; "-s"; "s0"; "-s"; "s1"; "-i"; "1"; "-u"; "true"; "-d"; "/tmp/d"; "-r"; "false"] =
    Calls (MkDiskvd 100 ["m0"] ["s0"; "s1"] 1 true "/tmp/d" false).
Proof.
  destruct (diskvd_roundtrip (MkDiskvd 100 ["m0"] ["s0"; "s1"] 1 true "/tmp/d" false) "diskvd") as [H _].
  - split_and!; simpl; try discriminate; unfold two63; lia.
  - exact H.
Defined.

(** An argument that is not a number is taken as 0: the errors of ParseInt and Atoi are
    ignored. *)
Lemma diskvd_ignores_errors :
  diskvd ["diskvd"; "-g"; "x"; "-m"; "m0"; "-s"; "s0"; "-i"; "y"; "-d"; "/tmp/d"] =
    Calls (MkDiskvd 0 ["m0"] ["s0"] 0 false "/tmp/d" false).
Proof. vm_compute. reflexivity. Qed.

(** A daemon that gets the arguments that runDaemon makes serves the right server of the
    right group. *)
Lemma daemon_serves (useRSM : bool) maxraftstate p s prog gid srv testerEnd endNames opts :
  Forall is_option opts → 0 <= gid < two63 → Z.of_nat (length endNames) < two63 →
  0 <= srv < Z.of_nat (length endNames) →
  kvraft1d useRSM maxraftstate p s (prog :: daemon_args opts useRSM gid srv testerEnd endNames) =
    Ret (Calls (KvRaftLab.NewServer useRSM maxraftstate endNames gid srv p s)).
Proof.
  intros Ho Hg Hn Hs. destruct (lookup_lt_is_Some_2 endNames (Z.to_nat srv)) as [me Hme]; [lia|].
  unfold kvraft1d, daemon_main. rewrite skipn_cons, drop_0. by rewrite (daemon_args_roundtrip _ _ _ _ _ _ me) by (done || lia).
Qed.
